(* ===== verification/_CoqProject ===== *)
-Q . S2P
Prelude.v
PyStr.v
PyFloat.v
Json.v
JsonParse.v
SafePath.v
Sha256.v
Fnmatch.v
Config.v
Authz.v
Policy.v
Scrub.v
Printing.v
Canonical.v
Mutation.v
Params.v
Dispatch.v
ExecApprovals.v
UnifiedDiff.v
JsonFlat.v
PyInt.v
Base64.v
SafeFd.v
BackupStore.v
Handler.v
Sha1.v
Trash.v
FsWrite.v
FsPatch.v
FsMoveDelete.v
FsRead.v
Turn.v
RelayText.v
PyCase.v
Relay.v
RelayTurn.v
RelayEvents.v
RelayStream.v
RelayRegistry.v
Invoke.v
Pairing.v
PrivateFiles.v
Identity.v
NodeConfig.v
Connection.v
SystemRun.v
Vision.v
HttpApi.v
Startup.v
UrlQuote.v
HaClient.v
HaCommands.v
HaEffects.v
HaAnswers.v
HaConfig.v
Assist.v
Setup.v
Images.v
