(* ===== verification/Prelude.v ===== *)
(** * The OpenClaw node for Home Assistant: a verified model

    The program is a Python process (the node, [src/app/node/src/openclaw_node/])
    that connects a Home Assistant installation to a remote gateway, and an
    integration inside Home Assistant ([src/custom_components/
    openclaw_hass_node_assist/]) that talks to the node.  The gateway sends
    commands ([node.invoke.request]); the node decides who is calling, whether
    the caller may, whether a human has approved, and then reads or changes
    files, processes and Home Assistant.  In the other direction a sentence
    spoken to Assist, or an image, goes from the integration over the node's
    local HTTP API and its relay to the gateway, and the answer comes back as
    a stream.  The development translates the Python code, function by function
    and with the names of the source, into executable definitions, and proves
    what each part promises and what holds of the parts together.

    ** The parts

    Python itself: [PyStr] (str), [PyInt], [PyFloat], [PyCase] (case tables),
    [Json], [JsonParse], [JsonFlat] and [Printing] (values, [json.loads],
    [json.dumps], round trips), [Fnmatch], [Base64], [UrlQuote], [Sha1], [Sha256].

    Who may do what ([authz.py], [caller.py], [effect_policy.py],
    [approval_policy.py], [commands/config_mutation.py]): [Config] (identity
    options), [Authz] (roles, tables, [is_forbidden]), [Policy] (the gate [check]),
    [Scrub] (lock and alarm codes), [Canonical] and [Mutation] (what an approval
    binds, and that it is used once), [Turn] (the signed actor of an Assist turn),
    [Params] and [Dispatch] ([commands/dispatcher.py], [params.py], [ping.py],
    [system.py]).  Every command of the gateway passes [Dispatch.dispatch_async],
    whose first step is [Policy.check].

    Files ([safe_path.py], [safe_fd.py], [backup_store.py], [commands/fs*.py]):
    [SafePath] (resolution under allowed roots), [SafeFd] (descriptors below a
    root, atomic replacement), [BackupStore] (objects and logs), [Handler] (the
    monad of the handlers), [UnifiedDiff] and [FsPatch], [FsWrite], [Trash] and
    [FsMoveDelete], [FsRead].  One disk, which maps locations to files,
    directories and symbolic links, runs through them, with an oracle that makes
    any system call fail.

    Processes ([commands/exec_approvals.py], [commands/system_run.py]):
    [ExecApprovals] (plans and the policy document), [SystemRun].

    Home Assistant ([ha_client.py], [commands/ha.py], [commands/ha_config_*.py]):
    [HaClient] (tokens, requests, web sockets, bounds), [HaCommands] (every
    handler), [HaEffects] (what they ask of Home Assistant), [HaAnswers] (what
    they answer), [HaConfig].  A handler runs over the history of the requests
    made so far; the answers are a parameter over that history.

    The gateway ([gateway_ws.py], [pairing.py], [identity.py], [token_store.py],
    [config.py], [__main__.py]): [Pairing], [PrivateFiles], [Identity],
    [NodeConfig], [Invoke] (one command and its one answer), [Connection] (the
    handshake, the loop and the reconnection against the list of what arrives),
    [Startup].

    The relay and the API ([chat_relay.py], [vision.py], [http_api.py]):
    [RelayText], [Relay] (the state, a heap of shared queues), [RelayTurn] (turns cut at
    their awaits), [RelayEvents], [RelayStream], [RelayRegistry], [Vision],
    [HttpApi].

    The integration ([conversation.py], [config_flow.py], [vision.py] under
    [custom_components/]): [Assist], [Setup], [Images].

    ** The groups of theorems

    - Authorization: the gate refines the declared policy
      ([Policy.check_refines_policy]); no caller but the operator reaches a
      service outside the table by [ha.call_service], through the dispatcher to
      the request ([HaEffects.turns_call_allowed_services_only]; the commands that
      reach one fixed service of their own are not in its scope); a marker
      authorizes one call ([Mutation.marker_single_use]) and binds its parameters,
      numbers as far as binary64 tells them apart ([Canonical.approval_bind_binds]); a process is the approved one
      ([SystemRun.run_is_approved]), and a plan that was prepared passes
      ([SystemRun.prepared_plan_runs]); configuration changes and add-on actions
      wait for approval ([HaConfig.config_changes_need_approval],
      [HaEffects.lifecycle_stays_with_its_addon]); the speaker of a turn is bound by
      his signature ([Turn.signed_actor_is_bound]) and is a person
      ([Assist.node_knows_only_people]).
    - Secrets: codes do not leave the dispatcher as texts, nor numeric ones as
      numbers ([Dispatch.dispatch_leaks_no_code]); the client of Home Assistant
      sends the Supervisor's token to the Supervisor only
      ([HaClient.supervisor_token_stays_home]; the snapshot of the local API has a
      request of its own and is not covered); the local token is announced once,
      handed over and demanded ([HttpApi]); what the setup comes to is that token
      ([Setup.setup_token_opens_the_node]).
    - Files: an accepted path is opened and no other ([SafeFd]), the two ways of
      opening agree; the outcome of each file command on every branch
      ([FsWrite.write_outcome], [FsMoveDelete.move_outcome], [FsRead.glob_outcome],
      [FsPatch.patch_outcome]); patches and restores undo what they should
      ([UnifiedDiff.diff_applies], [FsWrite.write_then_restore]); replacement of
      documents is all or nothing.
    - The connection: no command before acceptance, pending commands in order,
      every failure survived ([Connection]); a command speaks for its caller
      ([Invoke]); starts are stable and resets happen once ([Startup]).
    - The relay: an answer is that of its own turn while no other turn shares its
      canonical session, and its loop ends ([RelayStream]); what the node streams is
      what the integration says, but for an error with an empty code
      ([Assist.what_is_streamed_is_said], [Assist.empty_code_passes_as_success]); of the requests for one image source the
      newest goes on ([Vision]), no image of the integration is refused for its
      form ([Images.image_is_taken]) and its outcome reaches the caller
      ([Images.outcome_reaches_the_caller]).
    - Round trips and bounds of what is written and read: JSON, base64, URLs, logs,
      the configuration, bodies cut at a limit.

    ** Interfaces

    What the code does not define is an argument: classes with the operations and,
    where the code relies on more, their laws.  [Unicode], [Casing] and [Categories]
    (tables), [WideText] (UTF-16 and UTF-32), [Os] (failing calls, short writes),
    [Gateway] (clocks, send failures, identifiers), [Ed25519], [Aiohttp] (the HTTP
    client), [ChatLog] with [ChatLogLaws], [Netlocs], [JsonWriter] with
    [JsonWriterLaws], [House] (cameras, media, files, Pillow), and [Web], by which
    the setup runs over any network: [Setup] gives it the node itself, behind a
    network that loses requests and answers.  Each class has a concrete instance
    that the witnesses use.  SHA-256 is defined; that two texts have one digest is
    always a possible outcome of a theorem and never excluded.

    ** Bounds and fuel

    Python recursion and loops over texts are structural where the source's are,
    and otherwise run on fuel computed from the input: the length of a text for
    [json.loads] (with [JsonParse.loads_dumps] that it is enough to read back what was written),
    [replace] and the digits of a number; the number of hunks for a patch; the
    size of a value for the shape check of parameters; the number of nodes of the
    disk for [fs.glob] ([FsRead.glob_terminates]) and for the resolution of links,
    with the limit of the operating system.  A read loop has the number of bytes
    asked for.  Integers are unbounded as in Python; digests and machine words are
    reduced; times are integers in microseconds, and floats exact binary fractions.

    ** Not modelled

    - Logging, and what only serves it (the warnings given once, the inventory of
      agents); metrics of a run.
    - Python's limits on recursion and memory.
    - Permission bits and owners of files; the descriptors of the lock file of
      the approval document (the locked section is one step); descriptors that
      leak; read faults of the metadata file of the backup store, whose
      directories are state of their own and not files of the disk.
    - Tasks that run at the same time, beyond the steps between the awaits of the
      relay, of the image requests and of a connection: reads of Home Assistant
      that run together are made one after the other, and requests of the local
      API come in order.  The task group of the process and its signals.
    - The parsing of HTTP requests and the HTTP client itself (redirects, pools,
      the normal form of URLs), binary frames of a web socket.
    - The processes that [system.run] starts: when they end and what they write is
      a parameter.
    - Home Assistant: forms and their schemas, the loading of the integration, the chat
      log beyond its laws.
    - The gateway plugin (TypeScript), which runs in the gateway; the scripts of
      the repository, which write its documentation and releases; the tests. *)

From stdpp Require Import base list strings gmap sorting.
From Stdlib Require Import Strings.Byte NArith ZArith Lia.

(** ** Python strings

    A Python [str] is a sequence of Unicode code points, lone surrogates
    included, so a string is a list of [N].  A literal in scope [py] denotes
    the list of its code points (literals are ASCII). *)

Abbreviation pystr := (list N).

Inductive lit : Set :=
| Lnil
| Lcons (n : N) (r : lit).

Fixpoint lit_parse (l : list Byte.byte) : lit :=
  match l with
  | [] => Lnil
  | b :: l => Lcons (Byte.to_N b) (lit_parse l)
  end.

Fixpoint lit_print (l : lit) : option (list Byte.byte) :=
  match l with
  | Lnil => Some []
  | Lcons n r =>
      match Byte.of_N n, lit_print r with
      | Some b, Some r => Some (b :: r)
      | _, _ => None
      end
  end.

Declare Scope py_scope.
Delimit Scope py_scope with py.
#[warnings="-via-type-mismatch"]
String Notation list lit_parse lit_print
  (via lit mapping [[nil] => Lnil, [cons] => Lcons]) : py_scope.
#[global] Open Scope py_scope.

(** The double quote and the backslash, which a literal cannot hold. *)
Abbreviation DQ := 34%N (only parsing).
Abbreviation BS := 92%N (only parsing).
Abbreviation NL := 10%N (only parsing).

(** ** Exceptions

    [Raise e] is the outcome of a call that raises; [exn_type] is the class
    name of the exception, [exn_msg] its text. *)

Record exn := Exn { exn_type : pystr; exn_msg : pystr }.

Inductive res (A : Type) : Type :=
| Ret (a : A)
| Raise (e : exn).
Arguments Ret {A} a.
Arguments Raise {A} e.

Definition rbind {A B} (m : res A) (f : A → res B) : res B :=
  match m with Ret a => f a | Raise e => Raise e end.

Declare Scope res_scope.
Delimit Scope res_scope with res.
Notation "'let?' x ':=' m 'in' k" := (rbind m (λ x, k))
  (at level 10, x pattern, m at level 100, k at level 200) : res_scope.
#[global] Open Scope res_scope.

#[global] Instance exn_eq_dec : EqDecision exn.
Proof. solve_decision. Defined.
#[global] Instance res_eq_dec {A} `{EqDecision A} : EqDecision (res A).
Proof. solve_decision. Defined.

Lemma rbind_Ret {A B} (m : res A) (f : A → res B) b :
  rbind m f = Ret b ↔ ∃ a, m = Ret a ∧ f a = Ret b.
Proof. destruct m; simpl; naive_solver. Qed.

(** ** Tactics and hints shared by the development *)

Create HintDb py.

(** [dm] splits on the innermost scrutinee of the goal or of a hypothesis. *)
Ltac dm_step :=
  match goal with
  | |- context [match ?x with _ => _ end] =>
      lazymatch x with
      | context [match _ with _ => _ end] => fail
      | _ => destruct x eqn:?
      end
  end.
Ltac dm_in H :=
  match type of H with
  | context [match ?x with _ => _ end] =>
      lazymatch x with
      | context [match _ with _ => _ end] => fail
      | _ => destruct x eqn:?
      end
  end.
Ltac dm := repeat (dm_step; simplify_eq/=).
(** Boolean facts in the context become propositions. *)
Ltac bprop :=
  repeat match goal with
  | H : _ && _ = true |- _ => apply andb_true_iff in H; destruct H
  | H : _ || _ = false |- _ => apply orb_false_iff in H; destruct H
  | H : negb _ = true |- _ => apply negb_true_iff in H
  | H : negb _ = false |- _ => apply negb_false_iff in H
  | H : bool_decide _ = true |- _ => apply bool_decide_eq_true_1 in H
  | H : bool_decide _ = false |- _ => apply bool_decide_eq_false_1 in H
  | H : N.leb _ _ = true |- _ => apply N.leb_le in H
  | H : N.leb _ _ = false |- _ => apply N.leb_gt in H
  | H : N.ltb _ _ = true |- _ => apply N.ltb_lt in H
  | H : N.ltb _ _ = false |- _ => apply N.ltb_ge in H
  | H : N.eqb _ _ = true |- _ => apply N.eqb_eq in H
  | H : N.eqb _ _ = false |- _ => apply N.eqb_neq in H
  end.

(** ** Lists *)

Lemma existsb_false_forall {A} (f : A → bool) l :
  existsb f l = false ↔ ∀ x, x ∈ l → f x = false.
Proof.
  induction l as [|a l IH]; simpl; [split; [by intros _ x ?%elem_of_nil|done]|].
  rewrite orb_false_iff, IH. set_solver.
Qed.

Lemma existsb_true_exists {A} (f : A → bool) l :
  existsb f l = true ↔ ∃ x, x ∈ l ∧ f x = true.
Proof.
  rewrite existsb_exists. split; intros (x & Hx & Hf); exists x;
    (split; [by apply list_elem_of_In in Hx || apply list_elem_of_In|done]).
Qed.

Lemma forallb_true_forall {A} (f : A → bool) l :
  forallb f l = true ↔ ∀ x, x ∈ l → f x = true.
Proof.
  rewrite forallb_forall. split; intros H x Hx; apply H;
    by apply list_elem_of_In.
Qed.

Lemma find_Some_elem {A} (f : A → bool) l x :
  List.find f l = Some x → x ∈ l ∧ f x = true.
Proof. intros [? ?]%find_some. by rewrite list_elem_of_In. Qed.
