(* ===== verification/PyStr.v ===== *)
(** Python [str] methods, as the node uses them, on lists of code points:
    searching, splitting, stripping, ordering, decimal and hexadecimal
    numbers, [repr], the string part of [json.dumps], and UTF-8. *)

From S2P Require Import Prelude.
From stdpp Require Import base list gmap sorting.
From Stdlib Require Import NArith ZArith Lia.

(** ** Characters *)

(** [str.isspace] of one character; also the class [\s] of [re]. *)
Definition is_space (c : N) : bool :=
  ((9 <=? c) && (c <=? 13) || (28 <=? c) && (c <=? 32) || (c =? 133)
   || (c =? 160) || (c =? 5760) || (8192 <=? c) && (c <=? 8202)
   || (c =? 8232) || (c =? 8233) || (c =? 8239) || (c =? 8287)
   || (c =? 12288))%N.

Definition is_ascii (c : N) : bool := (c <? 128)%N.
Definition is_surrogate (c : N) : bool := ((55296 <=? c) && (c <=? 57343))%N.
Definition is_digit (c : N) : bool := ((48 <=? c) && (c <=? 57))%N.
Definition is_lower (c : N) : bool := ((97 <=? c) && (c <=? 122))%N.

(** ** Searching and splitting *)

(** [s.startswith(p)] *)
Fixpoint startswith (s p : pystr) : bool :=
  match p, s with
  | [], _ => true
  | a :: p, b :: s => (a =? b)%N && startswith s p
  | _ :: _, [] => false
  end.

Definition endswith (s p : pystr) : bool := startswith (rev s) (rev p).

(** [needle in s] *)
Fixpoint contains (s needle : pystr) : bool :=
  startswith s needle ||
  match s with [] => false | _ :: s' => contains s' needle end.

(** [s.partition(c)] for a one-character separator: the parts before and
    after the first occurrence, the second empty when there is none. *)
Fixpoint partition_at (c : N) (s : pystr) : pystr * pystr :=
  match s with
  | [] => ([], [])
  | x :: s => if (x =? c)%N then ([], s)
              else let '(a, b) := partition_at c s in (x :: a, b)
  end.

(** [s.split(c)] for a one-character separator. *)
Fixpoint split_on (c : N) (s : pystr) : list pystr :=
  match s with
  | [] => [[]]
  | x :: s =>
      if (x =? c)%N then [] :: split_on c s
      else match split_on c s with
           | [] => [[x]]
           | w :: ws => (x :: w) :: ws
           end
  end.

(** [sep.join(ws)] *)
Fixpoint join (sep : pystr) (ws : list pystr) : pystr :=
  match ws with
  | [] => []
  | [w] => w
  | w :: ws => w ++ sep ++ join sep ws
  end.

Fixpoint lstrip (s : pystr) : pystr :=
  match s with
  | [] => []
  | c :: s' => if is_space c then lstrip s' else s
  end.
Definition rstrip (s : pystr) : pystr := rev (lstrip (rev s)).

(** [s.strip()] *)
Definition strip (s : pystr) : pystr := rstrip (lstrip s).

(** [s.replace(c, r)] for a one-character pattern. *)
Definition replace_char (c : N) (r : pystr) (s : pystr) : pystr :=
  concat (map (λ x, if (x =? c)%N then r else [x]) s).

(** ** Order: Python compares strings by code point, lexicographically. *)

Fixpoint str_leb (a b : pystr) : bool :=
  match a, b with
  | [], _ => true
  | _ :: _, [] => false
  | x :: a, y :: b => (x <? y)%N || ((x =? y)%N && str_leb a b)
  end.
Definition str_le (a b : pystr) : Prop := str_leb a b = true.

#[global] Instance str_le_dec : RelDecision str_le.
Proof. intros a b. unfold str_le. apply _. Defined.
#[global] Instance str_le_total : Total str_le.
Proof.
  intros a. unfold str_le. induction a as [|x a IH]; intros [|y b]; simpl; auto.
  destruct (N.ltb_spec x y), (N.ltb_spec y x), (N.eqb_spec x y), (N.eqb_spec y x);
    simpl; auto; lia.
Qed.
#[global] Instance str_le_trans : Transitive str_le.
Proof.
  intros a. unfold str_le. induction a as [|x a IH]; intros [|y b] [|z c]; simpl; auto;
    try discriminate.
  destruct (N.ltb_spec x y), (N.ltb_spec y z), (N.ltb_spec x z),
    (N.eqb_spec x y), (N.eqb_spec y z), (N.eqb_spec x z); simpl; auto; try lia; try discriminate.
  apply IH.
Qed.
#[global] Instance str_le_antisymm : AntiSymm (=) str_le.
Proof.
  intros a. unfold str_le. induction a as [|x a IH]; intros [|y b]; simpl; auto;
    try discriminate.
  destruct (N.ltb_spec x y), (N.ltb_spec y x), (N.eqb_spec x y), (N.eqb_spec y x);
    simpl; try lia; try discriminate.
  intros. f_equal; [done|]. by apply IH.
Qed.

(** [sorted(xs)] for a list of strings. *)
Definition sorted_strs (l : list pystr) : list pystr := merge_sort str_le l.
(** [sorted(s)] for a set of strings. *)
Definition sorted_set (s : gset pystr) : list pystr := sorted_strs (elements s).

Lemma elem_of_sorted_set x s : x ∈ sorted_set s ↔ x ∈ s.
Proof.
  unfold sorted_set, sorted_strs. rewrite (merge_sort_Permutation str_le).
  apply elem_of_elements.
Qed.
#[export] Hint Rewrite elem_of_sorted_set : py.

(** ** Numbers as text *)

Fixpoint digits_fuel (base : N) (fuel : nat) (n : N) (acc : list N) : list N :=
  match fuel with
  | O => acc
  | S f => let acc' := (n mod base)%N :: acc in
           if (n <? base)%N then acc' else digits_fuel base f (n / base)%N acc'
  end.
(** The digits of [n], most significant first; the number of bits of [n]
    bounds the number of digits in any base of at least 2. *)
Definition digits (base n : N) : list N :=
  digits_fuel base (S (N.to_nat (N.size n))) n [].

Definition hex_digit (d : N) : N := (if d <? 10 then 48 + d else 87 + d)%N.
(** [str(n)] of a natural number and of an integer. *)
Definition str_of_N (n : N) : pystr := map (N.add 48) (digits 10 n).
Definition str_of_Z (z : Z) : pystr :=
  if (z <? 0)%Z then 45%N :: str_of_N (Z.abs_N z) else str_of_N (Z.abs_N z).
Definition str_of_nat (n : nat) : pystr := str_of_N (N.of_nat n).
(** [f"{n:0{w}x}"] *)
Definition hex_pad (w : nat) (n : N) : pystr :=
  let h := map hex_digit (digits 16 n) in
  replicate (w - length h) 48%N ++ h.

(** ** Unicode

    [str.isprintable] and the decimal value of a non-ASCII character depend on
    the Unicode database of the interpreter, which is a parameter. *)
Class Unicode := { uni_printable : N → bool; uni_decimal : N → option N }.

(** The value of a decimal digit: [\d] of a pattern, and what [int] reads. *)
Definition decimal_value `{Unicode} (c : N) : option N :=
  if is_ascii c then (if is_digit c then Some (c - 48)%N else None) else uni_decimal c.

(** ** [repr] and [json.dumps] of a string *)

Definition repr_char `{Unicode} (quote c : N) : pystr :=
  (if (c =? quote) || (c =? BS) then [BS; c]
   else if c =? 10 then [BS; 110]
   else if c =? 13 then [BS; 114]
   else if c =? 9 then [BS; 116]
   else if (c <? 32) || (c =? 127) then BS :: 120 :: hex_pad 2 c
   else if c <? 127 then [c]
   else if uni_printable c then [c]
   else if c <? 256 then BS :: 120 :: hex_pad 2 c
   else if c <? 65536 then BS :: 117 :: hex_pad 4 c
   else BS :: 85 :: hex_pad 8 c)%N.
Definition repr_quote (s : pystr) : N :=
  if existsb (N.eqb 39) s && negb (existsb (N.eqb DQ) s) then DQ else 39%N.
(** [repr(s)] *)
Definition repr_str `{Unicode} (s : pystr) : pystr :=
  let q := repr_quote s in
  q :: concat (map (repr_char q) s) ++ [q].

Definition u_escape (c : N) : pystr := BS :: 117%N :: hex_pad 4 c.
(** One character of [json.dumps(s)] (with the default [ensure_ascii]). *)
Definition json_esc_char (c : N) : pystr :=
  (if c =? DQ then [BS; DQ]
   else if c =? BS then [BS; BS]
   else if c =? 8 then [BS; 98]
   else if c =? 12 then [BS; 102]
   else if c =? 10 then [BS; 110]
   else if c =? 13 then [BS; 114]
   else if c =? 9 then [BS; 116]
   else if (32 <=? c) && (c <? 127) then [c]
   else if c <? 65536 then u_escape c
   else u_escape (55296 + (c - 65536) / 1024) ++ u_escape (56320 + (c - 65536) mod 1024))%N.
Definition json_esc (s : pystr) : pystr := concat (map json_esc_char s).
Definition json_dumps_str (s : pystr) : pystr := DQ :: json_esc s ++ [DQ].

(** ** UTF-8: [s.encode("utf-8")], [None] for the [UnicodeEncodeError] that a
    surrogate raises. *)
Definition utf8_char (c : N) : option (list N) :=
  (if c <? 128 then Some [c]
   else if c <? 2048 then Some [192 + c / 64; 128 + c mod 64]
   else if is_surrogate c then None
   else if c <? 65536 then Some [224 + c / 4096; 128 + c / 64 mod 64; 128 + c mod 64]
   else Some [240 + c / 262144; 128 + c / 4096 mod 64; 128 + c / 64 mod 64;
              128 + c mod 64])%N.
Fixpoint utf8 (s : pystr) : option (list N) :=
  match s with
  | [] => Some []
  | c :: s =>
      match utf8_char c, utf8 s with
      | Some b, Some bs => Some (b ++ bs)
      | _, _ => None
      end
  end.

(** ** Facts *)

Lemma startswith_spec s p : startswith s p = true ↔ ∃ t, s = p ++ t.
Proof.
  revert s. induction p as [|a p IH]; intros s; simpl.
  - split; [by exists s|]. by destruct s.
  - destruct s as [|b s]; simpl; [split; [done|by intros [t ?]]|].
    rewrite andb_true_iff, N.eqb_eq, IH. naive_solver.
Qed.

Lemma startswith_app p t : startswith (p ++ t) p = true.
Proof. apply startswith_spec. by exists t. Qed.

Lemma contains_spec s n : contains s n = true ↔ ∃ a b, s = a ++ n ++ b.
Proof.
  induction s as [|c s IH]; cbn [contains]; rewrite orb_true_iff, startswith_spec.
  - split; [intros [[t Ht]|?]; [by exists [], t|done]|].
    intros (a & b & H). left. exists b. by destruct a.
  - rewrite IH. split.
    + intros [[t ->]|(a & b & ->)]; [by exists [], t|by exists (c :: a), b].
    + intros ([|x a] & b & H); simplify_eq/=; [left; by exists b|right; by exists a, b].
Qed.

Lemma contains_refl s : contains s s = true.
Proof. apply contains_spec. exists [], []. by rewrite app_nil_r. Qed.

Lemma contains_nil_needle n : n ≠ [] → contains [] n = false.
Proof. by destruct n. Qed.

Lemma lstrip_suffix s : ∃ p, s = p ++ lstrip s ∧ Forall (λ c, is_space c = true) p.
Proof.
  induction s as [|c s (p & Hs & Hp)]; simpl; [by exists []|].
  destruct (is_space c) eqn:E; [|by exists []].
  exists (c :: p). split; [by simpl; f_equal|by constructor].
Qed.

Lemma lstrip_fixed s : lstrip (lstrip s) = lstrip s.
Proof. induction s as [|c s IH]; simpl; [done|]. destruct (is_space c) eqn:E; [done|]. simpl. by rewrite E. Qed.

Lemma partition_at_app c a b : c ∉ a → partition_at c (a ++ c :: b) = (a, b).
Proof.
  induction a as [|x a IH]; intros Hc; simpl; [by rewrite N.eqb_refl|].
  apply not_elem_of_cons in Hc as [? ?].
  rewrite (proj2 (N.eqb_neq x c)) by congruence. by rewrite IH.
Qed.

(** ** Digits denote their number *)

Definition undigits (base : N) (a : N) (l : list N) : N := fold_left (λ a d, a * base + d)%N l a.

Section digits.
#[local] Open Scope N_scope.
Context (base : N) (Hbase : 2 ≤ base).

Lemma digits_fuel_value fuel n acc :
  n < base ^ N.of_nat fuel → undigits base 0 (digits_fuel base fuel n acc) = undigits base n acc.
Proof.
  revert n acc. induction fuel as [|f IH]; intros n acc Hn.
  - simpl in *. by replace n with 0 by lia.
  - cbn [digits_fuel]. destruct (N.ltb_spec n base) as [Hlt|Hge].
    + unfold undigits. simpl. by rewrite N.mod_small by lia.
    + rewrite IH.
      * unfold undigits. simpl. f_equal. pose proof (N.div_mod n base). lia.
      * apply N.Div0.div_lt_upper_bound. rewrite Nat2N.inj_succ, N.pow_succ_r' in Hn. lia.
Qed.

Lemma digits_fuel_bound fuel n acc :
  Forall (λ d, d < base) acc → Forall (λ d, d < base) (digits_fuel base fuel n acc).
Proof.
  revert n acc. induction fuel as [|f IH]; intros n acc Ha; cbn [digits_fuel]; [done|].
  assert (n mod base < base) by (apply N.mod_lt; lia).
  destruct (n <? base); [by constructor|]. apply IH. by constructor.
Qed.

Lemma digits_fuel_length fuel n acc k :
  n < base ^ N.of_nat (S k) → (length (digits_fuel base fuel n acc) ≤ S k + length acc)%nat.
Proof.
  revert n acc k. induction fuel as [|f IH]; intros n acc k Hn; cbn [digits_fuel]; [lia|].
  destruct (N.ltb_spec n base) as [Hlt|Hge]; [simpl; lia|]. destruct k as [|k].
  - simpl in Hn. rewrite N.pow_1_r in Hn. lia.
  - etrans; [apply (IH _ _ k)|simpl; lia]. apply N.Div0.div_lt_upper_bound.
    rewrite Nat2N.inj_succ, N.pow_succ_r' in Hn. lia.
Qed.

Lemma digits_fuel_nonempty fuel n acc : digits_fuel base (S fuel) n acc ≠ [].
Proof.
  revert n acc. induction fuel as [|f IH]; intros n acc; cbn [digits_fuel].
  - by destruct (n <? base).
  - destruct (n <? base); [done|]. apply IH.
Qed.

Lemma digits_value n : undigits base 0 (digits base n) = n.
Proof.
  unfold digits. rewrite digits_fuel_value; [done|].
  rewrite Nat2N.inj_succ, N2Nat.id.
  pose proof (N.size_gt n). pose proof (N.pow_le_mono_l 2 base (N.size n) Hbase).
  rewrite N.pow_succ_r'. nia.
Qed.
Lemma digits_bound n : Forall (λ d, d < base) (digits base n).
Proof. apply digits_fuel_bound. constructor. Qed.
Lemma digits_length n k : n < base ^ N.of_nat (S k) → (length (digits base n) ≤ S k)%nat.
Proof. intros H. unfold digits. by rewrite (digits_fuel_length _ n [] k H), Nat.add_0_r. Qed.
Lemma digits_nonempty n : digits base n ≠ [].
Proof. apply digits_fuel_nonempty. Qed.
End digits.

Lemma undigits_zeros base n l : undigits base 0 (replicate n 0%N ++ l) = undigits base 0 l.
Proof. induction n as [|n IH]; [done|]. unfold undigits in *. simpl. apply IH. Qed.

Lemma str_of_N_inj m n : str_of_N m = str_of_N n → m = n.
Proof.
  assert (Hm : ∀ l, map (λ c, c - 48)%N (map (N.add 48) l) = l).
  { induction l as [|d l IH]; simpl; [done|]. f_equal; [lia|done]. }
  intros H. assert (E : digits 10 m = digits 10 n).
  { unfold str_of_N in H. by rewrite <- (Hm (digits 10 m)), H, Hm. }
  by rewrite <- (digits_value 10 ltac:(lia) m), E, digits_value by lia.
Qed.

Lemma str_of_N_digits n : Forall (λ c, is_digit c = true) (str_of_N n).
Proof.
  unfold str_of_N. apply Forall_fmap. eapply Forall_impl; [apply (digits_bound 10); lia|].
  intros d Hd. unfold compose, is_digit. apply andb_true_iff. rewrite !N.leb_le. cbv beta in Hd. lia.
Qed.

Lemma str_of_N_nonempty n : str_of_N n ≠ [].
Proof.
  unfold str_of_N. pose proof (digits_nonempty 10 n). by destruct (digits 10 n).
Qed.

Lemma str_of_Z_inj y z : str_of_Z y = str_of_Z z → y = z.
Proof.
  unfold str_of_Z. pose proof (str_of_N_digits (Z.abs_N y)) as Hy.
  pose proof (str_of_N_digits (Z.abs_N z)) as Hz.
  destruct (Z.ltb_spec y 0), (Z.ltb_spec z 0); intros E.
  - injection E as E%str_of_N_inj. lia.
  - rewrite <- E in Hz. apply Forall_cons in Hz as [[=] _].
  - rewrite E in Hy. apply Forall_cons in Hy as [[=] _].
  - apply str_of_N_inj in E. lia.
Qed.

(** ** Fixed-width hexadecimal *)

Definition unhex (c : N) : N := if (c <? 58)%N then (c - 48)%N else (c - 87)%N.
Lemma unhex_digit d : (d < 16)%N → unhex (hex_digit d) = d.
Proof.
  intros H. unfold unhex, hex_digit. destruct (N.ltb_spec d 10).
  - destruct (N.ltb_spec (48 + d) 58); lia.
  - destruct (N.ltb_spec (87 + d) 58); lia.
Qed.

Lemma map_unhex l : Forall (λ d, (d < 16)%N) l → map unhex (map hex_digit l) = l.
Proof. induction 1; simpl; [done|]. by rewrite unhex_digit, IHForall. Qed.

Lemma hex_pad_value w n : undigits 16 0 (map unhex (hex_pad w n)) = n.
Proof.
  unfold hex_pad. rewrite map_app, map_unhex by (apply digits_bound; lia).
  assert (E : ∀ k, map unhex (replicate k 48%N) = replicate k 0%N).
  { induction k; simpl; [done|]. by rewrite IHk. }
  rewrite E, undigits_zeros. apply digits_value. lia.
Qed.
Lemma hex_pad_inj w m n : hex_pad w m = hex_pad w n → m = n.
Proof. intros E. by rewrite <- (hex_pad_value w m), E, hex_pad_value. Qed.

Lemma hex_pad_length w n :
  (n < 16 ^ N.of_nat (S w))%N → length (hex_pad (S w) n) = S w.
Proof.
  intros H. unfold hex_pad. rewrite length_app, length_replicate, length_map.
  pose proof (digits_length 16 ltac:(lia) n w H). lia.
Qed.

(** ** Escaped strings end at their quote and determine the string *)

(** The character a two-character escape stands for. *)
Definition unspecial (x : N) : N :=
  (if x =? 98 then 8 else if x =? 102 then 12 else if x =? 110 then 10
   else if x =? 114 then 13 else if x =? 116 then 9 else x)%N.

(** The shapes of an escape: a two-character escape, four hexadecimal digits,
    or the character itself. *)
Definition escape_shape (e : pystr) (c : N) : Prop :=
  (∃ x, e = [BS; x] ∧ x ≠ 117%N ∧ unspecial x = c) ∨
  (e = u_escape c ∧ (c < 65536)%N) ∨
  (e = [c] ∧ c ≠ BS ∧ c ≠ DQ).

Section escape.
Context (ch : N → pystr) (ok : N → Prop).
Context (shape : ∀ c, ok c → escape_shape (ch c) c).

Lemma escape_char_inj a b x y : ok a → ok b → ch a ++ x = ch b ++ y → a = b ∧ x = y.
Proof.
  intros Ha%shape Hb%shape H. unfold escape_shape, u_escape in *.
  destruct Ha as [(u & Ea & Hu & <-)|[[Ea Hla]|(Ea & ? & ?)]],
    Hb as [(v & Eb & Hv & <-)|[[Eb Hlb]|(Eb & ? & ?)]];
    rewrite Ea, Eb in H; simpl in H; simplify_eq/=; try done.
  assert (H4 : ∀ c, (c < 65536)%N → length (hex_pad 4 c) = 4%nat).
  { intros c Hc. apply hex_pad_length. exact Hc. }
  apply app_inj_1 in H as [E ->]; [|by rewrite !H4].
  by apply hex_pad_inj in E as ->.
Qed.

Lemma escape_char_not_quote a x y : ok a → ch a ++ x = DQ :: y → False.
Proof.
  intros Ha%shape H. unfold escape_shape, u_escape in *.
  destruct Ha as [(u & Ea & Hu & <-)|[[Ea Hla]|(Ea & ? & ?)]];
    rewrite Ea in H; simplify_eq/=.
Qed.

Lemma escape_inj s t x y :
  Forall ok s → Forall ok t →
  concat (map ch s) ++ DQ :: x = concat (map ch t) ++ DQ :: y → s = t ∧ x = y.
Proof.
  intros Hs. revert t. induction Hs as [|a s Ha Hs IH]; intros t Ht H.
  - destruct Ht as [|b t Hb Ht]; simpl in H; [by injection H as ->|]. exfalso.
    rewrite <- app_assoc in H. symmetry in H. by eapply escape_char_not_quote.
  - destruct Ht as [|b t Hb Ht]; simpl in H; rewrite <- ?app_assoc in H.
    + exfalso. by eapply escape_char_not_quote.
    + apply escape_char_inj in H as [-> H]; [|done..]. by apply IH in H as [-> ->].
Qed.
End escape.

(** ** UTF-8 *)

(** The four lengths, told apart by the first byte, and the bytes as quotients
    and remainders. *)
Lemma utf8_char_cases c u :
  utf8_char c = Some u →
  (u = [c] ∧ c < 128)%N ∨
  (∃ q r, u = [192 + q; 128 + r] ∧ c = 64 * q + r ∧ q < 32)%N ∨
  (∃ p q r, u = [224 + p; 128 + q; 128 + r] ∧ c = 4096 * p + 64 * q + r ∧ p < 16)%N ∨
  (∃ o p q r, u = [240 + o; 128 + p; 128 + q; 128 + r] ∧
     c = 262144 * o + 4096 * p + 64 * q + r)%N.
Proof.
  unfold utf8_char. intros H.
  pose proof (N.div_mod c 64 ltac:(done)) as E1.
  pose proof (N.div_mod (c / 64) 64 ltac:(done)) as E2.
  pose proof (N.div_mod (c / 4096) 64 ltac:(done)) as E3.
  rewrite N.Div0.div_div in E2. rewrite N.Div0.div_div in E3.
  change (64 * 64)%N with 4096%N in E2. change (4096 * 64)%N with 262144%N in E3.
  destruct (N.ltb_spec c 128); [left; by injection H as <-|]. right.
  destruct (N.ltb_spec c 2048).
  { left. injection H as <-. eexists _, _. split; [done|]. split; [exact E1|].
    apply N.Div0.div_lt_upper_bound. lia. }
  right. destruct (is_surrogate c); [done|]. destruct (N.ltb_spec c 65536).
  - left. injection H as <-. eexists _, _, _. split; [done|]. split; [lia|].
    apply N.Div0.div_lt_upper_bound. lia.
  - right. injection H as <-. eexists _, _, _, _. split; [done|]. lia.
Qed.

Lemma utf8_char_inj a b x y u v :
  utf8_char a = Some u → utf8_char b = Some v → u ++ x = v ++ y → a = b ∧ x = y.
Proof.
  intros Ha%utf8_char_cases Hb%utf8_char_cases H.
  destruct Ha as [[-> ?]|[(?&?&->&->&?)|[(?&?&?&->&->&?)|(?&?&?&?&->&->)]]],
    Hb as [[-> ?]|[(?&?&->&->&?)|[(?&?&?&->&->&?)|(?&?&?&?&->&->)]]];
    injection H; intros; try (exfalso; lia); (split; [lia|done]).
Qed.

Lemma utf8_char_nonempty a u : utf8_char a = Some u → u ≠ [].
Proof. unfold utf8_char. intros H. repeat case_match; simplify_eq; done. Qed.

Lemma utf8_cons c s b :
  utf8 (c :: s) = Some b → ∃ u us, utf8_char c = Some u ∧ utf8 s = Some us ∧ b = u ++ us ∧ u ≠ [].
Proof.
  simpl. destruct (utf8_char c) as [u|] eqn:Hc; [|done].
  destruct (utf8 s) as [us|]; [|done]. intros [= <-]. apply utf8_char_nonempty in Hc as Hn. eauto 6.
Qed.

Lemma utf8_inj s t b : utf8 s = Some b → utf8 t = Some b → s = t.
Proof.
  revert t b. induction s as [|c s IH]; intros [|d t] b Hs Ht.
  - done.
  - apply utf8_cons in Ht as (u & us & _ & _ & -> & Hn). injection Hs as Hs. by destruct u.
  - apply utf8_cons in Hs as (u & us & _ & _ & -> & Hn). injection Ht as Ht. by destruct u.
  - apply utf8_cons in Hs as (u & us & Hc & Hus & -> & _).
    apply utf8_cons in Ht as (v & vs & Hd & Hvs & Hb & _).
    apply (utf8_char_inj c d us vs u v) in Hb as [-> <-]; [|done..].
    f_equal. by apply (IH t us).
Qed.

Lemma utf8_encodable s : Forall (λ c, is_surrogate c = false) s → ∃ b, utf8 s = Some b.
Proof.
  induction 1 as [|c s Hc Hs [b Hb]]; [by exists []|]. simpl. rewrite Hb.
  assert (∃ u, utf8_char c = Some u) as [u ->]; [|by eexists].
  unfold utf8_char. rewrite Hc. repeat case_match; by eexists.
Qed.

(** The first digit of a positive number is not zero. *)
Lemma digits_fuel_head base fuel n acc :
  (2 ≤ base)%N → n ≠ 0%N → (n < base ^ N.of_nat fuel)%N →
  ∃ d l, digits_fuel base fuel n acc = d :: l ∧ d ≠ 0%N.
Proof.
  intros Hb. revert n acc. induction fuel as [|f IH]; intros n acc Hn Hlt.
  - simpl in Hlt. lia.
  - cbn [digits_fuel]. destruct (N.ltb_spec n base).
    + eexists _, _. split; [done|]. by rewrite N.mod_small.
    + apply IH.
      * pose proof (N.div_str_pos n base). lia.
      * apply N.Div0.div_lt_upper_bound. rewrite Nat2N.inj_succ, N.pow_succ_r' in Hlt. lia.
Qed.
Lemma str_of_N_head n : n ≠ 0%N → ∃ d l, str_of_N n = d :: l ∧ d ≠ 48%N ∧ is_digit d = true.
Proof.
  intros Hn. destruct (digits_fuel_head 10 (S (N.to_nat (N.size n))) n []) as (d & l & E & Hd);
    [lia|done| |].
  - rewrite Nat2N.inj_succ, N2Nat.id. pose proof (N.size_gt n).
    pose proof (N.pow_le_mono_l 2 10 (N.size n) ltac:(lia)). rewrite N.pow_succ_r'. nia.
  - pose proof (str_of_N_digits n) as Hf. unfold str_of_N, digits in *. rewrite E in *.
    exists (48 + d)%N, (map (N.add 48) l). split; [done|]. split; [lia|].
    by apply Forall_cons in Hf as [??].
Qed.
Lemma str_of_N_value n : undigits 10 0 (map (λ c, c - 48)%N (str_of_N n)) = n.
Proof.
  unfold str_of_N. rewrite map_map. rewrite <- (digits_value 10 ltac:(lia) n) at 2. f_equal.
  rewrite <- (map_id (digits 10 n)) at 2. apply map_ext. intros. lia.
Qed.

Lemma utf8_ascii s : Forall (λ c, (c < 128)%N) s → utf8 s = Some s.
Proof.
  induction 1 as [|c s Hc Hs IH]; [done|]. simpl. unfold utf8_char.
  by rewrite (proj2 (N.ltb_lt c 128)), IH by done.
Qed.
