(* ===== verification/PyFloat.v ===== *)
(** Python [float]s as exact binary fractions: comparison with numbers, and the
    shortest decimal text that [repr], [str] and [json.dumps] print. *)

From stdpp Require Import base list.
From Stdlib Require Import NArith ZArith Lia.
From S2P Require Import Prelude PyStr.

(** [FFin neg m e] is the finite number [(-1)^neg * m * 2^e], zeros included.
    A binary64 number has [m < 2^53] and [-1074 <= e], with [2^52 <= m] unless
    [e = -1074]. *)
Inductive pyfloat : Set :=
| FNan
| FInf (neg : bool)
| FFin (neg : bool) (m : N) (e : Z).

#[global] Instance pyfloat_eq_dec : EqDecision pyfloat.
Proof. solve_decision. Defined.

(** [math.isfinite(x)] *)
Definition isfinite (x : pyfloat) : bool :=
  match x with FFin _ _ _ => true | _ => false end.

Definition signed (neg : bool) (m : N) : Z :=
  if neg then (- Z.of_N m)%Z else Z.of_N m.

(** [x == z] for an integer [z]; exact, as in Python. *)
Definition float_eq_int (x : pyfloat) (z : Z) : bool :=
  match x with
  | FFin neg m e =>
      if (0 <=? e)%Z then (signed neg m * 2 ^ e =? z)%Z
      else (signed neg m =? z * 2 ^ (- e))%Z
  | _ => false
  end.

(** [x == y] for floats: NaN equals nothing. *)
Definition float_eqb (x y : pyfloat) : bool :=
  match x, y with
  | FInf a, FInf b => Bool.eqb a b
  | FFin a m e, FFin b n f =>
      let k := Z.min e f in
      (signed a m * 2 ^ (e - k) =? signed b n * 2 ^ (f - k))%Z
  | _, _ => false
  end.

(** [x < 0] *)
Definition float_neg (x : pyfloat) : bool :=
  match x with
  | FNan => false
  | FInf neg => neg
  | FFin neg m _ => neg && negb (m =? 0)%N
  end.

(** ** The shortest decimal *)

(** Positive rationals as pairs of naturals; [x * 10^k]. *)
Definition scale10 (num den : N) (k : Z) : N * N :=
  if (0 <=? k)%Z then (num * 10 ^ Z.to_N k, den)%N
  else (num, den * 10 ^ Z.to_N (- k))%N.

(** Half the distances to the neighbouring floats, over the denominator of
    [m * 2^e] written as [4m / (4 * 2^-e)] or [4m 2^e / 4]. *)
Definition gap_below (m : N) (e : Z) : N :=
  if ((m =? 2 ^ 52)%N && (-1074 <? e)%Z) then 1%N else 2%N.

(** [num/den] of [m * 2^e] with both neighbours' midpoints integral over it. *)
Definition frac (m : N) (e : Z) : N * N * N :=
  if (0 <=? e)%Z then (4 * m * 2 ^ Z.to_N e, 4, 2 ^ Z.to_N e)%N
  else (4 * m, 4 * 2 ^ Z.to_N (- e), 1)%N.

(** Whether the decimal [q * 10^-s] rounds to [m * 2^e] (nearest, ties to
    even). *)
Definition rounds_back (m : N) (e : Z) (q : N) (s : Z) : bool :=
  let '(num, den, u) := frac m e in
  let lo := (num - gap_below m e * u)%N in
  let hi := (num + 2 * u)%N in
  let '(qn, qd) := scale10 q 1 (- s) in
  (* compare qn/qd with lo/den and hi/den *)
  if N.even m
  then ((lo * qd <=? qn * den) && (qn * den <=? hi * qd))%N
  else ((lo * qd <? qn * den) && (qn * den <? hi * qd))%N.

(** The decimal point position [k] with [10^(k-1) <= x < 10^k]. *)
Fixpoint find_decpt (fuel : nat) (num den : N) (k : Z) : Z :=
  match fuel with
  | O => k
  | S f =>
      let '(n1, d1) := scale10 num den (- k) in
      if (d1 <=? n1)%N then find_decpt f num den (k + 1)
      else let '(n2, d2) := scale10 num den (1 - k) in
           if (n2 <? d2)%N then find_decpt f num den (k - 1) else k
  end.

(** The best [n]-digit decimal of [m * 2^e], when one rounds back. *)
Definition try_digits (m : N) (e decpt : Z) (n : Z) : option N :=
  let '(num, den, _) := frac m e in
  let s := (n - decpt)%Z in
  let '(a, b) := scale10 num den s in
  let q := (a / b)%N in
  let r := (a mod b)%N in
  let near := if (2 * r <? b)%N then q
              else if (b <? 2 * r)%N then (q + 1)%N
              else if N.even q then q else (q + 1)%N in
  let far := if (near =? q)%N then (q + 1)%N else q in
  if rounds_back m e near s then Some near
  else if rounds_back m e far s then Some far else None.

(** The digits of [q] without the zeros at their end. *)
Definition trim0 (d : list N) : list N := foldr (λ c t, match t with [] => if (c =? 0)%N then [] else [c] | _ => c :: t end) [] d.

(** All the digits of [m * 2^e]: a binary fraction has a finite expansion. *)
Definition exact_digits (m : N) (e : Z) : N * Z :=
  if (0 <=? e)%Z then ((m * 2 ^ Z.to_N e)%N, 0%Z) else ((m * 5 ^ Z.to_N (- e))%N, (- e)%Z).

(** The digits of [q * 10^-s] and the position of its point.  A carry to
    [10^n] is the digit 1 one place up. *)
Definition digits_at (q : N) (s : Z) : list N * Z :=
  (trim0 (digits 10 q), (Z.of_nat (length (digits 10 q)) - s)%Z).

(** The digit counts from [n] on; when the fuel is used up, the exact expansion
    (17 digits round back for every binary64 number). *)
Fixpoint shortest_from (fuel : nat) (m : N) (e decpt n : Z) : list N * Z :=
  match fuel with
  | O => let '(q, s) := exact_digits m e in digits_at q s
  | S f =>
      match try_digits m e decpt n with
      | Some q => digits_at q (n - decpt)
      | None => shortest_from f m e decpt (n + 1)
      end
  end.

(** The shortest digits and the decimal point position of a positive float;
    17 digits always round back.  The decimal exponents of binary64 lie
    between -323 and 309, which bounds the search for the point. *)
Definition shortest (m : N) (e : Z) : list N * Z :=
  let '(num, den, _) := frac m e in
  shortest_from 17 m e (find_decpt 700 num den 0) 1.

Definition digit_chars (d : list N) : pystr := map (N.add 48) d.
Definition zeros (n : Z) : pystr := replicate (Z.to_nat n) 48%N.

(** [repr(x)], which is also [str(x)]. *)
Definition float_repr (x : pyfloat) : pystr :=
  match x with
  | FNan => "nan"
  | FInf neg => if neg then "-inf" else "inf"
  | FFin neg m e =>
      (if neg then "-" else []) ++
      if (m =? 0)%N then "0.0" else
      let '(d, p) := shortest m e in
      let k := Z.of_nat (length d) in
      let ds := digit_chars d in
      if ((-4 <? p) && (p <=? 16))%Z then
        if (p <=? 0)%Z then "0." ++ zeros (- p) ++ ds
        else if (k <=? p)%Z then ds ++ zeros (p - k) ++ ".0"
        else take (Z.to_nat p) ds ++ "." ++ drop (Z.to_nat p) ds
      else
        let x := (p - 1)%Z in
        let xs := str_of_N (Z.abs_N x) in
        take 1 ds ++ (if (1 <? k)%Z then "." ++ drop 1 ds else []) ++ "e" ++
        (if (x <? 0)%Z then "-" else "+") ++ zeros (2 - Z.of_nat (length xs)) ++ xs
  end.

(** [json.dumps(x)] *)
Definition json_dumps_float (x : pyfloat) : pystr :=
  match x with
  | FNan => "NaN"
  | FInf neg => if neg then "-Infinity" else "Infinity"
  | FFin _ _ _ => float_repr x
  end.

(** [Decimal(repr(x)).as_tuple()] of a finite float: sign, digits, exponent. *)
Definition decimal_tuple (neg : bool) (m : N) (e : Z) : bool * list N * Z :=
  if (m =? 0)%N then (neg, [0%N; 0%N], (-1)%Z) else
  let '(d, p) := shortest m e in
  let k := Z.of_nat (length d) in
  if ((0 <? p) && (p <=? 16) && (k <=? p))%Z
  then (neg, d ++ replicate (Z.to_nat (p - k)) 0%N ++ [0%N], (-1)%Z)
  else (neg, d, (p - k)%Z).

(** ** The decimals that round to a float *)

(** The numbers of binary64, zeros in any form. *)
Definition binary64 (m : N) (e : Z) : bool :=
  (m =? 0)%N || ((m <? 2 ^ 53)%N && (-1074 <=? e)%Z && (e <=? 971)%Z && ((2 ^ 52 <=? m)%N || (e =? -1074)%Z)).

Definition covers (closed : bool) (lo x hi : N) : bool :=
  if closed then (lo <=? x)%N && (x <=? hi)%N else (lo <? x)%N && (x <? hi)%N.

Lemma covers_mul b lo x hi c : c ≠ 0%N → covers b (lo * c) (x * c) (hi * c) = covers b lo x hi.
Proof.
  intros Hc. unfold covers. destruct b; f_equal; apply eq_true_iff_eq;
    rewrite ?N.leb_le, ?N.ltb_lt; [rewrite <- N.mul_le_mono_pos_r|rewrite <- N.mul_le_mono_pos_r
    |rewrite <- N.mul_lt_mono_pos_r|rewrite <- N.mul_lt_mono_pos_r]; (done || lia).
Qed.

Lemma frac_eq m e :
  ∃ u den, frac m e = ((4 * m * u)%N, den, u) ∧ u ≠ 0%N ∧ den ≠ 0%N ∧
    ((0 <= e)%Z ∧ u = (2 ^ Z.to_N e)%N ∧ den = 4%N ∨
     (e < 0)%Z ∧ u = 1%N ∧ den = (4 * 2 ^ Z.to_N (- e))%N).
Proof.
  unfold frac. destruct (Z.leb_spec 0 e).
  - exists (2 ^ Z.to_N e)%N, 4%N. split; [done|]. split; [by apply N.pow_nonzero|]. split; [done|]. by left.
  - exists 1%N, (4 * 2 ^ Z.to_N (- e))%N. rewrite N.mul_1_r. split; [done|]. split; [done|].
    split; [|by right]. pose proof (N.pow_nonzero 2 (Z.to_N (- e))). lia.
Qed.

Lemma gap_bounds m e : (1 ≤ gap_below m e ≤ 2)%N.
Proof. unfold gap_below. destruct (_ && _); lia. Qed.

Lemma scale10_den num den k : den ≠ 0%N → (scale10 num den k).2 ≠ 0%N.
Proof.
  intros Hd. unfold scale10. destruct (0 <=? k)%Z; simpl; [done|].
  pose proof (N.pow_nonzero 10 (Z.to_N (- k))). nia.
Qed.

Lemma rounds_back_covers m e q s u den :
  frac m e = ((4 * m * u)%N, den, u) →
  rounds_back m e q s =
  covers (N.even m) ((4 * m - gap_below m e) * u * (scale10 q 1 (- s)).2) ((scale10 q 1 (- s)).1 * den)
    ((4 * m + 2) * u * (scale10 q 1 (- s)).2).
Proof.
  intros Hf. unfold rounds_back. rewrite Hf. destruct (scale10 q 1 (- s)) as [qn qd]. cbn [fst snd].
  by rewrite <- N.mul_sub_distr_r, <- N.mul_add_distr_r.
Qed.

Lemma rounds_back_ratio m e q s q' s' :
  ((scale10 q 1 (- s)).1 * (scale10 q' 1 (- s')).2 = (scale10 q' 1 (- s')).1 * (scale10 q 1 (- s)).2)%N →
  rounds_back m e q s = rounds_back m e q' s'.
Proof.
  intros E. destruct (frac_eq m e) as (u & den & Hf & Hu & Hden & _).
  rewrite !(rounds_back_covers _ _ _ _ _ _ Hf).
  pose proof (scale10_den q 1 (- s) ltac:(done)). pose proof (scale10_den q' 1 (- s') ltac:(done)).
  rewrite <- (covers_mul _ _ _ _ (scale10 q' 1 (- s')).2) by done.
  rewrite <- (covers_mul _ ((4 * m - _) * u * (scale10 q' 1 (- s')).2) _ _ (scale10 q 1 (- s)).2) by done.
  f_equal; [ring| |ring]. rewrite <- !N.mul_assoc, (N.mul_comm den), (N.mul_comm den), !N.mul_assoc. by rewrite E.
Qed.

(** The same decimal with more zeros at its end. *)
Lemma rounds_back_zeros m e q s (j : nat) :
  rounds_back m e (q * 10 ^ N.of_nat j) (s + Z.of_nat j) = rounds_back m e q s.
Proof.
  apply rounds_back_ratio. unfold scale10.
  assert (Hp : ∀ x y z : Z, (0 <= x)%Z → (0 <= y)%Z → (z = x + y)%Z →
    (10 ^ Z.to_N z = 10 ^ Z.to_N x * 10 ^ Z.to_N y)%N).
  { intros x y z Hx Hy ->. by rewrite Z2N.inj_add, N.pow_add_r by done. }
  replace (N.of_nat j) with (Z.to_N (Z.of_nat j)) by lia.
  destruct (Z.leb_spec 0 (- (s + Z.of_nat j))), (Z.leb_spec 0 (- s)); cbn [fst snd]; try lia.
  - rewrite (Hp (Z.of_nat j) (- (s + Z.of_nat j)) (- s))%Z by lia. ring.
  - rewrite (Hp (- s) (- - (s + Z.of_nat j)) (Z.of_nat j))%Z by lia. ring.
  - rewrite (Hp (Z.of_nat j) (- - s) (- - (s + Z.of_nat j)))%Z by lia. ring.
Qed.

Lemma rounds_back_pos m e q s : m ≠ 0%N → rounds_back m e q s = true → q ≠ 0%N.
Proof.
  intros Hm H ->. destruct (frac_eq m e) as (u & den & Hf & Hu & _).
  rewrite (rounds_back_covers _ _ _ _ _ _ Hf) in H.
  pose proof (scale10_den 0 1 (- s) ltac:(done)) as Hd. pose proof (gap_bounds m e).
  assert (E : (scale10 0 1 (- s)).1 = 0%N) by (unfold scale10; by destruct (_ <=? _)%Z).
  rewrite E in H. assert ((4 * m - gap_below m e) * u * (scale10 0 1 (- s)).2 ≠ 0)%N.
  { rewrite !N.eq_mul_0. lia. }
  set (lo := ((4 * m - gap_below m e) * u * (scale10 0 1 (- s)).2)%N) in *. clearbody lo.
  unfold covers in H. destruct (N.even m); bprop; lia.
Qed.

Lemma rounds_back_exact m e :
  m ≠ 0%N → rounds_back m e (exact_digits m e).1 (exact_digits m e).2 = true.
Proof.
  intros Hm. destruct (frac_eq m e) as (u & den & Hf & Hu & Hden & Hcase).
  rewrite (rounds_back_covers _ _ _ _ _ _ Hf). pose proof (gap_bounds m e).
  assert (E : ((scale10 (exact_digits m e).1 1 (- (exact_digits m e).2)).1 * den =
              4 * m * u * (scale10 (exact_digits m e).1 1 (- (exact_digits m e).2)).2)%N).
  { unfold exact_digits. destruct Hcase as [(He & -> & ->)|(He & -> & ->)].
    - rewrite (proj2 (Z.leb_le _ _)) by done. cbn [fst snd]. unfold scale10.
      change (0 <=? - 0)%Z with true. cbn [fst snd]. change (10 ^ Z.to_N (- 0))%N with 1%N. ring.
    - rewrite (proj2 (Z.leb_gt _ _)) by done. cbn [fst snd]. unfold scale10. rewrite Z.opp_involutive.
      rewrite (proj2 (Z.leb_gt _ _)) by done. cbn [fst snd].
      change 10%N with (5 * 2)%N. rewrite N.pow_mul_l. ring. }
  rewrite E. set (qd := (scale10 _ _ _).2).
  assert (qd ≠ 0)%N by by apply scale10_den.
  assert (Hk : (u * qd ≠ 0)%N) by (rewrite N.eq_mul_0; lia).
  rewrite <- !N.mul_assoc, (N.mul_assoc 4 m), covers_mul by done.
  unfold covers. destruct (N.even m); apply andb_true_iff; rewrite ?N.leb_le, ?N.ltb_lt; lia.
Qed.

(** A decimal rounds to one number of binary64 only: the halves of the gaps do
    not overlap, and of two neighbours one is odd. *)
Lemma frac_ratio m e m' e' u den u' den' :
  frac m e = ((4 * m * u)%N, den, u) → frac m' e' = ((4 * m' * u')%N, den', u') → (e <= e')%Z →
  m ≠ 0%N → m' ≠ 0%N → (u' * den = u * den' * 2 ^ Z.to_N (e' - e))%N.
Proof.
  intros Hf Hf' Hle Hm Hm'.
  destruct (frac_eq m e) as (u1 & d1 & Hf1 & _ & _ & H), (frac_eq m' e') as (u2 & d2 & Hf2 & _ & _ & H').
  rewrite Hf1 in Hf. rewrite Hf2 in Hf'. injection Hf as _ <- <-. injection Hf' as _ <- <-. clear Hf1 Hf2.
  assert (Hp : ∀ x y z : Z, (0 <= x)%Z → (0 <= y)%Z → (z = x + y)%Z →
    (2 ^ Z.to_N z = 2 ^ Z.to_N x * 2 ^ Z.to_N y)%N).
  { intros x y z Hx Hy ->. by rewrite Z2N.inj_add, N.pow_add_r by done. }
  destruct H as [(He & -> & ->)|(He & -> & ->)], H' as [(He' & -> & ->)|(He' & -> & ->)]; try lia.
  - rewrite (Hp e (e' - e)%Z e') by lia. ring.
  - rewrite (Hp e' (- e)%Z (e' - e)%Z) by lia. ring.
  - rewrite (Hp (e' - e)%Z (- e')%Z (- e)%Z) by lia. ring.
Qed.

Lemma covers_le b lo x hi :
  covers b lo x hi = true → (lo <= x <= hi)%N ∧ (b = false → (lo < x < hi)%N).
Proof. unfold covers. destruct b; intros H; bprop; lia. Qed.

Lemma rounds_back_ordered m e m' e' q s :
  m ≠ 0%N → m' ≠ 0%N → (e <= e')%Z → rounds_back m e q s = true → rounds_back m' e' q s = true →
  ((4 * m' - gap_below m' e') * 2 ^ Z.to_N (e' - e) ≤ 4 * m + 2 ∧
   (N.even m = false ∨ N.even m' = false → (4 * m' - gap_below m' e') * 2 ^ Z.to_N (e' - e) < 4 * m + 2))%N.
Proof.
  intros Hm Hm' Hle H H'.
  destruct (frac_eq m e) as (u & den & Hf & Hu & Hd & _), (frac_eq m' e') as (u' & den' & Hf' & Hu' & Hd' & _).
  pose proof (frac_ratio _ _ _ _ _ _ _ _ Hf Hf' Hle Hm Hm') as E.
  rewrite (rounds_back_covers _ _ _ _ _ _ Hf) in H. rewrite (rounds_back_covers _ _ _ _ _ _ Hf') in H'.
  pose proof (scale10_den q 1 (- s) ltac:(done)) as Hq.
  set (qn := (scale10 q 1 (- s)).1) in *. set (qd := (scale10 q 1 (- s)).2) in *.
  set (p := (2 ^ Z.to_N (e' - e))%N) in *. set (b' := (4 * m' - gap_below m' e')%N) in *.
  set (b := (4 * m - gap_below m e)%N) in *. clearbody qn qd p b b'.
  rewrite <- (covers_mul _ _ _ _ den') in H by done. rewrite <- (covers_mul _ _ _ _ den) in H' by done.
  apply covers_le in H as [H Ho]. apply covers_le in H' as [H' Ho'].
  assert (Hk : (u * den' * qd ≠ 0)%N) by (rewrite !N.eq_mul_0; lia).
  assert (E1 : (b' * u' * qd * den = b' * p * (u * den' * qd))%N).
  { transitivity (b' * qd * (u' * den))%N; [ring|]. rewrite E. ring. }
  assert (E2 : ((4 * m + 2) * u * qd * den' = (4 * m + 2) * (u * den' * qd))%N) by ring.
  assert (E3 : (qn * den * den' = qn * den' * den)%N) by ring.
  split; [|intros Hodd].
  - apply (N.mul_le_mono_pos_r _ _ (u * den' * qd)); lia.
  - apply (N.mul_lt_mono_pos_r (u * den' * qd)); [lia|]. destruct Hodd as [Hodd|Hodd].
    + specialize (Ho Hodd). lia.
    + specialize (Ho' Hodd). lia.
Qed.

Lemma even_succ_false m : N.even m = true → N.even (m + 1) = false.
Proof. intros H. by rewrite N.add_1_r, N.even_succ, <- N.negb_even, H. Qed.

Lemma binary64_bounds m e :
  m ≠ 0%N → binary64 m e = true → (m < 2 ^ 53)%N ∧ (-1074 <= e)%Z ∧ ((2 ^ 52 <= m)%N ∨ e = (-1074)%Z).
Proof.
  unfold binary64. intros Hm H. rewrite (proj2 (N.eqb_neq _ _)) in H by done. cbn [orb] in H.
  rewrite !andb_true_iff, orb_true_iff, N.ltb_lt, !Z.leb_le, N.leb_le, Z.eqb_eq in H. tauto.
Qed.

Lemma rounds_back_apart m e m' e' q s :
  m ≠ 0%N → m' ≠ 0%N → binary64 m e = true → binary64 m' e' = true →
  (e < e')%Z ∨ e = e' ∧ (m < m')%N →
  rounds_back m e q s = true → rounds_back m' e' q s = false.
Proof.
  intros Hm Hm' Hb Hb' Hlt H. apply not_true_iff_false. intros H'.
  destruct (rounds_back_ordered m e m' e' q s) as [Hle Hst]; [done|done|lia|done|done|].
  apply binary64_bounds in Hb as (Hv & Hlo & _); [|done]. apply binary64_bounds in Hb' as (_ & _ & Hn); [|done].
  destruct Hlt as [Hlt|[<- Hlt]].
  - destruct Hn as [Hn|]; [|lia].
    assert (Hp : (2 ≤ 2 ^ Z.to_N (e' - e))%N).
    { change 2%N with (2 ^ 1)%N at 1. apply N.pow_le_mono_r; lia. }
    assert (Hodd : m = (2 ^ 53 - 1)%N → N.even m = false) by by intros ->.
    assert (Hg : (2 ^ 54 - 1 ≤ 4 * m' - gap_below m' e')%N).
    { unfold gap_below. rewrite (proj2 (Z.ltb_lt _ _)) by lia.
      destruct (N.eqb_spec m' (2 ^ 52)) as [->|]; cbn [andb]; lia. }
    assert (Hd : ((2 ^ 54 - 1) * 2 ≤ (4 * m' - gap_below m' e') * 2 ^ Z.to_N (e' - e))%N) by by apply N.mul_le_mono.
    assert (Hm1 : m = (2 ^ 53 - 1)%N) by lia. specialize (Hst (or_introl (Hodd Hm1))). lia.
  - rewrite Z.sub_diag in *. cbn in Hle, Hst. pose proof (gap_bounds m' e).
    assert (m' = m + 1)%N as -> by lia.
    assert (Hodd : N.even m = false ∨ N.even (m + 1) = false).
    { destruct (N.even m) eqn:Ev; [right; by apply even_succ_false|by left]. }
    specialize (Hst Hodd). lia.
Qed.

Lemma rounds_back_unique m e m' e' q s :
  m ≠ 0%N → m' ≠ 0%N → binary64 m e = true → binary64 m' e' = true →
  rounds_back m e q s = true → rounds_back m' e' q s = true → m = m' ∧ e = e'.
Proof.
  intros Hm Hm' Hb Hb' H H'. destruct (Z.lt_total e e') as [|[->|]].
  - rewrite (rounds_back_apart m e m' e' q s) in H' by (tauto || done). done.
  - split; [|done]. destruct (N.lt_total m m') as [|[->|]]; [|done|].
    + rewrite (rounds_back_apart m e' m' e' q s) in H' by (tauto || done). done.
    + rewrite (rounds_back_apart m' e' m e' q s) in H by (tauto || done). done.
  - rewrite (rounds_back_apart m' e' m e q s) in H by (tauto || done). done.
Qed.

(** ** The digits that are printed round back *)

Lemma undigits_app base a l m : undigits base a (l ++ m) = undigits base (undigits base a l) m.
Proof. unfold undigits. apply fold_left_app. Qed.

Lemma undigits_zeros_end n l a : undigits 10 a (l ++ replicate n 0%N) = (undigits 10 a l * 10 ^ N.of_nat n)%N.
Proof.
  induction n as [|n IH] in l |-*; [by rewrite app_nil_r, N.mul_1_r|].
  cbn [replicate]. change (0%N :: replicate n 0%N) with ([0%N] ++ replicate n 0%N).
  rewrite app_assoc, IH, undigits_app. rewrite Nat2N.inj_succ, N.pow_succ_r'. unfold undigits at 1. simpl. lia.
Qed.

Lemma trim0_split d : ∃ j, d = trim0 d ++ replicate j 0%N.
Proof.
  induction d as [|c d [j IH]]; [by exists 0%nat|]. cbn [trim0 foldr]. fold (trim0 d).
  destruct (trim0 d) as [|x t] eqn:E.
  - destruct (N.eqb_spec c 0) as [->|].
    + exists (S j). cbn. by rewrite IH at 1.
    + exists j. cbn in *. by rewrite IH at 1.
  - exists j. cbn in *. by rewrite IH at 1.
Qed.

(** What is printed for a positive float: decimal digits, not all zero, that
    round back. *)
Definition prints (m : N) (e : Z) (d : list N) (s : Z) : Prop :=
  Forall (λ d, (d < 10)%N) d ∧ rounds_back m e (undigits 10 0 d) s = true.

Lemma prints_zeros m e d s (j : nat) :
  prints m e (d ++ replicate j 0%N) (s + Z.of_nat j) ↔ prints m e d s.
Proof.
  unfold prints. rewrite undigits_zeros_end, rounds_back_zeros, Forall_app. split.
  - by intros [[? _] ?].
  - intros [? ?]. split; [|done]. split; [done|]. by apply Forall_replicate.
Qed.

Lemma digits_at_prints m e q s :
  rounds_back m e q s = true →
  let '(d, p) := digits_at q s in prints m e d (Z.of_nat (length d) - p).
Proof.
  intros H. unfold digits_at. destruct (trim0_split (digits 10 q)) as [j E].
  apply (prints_zeros _ _ _ _ j). rewrite <- E.
  assert (El : length (digits 10 q) = (length (trim0 (digits 10 q)) + j)%nat).
  { rewrite E at 1. by rewrite length_app, length_replicate. }
  replace (_ + Z.of_nat j)%Z with s by lia.
  split; [apply digits_bound; lia|]. by rewrite digits_value by lia.
Qed.

Lemma try_digits_rounds m e p n q : try_digits m e p n = Some q → rounds_back m e q (n - p) = true.
Proof.
  intros H. unfold try_digits in H.
  destruct (frac m e) as [[num den] u], (scale10 num den (n - p)) as [a b]. cbv zeta in H.
  match type of H with context [rounds_back m e ?near _] => set (x := near) in H end.
  destruct (rounds_back m e x _) eqn:E1; [by injection H as <-|].
  match type of H with context [rounds_back m e ?far _] => set (y := far) in H end.
  destruct (rounds_back m e y _) eqn:E2; [by injection H as <-|done].
Qed.

Lemma shortest_from_prints fuel m e p n :
  m ≠ 0%N → let '(d, p) := shortest_from fuel m e p n in prints m e d (Z.of_nat (length d) - p).
Proof.
  intros Hm. revert n. induction fuel as [|f IH]; intros n; cbn [shortest_from].
  - pose proof (rounds_back_exact m e Hm) as H. destruct (exact_digits m e) as [q s].
    by apply digits_at_prints.
  - destruct (try_digits m e p n) as [q|] eqn:Hq; [|apply IH].
    by apply digits_at_prints, try_digits_rounds.
Qed.

Lemma decimal_tuple_prints neg m e :
  m ≠ 0%N → let '(sign, d, ex) := decimal_tuple neg m e in sign = neg ∧ prints m e d (- ex).
Proof.
  intros Hm. unfold decimal_tuple, shortest. rewrite (proj2 (N.eqb_neq _ _)) by done.
  destruct (frac m e) as [[num den] u].
  pose proof (shortest_from_prints 17 m e (find_decpt 700 num den 0) 1 Hm) as H.
  destruct (shortest_from _ _ _ _ _) as [d p].
  destruct (_ && _) eqn:Hc; (split; [done|]); [|by rewrite Z.opp_sub_distr, Z.add_comm, Z.add_opp_r].
  bprop.
  change [0%N] with (replicate 1 0%N). rewrite <- replicate_add.
  replace (- -1)%Z with (Z.of_nat (length d) - p + Z.of_nat (Z.to_nat (p - Z.of_nat (length d)) + 1))%Z by lia.
  by apply prints_zeros.
Qed.

Lemma nonzero_digit l : undigits 10 0 l ≠ 0%N → Exists (λ d, d ≠ 0%N) l.
Proof.
  intros Hq. apply (not_Forall_Exists (λ d, d = 0%N)). intros Hz.
  apply Hq. clear Hq. induction Hz as [|d l -> Hl IH]; [done|]. exact IH.
Qed.

Lemma decimal_tuple_digits neg m e :
  m ≠ 0%N →
  Forall (λ d, (d < 10)%N) (decimal_tuple neg m e).1.2 ∧
  Exists (λ d, d ≠ 0%N) (decimal_tuple neg m e).1.2.
Proof.
  intros Hm. pose proof (decimal_tuple_prints neg m e Hm) as H.
  destruct (decimal_tuple neg m e) as [[sign d] ex]. destruct H as (_ & Hd & Hr).
  split; [done|]. eapply nonzero_digit, rounds_back_pos; done.
Qed.
