(* ===== verification/Json.v ===== *)
(** JSON values as the Python objects that [json.loads] builds, the [dict]
    operations the node uses on them, their truth value, [str] and [repr], and
    [json.dumps] in the two formats the node writes. *)

From stdpp Require Import base list gmap sorting.
From Stdlib Require Import NArith ZArith Lia.
From S2P Require Import Prelude PyStr PyFloat.

(** A [dict] keeps its insertion order, so it is an association list; [wf]
    says that no key occurs twice. *)
Unset Elimination Schemes.
Inductive json : Set :=
| JNull
| JBool (b : bool)
| JInt (z : Z)
| JFloat (x : pyfloat)
| JStr (s : pystr)
| JList (l : list json)
| JDict (d : list (pystr * json)).
Set Elimination Schemes.

Abbreviation dict := (list (pystr * json)).

Section json_ind.
Variable P : json → Prop.
Hypothesis Pnull : P JNull.
Hypothesis Pbool : ∀ b, P (JBool b).
Hypothesis Pint : ∀ z, P (JInt z).
Hypothesis Pfloat : ∀ x, P (JFloat x).
Hypothesis Pstr : ∀ s, P (JStr s).
Hypothesis Plist : ∀ l, Forall P l → P (JList l).
Hypothesis Pdict : ∀ d, Forall (λ kv, P kv.2) d → P (JDict d).

Fixpoint json_ind (j : json) : P j :=
  match j with
  | JNull => Pnull
  | JBool b => Pbool b
  | JInt z => Pint z
  | JFloat x => Pfloat x
  | JStr s => Pstr s
  | JList l => Plist l
      ((fix go (l : list json) : Forall P l :=
          match l with
          | [] => Forall_nil_2 _
          | j :: l => Forall_cons_2 _ _ _ (json_ind j) (go l)
          end) l)
  | JDict d => Pdict d
      ((fix go (d : dict) : Forall (λ kv, P kv.2) d :=
          match d with
          | [] => Forall_nil_2 _
          | kv :: d => Forall_cons_2 _ _ _ (json_ind kv.2) (go d)
          end) d)
  end.
End json_ind.

(** Structural equality (used for results and witnesses; Python's [==] also
    equates numbers of different types, see [py_eqb] below). *)
Fixpoint json_eqb (a b : json) {struct a} : bool :=
  match a, b with
  | JNull, JNull => true
  | JBool x, JBool y => Bool.eqb x y
  | JInt x, JInt y => (x =? y)%Z
  | JFloat x, JFloat y => bool_decide (x = y)
  | JStr x, JStr y => bool_decide (x = y)
  | JList x, JList y =>
      (fix go (x y : list json) : bool :=
         match x, y with
         | [], [] => true
         | a :: x, b :: y => json_eqb a b && go x y
         | _, _ => false
         end) x y
  | JDict x, JDict y =>
      (fix go (x y : dict) : bool :=
         match x, y with
         | [], [] => true
         | (k, a) :: x, (l, b) :: y => bool_decide (k = l) && json_eqb a b && go x y
         | _, _ => false
         end) x y
  | _, _ => false
  end.

Lemma json_eqb_eq a b : json_eqb a b = true ↔ a = b.
Proof.
  revert b. induction a as [|x|x|x|x|l IH|d IH]; intros [|y|y|y|y|l'|d']; simpl;
    try (split; [discriminate|intros [=]]; fail).
  - done.
  - rewrite Bool.eqb_true_iff. naive_solver.
  - rewrite Z.eqb_eq. naive_solver.
  - rewrite bool_decide_eq_true. naive_solver.
  - rewrite bool_decide_eq_true. naive_solver.
  - revert l'. induction IH as [|a l Ha Hl IH]; intros [|b l'];
      try (split; [discriminate|intros [=]]; fail); [done|].
    rewrite andb_true_iff, Ha. specialize (IH l'). naive_solver.
  - revert d'. induction IH as [|[k a] d Ha Hd IH]; intros [|[k' b] d'];
      try (split; [discriminate|intros [=]]; fail); [done|].
    simpl in Ha. rewrite !andb_true_iff, Ha, bool_decide_eq_true.
    specialize (IH d'). naive_solver.
Qed.

#[global] Instance json_eq_dec : EqDecision json.
Proof.
  intros a b. destruct (json_eqb a b) eqn:E.
  - left. by apply json_eqb_eq.
  - right. intros ?%json_eqb_eq. congruence.
Defined.

(** ** Dictionaries *)

Section dict.
Context {V : Type}.
Implicit Types d : list (pystr * V).

(** [d.get(k)], [None] when the key is absent. *)
Fixpoint dget (k : pystr) d : option V :=
  match d with
  | [] => None
  | (k', v) :: d => if decide (k = k') then Some v else dget k d
  end.

(** [k in d] *)
Definition dmem (k : pystr) d : bool :=
  match dget k d with Some _ => true | None => false end.

(** [d[k] = v]: an existing key keeps its position. *)
Fixpoint dset (k : pystr) (v : V) d : list (pystr * V) :=
  match d with
  | [] => [(k, v)]
  | (k', v') :: d => if decide (k = k') then (k', v) :: d else (k', v') :: dset k v d
  end.

(** [d.pop(k, None)] *)
Definition ddel (k : pystr) d : list (pystr * V) :=
  List.filter (λ kv, negb (bool_decide (kv.1 = k))) d.

(** The keys, in order. *)
Definition dkeys d : list pystr := map fst d.

(** A dict built by inserting the pairs in order (a comprehension). *)
Definition dict_of (kvs : list (pystr * V)) : list (pystr * V) :=
  fold_left (λ d kv, dset kv.1 kv.2 d) kvs [].
End dict.

Fixpoint wf (j : json) : Prop :=
  match j with
  | JList l => (fix go (l : list json) : Prop :=
                  match l with [] => True | j :: l => wf j ∧ go l end) l
  | JDict d => NoDup (dkeys d) ∧
               (fix go (d : dict) : Prop :=
                  match d with [] => True | kv :: d => wf kv.2 ∧ go d end) d
  | _ => True
  end.

(** ** Types and truth *)

Definition is_str (j : json) : bool := match j with JStr _ => true | _ => false end.
Definition is_list (j : json) : bool := match j with JList _ => true | _ => false end.
Definition is_dict (j : json) : bool := match j with JDict _ => true | _ => false end.
Definition is_bool (j : json) : bool := match j with JBool _ => true | _ => false end.
Definition is_null (j : json) : bool := match j with JNull => true | _ => false end.

(** [bool(x)] *)
Definition truthy (j : json) : bool :=
  match j with
  | JNull => false
  | JBool b => b
  | JInt z => negb (z =? 0)%Z
  | JFloat x => match x with FFin _ m _ => negb (m =? 0)%N | _ => true end
  | JStr s => match s with [] => false | _ => true end
  | JList l => match l with [] => false | _ => true end
  | JDict d => match d with [] => false | _ => true end
  end.

(** The number a value counts as ([bool] is a subclass of [int]). *)
Inductive num : Set := NInt (z : Z) | NFloat (x : pyfloat).
Definition num_of (j : json) : option num :=
  match j with
  | JBool b => Some (NInt (if b then 1 else 0)%Z)
  | JInt z => Some (NInt z)
  | JFloat x => Some (NFloat x)
  | _ => None
  end.
Definition num_eqb (a b : num) : bool :=
  match a, b with
  | NInt x, NInt y => (x =? y)%Z
  | NInt x, NFloat y => float_eq_int y x
  | NFloat x, NInt y => float_eq_int x y
  | NFloat x, NFloat y => float_eqb x y
  end.
(** [j == z] for an integer [z]. *)
Definition py_eq_int (j : json) (z : Z) : bool :=
  match num_of j with Some n => num_eqb n (NInt z) | None => false end.

(** [d.get(k)] with the default [None], which JSON [null] also denotes. *)
Definition get_or_null (k : pystr) (d : dict) : json := default JNull (dget k d).

(** ** [str] and [repr] of a value *)
Section repr.
Context `{Unicode}.
Fixpoint py_repr (j : json) : pystr :=
  match j with
  | JNull => "None"
  | JBool b => if b then "True" else "False"
  | JInt z => str_of_Z z
  | JFloat x => float_repr x
  | JStr s => repr_str s
  | JList l => "[" ++ join ", " (map py_repr l) ++ "]"
  | JDict d => "{" ++ join ", " (map (λ kv, repr_str kv.1 ++ ": " ++ py_repr kv.2) d) ++ "}"
  end.
Definition py_str (j : json) : pystr :=
  match j with JStr s => s | _ => py_repr j end.
(** [str(d.get(k, default))] *)
Definition str_get (k default : pystr) (d : dict) : pystr :=
  match dget k d with Some j => py_str j | None => default end.
End repr.

(** ** [json.dumps] *)

(** Insertion of a pair into a list sorted by key: [sort_keys]. *)
Definition key_le {V} (a b : pystr * V) : Prop := str_le a.1 b.1.
#[global] Instance key_le_dec {V} : RelDecision (@key_le V).
Proof. intros a b. unfold key_le. apply _. Defined.

(** [json.dumps(j, sort_keys=True, separators=(",", ":"))] *)
Fixpoint dumps_compact (j : json) : pystr :=
  match j with
  | JNull => "null"
  | JBool b => if b then "true" else "false"
  | JInt z => str_of_Z z
  | JFloat x => json_dumps_float x
  | JStr s => json_dumps_str s
  | JList l => "[" ++ join "," (map dumps_compact l) ++ "]"
  | JDict d =>
      "{" ++ join "," (map (λ kv, json_dumps_str kv.1 ++ ":" ++ kv.2)
                         (merge_sort key_le (map (λ kv, (kv.1, dumps_compact kv.2)) d))) ++ "}"
  end.

(** A string with [ensure_ascii=False]: only the double quote, the backslash
    and the control characters are escaped. *)
Definition raw_esc_char (c : N) : pystr :=
  if ((c <? 32) || (c =? DQ) || (c =? BS))%N then json_esc_char c else [c].
Definition json_dumps_raw_str (s : pystr) : pystr :=
  DQ :: concat (map raw_esc_char s) ++ [DQ].

(** [json.dumps(j, indent=2, ensure_ascii=False)] at nesting depth [n]. *)
Fixpoint dumps_indent (n : nat) (j : json) : pystr :=
  let nl (k : nat) : pystr := NL :: replicate (2 * k) 32%N in
  match j with
  | JNull => "null"
  | JBool b => if b then "true" else "false"
  | JInt z => str_of_Z z
  | JFloat x => json_dumps_float x
  | JStr s => json_dumps_raw_str s
  | JList [] => "[]"
  | JList l => "[" ++ nl (S n) ++ join ("," ++ nl (S n)) (map (dumps_indent (S n)) l)
               ++ nl n ++ "]"
  | JDict [] => "{}"
  | JDict d => "{" ++ nl (S n) ++
      join ("," ++ nl (S n))
        (map (λ kv, json_dumps_raw_str kv.1 ++ ": " ++ dumps_indent (S n) kv.2) d)
      ++ nl n ++ "}"
  end.

(** ** The error payload every component returns *)
Definition error_dict (code message : pystr) : json :=
  JDict [("ok", JBool false); ("error", JStr code); ("message", JStr message)].

(** The ["error"] of a payload, when it is a string. *)
Definition error_code (j : json) : option pystr :=
  match j with
  | JDict d => match dget "error" d with Some (JStr c) => Some c | _ => None end
  | _ => None
  end.

(** ** What occurs in a value *)

(** [occurs x j]: [x] is [j] or lies inside it. *)
Inductive occurs (x : json) : json → Prop :=
| occurs_here : occurs x x
| occurs_item l y : y ∈ l → occurs x y → occurs x (JList l)
| occurs_value d k y : (k, y) ∈ d → occurs x y → occurs x (JDict d).

(** A string that [j] shows, as a value or as a key. *)
Definition str_occurs (s : pystr) (j : json) : Prop :=
  occurs (JStr s) j ∨ ∃ d v, occurs (JDict d) j ∧ (s, v) ∈ d.

(** ** Facts *)

Section dict_facts.
Context {V : Type}.
Implicit Types d : list (pystr * V).

Lemma dget_dset_eq k v d : dget k (dset k v d) = Some v.
Proof.
  induction d as [|[k' v'] d IH]; simpl; [by case_decide|].
  case_decide; simpl; by case_decide.
Qed.

Lemma dget_dset_ne k k' v d : k ≠ k' → dget k (dset k' v d) = dget k d.
Proof.
  intros ?. induction d as [|[k2 v2] d IH]; simpl; [by case_decide|].
  repeat (case_decide; simpl; simplify_eq); done.
Qed.

Lemma dget_ddel_eq k d : dget k (ddel k d) = None.
Proof.
  induction d as [|[k' v'] d IH]; simpl; [done|].
  case_bool_decide; simpl; [done|]. by case_decide.
Qed.

Lemma dget_ddel_ne k k' d : k ≠ k' → dget k (ddel k' d) = dget k d.
Proof.
  intros ?. induction d as [|[k2 v2] d IH]; simpl; [done|].
  case_bool_decide; simpl; case_decide; simplify_eq; done.
Qed.

Lemma dmem_true k d : dmem k d = true ↔ ∃ v, dget k d = Some v.
Proof. unfold dmem. destruct (dget k d); naive_solver. Qed.
Lemma dmem_false k d : dmem k d = false ↔ dget k d = None.
Proof. unfold dmem. destruct (dget k d); naive_solver. Qed.

Lemma dget_elem k v d : dget k d = Some v → (k, v) ∈ d.
Proof. induction d as [|[k' v'] d IH]; simpl; [done|]. case_decide; set_solver. Qed.

Lemma elem_dkeys k d : k ∈ dkeys d ↔ is_Some (dget k d).
Proof.
  induction d as [|[k' v'] d IH]; simpl; [split; [by intros ?%elem_of_nil|by intros []]|].
  rewrite elem_of_cons, IH. case_decide; simplify_eq; naive_solver.
Qed.

Lemma dset_absent k v d : dget k d = None → dset k v d = d ++ [(k, v)].
Proof. induction d as [|[k' v'] d IH]; simpl; [done|].
  case_decide; [done|]. intros ?. f_equal. by apply IH. Qed.

Lemma ddel_absent k d : dget k d = None → ddel k d = d.
Proof.
  induction d as [|[k' v'] d IH]; simpl; [done|].
  case_decide; [done|]. intros ?. rewrite bool_decide_eq_false_2 by done. simpl.
  f_equal. by apply IH.
Qed.
End dict_facts.

#[export] Hint Rewrite @dget_dset_eq @dget_ddel_eq : py.
#[export] Hint Rewrite @dget_dset_ne @dget_ddel_ne using done : py.

Section dict_of_facts.
Context {V : Type}.
Implicit Types d kvs : list (pystr * V).

Lemma elem_of_dset x k v d : x ∈ dset k v d → x = (k, v) ∨ x ∈ d.
Proof.
  induction d as [|[k' v'] d IH]; simpl; [set_solver|].
  case_decide; simplify_eq; rewrite !elem_of_cons; naive_solver.
Qed.

Lemma dkeys_dset k v d :
  dkeys (dset k v d) = if decide (k ∈ dkeys d) then dkeys d else dkeys d ++ [k].
Proof.
  induction d as [|[k' v'] d IH]; [done|]. cbn [dset dkeys map fst].
  destruct (decide (k = k')) as [->|Hne]; simpl.
  - by rewrite decide_True by (by left).
  - unfold dkeys in IH. rewrite IH. repeat case_decide; set_solver.
Qed.

Lemma dset_NoDup k v d : NoDup (dkeys d) → NoDup (dkeys (dset k v d)).
Proof.
  intros H. rewrite dkeys_dset. case_decide; [done|].
  apply NoDup_app. split; [done|]. split; [set_solver|apply NoDup_singleton].
Qed.

Lemma dict_of_fold kvs d x :
  x ∈ fold_left (λ d kv, dset kv.1 kv.2 d) kvs d → x ∈ d ∨ x ∈ kvs.
Proof.
  revert d. induction kvs as [|[k v] kvs IH]; intros d; simpl; [by left|].
  intros [Hx|Hx]%IH; [|set_solver]. apply elem_of_dset in Hx. set_solver.
Qed.
Lemma elem_of_dict_of x kvs : x ∈ dict_of kvs → x ∈ kvs.
Proof. unfold dict_of. intros [?%elem_of_nil|?]%dict_of_fold; done. Qed.

Lemma dict_of_NoDup kvs : NoDup (dkeys (dict_of kvs)).
Proof.
  unfold dict_of. assert (H : NoDup (dkeys (V:=V) [])) by constructor.
  revert H. generalize (nil : list (pystr * V)). induction kvs as [|[k v] kvs IH];
    intros d Hd; simpl; [done|]. by apply IH, dset_NoDup.
Qed.

Lemma dict_of_id kvs : NoDup (dkeys kvs) → dict_of kvs = kvs.
Proof.
  unfold dict_of. change kvs with ([] ++ kvs) at 1 3.
  generalize (nil : list (pystr * V)).
  induction kvs as [|[k v] kvs IH]; intros d Hd; simpl; [by rewrite app_nil_r|].
  rewrite dset_absent.
  - rewrite IH; [by rewrite <- app_assoc|]. by rewrite <- app_assoc.
  - destruct (dget k d) as [w|] eqn:Hg; [|done]. exfalso.
    unfold dkeys in Hd. rewrite map_app in Hd. apply NoDup_app in Hd as (_ & Hd & _).
    apply (Hd k); [apply (elem_dkeys k d); by exists w|by left].
Qed.
End dict_of_facts.

(** [wf] with its list and dict cases as [Forall]. *)
Lemma wf_list l : wf (JList l) ↔ Forall wf l.
Proof.
  simpl. induction l as [|j l IH]; [by split|]. rewrite IH, Forall_cons. done.
Qed.
Lemma wf_dict d : wf (JDict d) ↔ NoDup (dkeys d) ∧ Forall (λ kv, wf kv.2) d.
Proof.
  simpl. apply and_iff_compat_l. induction d as [|kv d IH]; [by split|].
  rewrite IH, Forall_cons. done.
Qed.

Section dict_overwrite.
Context {V : Type}.
Implicit Types d : list (pystr * V).
Lemma dset_dset k v w d : dset k v (dset k w d) = dset k v d.
Proof.
  induction d as [|[k' v'] d IH]; simpl; [by case_decide|].
  case_decide; simpl; case_decide; simplify_eq; [done|]. by rewrite IH.
Qed.
Lemma ddel_dset k v d : ddel k (dset k v d) = ddel k d.
Proof.
  induction d as [|[k' v'] d IH]; simpl; [by case_bool_decide|].
  unfold ddel in *. case_decide; simplify_eq; simpl; case_bool_decide; simpl; congruence.
Qed.
Lemma dget_Some_elem k v d : NoDup (dkeys d) → (k, v) ∈ d → dget k d = Some v.
Proof.
  induction d as [|[k' v'] d IH]; intros Hnd; [by intros ?%elem_of_nil|].
  apply NoDup_cons in Hnd as [Hk Hnd]. rewrite elem_of_cons. simpl.
  intros [[= -> ->]|Hin]; [by case_decide|]. case_decide as E; [|by apply IH].
  subst. destruct Hk. apply list_elem_of_fmap. by exists (k', v).
Qed.
End dict_overwrite.
