(* ===== verification/JsonParse.v ===== *)
(** [json.loads], and that it reads back what [json.dumps(indent=2,
    ensure_ascii=False)] wrote. *)

From stdpp Require Import base list gmap sorting.
From Stdlib Require Import NArith ZArith Lia.
From S2P Require Import Prelude PyStr PyFloat Json.

(** ** UTF-8 decoding: [raw.decode("utf-8")], [None] for [UnicodeDecodeError] *)

Definition is_cont (b : N) : bool := ((128 <=? b) && (b <? 192))%N.
Fixpoint utf8_decode (fuel : nat) (bs : list N) : option pystr :=
  match fuel, bs with
  | _, [] => Some []
  | O, _ => None
  | S f, b :: bs =>
      let ok (c lo : N) (rest : list N) :=
        if ((lo <=? c) && negb (is_surrogate c) && (c <? 1114112))%N
        then match utf8_decode f rest with Some s => Some (c :: s) | None => None end
        else None in
      if (b <? 128)%N then ok b 0%N bs
      else if ((192 <=? b) && (b <? 224))%N then
        match bs with
        | c :: bs => if is_cont c then ok ((b - 192) * 64 + (c - 128))%N 128%N bs else None
        | _ => None
        end
      else if ((224 <=? b) && (b <? 240))%N then
        match bs with
        | c :: d :: bs =>
            if is_cont c && is_cont d
            then ok ((b - 224) * 4096 + (c - 128) * 64 + (d - 128))%N 2048%N bs else None
        | _ => None
        end
      else if ((240 <=? b) && (b <? 248))%N then
        match bs with
        | c :: d :: e :: bs =>
            if is_cont c && is_cont d && is_cont e
            then ok ((b - 240) * 262144 + (c - 128) * 4096 + (d - 128) * 64 + (e - 128))%N
                   65536%N bs
            else None
        | _ => None
        end
      else None
  end.
Definition decode (bs : list N) : option pystr := utf8_decode (length bs) bs.

(** ** Decimal to binary64, round to nearest even *)

(** [num/den > 0] rounded. *)
Definition float_of_ratio (neg : bool) (num den : N) : pyfloat :=
  let guess := (Z.of_N (N.log2 num) - Z.of_N (N.log2 den) - 52)%Z in
  let scaled (e : Z) : N * N :=
    if (0 <=? e)%Z then (num, den * 2 ^ Z.to_N e)%N else (num * 2 ^ Z.to_N (- e), den)%N in
  (* the quotient at the guess has 53 bits, or 52 when the guess is one too big *)
  let e0 := if (let '(a, b) := scaled guess in a / b <? 2 ^ 52)%N then (guess - 1)%Z else guess in
  let e := Z.max e0 (-1074) in
  let '(a, b) := scaled e in
  let q := (a / b)%N in
  let r := (a mod b)%N in
  let m := if (2 * r <? b)%N then q
           else if (b <? 2 * r)%N then (q + 1)%N
           else if N.even q then q else (q + 1)%N in
  let '(m, e) := if (m =? 2 ^ 53)%N then ((2 ^ 52)%N, (e + 1)%Z) else (m, e) in
  if (971 <? e)%Z then FInf neg else FFin neg m e.

Definition float_of_decimal (neg : bool) (digits : N) (exp10 : Z) : pyfloat :=
  if (digits =? 0)%N then FFin neg 0 0
  else if (0 <=? exp10)%Z then float_of_ratio neg (digits * 10 ^ Z.to_N exp10) 1
  else float_of_ratio neg digits (10 ^ Z.to_N (- exp10)).

(** ** The scanner *)

Definition is_ws (c : N) : bool := ((c =? 32) || (c =? 9) || (c =? 10) || (c =? 13))%N.
Fixpoint skip_ws (s : pystr) : pystr :=
  match s with
  | c :: s' => if is_ws c then skip_ws s' else s
  | [] => []
  end.

Definition hex_value (c : N) : option N :=
  (if is_digit c then Some (c - 48)
   else if (97 <=? c) && (c <=? 102) then Some (c - 87)
   else if (65 <=? c) && (c <=? 70) then Some (c - 55)
   else None)%N.
Definition hex4 (s : pystr) : option (N * pystr) :=
  match s with
  | a :: b :: c :: d :: s =>
      match hex_value a, hex_value b, hex_value c, hex_value d with
      | Some a, Some b, Some c, Some d => Some ((((a * 16 + b) * 16 + c) * 16 + d)%N, s)
      | _, _, _, _ => None
      end
  | _ => None
  end.

(** The character after a backslash, other than [u]. *)
Definition escape_value (c : N) : option N :=
  (if c =? DQ then Some DQ else if c =? BS then Some BS else if c =? 47 then Some 47
   else if c =? 98 then Some 8 else if c =? 102 then Some 12 else if c =? 110 then Some 10
   else if c =? 114 then Some 13 else if c =? 116 then Some 9 else None)%N.

(** What the scanner raises: [JSONDecodeError], and the [ValueError] of [int]
    for more than 4300 digits, which is not one. *)
Definition JSONDecodeError : exn := Exn "JSONDecodeError" "malformed".
Definition int_too_long : exn :=
  Exn "ValueError" "Exceeds the limit (4300 digits) for integer string conversion".
Definition malformed {A} : res A := Raise JSONDecodeError.

(** The text of a string after its opening quote.  [\u] escapes of a surrogate
    pair combine. *)
Definition cons_char (c : N) (r : res (pystr * pystr)) : res (pystr * pystr) :=
  let? (s, rest) := r in Ret (c :: s, rest).
Fixpoint scan_string (fuel : nat) (s : pystr) : res (pystr * pystr) :=
  match fuel, s with
  | S f, c :: s =>
      if (c =? DQ)%N then Ret ([], s)
      else if (c =? BS)%N then
        match s with
        | 117%N :: s =>
            match hex4 s with
            | None => malformed
            | Some (u, s1) =>
                let plain := cons_char u (scan_string f s1) in
                if ((55296 <=? u) && (u <=? 56319))%N then
                  match s1 with
                  | 92%N :: 117%N :: s2 =>
                      match hex4 s2 with
                      | None => malformed
                      | Some (v, s3) =>
                          if ((56320 <=? v) && (v <=? 57343))%N
                          then cons_char (65536 + (u - 55296) * 1024 + (v - 56320))%N
                                 (scan_string f s3)
                          else plain
                      end
                  | _ => plain
                  end
                else plain
            end
        | e :: s => match escape_value e with
                    | Some c => cons_char c (scan_string f s)
                    | None => malformed
                    end
        | [] => malformed
        end
      else if (c <? 32)%N then malformed
      else cons_char c (scan_string f s)
  | _, _ => malformed
  end.

Fixpoint take_digits (s : pystr) : pystr * pystr :=
  match s with
  | c :: s' => if is_digit c then let '(d, r) := take_digits s' in (c :: d, r) else ([], s)
  | [] => ([], [])
  end.
Definition number_of (ds : pystr) : N := undigits 10 0 (map (λ c, c - 48)%N ds).

(** A number: an optional minus sign, [0] or digits that do not start with [0],
    an optional fraction, an optional exponent.  An integer of more than 4300
    digits is refused by [int]. *)
Definition scan_number (s : pystr) : res (json * pystr) :=
  let '(neg, s1) := match s with 45%N :: s' => (true, s') | _ => (false, s) end in
  let '(ds, s2) := match s1 with
                   | 48%N :: r => ([48%N], r)
                   | _ => take_digits s1
                   end in
  match ds with
  | [] => malformed
  | _ =>
      let '(frac, s3) := match s2 with
                         | 46%N :: r => match take_digits r with
                                        | ([], _) => ([], s2)
                                        | fr => fr
                                        end
                         | _ => ([], s2)
                         end in
      let '(ex, s4) :=
        match s3 with
        | c :: r =>
            if ((c =? 101) || (c =? 69))%N then
              let '(eneg, r1) := match r with
                                 | 45%N :: r' => (true, r')
                                 | 43%N :: r' => (false, r')
                                 | _ => (false, r)
                                 end in
              match take_digits r1 with
              | ([], _) => (None, s3)
              | (eds, r2) => (Some (if eneg then - Z.of_N (number_of eds)
                                    else Z.of_N (number_of eds))%Z, r2)
              end
            else (None, s3)
        | [] => (None, s3)
        end in
      match frac, ex with
      | [], None =>
          if (4300 <? length ds)%nat then Raise int_too_long
          else Ret (JInt (signed neg (number_of ds)), s4)
      | _, _ =>
          Ret (JFloat (float_of_decimal neg (number_of (ds ++ frac))
                  (default 0%Z ex - Z.of_nat (length frac))), s4)
      end
  end.

Definition strip_prefix (p s : pystr) : option pystr :=
  if startswith s p then Some (drop (length p) s) else None.

Definition scan_constant (s : pystr) : option (json * pystr) :=
  let const p v := match strip_prefix p s with Some r => Some (v, r) | None => None end in
  match const "null" JNull, const "true" (JBool true), const "false" (JBool false) with
  | Some r, _, _ | None, Some r, _ | None, None, Some r => Some r
  | None, None, None =>
      match const "NaN" (JFloat FNan), const "Infinity" (JFloat (FInf false)),
            const "-Infinity" (JFloat (FInf true)) with
      | Some r, _, _ | None, Some r, _ | None, None, Some r => Some r
      | None, None, None => None
      end
  end.

(** The text after the character [c]. *)
Definition eat (c : N) (s : pystr) : option pystr :=
  match s with
  | x :: s => if (x =? c)%N then Some s else None
  | [] => None
  end.

Fixpoint scan_value (fuel : nat) (s : pystr) : res (json * pystr) :=
  match fuel with
  | O => malformed
  | S f =>
      match s with
      | [] => malformed
      | c :: r =>
          if (c =? DQ)%N then let? (t, r) := scan_string (length r) r in Ret (JStr t, r)
          else if (c =? 91)%N then
            match eat 93 (skip_ws r) with
            | Some r => Ret (JList [], r)
            | None => let? (l, r) := scan_items f (skip_ws r) in Ret (JList l, r)
            end
          else if (c =? 123)%N then
            match eat 125 (skip_ws r) with
            | Some r => Ret (JDict [], r)
            | None => let? (d, r) := scan_members f (skip_ws r) in Ret (JDict (dict_of d), r)
            end
          else match scan_constant s with
               | Some v => Ret v
               | None => scan_number s
               end
      end
  end
with scan_items (fuel : nat) (s : pystr) : res (list json * pystr) :=
  match fuel with
  | O => malformed
  | S f =>
      let? (v, r) := scan_value f s in
      match skip_ws r with
      | 93%N :: r => Ret ([v], r)
      | 44%N :: r => let? (l, r) := scan_items f (skip_ws r) in Ret (v :: l, r)
      | _ => malformed
      end
  end
with scan_members (fuel : nat) (s : pystr) : res (dict * pystr) :=
  match fuel with
  | O => malformed
  | S f =>
      match s with
      | 34%N :: s =>
          let? (k, r) := scan_string (length s) s in
          match skip_ws r with
          | 58%N :: r =>
              let? (v, r) := scan_value f (skip_ws r) in
              match skip_ws r with
              | 125%N :: r => Ret ([(k, v)], r)
              | 44%N :: r => let? (d, r) := scan_members f (skip_ws r) in Ret ((k, v) :: d, r)
              | _ => malformed
              end
          | _ => malformed
          end
      | _ => malformed
      end
  end.

(** [json.loads(s)].  Every recursive call of the scanner but one per element
    follows a consumed character, so twice the length bounds the depth. *)
Definition loads (s : pystr) : res json :=
  match s with
  | 65279%N :: _ => malformed
  | _ =>
      let? (v, r) := scan_value (2 * length s + 2) (skip_ws s) in
      match skip_ws r with [] => Ret v | _ => malformed end
  end.

(** ** Decoding undoes encoding *)

Definition valid_char (c : N) : Prop := (c < 1114112)%N.

Lemma utf8_char_decode c u bs f :
  valid_char c → utf8_char c = Some u →
  utf8_decode (S f) (u ++ bs) = match utf8_decode f bs with Some s => Some (c :: s) | None => None end.
Proof.
  unfold valid_char. intros Hv Hu.
  assert (Hs : (128 ≤ c)%N → (65536 ≤ c)%N ∨ is_surrogate c = false).
  { intros. destruct (decide (65536 ≤ c)%N); [by left|right].
    unfold utf8_char in Hu. destruct (is_surrogate c) eqn:E; [|done].
    revert Hu. unfold is_surrogate in E. bprop.
    destruct (N.ltb_spec c 128); [lia|]. destruct (N.ltb_spec c 2048); [lia|done]. }
  assert (Hs' : is_surrogate c = false).
  { destruct (decide (128 ≤ c)%N) as [H|H]; [destruct (Hs H) as [?|?]; [|done]|];
      unfold is_surrogate; apply andb_false_iff; rewrite !N.leb_gt; lia. }
  unfold utf8_char in Hu.
  assert (Hc : ∀ x, is_cont (128 + x mod 64) = true).
  { intros x. pose proof (N.mod_lt x 64 ltac:(done)). unfold is_cont.
    apply andb_true_iff. rewrite N.leb_le, N.ltb_lt. revert H. generalize (x mod 64)%N. lia. }
  assert (Ha : ∀ a x, (a + x - a = x)%N) by lia.
  pose proof (N.div_mod c 64 ltac:(done)) as E1.
  pose proof (N.div_mod (c / 64) 64 ltac:(done)) as E2.
  pose proof (N.div_mod (c / 4096) 64 ltac:(done)) as E3.
  rewrite N.Div0.div_div in E2. rewrite N.Div0.div_div in E3.
  change (64 * 64)%N with 4096%N in E2. change (4096 * 64)%N with 262144%N in E3.
  pose proof (N.le_0_l (c / 64)). pose proof (N.le_0_l (c / 4096)).
  pose proof (N.le_0_l (c / 262144)).
  destruct (N.ltb_spec c 128).
  { injection Hu as <-. cbn [app utf8_decode]. rewrite (proj2 (N.ltb_lt c 128)) by done.
    rewrite (proj2 (N.leb_le 0 c)), Hs', (proj2 (N.ltb_lt c 1114112)) by lia. done. }
  destruct (N.ltb_spec c 2048).
  { injection Hu as <-. assert (c / 64 < 32)%N by (apply N.Div0.div_lt_upper_bound; lia).
    cbn [app utf8_decode]. rewrite (proj2 (N.ltb_ge _ 128)) by lia.
    rewrite (proj2 (N.leb_le 192 _)), (proj2 (N.ltb_lt _ 224)) by lia. cbn [andb]. rewrite Hc.
    rewrite !Ha. replace (c / 64 * 64 + c mod 64)%N with c by lia.
    rewrite (proj2 (N.leb_le 128 c)), Hs', (proj2 (N.ltb_lt c 1114112)) by lia. done. }
  rewrite Hs' in Hu. destruct (N.ltb_spec c 65536).
  - injection Hu as <-. assert (c / 4096 < 16)%N by (apply N.Div0.div_lt_upper_bound; lia).
    cbn [app utf8_decode]. rewrite (proj2 (N.ltb_ge _ 128)) by lia.
    rewrite (proj2 (N.ltb_ge _ 224)), andb_false_r by lia.
    rewrite (proj2 (N.leb_le 224 _)), (proj2 (N.ltb_lt _ 240)) by lia. cbn [andb]. rewrite !Hc.
    cbn [andb].
    rewrite !Ha. replace (c / 4096 * 4096 + (c / 64) mod 64 * 64 + c mod 64)%N with c by lia.
    rewrite (proj2 (N.leb_le 2048 c)), Hs', (proj2 (N.ltb_lt c 1114112)) by lia. done.
  - injection Hu as <-. assert (c / 262144 < 8)%N by (apply N.Div0.div_lt_upper_bound; lia).
    cbn [app utf8_decode]. rewrite (proj2 (N.ltb_ge _ 128)) by lia.
    rewrite (proj2 (N.ltb_ge _ 224)), andb_false_r by lia.
    rewrite (proj2 (N.ltb_ge _ 240)), andb_false_r by lia.
    rewrite (proj2 (N.leb_le 240 _)), (proj2 (N.ltb_lt _ 248)) by lia. cbn [andb]. rewrite !Hc.
    cbn [andb].
    rewrite !Ha.
    replace (c / 262144 * 262144 + (c / 4096) mod 64 * 4096 + (c / 64) mod 64 * 64 + c mod 64)%N
      with c by lia.
    rewrite (proj2 (N.leb_le 65536 c)), Hs', (proj2 (N.ltb_lt c 1114112)) by lia. done.
Qed.

Lemma utf8_decode_encode f s bs :
  Forall valid_char s → utf8 s = Some bs → length bs ≤ f → utf8_decode f bs = Some s.
Proof.
  revert f bs. induction s as [|c s IH]; intros f bs Hv Hu Hf.
  - injection Hu as <-. by destruct f.
  - apply Forall_cons in Hv as [Hc Hv]. apply utf8_cons in Hu as (u & us & Hcu & Hus & -> & Hne).
    rewrite length_app in Hf. destruct f as [|f]; [destruct u; simpl in Hf; [done|lia]|].
    rewrite (utf8_char_decode c u us f Hc Hcu), (IH f us); [done..|].
    destruct u; [done|]. simpl in Hf. lia.
Qed.
Lemma decode_encode s bs : Forall valid_char s → utf8 s = Some bs → decode bs = Some s.
Proof. intros. by apply utf8_decode_encode. Qed.

(** ** Reading undoes writing

    For values without floats, whose integers [int] accepts, and whose
    dictionaries have distinct keys. *)
Fixpoint plain (j : json) : Prop :=
  match j with
  | JFloat _ => False
  | JInt z => (length (str_of_N (Z.abs_N z)) <= 4300)%nat
  | JList l => (fix go (l : list json) : Prop :=
                  match l with [] => True | j :: l => plain j ∧ go l end) l
  | JDict d => NoDup (dkeys d) ∧
               (fix go (d : dict) : Prop :=
                  match d with [] => True | kv :: d => plain kv.2 ∧ go d end) d
  | _ => True
  end.
Lemma plain_list l : plain (JList l) ↔ Forall plain l.
Proof. simpl. induction l as [|j l IH]; [by split|]. by rewrite IH, Forall_cons. Qed.
Lemma plain_dict d : plain (JDict d) ↔ NoDup (dkeys d) ∧ Forall (λ kv, plain kv.2) d.
Proof.
  simpl. apply and_iff_compat_l. induction d as [|kv d IH]; [by split|]. by rewrite IH, Forall_cons.
Qed.

Lemma scan_string_raw s rest f :
  length s < f → scan_string f (concat (map raw_esc_char s) ++ DQ :: rest) = Ret (s, rest).
Proof.
  revert f. induction s as [|c s IH]; intros [|f] Hf; simpl in Hf; try lia; [done|].
  cbn [map concat]. rewrite <- app_assoc. specialize (IH f ltac:(lia)).
  set (t := concat _ ++ _) in *. clearbody t.
  assert (Hs : scan_string (S f) (raw_esc_char c ++ t) = cons_char c (scan_string f t)).
  { unfold raw_esc_char. destruct (N.eqb_spec c DQ) as [->|H1]; [done|].
    destruct (N.eqb_spec c BS) as [->|H2]; [done|]. rewrite !orb_false_r.
    destruct (N.ltb_spec c 32) as [Hc|Hc].
    - assert (Hin : c ∈ map N.of_nat (seq 0 32)).
      { apply list_elem_of_fmap. exists (N.to_nat c). split; [lia|]. apply elem_of_seq. lia. }
      clear -Hin. simpl in Hin. repeat (apply elem_of_cons in Hin as [->|Hin]; [reflexivity|]).
      by apply elem_of_nil in Hin.
    - cbn [app scan_string]. rewrite (proj2 (N.eqb_neq c DQ)), (proj2 (N.eqb_neq c BS)) by done.
      by rewrite (proj2 (N.ltb_ge c 32)). }
  rewrite Hs, IH. done.
Qed.

(** What may follow a value in the text. *)
Definition after_value (rest : pystr) : Prop :=
  match rest with [] => True | c :: _ => c = 44%N ∨ c = NL ∨ c = 125%N end.

Lemma take_digits_app ds rest :
  Forall (λ c, is_digit c = true) ds → after_value rest → take_digits (ds ++ rest) = (ds, rest).
Proof.
  intros Hd Hr. induction Hd as [|c ds Hc Hd IH]; simpl.
  - destruct rest as [|c rest]; [done|]. by destruct Hr as [-> | [-> | ->]].
  - by rewrite Hc, IH.
Qed.

Lemma scan_number_int z rest :
  (length (str_of_N (Z.abs_N z)) <= 4300)%nat → after_value rest →
  scan_number (str_of_Z z ++ rest) = Ret (JInt z, rest).
Proof.
  intros Hl Hr.
  assert (Hkey : ∀ neg s, s = str_of_N (Z.abs_N z) ++ rest → signed neg (Z.abs_N z) = z →
    (let '(ds, s2) := match s with 48%N :: r => ([48%N], r) | _ => take_digits s end in
     ds = str_of_N (Z.abs_N z) ∧ s2 = rest)).
  { intros neg s -> _. destruct (decide (Z.abs_N z = 0%N)) as [->|Hz]; [done|].
    pose proof (str_of_N_digits (Z.abs_N z)) as Hd.
    destruct (str_of_N_head _ Hz) as (d & l & E & Hd48 & _). rewrite E in *.
    assert (Ht : match (d :: l) ++ rest with 48%N :: r => ([48%N], r)
                 | _ => take_digits ((d :: l) ++ rest) end = take_digits ((d :: l) ++ rest)).
    { cbn [app]. repeat case_match; congruence. }
    by rewrite Ht, take_digits_app. }
  unfold scan_number.
  set (ns := match str_of_Z z ++ rest with 45%N :: s' => (true, s') | _ => _ end).
  assert (Hns : ∃ neg, ns = (neg, str_of_N (Z.abs_N z) ++ rest) ∧ signed neg (Z.abs_N z) = z).
  { unfold ns, str_of_Z. destruct (Z.ltb_spec z 0).
    - exists true. split; [done|]. unfold signed. lia.
    - exists false. split; [|unfold signed; lia].
      pose proof (str_of_N_digits (Z.abs_N z)) as Hd. pose proof (str_of_N_nonempty (Z.abs_N z)).
      destruct (str_of_N (Z.abs_N z)) as [|d l]; [done|]. apply Forall_cons in Hd as [Hd _].
      cbn [app]. repeat case_match; try done. }
  destruct Hns as (neg & -> & Hsg). specialize (Hkey neg _ eq_refl Hsg).
  destruct (match str_of_N (Z.abs_N z) ++ rest with 48%N :: r => _ | _ => _ end) as [ds s2].
  destruct Hkey as [-> ->].
  pose proof (str_of_N_nonempty (Z.abs_N z)) as Hne. pose proof (str_of_N_value (Z.abs_N z)) as Hv.
  unfold number_of. destruct (str_of_N (Z.abs_N z)) as [|d l] eqn:E; [done|].
  assert (Hgt : (4300 <? length (d :: l))%nat = false) by (by apply Nat.ltb_ge).
  destruct rest as [|c rest]; [|destruct Hr as [-> | [-> | ->]]]; cbn -[Nat.ltb length signed undigits map];
    rewrite Hgt, Hv, Hsg; done.
Qed.

Fixpoint cost (j : json) : nat :=
  match j with
  | JList l => S (sum_list (map (λ j, S (cost j)) l))
  | JDict d => S (sum_list (map (λ kv, S (cost kv.2)) d))
  | _ => 1
  end.

Lemma skip_ws_nl k x : skip_ws ((NL :: replicate k 32%N) ++ x) = skip_ws x.
Proof. simpl. induction k; done. Qed.
Lemma skip_ws_cons c s : is_ws c = false → skip_ws (c :: s) = c :: s.
Proof. intros H. simpl. by rewrite H. Qed.

Definition value_head (c : N) : Prop := is_ws c = false ∧ c ≠ 93%N ∧ c ≠ 125%N.
Lemma digit_head c : is_digit c = true → value_head c.
Proof.
  unfold is_digit, value_head, is_ws. intros H. bprop. rewrite !orb_false_iff, !N.eqb_neq. lia.
Qed.
Lemma str_of_Z_head z : ∃ c t, str_of_Z z = c :: t ∧ value_head c ∧ scan_constant (str_of_Z z) = None ∧
  (∀ rest, scan_constant (str_of_Z z ++ rest) = None) ∧ c ≠ DQ ∧ c ≠ 91%N ∧ c ≠ 123%N.
Proof.
  pose proof (str_of_N_digits (Z.abs_N z)) as Hd. pose proof (str_of_N_nonempty (Z.abs_N z)) as Hn.
  destruct (str_of_N (Z.abs_N z)) as [|d l] eqn:E; [done|]. apply Forall_cons in Hd as [Hd _].
  assert (Hk : ∀ r, scan_constant (d :: r) = None ∧ scan_constant (45%N :: d :: r) = None).
  { intros r. unfold is_digit in Hd. bprop.
    assert (Hb : ∀ k, (57 < k)%N → (k =? d)%N = false) by (intros; apply N.eqb_neq; lia).
    assert (H45 : (45 =? d)%N = false) by (apply N.eqb_neq; lia).
    unfold scan_constant, strip_prefix. cbn [startswith]. rewrite !Hb, ?H45 by lia. done. }
  unfold str_of_Z. rewrite E. destruct (z <? 0)%Z.
  - exists 45%N, (d :: l). split; [done|]. split; [unfold value_head; by split_and!|]. cbn [app]. split; [by apply Hk|].
    split; [intros; by apply Hk|done].
  - exists d, l. split; [done|]. split; [by apply digit_head|]. cbn [app]. split; [by apply Hk|].
    split; [intros; by apply Hk|]. unfold is_digit in Hd. bprop. lia.
Qed.

Lemma dumps_head n j : plain j → ∃ c t, dumps_indent n j = c :: t ∧ value_head c.
Proof.
  destruct j as [|[]|z|x|s|[|? ?]|[|? ?]]; intros Hp; try done;
    try (eexists _, _; split; [reflexivity|unfold value_head; split_and!; done]).
  destruct (str_of_Z_head z) as (c & t & E & Hc & _). by exists c, t.
Qed.

Lemma eat_other c x s t r : s = x :: t → x ≠ c → eat c (s ++ r) = None.
Proof. intros -> Hx. simpl. by rewrite (proj2 (N.eqb_neq x c)). Qed.

Definition reads (n : nat) (j : json) : Prop :=
  ∀ f rest, cost j ≤ f → after_value rest →
    scan_value f (dumps_indent n j ++ rest) = Ret (j, rest).

Definition nl_indent (k : nat) : pystr := NL :: replicate (2 * k) 32%N.
Lemma skip_ws_nl_indent k x : skip_ws (nl_indent k ++ x) = skip_ws x.
Proof. apply skip_ws_nl. Qed.
Definition item_sep (n : nat) : pystr := 44%N :: nl_indent (S n).
Lemma nl_after k x : after_value (nl_indent k ++ x).
Proof. right. by left. Qed.

Lemma join_map_cons sep w ws : ws ≠ [] → join sep (w :: ws) = w ++ sep ++ join sep ws.
Proof. by destruct ws. Qed.
Lemma join_head sep (P : N → Prop) ws :
  ws ≠ [] → Forall (λ w, ∃ c t, w = c :: t ∧ P c) ws → ∃ c t, join sep ws = c :: t ∧ P c.
Proof.
  intros Hne H. destruct ws as [|w ws]; [done|]. apply Forall_cons in H as [(c & t & -> & Hc) _].
  simpl. destruct ws; by eexists _, _.
Qed.
Lemma join_dumps_head n l :
  l ≠ [] → Forall plain l →
  ∃ c t, join (item_sep n) (map (dumps_indent (S n)) l) = c :: t ∧ value_head c.
Proof.
  intros Hne Hp. apply join_head; [by destruct l|]. apply Forall_fmap.
  eapply Forall_impl; [exact Hp|]. intros j Hj. by apply dumps_head.
Qed.

Lemma scan_items_join n l f rest :
  l ≠ [] → Forall (reads (S n)) l → Forall plain l →
  sum_list (map (λ j, S (cost j)) l) ≤ f →
  scan_items f (join (item_sep n) (map (dumps_indent (S n)) l)
                ++ nl_indent n ++ 93%N :: rest) = Ret (l, rest).
Proof.
  intros Hne Hr Hp. revert f. induction l as [|j l IH]; [done|]. intros [|f] Hf; simpl in Hf; [lia|].
  apply Forall_cons in Hr as [Hj Hr]. apply Forall_cons in Hp as [Hpj Hp].
  destruct l as [|j2 l].
  - cbn [map join scan_items]. rewrite Hj by (apply nl_after || lia). cbn [rbind].
    unfold nl_indent. by rewrite skip_ws_nl, skip_ws_cons by done.
  - cbn [scan_items]. rewrite map_cons, join_map_cons by done. rewrite <- !app_assoc.
    rewrite Hj by ((by left) || (simpl in Hf; lia)). cbn [rbind].
    destruct (join_dumps_head n (j2 :: l)) as (c & t & Et & Hc); [done..|].
    rewrite Et. change (item_sep n ++ ?x) with (44%N :: nl_indent (S n) ++ x).
    rewrite (skip_ws_cons 44%N) by done. unfold nl_indent at 1. rewrite skip_ws_nl. cbn [app]. rewrite skip_ws_cons by apply Hc.
    change (c :: t ++ ?x) with ((c :: t) ++ x). rewrite <- Et.
    rewrite IH; [done..|simpl in *; lia].
Qed.

Definition member_text (n : nat) (kv : pystr * json) : pystr :=
  json_dumps_raw_str kv.1 ++ ": " ++ dumps_indent (S n) kv.2.

Lemma scan_members_join n d f rest :
  d ≠ [] → Forall (λ kv, reads (S n) kv.2) d → Forall (λ kv, plain kv.2) d →
  sum_list (map (λ kv, S (cost kv.2)) d) ≤ f →
  scan_members f (join (item_sep n) (map (member_text n) d)
                  ++ nl_indent n ++ 125%N :: rest) = Ret (d, rest).
Proof.
  intros Hne Hr Hp. revert f. induction d as [|[k j] d IH]; [done|].
  intros [|f] Hf; simpl in Hf; [lia|].
  apply Forall_cons in Hr as [Hj Hr]. apply Forall_cons in Hp as [Hpj Hp]. simpl in Hj, Hpj.
  assert (Hkey : ∀ x, scan_members (S f) (member_text n (k, j) ++ x) =
    let? (v, r) := scan_value f (dumps_indent (S n) j ++ x) in
    match skip_ws r with
    | 125%N :: r => Ret ([(k, v)], r)
    | 44%N :: r => let? (d, r) := scan_members f (skip_ws r) in Ret ((k, v) :: d, r)
    | _ => malformed
    end).
  { intros x. unfold member_text, json_dumps_raw_str. cbn [fst snd app]. rewrite <- !app_assoc.
    cbn [app scan_members]. rewrite scan_string_raw; cbn [rbind].
    - rewrite (skip_ws_cons 58%N) by done.
      destruct (dumps_head (S n) j Hpj) as (c & t & E & Hc).
      change (skip_ws (32%N :: ?y)) with (skip_ws y). rewrite E. cbn [app].
      rewrite skip_ws_cons by apply Hc. done.
    - rewrite length_app. simpl.
      assert (Hlen : length k ≤ length (concat (map raw_esc_char k))); [|lia].
      clear. induction k as [|c k IH]; simpl; [lia|]. rewrite length_app.
      assert (1 ≤ length (raw_esc_char c)); [|lia].
      unfold raw_esc_char, json_esc_char, u_escape. repeat case_match; simpl; lia. }
  destruct d as [|kv2 d].
  - cbn [map join]. rewrite Hkey, Hj by (apply nl_after || lia). cbn [rbind].
    unfold nl_indent. by rewrite skip_ws_nl, skip_ws_cons by done.
  - rewrite map_cons, join_map_cons by done. rewrite <- !app_assoc.
    rewrite Hkey, Hj by ((by left) || (simpl in Hf; lia)). cbn [rbind].
    assert (Hh : ∃ c t, join (item_sep n) (map (member_text n) (kv2 :: d)) = c :: t ∧ value_head c).
    { apply join_head; [done|]. apply Forall_fmap, Forall_forall. intros [k' v'] _.
      by eexists _, _. }
    destruct Hh as (c & t & Et & Hc).
    rewrite Et. change (item_sep n ++ ?x) with (44%N :: nl_indent (S n) ++ x).
    rewrite (skip_ws_cons 44%N) by done. unfold nl_indent at 1. rewrite skip_ws_nl. cbn [app].
    rewrite skip_ws_cons by apply Hc.
    change (c :: t ++ ?x) with ((c :: t) ++ x). rewrite <- Et.
    rewrite IH; [done..|simpl in *; lia].
Qed.

Lemma startswith_nil s : startswith s [] = true.
Proof. by destruct s. Qed.
Lemma scan_constant_literal p v rest :
  (p = "null"%py ∧ v = JNull) ∨ (p = "true"%py ∧ v = JBool true) ∨
  (p = "false"%py ∧ v = JBool false) → scan_constant (p ++ rest) = Some (v, rest).
Proof.
  intros [[-> ->]|[[-> ->]|[-> ->]]]; unfold scan_constant, strip_prefix; cbn [app startswith];
    cbn [N.eqb Pos.eqb andb]; by rewrite startswith_nil.
Qed.

Lemma skip_ws_head s c t r : s = c :: t → is_ws c = false → skip_ws (s ++ r) = s ++ r.
Proof. intros -> H. by apply skip_ws_cons. Qed.

Lemma scan_value_dumps n j : plain j → reads n j.
Proof.
  revert n. induction j as [|b|z|x|s|l IH|d IH]; intros n Hp [|f] rest Hf Hr;
    try (simpl in Hf; lia); try done.
  - pose proof (scan_constant_literal "null" JNull rest ltac:(auto)) as Hc.
    cbn [app] in Hc. cbn [dumps_indent app scan_value N.eqb Pos.eqb]. by rewrite Hc.
  - pose proof (scan_constant_literal (if b then "true" else "false") (JBool b) rest) as Hc.
    destruct b; cbn [app] in Hc; cbn [dumps_indent app scan_value N.eqb Pos.eqb];
      rewrite Hc; auto.
  - destruct (str_of_Z_head z) as (c & t & E & Hv & _ & Hc & H1 & H2 & H3).
    specialize (Hc rest). cbn [dumps_indent]. rewrite E in *. cbn [app scan_value] in *.
    rewrite !(proj2 (N.eqb_neq c _)) by done. rewrite Hc.
    change (c :: t ++ rest) with ((c :: t) ++ rest). rewrite <- E. by apply scan_number_int.
  - cbn [dumps_indent]. unfold json_dumps_raw_str. cbn [app]. rewrite <- app_assoc.
    cbn [app scan_value]. rewrite N.eqb_refl, scan_string_raw; [done|]. rewrite length_app. simpl.
    assert (length s ≤ length (concat (map raw_esc_char s))); [|lia].
    clear. induction s as [|c s IH]; simpl; [lia|]. rewrite length_app.
    assert (1 ≤ length (raw_esc_char c)); [|lia].
    unfold raw_esc_char, json_esc_char, u_escape. repeat case_match; simpl; lia.
  - apply plain_list in Hp. destruct l as [|j l]; [done|].
    change (dumps_indent n (JList (j :: l))) with
      (91%N :: nl_indent (S n) ++ join (item_sep n) (map (dumps_indent (S n)) (j :: l))
         ++ nl_indent n ++ [93%N]).
    destruct (join_dumps_head n (j :: l)) as (c & t & Et & Hc); [done..|].
    rewrite <- app_comm_cons, <- !app_assoc. cbn [scan_value]. cbn [N.eqb Pos.eqb].
    rewrite !skip_ws_nl_indent, !(skip_ws_head _ c t) by (done || apply Hc).
    rewrite (eat_other _ c _ t) by (done || apply Hc).
    change ([93%N] ++ rest) with (93%N :: rest). rewrite scan_items_join; [done|done| |done|simpl in *; lia].
    eapply Forall_impl; [apply Forall_and; split; [exact IH|exact Hp]|]. simpl. intros ? [H ?]. by apply H.
  - apply plain_dict in Hp as [Hnd Hp]. destruct d as [|kv d]; [done|].
    change (dumps_indent n (JDict (kv :: d))) with
      (123%N :: nl_indent (S n) ++ join (item_sep n) (map (member_text n) (kv :: d))
         ++ nl_indent n ++ [125%N]).
    rewrite <- app_comm_cons, <- !app_assoc. cbn [scan_value]. cbn [N.eqb Pos.eqb].
    assert (Hh : ∃ c t, join (item_sep n) (map (member_text n) (kv :: d)) = c :: t ∧ value_head c).
    { apply join_head; [done|]. apply Forall_fmap, Forall_forall. intros [k' v'] _.
      by eexists _, _. }
    destruct Hh as (c & t & Et & Hc).
    rewrite !skip_ws_nl_indent, !(skip_ws_head _ c t) by (done || apply Hc).
    rewrite (eat_other _ c _ t) by (done || apply Hc).
    change ([125%N] ++ rest) with (125%N :: rest). rewrite scan_members_join; [cbn [rbind]; by rewrite dict_of_id|done| |done|simpl in *; lia].
    eapply Forall_impl; [apply Forall_and; split; [exact IH|exact Hp]|]. simpl. intros ? [H ?]. by apply H.
Qed.

Lemma join_length sep ws :
  ws ≠ [] → sum_list (map length ws) + length sep * (length ws - 1) = length (join sep ws).
Proof.
  induction ws as [|w ws IH]; intros H; [done|]. destruct ws as [|w2 ws]; [simpl; lia|].
  rewrite join_map_cons, !length_app, <- IH by done. simpl. lia.
Qed.
Lemma cost_sum {A} (F : A → nat) (G : A → pystr) l n :
  Forall (λ x, F x ≤ 2 * length (G x)) l → l ≠ [] →
  sum_list (map (λ x, S (F x)) l) ≤ 2 * length (join (item_sep n) (map G l)) + 1.
Proof.
  intros H Hne. rewrite <- join_length by (by destruct l). rewrite length_map.
  assert (Hsep : 2 ≤ length (item_sep n)) by (simpl; lia). revert Hsep.
  generalize (length (item_sep n)). intros k Hk.
  assert (sum_list (map (λ x, S (F x)) l) ≤ 2 * sum_list (map length (map G l)) + length l).
  { clear Hne. induction H as [|x l Hx Hl IH]; simpl; [lia|]. lia. }
  destruct l; [done|]. simpl length in *. nia.
Qed.

Lemma cost_length n j : plain j → cost j ≤ 2 * length (dumps_indent n j).
Proof.
  revert n. induction j as [|b|z|x|s|l IH|d IH]; intros n Hp; try done.
  - simpl. lia.
  - destruct b; simpl; lia.
  - destruct (str_of_Z_head z) as (c & t & E & _). simpl. rewrite E. simpl. lia.
  - simpl. lia.
  - apply plain_list in Hp. destruct l as [|j l]; [simpl; lia|].
    change (dumps_indent n (JList (j :: l))) with
      (91%N :: nl_indent (S n) ++ join (item_sep n) (map (dumps_indent (S n)) (j :: l))
         ++ nl_indent n ++ [93%N]).
    assert (H := cost_sum cost (dumps_indent (S n)) (j :: l) n).
    change (cost (JList (j :: l))) with (S (sum_list (map (λ j, S (cost j)) (j :: l)))).
    rewrite length_cons, !length_app. simpl length at 4. cut (∀ a b : nat, a ≤ 2 * b + 1 → S a ≤ 2 * S b).
    + intros Hab. etrans; [apply Hab, H; [|done]|lia].
      eapply Forall_impl; [apply Forall_and; split; [exact IH|exact Hp]|]. simpl. intros ? [? ?]; auto.
    + lia.
  - apply plain_dict in Hp as [_ Hp]. destruct d as [|kv d]; [simpl; lia|].
    change (dumps_indent n (JDict (kv :: d))) with
      (123%N :: nl_indent (S n) ++ join (item_sep n) (map (member_text n) (kv :: d))
         ++ nl_indent n ++ [125%N]).
    assert (H := cost_sum (λ kv, cost kv.2) (member_text n) (kv :: d) n).
    change (cost (JDict (kv :: d))) with (S (sum_list (map (λ kv, S (cost kv.2)) (kv :: d)))).
    rewrite length_cons, !length_app. cut (∀ a b : nat, a ≤ 2 * b + 1 → S a ≤ 2 * S b).
    + intros Hab. etrans; [apply Hab, H; [|done]|lia].
      eapply Forall_impl; [apply Forall_and; split; [exact IH|exact Hp]|]. simpl.
      intros [k v] [Hv ?]. unfold member_text. rewrite !length_app. simpl in *.
      specialize (Hv (S n) ltac:(done)). lia.
    + lia.
Qed.

(** [json.loads(json.dumps(j, indent=2, ensure_ascii=False) + "\n") == j] *)
Lemma loads_dumps j : plain j → loads (dumps_indent 0 j ++ [NL]) = Ret j.
Proof.
  intros Hp. unfold loads. destruct (dumps_head 0 j Hp) as (c & t & E & Hc).
  assert (Hb : c ≠ 65279%N).
  { clear Hc. intros ->. destruct j as [|[]|z|x|s|[|??]|[|??]]; try done.
    simpl in E. unfold str_of_Z in E. pose proof (str_of_N_digits (Z.abs_N z)) as Hd.
    destruct (z <? 0)%Z; [by injection E|]. rewrite E in Hd. by apply Forall_cons in Hd as [[=] _]. }
  assert (Hl := cost_length 0 j Hp).
  assert (Hbody : (let? (v, r) := scan_value (2 * length (dumps_indent 0 j ++ [NL]) + 2)
                                (skip_ws (dumps_indent 0 j ++ [NL])) in
                   match skip_ws r with [] => Ret v | _ => malformed end) = Ret j).
  { rewrite (skip_ws_head _ c t) by (done || apply Hc).
    rewrite scan_value_dumps; [done|done|rewrite length_app; lia|right; by left]. }
  revert Hbody. rewrite E. cbn [app]. intros Hbody. repeat case_match; try done; congruence.
Qed.
