(* ===== verification/SafePath.v ===== *)
(** Absolute paths, [Path.resolve], and [safe_path.resolve_safe]: the check that
    a path a caller supplies lies, after symbolic links are followed, under a
    root the node may read. *)

From stdpp Require Import base list gmap.
From Stdlib Require Import NArith ZArith Lia.
From S2P Require Import Prelude PyStr.

Abbreviation SL := 47%N (only parsing).

(** ** [pathlib.PurePosixPath]

    A path is its root (empty when relative; two slashes are a root of their
    own) and its parts, without empty parts and dots. *)
Record path := Path { root : pystr; parts : list pystr }.
#[global] Instance path_eq_dec : EqDecision path.
Proof. solve_decision. Defined.

Definition real_part (w : pystr) : bool :=
  negb (bool_decide (w = [])) && negb (bool_decide (w = "."%py)).
Definition path_of (s : pystr) : path :=
  let root := match s with
              | 47%N :: 47%N :: 47%N :: _ => [SL]
              | 47%N :: 47%N :: _ => [SL; SL]
              | 47%N :: _ => [SL]
              | _ => []
              end in
  Path root (List.filter real_part (split_on SL s)).
Definition path_str (p : path) : pystr :=
  match root p, parts p with
  | [], [] => "."
  | r, ps => r ++ join [SL] ps
  end.
Definition abs_path (ps : list pystr) : path := Path [SL] ps.

Fixpoint is_prefix_of (p q : list pystr) : bool :=
  match p, q with
  | [], _ => true
  | a :: p, b :: q => bool_decide (a = b) && is_prefix_of p q
  | _, _ => false
  end.
(** [p.relative_to(q)] succeeds. *)
Definition relative_to (p q : path) : bool :=
  bool_decide (root p = root q) && is_prefix_of (parts q) (parts p).
Definition path_name (p : path) : pystr := default [] (last (parts p)).
Definition path_parent (p : path) : path := Path (root p) (removelast (parts p)).

(** ** [os.path.realpath(strict=False)]

    The file system is known through its symbolic links: a map from the parts
    of the absolute, fully resolved path of a link to its target.  [rest] is
    the stack of parts still to walk; an entry [Done l] says that the target of
    the link [l] has been walked.  [seen] holds the links met, with what they
    resolve to once that is known.  A link met again while it is being resolved
    is a loop: from there on the walk no longer asks the file system
    ([querying] is false). *)
Abbreviation links := (gmap (list pystr) pystr).
Inductive entry := Part (w : pystr) | Done (l : list pystr).
Record walk := Walk {
  w_rest : list entry;
  w_path : list pystr;
  w_seen : gmap (list pystr) (option (list pystr));
  w_querying : bool }.

(** [os.lstat] refuses a path that [os.fsencode] cannot turn into bytes, and
    one with a NUL. *)
Definition lstat_error (w : pystr) : option exn :=
  if existsb (λ c, is_surrogate c && negb ((56448 <=? c) && (c <=? 56575))%N) w
  then Some (Exn "UnicodeEncodeError" "surrogates not allowed")
  else if existsb (N.eqb 0) w
  then Some (Exn "ValueError" "lstat: embedded null character in path")
  else None.

Definition walk_step (fs : links) (w : walk) : res walk :=
  match w_rest w with
  | [] => Ret w
  | Done l :: rest => Ret (Walk rest (w_path w) (<[l := Some (w_path w)]> (w_seen w)) (w_querying w))
  | Part n :: rest =>
      if negb (real_part n) then Ret (Walk rest (w_path w) (w_seen w) (w_querying w))
      else if bool_decide (n = ".."%py) then Ret (Walk rest (removelast (w_path w)) (w_seen w) (w_querying w))
      else
        let newpath := w_path w ++ [n] in
        if negb (w_querying w) then Ret (Walk rest newpath (w_seen w) false)
        else
          match lstat_error n, fs !! newpath with
          | Some e, _ => Raise e
          | None, None => Ret (Walk rest newpath (w_seen w) true)
          | None, Some target =>
              match w_seen w !! newpath with
              | Some (Some p) => Ret (Walk rest p (w_seen w) true)
              | Some None => Ret (Walk rest newpath (w_seen w) false)
              | None =>
                  Ret (Walk (map Part (split_on SL target) ++ Done newpath :: rest)
                         (if startswith target [SL] then [] else w_path w)
                         (<[newpath := None]> (w_seen w)) true)
              end
          end
  end.

Fixpoint walk_run (fuel : nat) (fs : links) (w : walk) : res walk :=
  match w_rest w, fuel with
  | [], _ => Ret w
  | _, O => Raise (Exn "RuntimeError" "fuel")
  | _, S f => let? w' := walk_step fs w in walk_run f fs w'
  end.

(** A link is walked at most once, so the entries ever pushed are bounded. *)
Definition link_cost (target : pystr) : nat := S (length (split_on SL target)).
Definition links_cost (fs : links) : nat :=
  sum_list (map (λ kv, link_cost kv.2) (map_to_list fs)).
Definition walk_start (s : pystr) (cwd : list pystr) : walk :=
  Walk (map Part (split_on SL s)) (if startswith s [SL] then [] else cwd) ∅ true.
Definition realpath_walk (fs : links) (cwd : list pystr) (s : pystr) : res walk :=
  walk_run (length (split_on SL s) + links_cost fs) fs (walk_start s cwd).

(** [Path(s).resolve(strict=False)] in the working directory [cwd]. *)
Definition resolve (fs : links) (cwd : list pystr) (s : pystr) : res path :=
  let? w := realpath_walk fs cwd (path_str (path_of s)) in Ret (abs_path (w_path w)).

(** ** [safe_path.py] *)

Definition ADDON_ALLOWED_ROOTS : list pystr := ["/config"; "/share"; "/media"].

Definition OutOfBoundsError : exn :=
  Exn "OutOfBoundsError" "Path is outside the allowed roots".
Definition NoAllowedRootsError : exn :=
  Exn "NoAllowedRootsError" "No filesystem roots are configured for this node".

Fixpoint resolve_all (fs : links) (cwd : list pystr) (l : list pystr) : res (list path) :=
  match l with
  | [] => Ret []
  | p :: l => let? r := resolve fs cwd p in
              let? rs := resolve_all fs cwd l in Ret (r :: rs)
  end.

(** [env] is [os.environ]. *)
Definition allowed_roots (env : pystr → option pystr) (fs : links) (cwd : list pystr)
    (addon_mode : bool) : res (list path) :=
  if addon_mode then Ret (map path_of ADDON_ALLOWED_ROOTS)
  else
    match default [] (env "OPENCLAW_ALLOWED_ROOTS"%py) with
    | [] => Ret []
    | raw => resolve_all fs cwd (List.filter (λ p, negb (bool_decide (p = []))) (split_on 58%N raw))
    end.

Definition resolve_safe (fs : links) (cwd : list pystr) (s : pystr) (roots : list path) : res path :=
  match roots with
  | [] => Raise NoAllowedRootsError
  | _ =>
      if bool_decide (s = []) || negb (startswith s [SL]) then Raise OutOfBoundsError
      else
        let? resolved := resolve fs cwd s in
        if existsb (relative_to resolved) roots then Ret resolved
        else Raise OutOfBoundsError
  end.

(** ** The walk ends *)

Definition unseen_cost (fs : links) (seen : gmap (list pystr) (option (list pystr))) : nat :=
  links_cost (filter (λ kv, seen !! kv.1 = None) fs).
Definition walk_cost (fs : links) (w : walk) : nat :=
  length (w_rest w) + unseen_cost fs (w_seen w).

Lemma links_cost_insert fs l t :
  fs !! l = None → links_cost (<[l := t]> fs) = link_cost t + links_cost fs.
Proof. intros H. unfold links_cost. by rewrite (map_to_list_insert fs l t H). Qed.

Lemma unseen_cost_seen fs seen l p :
  seen !! l ≠ None → unseen_cost fs (<[l := p]> seen) = unseen_cost fs seen.
Proof.
  intros H. unfold unseen_cost. f_equal. apply map_filter_ext. intros k v _. simpl.
  destruct (decide (l = k)) as [->|?]; [by rewrite lookup_insert_eq|by rewrite lookup_insert_ne].
Qed.

Lemma unseen_cost_new fs seen l t p :
  fs !! l = Some t → seen !! l = None →
  unseen_cost fs seen = link_cost t + unseen_cost fs (<[l := p]> seen).
Proof.
  intros Hl Hs. unfold unseen_cost.
  rewrite <- (links_cost_insert _ l t).
  - f_equal. apply map_eq. intros k. destruct (decide (l = k)) as [<-|Hne].
    + rewrite lookup_insert_eq. by apply map_lookup_filter_Some.
    + rewrite lookup_insert_ne by done. apply option_eq. intros v.
      rewrite !map_lookup_filter_Some. simpl. by rewrite lookup_insert_ne.
  - apply map_lookup_filter_None. right. intros x _. simpl. by rewrite lookup_insert_eq.
Qed.

(** The pending links of the stack have been met. *)
Definition pending_seen (w : walk) : Prop :=
  ∀ l, Done l ∈ w_rest w → w_seen w !! l ≠ None.

Lemma walk_step_cost fs w w' :
  pending_seen w → w_rest w ≠ [] → walk_step fs w = Ret w' →
  pending_seen w' ∧ walk_cost fs w' < walk_cost fs w.
Proof.
  unfold pending_seen, walk_cost, walk_step. destruct w as [[|[n|l] rest] p seen q]; simpl; [done| |].
  - intros Hp _.
    assert (Hp' : ∀ l, Done l ∈ rest → seen !! l ≠ None) by (intros l ?; apply Hp; by right).
    destruct (negb (real_part n)); [intros [= <-]; simpl; split; [done|lia]|].
    case_bool_decide; [intros [= <-]; simpl; split; [done|lia]|].
    destruct q; simpl; [|intros [= <-]; simpl; split; [done|lia]].
    destruct (lstat_error n); [done|].
    destruct (fs !! (p ++ [n])) as [t|] eqn:Ht; [|intros [= <-]; simpl; split; [done|lia]].
    destruct (seen !! (p ++ [n])) as [[s|]|] eqn:Hs;
      [intros [= <-]; simpl; split; [done|lia]..|].
    intros [= <-]; simpl. split.
    + intros l [Hl|Hl]%elem_of_app.
      * apply list_elem_of_fmap in Hl. naive_solver.
      * destruct (decide (p ++ [n] = l)) as [<-|?]; [by rewrite lookup_insert_eq|].
        rewrite lookup_insert_ne by done. apply elem_of_cons in Hl as [?|?]; [congruence|by apply Hp'].
    + rewrite (unseen_cost_new _ _ _ _ None Ht Hs), length_app, length_map. simpl.
      unfold link_cost. lia.
  - intros Hp _ [= <-]; simpl. split.
    + intros k Hk. destruct (decide (l = k)) as [<-|?]; [by rewrite lookup_insert_eq|].
      rewrite lookup_insert_ne by done. apply Hp. by right.
    + rewrite unseen_cost_seen by (apply Hp; by left). lia.
Qed.

Lemma walk_run_cost fuel fs w :
  pending_seen w → walk_cost fs w ≤ fuel →
  match walk_run fuel fs w with
  | Ret w' => w_rest w' = []
  | Raise e => exn_type e ≠ "RuntimeError"%py
  end.
Proof.
  revert w. induction fuel as [|f IH]; intros w Hp Hc; simpl.
  - destruct (w_rest w) eqn:E; [done|]. unfold walk_cost in Hc. rewrite E in Hc. simpl in Hc. lia.
  - destruct (w_rest w) eqn:E; [done|].
    destruct (walk_step fs w) as [w'|e0] eqn:Hs; simpl.
    + destruct (walk_step_cost fs w w' Hp) as [Hp' Hlt]; [congruence|done|]. apply IH; [done|lia].
    + revert Hs. unfold walk_step, lstat_error. rewrite E. intros Hs. clear -Hs.
      repeat (dm_in Hs; simplify_eq/=); done.
Qed.

Lemma realpath_walk_total fs cwd s :
  match realpath_walk fs cwd s with
  | Ret w => w_rest w = []
  | Raise e => exn_type e ≠ "RuntimeError"%py
  end.
Proof.
  apply walk_run_cost.
  - intros l Hl. simpl in Hl. apply list_elem_of_fmap in Hl. naive_solver.
  - unfold walk_cost, unseen_cost. simpl. rewrite length_map. apply Nat.add_le_mono_l.
    rewrite map_filter_id; [done|]. intros. simpl. apply lookup_empty.
Qed.

(** ** What the walk returns *)

Definition clean_part (w : pystr) : Prop := w ≠ [] ∧ w ≠ "."%py ∧ w ≠ ".."%py ∧ SL ∉ w.
Definition clean (p : list pystr) : Prop := Forall clean_part p.
(** No link lies on the way to [p]. *)
Definition link_free (fs : links) (p : list pystr) : Prop :=
  ∀ q n r, p = q ++ n :: r → fs !! (q ++ [n]) = None.

Lemma split_on_no_sep c s w : w ∈ split_on c s → c ∉ w.
Proof.
  revert w. induction s as [|x s IH]; simpl; intros w.
  - intros [->|?%elem_of_nil]%elem_of_cons; [apply not_elem_of_nil|done].
  - destruct (N.eqb_spec x c) as [->|Hne].
    + intros [->|H]%elem_of_cons; [apply not_elem_of_nil|by apply IH].
    + destruct (split_on c s) as [|u us]; [intros ->%list_elem_of_singleton; set_solver|].
      intros [->|H]%elem_of_cons.
      * intros [?|Hc]%elem_of_cons; [congruence|]. by apply (IH u); [left|].
      * apply IH. by right.
Qed.

Lemma real_part_spec w : real_part w = true ↔ w ≠ [] ∧ w ≠ "."%py.
Proof. unfold real_part. repeat case_bool_decide; naive_solver. Qed.

Lemma clean_snoc p n : clean p → clean_part n → clean (p ++ [n]).
Proof. intros. apply Forall_app_2; [done|by constructor]. Qed.
Lemma removelast_prefix {A} (p : list A) : ∃ r, p = removelast p ++ r.
Proof.
  destruct (decide (p = [])) as [->|H]; [by exists []|].
  destruct p as [|a p]; [done|]. exists [List.last (a :: p) a]. by apply app_removelast_last.
Qed.
Lemma clean_removelast p : clean p → clean (removelast p).
Proof. destruct (removelast_prefix p) as [r E]. unfold clean. rewrite E at 1. rewrite Forall_app. tauto. Qed.
Lemma link_free_removelast fs p : link_free fs p → link_free fs (removelast p).
Proof.
  destruct (removelast_prefix p) as [r E]. intros H q n t Ht. apply (H q n (t ++ r)).
  rewrite E at 1. rewrite Ht, <- app_assoc. done.
Qed.
Lemma link_free_snoc fs p n : link_free fs p → fs !! (p ++ [n]) = None → link_free fs (p ++ [n]).
Proof.
  intros H Hn q m r. destruct r as [|y r _] using rev_ind.
  - intros [-> ->]%app_inj_tail. done.
  - rewrite app_comm_cons, app_assoc. intros [-> _]%app_inj_tail. by eapply H.
Qed.

Definition walk_inv (fs : links) (w : walk) : Prop :=
  (∀ n, Part n ∈ w_rest w → SL ∉ n) ∧ clean (w_path w) ∧
  (∀ l p, w_seen w !! l = Some (Some p) → clean p) ∧
  (w_querying w = true →
   link_free fs (w_path w) ∧ ∀ l p, w_seen w !! l = Some (Some p) → link_free fs p).

Lemma walk_step_inv fs w w' : walk_inv fs w → walk_step fs w = Ret w' → walk_inv fs w'.
Proof.
  unfold walk_inv, walk_step. destruct w as [[|[n|l] rest] p seen q]; simpl.
  - by intros H [= <-].
  - intros (Hr & Hp & Hs & Hq).
    assert (Hr' : ∀ n, Part n ∈ rest → SL ∉ n) by (intros m ?; apply Hr; by right).
    destruct (real_part n) eqn:Hn; simpl; [|by intros [= <-]].
    apply real_part_spec in Hn as [Hn1 Hn2].
    case_bool_decide as Hn3.
    { intros [= <-]; simpl. split_and!; try done; [by apply clean_removelast|].
      intros Hq'. split; [by apply link_free_removelast, Hq|by apply Hq]. }
    assert (Hc : clean (p ++ [n])) by (apply clean_snoc; [done|]; split_and!; try done; apply Hr; by left).
    destruct q; simpl; [|by intros [= <-]; simpl; split_and!].
    destruct (Hq eq_refl) as [Hlf Hls].
    destruct (lstat_error n); [done|].
    destruct (fs !! (p ++ [n])) as [t|] eqn:Ht.
    + destruct (seen !! (p ++ [n])) as [[s|]|] eqn:Hse; intros [= <-]; simpl; split_and!; try done; eauto.
      * intros m [Hm|Hm]%elem_of_app; [|apply elem_of_cons in Hm as [?|?]; [done|by apply Hr']].
        apply list_elem_of_fmap in Hm as (u & [= ->] & Hu). by eapply split_on_no_sep.
      * by destruct (startswith t [SL]); [constructor|].
      * intros l x. destruct (decide (p ++ [n] = l)) as [<-|?];
          [by rewrite lookup_insert_eq|rewrite lookup_insert_ne by done; apply Hs].
      * intros _. split.
        { destruct (startswith t [SL]); [|done]. by intros [|??] ?? ?. }
        intros l x. destruct (decide (p ++ [n] = l)) as [<-|?];
          [by rewrite lookup_insert_eq|rewrite lookup_insert_ne by done; apply Hls].
    + intros [= <-]; simpl; split_and!; try done. intros _. split; [by apply link_free_snoc|done].
  - intros (Hr & Hp & Hs & Hq) [= <-]; simpl. split_and!; try done.
    + intros m ?. apply Hr. by right.
    + intros k x. destruct (decide (l = k)) as [<-|?];
        [rewrite lookup_insert_eq; by intros [= <-]|rewrite lookup_insert_ne by done; apply Hs].
    + intros Hq'. destruct (Hq Hq') as [Hlf Hls]. split; [done|].
      intros k x. destruct (decide (l = k)) as [<-|?];
        [rewrite lookup_insert_eq; by intros [= <-]|rewrite lookup_insert_ne by done; apply Hls].
Qed.

Lemma walk_run_inv fuel fs w w' : walk_inv fs w → walk_run fuel fs w = Ret w' → walk_inv fs w'.
Proof.
  revert w. induction fuel as [|f IH]; intros w Hw; simpl; destruct (w_rest w) eqn:E;
    try by intros [= <-].
  intros (w1 & Hs & Hr)%rbind_Ret. eapply IH; [|done]. by eapply walk_step_inv.
Qed.

Lemma realpath_inv fs s w :
  startswith s [SL] = true → ∀ cwd, realpath_walk fs cwd s = Ret w → walk_inv fs w.
Proof.
  intros Hs cwd. apply walk_run_inv. unfold walk_start. rewrite Hs. split_and!; simpl.
  - intros n Hn. apply list_elem_of_fmap in Hn as (u & [= ->] & Hu). by eapply split_on_no_sep.
  - constructor.
  - intros l p. by rewrite lookup_empty.
  - intros _. split; [by intros [|??] ?? ?|]. intros l p. by rewrite lookup_empty.
Qed.

(** An absolute path prints as one. *)
Lemma path_str_absolute s : startswith s [SL] = true → startswith (path_str (path_of s)) [SL] = true.
Proof.
  intros (t & ->)%startswith_spec. unfold path_str, path_of. cbn [app root parts].
  generalize (List.filter real_part (split_on SL (SL :: t))). intros ps.
  set (r := match t with 47%N :: 47%N :: _ => _ | _ => _ end).
  assert (Hr : r = [SL] ∨ r = [SL; SL]) by (unfold r; repeat case_match; auto).
  apply startswith_spec. destruct Hr as [-> | ->]; destruct ps; by eexists.
Qed.

Lemma resolve_Ret fs cwd s p :
  startswith s [SL] = true → resolve fs cwd s = Ret p →
  ∃ w, realpath_walk fs cwd (path_str (path_of s)) = Ret w ∧ p = abs_path (w_path w) ∧
       walk_inv fs w.
Proof.
  intros Hs (w & Hw & [= <-])%rbind_Ret. exists w. split_and!; [done..|].
  eapply realpath_inv; [|done]. by apply path_str_absolute.
Qed.

Lemma resolve_safe_Ret fs cwd s roots p :
  resolve_safe fs cwd s roots = Ret p →
  startswith s [SL] = true ∧ resolve fs cwd s = Ret p ∧ ∃ r, r ∈ roots ∧ relative_to p r = true.
Proof.
  unfold resolve_safe. destruct roots as [|r roots]; [done|].
  destruct (bool_decide (s = [])); [done|]. destruct (startswith s [SL]); [|done]. simpl orb.
  cbn [negb]. intros (q & Hq & H)%rbind_Ret. destruct (existsb _ _) eqn:E; [|done].
  injection H as ->. apply existsb_true_exists in E. done.
Qed.

Lemma is_prefix_of_spec p q : is_prefix_of p q = true ↔ ∃ t, q = p ++ t.
Proof.
  revert q. induction p as [|a p IH]; intros q; simpl; [naive_solver|].
  destruct q as [|b q]; [split; [done|by intros [??]]|].
  rewrite andb_true_iff, bool_decide_eq_true, IH. naive_solver.
Qed.
Lemma relative_to_spec p q :
  relative_to p q = true ↔ root p = root q ∧ ∃ t, parts p = parts q ++ t.
Proof. unfold relative_to. by rewrite andb_true_iff, bool_decide_eq_true, is_prefix_of_spec. Qed.

(** No loop of links was met while [s] was resolved. *)
Definition loop_free (fs : links) (cwd : list pystr) (s : pystr) : bool :=
  match realpath_walk fs cwd (path_str (path_of s)) with
  | Ret w => w_querying w
  | Raise _ => false
  end.

(** ** Properties *)

(** A path that [resolve_safe] accepts is absolute, has no empty part, dot or
    dot-dot, extends one of the allowed roots part by part (so neither [..] nor
    a sibling with the same prefix gets through), and, unless a loop of links
    was met on the way, no prefix of it is a symbolic link. *)
Theorem resolve_safe_contained fs cwd s roots p :
  resolve_safe fs cwd s roots = Ret p →
  root p = [SL] ∧ clean (parts p) ∧
  (∃ r, r ∈ roots ∧ root r = [SL] ∧ ∃ t, parts p = parts r ++ t) ∧
  (loop_free fs cwd s = true → link_free fs (parts p)).
Proof.
  intros (Hs & Hr & r & Hin & Hrel)%resolve_safe_Ret.
  destruct (resolve_Ret _ _ _ _ Hs Hr) as (w & Hw & -> & _ & Hc & _ & Hq).
  apply relative_to_spec in Hrel as [Hroot Hparts].
  split_and!; [done|done|by exists r|]. unfold loop_free. rewrite Hw. intros H. by apply Hq.
Qed.

(** A file system with a link that escapes the root, one that stays inside, and
    a link to itself. *)
Definition demo_links : links :=
  {[ ["config"%py; "out"%py] := "/etc/passwd"%py;
     ["config"%py; "in"%py] := "../config/www/./deep"%py;
     ["x"%py; "loop"%py] := "loop"%py ]}.

Example resolve_safe_contained_witness :
  ∃ p, resolve_safe demo_links [] "/config/in/../../../share/../config/in/a" [path_of "/config"] = Ret p ∧
       path_str p = "/config/www/deep/a"%py ∧ link_free demo_links (parts p).
Proof.
  destruct (resolve_safe demo_links [] "/config/in/../../../share/../config/in/a" [path_of "/config"])
    as [p|e] eqn:E; [|by vm_compute in E].
  destruct (resolve_safe_contained _ _ _ _ _ E) as (_ & _ & _ & H).
  exists p. split; [done|]. split; [vm_compute in E; simplify_eq; by vm_compute|].
  by apply H.
Defined.

(** [resolve_safe] always answers, links and loops notwithstanding: the walk
    never runs out of its bound.  It refuses for want of roots, for a path that
    is relative or resolves outside every root, or because the path cannot name
    a file at all. *)
Theorem resolve_safe_answers fs cwd s roots :
  match resolve_safe fs cwd s roots with
  | Ret p => resolve fs cwd s = Ret p ∧ existsb (relative_to p) roots = true
  | Raise e =>
      (e = NoAllowedRootsError ∧ roots = []) ∨
      (e = OutOfBoundsError ∧ roots ≠ [] ∧
       (startswith s [SL] = false ∨
        ∃ p, resolve fs cwd s = Ret p ∧ existsb (relative_to p) roots = false)) ∨
      (e.(exn_type) ≠ "RuntimeError"%py ∧ resolve fs cwd s = Raise e)
  end.
Proof.
  unfold resolve_safe. destruct roots as [|r roots]; [by left|].
  destruct (startswith s [SL]) eqn:Hs; [|rewrite orb_true_r; right; left; auto].
  rewrite bool_decide_eq_false_2 by (intros ->; done). cbn [negb orb].
  unfold resolve. pose proof (realpath_walk_total fs cwd (path_str (path_of s))) as Ht.
  destruct (realpath_walk _ _ _) as [w|e] eqn:E; cbn [rbind].
  - destruct (existsb _ _) eqn:Ex; [done|]. right; left. eauto 6.
  - right; right. done.
Qed.

(** Through a loop of links the check can be passed by a path that is itself a
    link out of the root: after the loop the rest of the path is taken as
    written, so [/x/loop/../../config/out] is accepted as [/config/out] although
    that is a symbolic link to [/etc/passwd]. *)
Theorem resolve_safe_loop_escape :
  resolve_safe demo_links [] "/config/out" [path_of "/config"] = Raise OutOfBoundsError ∧
  ∃ p, resolve_safe demo_links [] "/x/loop/../../config/out" [path_of "/config"] = Ret p ∧
       path_str p = "/config/out"%py ∧ demo_links !! parts p = Some "/etc/passwd"%py.
Proof.
  split; [by vm_compute|]. exists (abs_path ["config"%py; "out"%py]).
  split; [by vm_compute|]. split; by vm_compute.
Qed.
