(* ===== verification/Sha256.v ===== *)
(** SHA-256 (FIPS 180-4) and HMAC (RFC 2104) on bytes, as [hashlib] and [hmac]
    compute them: bytes are [N] below 256, words are [N] below [2^32]. *)

From stdpp Require Import base list.
From Stdlib Require Import NArith ZArith Lia.
From S2P Require Import Prelude PyStr.

Module Sha.
#[local] Open Scope N_scope.

Definition w32 (x : N) : N := x mod 4294967296.
Definition add32 (x y : N) : N := w32 (x + y).
Definition not32 (x : N) : N := N.lxor x 4294967295.
Definition rotr (n x : N) : N := N.lor (N.shiftr x n) (w32 (N.shiftl x (32 - n))).

Definition ch (x y z : N) : N := N.lxor (N.land x y) (N.land (not32 x) z).
Definition maj (x y z : N) : N := N.lxor (N.lxor (N.land x y) (N.land x z)) (N.land y z).
Definition bsig0 (x : N) : N := N.lxor (N.lxor (rotr 2 x) (rotr 13 x)) (rotr 22 x).
Definition bsig1 (x : N) : N := N.lxor (N.lxor (rotr 6 x) (rotr 11 x)) (rotr 25 x).
Definition ssig0 (x : N) : N := N.lxor (N.lxor (rotr 7 x) (rotr 18 x)) (N.shiftr x 3).
Definition ssig1 (x : N) : N := N.lxor (N.lxor (rotr 17 x) (rotr 19 x)) (N.shiftr x 10).

Definition round_constants : list N := [
  1116352408; 1899447441; 3049323471; 3921009573; 961987163; 1508970993;
  2453635748; 2870763221; 3624381080; 310598401; 607225278; 1426881987;
  1925078388; 2162078206; 2614888103; 3248222580; 3835390401; 4022224774;
  264347078; 604807628; 770255983; 1249150122; 1555081692; 1996064986;
  2554220882; 2821834349; 2952996808; 3210313671; 3336571891; 3584528711;
  113926993; 338241895; 666307205; 773529912; 1294757372; 1396182291;
  1695183700; 1986661051; 2177026350; 2456956037; 2730485921; 2820302411;
  3259730800; 3345764771; 3516065817; 3600352804; 4094571909; 275423344;
  430227734; 506948616; 659060556; 883997877; 958139571; 1322822218;
  1537002063; 1747873779; 1955562222; 2024104815; 2227730452; 2361852424;
  2428436474; 2756734187; 3204031479; 3329325298].

Definition iv : list N := [1779033703; 3144134277; 1013904242; 2773480762;
  1359893119; 2600822924; 528734635; 1541459225].

(** The padded message: a one bit, zeros, the 64-bit length in bits. *)
Fixpoint be_bytes (n : nat) (x : N) (acc : list N) : list N :=
  match n with
  | O => acc
  | S n => be_bytes n (x / 256) (x mod 256 :: acc)
  end.
Definition pad (m : list N) : list N :=
  let l := length m in
  let z := Nat.modulo (119 - Nat.modulo l 64) 64 in
  m ++ 128 :: replicate z 0 ++ be_bytes 8 (8 * N.of_nat l) [].

Fixpoint words (fuel : nat) (m : list N) : list N :=
  match fuel, m with
  | S f, a :: b :: c :: d :: m =>
      (a * 16777216 + b * 65536 + c * 256 + d) :: words f m
  | _, _ => []
  end.

(** The message schedule, newest word first. *)
Fixpoint expand (n : nat) (w : list N) : list N :=
  match n with
  | O => w
  | S n =>
      let at_ i := nth i w 0 in
      expand n (add32 (add32 (ssig1 (at_ 1%nat)) (at_ 6%nat))
                      (add32 (ssig0 (at_ 14%nat)) (at_ 15%nat)) :: w)
  end.

Definition round (st : list N) (kw : N * N) : list N :=
  match st with
  | [a; b; c; d; e; f; g; h] =>
      let t1 := add32 (add32 (add32 h (bsig1 e)) (add32 (ch e f g) kw.1)) kw.2 in
      let t2 := add32 (bsig0 a) (maj a b c) in
      [add32 t1 t2; a; b; c; add32 d t1; e; f; g]
  | _ => st
  end.

Definition compress (st block : list N) : list N :=
  let w := rev (expand 48 (rev block)) in
  zip_with add32 st (fold_left round (zip round_constants w) st).

Fixpoint blocks (fuel : nat) (ws st : list N) : list N :=
  match fuel with
  | O => st
  | S f => match ws with
           | [] => st
           | _ => blocks f (drop 16 ws) (compress st (take 16 ws))
           end
  end.

(** [hashlib.sha256(m).digest()] *)
Definition sha256 (m : list N) : list N :=
  let p := pad m in
  let ws := words (length p) p in
  concat (map (λ w, be_bytes 4 w []) (blocks (length ws) ws iv)).

Definition hex (bs : list N) : pystr := concat (map (hex_pad 2) bs).
(** [hashlib.sha256(m).hexdigest()] *)
Definition sha256_hex (m : list N) : pystr := hex (sha256 m).

(** [hmac.new(key, m, "sha256").hexdigest()] *)
Definition hmac_block_key (key : list N) : list N :=
  let k := if (64 <? N.of_nat (length key)) then sha256 key else key in
  k ++ replicate (64 - length k)%nat 0.
Definition hmac_sha256 (key m : list N) : list N :=
  let k := hmac_block_key key in
  sha256 (map (N.lxor 92) k ++ sha256 (map (N.lxor 54) k ++ m)).
Definition hmac_sha256_hex (key m : list N) : pystr := hex (hmac_sha256 key m).

(** A digest has 32 bytes. *)
Lemma round_length st kw : length (round st kw) = length st.
Proof. unfold round. by repeat case_match. Qed.
Lemma compress_length st b : length (compress st b) = length st.
Proof.
  unfold compress. rewrite length_zip_with.
  assert (Hf : ∀ l s, length (fold_left round l s) = length s).
  { induction l as [|x l IH]; intros s; simpl; [done|]. by rewrite IH, round_length. }
  rewrite Hf. lia.
Qed.
Lemma blocks_length f ws st : length (blocks f ws st) = length st.
Proof.
  revert ws st. induction f as [|f IH]; intros [|w ws] st; cbn [blocks]; try done.
  by rewrite IH, compress_length.
Qed.
Lemma sha256_length m : length (sha256 m) = 32%nat.
Proof.
  unfold sha256. set (l := blocks _ _ _). assert (Hl : length l = 8%nat) by apply blocks_length.
  do 9 (destruct l as [|? l]; [done|]). done.
Qed.

Example sha256_abc :
  sha256_hex "abc" = "ba7816bf8f01cfea414140de5dae2223b00361a396177a9cb410ff61f20015ad".
Proof. vm_compute. reflexivity. Qed.
Example sha256_empty :
  sha256_hex [] = "e3b0c44298fc1c149afbf4c8996fb92427ae41e4649b934ca495991b7852b855".
Proof. vm_compute. reflexivity. Qed.
Example hmac_sha256_hi :
  hmac_sha256_hex "k" "Hi There" =
  "661f283339dd56bae838c4159e90f85dc7a00ea5b46d382fe0d51a7034bf8ac4".
Proof. vm_compute. reflexivity. Qed.
End Sha.

(** A SHA-256 collision. *)
Definition sha256_collision (m1 m2 : list N) : Prop :=
  m1 ≠ m2 ∧ Sha.sha256_hex m1 = Sha.sha256_hex m2.
