(* ===== verification/Fnmatch.v ===== *)
(** [fnmatch.fnmatchcase]: shell patterns, by the translation to regular
    expressions that CPython's [fnmatch.translate] performs. *)

From stdpp Require Import base list.
From Stdlib Require Import NArith ZArith Lia.
From S2P Require Import Prelude PyStr.

(** One element of a translated pattern.  [TSet neg items] is a bracket
    expression over inclusive ranges. *)
Inductive token : Set :=
| TStar
| TAny
| TLit (c : N)
| TNever
| TSet (neg : bool) (items : list (N * N)).

(** The text between a "[" and its closing "]", and what follows: a "!" or a
    "]" directly after the opening bracket does not close it. *)
Fixpoint until_close (s : pystr) : option (pystr * pystr) :=
  match s with
  | [] => None
  | c :: s => if (c =? 93)%N then Some ([], s)
              else match until_close s with
                   | Some (a, b) => Some (c :: a, b)
                   | None => None
                   end
  end.
Definition cons_fst (c : N) (r : option (pystr * pystr)) : option (pystr * pystr) :=
  match r with Some (a, b) => Some (c :: a, b) | None => None end.
Definition bracket_close (s : pystr) : option (pystr * pystr) :=
  match s with
  | 33%N :: 93%N :: s => cons_fst 33 (cons_fst 93 (until_close s))
  | 33%N :: s => cons_fst 33 (until_close s)
  | 93%N :: s => cons_fst 93 (until_close s)
  | s => until_close s
  end.

(** [pat.find("-", k)], as an index into [s]. *)
Fixpoint find_dash (s : pystr) (i k : nat) : option nat :=
  match s with
  | [] => None
  | c :: s => if (c =? 45)%N && (k <=? i)%nat then Some i else find_dash s (S i) k
  end.

(** The chunks between range hyphens: each chunk runs from [i] to the next
    hyphen at or after [k], and the next search skips one character. *)
Fixpoint chunks (fuel : nat) (s : pystr) (i k : nat) : list pystr :=
  match fuel with
  | O => [drop i s]
  | S f =>
      match find_dash s 0 k with
      | Some j => take (j - i) (drop i s) :: chunks f s (S j) (j + 3)
      | None => match drop i s with
                | [] => []
                | c => [c]
                end
      end
  end.
(** An empty last chunk means the last hyphen is literal. *)
Definition chunks_of (s : pystr) : list pystr :=
  let k := match s with 33%N :: _ => 2 | _ => 1 end in
  let cs := chunks (length s) s 0 k in
  (* the last chunk was dropped exactly when the text ends in a range hyphen *)
  if (length (join "-" cs) <? length s)%nat
  then match rev cs with
       | last :: before => rev ((last ++ "-") :: before)
       | [] => []
       end
  else cs.

(** Removal of empty ranges, from the right: a hyphen between [x] and a
    smaller [y] disappears together with both ends. *)
Definition merge_chunk (c : pystr) (rest : list pystr) : list pystr :=
  match rest with
  | d :: rest' =>
      match last c, d with
      | Some x, y :: d' => if (y <? x)%N then (removelast c ++ d') :: rest' else c :: rest
      | _, _ => c :: rest
      end
  | [] => [c]
  end.
Definition drop_empty_ranges (cs : list pystr) : list pystr := fold_right merge_chunk [] cs.

(** The items of the set: the hyphen joining two chunks makes a range of the
    characters around it, every other character stands for itself. *)
Fixpoint set_items (cs : list pystr) : list (N * N) :=
  match cs with
  | [] => []
  | c :: rest =>
      map (λ x, (x, x)) c ++
      match last c, rest with
      | Some x, (y :: _) :: _ => [(x, y)]
      | _, _ => []
      end ++ set_items rest
  end.

Definition bracket_token (stuff : pystr) : token :=
  let cs := if existsb (N.eqb 45) stuff then drop_empty_ranges (chunks_of stuff)
            else [stuff] in
  match cs with
  | [] => TNever
  | [[]] => TNever
  | [[33%N]] => TAny
  | (33%N :: c) :: rest => TSet true (set_items (c :: rest))
  | _ => TSet false (set_items cs)
  end.

Fixpoint tokens (fuel : nat) (p : pystr) : list token :=
  match fuel, p with
  | S f, c :: p =>
      if (c =? 42)%N then TStar :: tokens f p
      else if (c =? 63)%N then TAny :: tokens f p
      else if (c =? 91)%N then
        match bracket_close p with
        | Some (stuff, rest) => bracket_token stuff :: tokens f rest
        | None => TLit 91 :: tokens f p
        end
      else TLit c :: tokens f p
  | _, _ => []
  end.

Definition token_char (t : token) (c : N) : bool :=
  match t with
  | TStar => false
  | TAny => true
  | TLit x => (x =? c)%N
  | TNever => false
  | TSet neg items =>
      xorb neg (existsb (λ '(lo, hi), (lo <=? c)%N && (c <=? hi)%N) items)
  end.

(** Full match of the tokens against [s]. *)
Fixpoint matches (ts : list token) : pystr → bool :=
  match ts with
  | [] => λ s, match s with [] => true | _ => false end
  | TStar :: ts =>
      fix star (s : pystr) : bool :=
        matches ts s || match s with [] => false | _ :: s => star s end
  | t :: ts => λ s, match s with [] => false | c :: s => token_char t c && matches ts s end
  end.

(** [fnmatch.fnmatchcase(name, pat)]; a pattern of [n] characters has at most
    [n] tokens. *)
Definition fnmatchcase (name pat : pystr) : bool :=
  matches (tokens (length pat) pat) name.

(** ** Facts *)

(** A pattern with no special character. *)
Definition plain (p : pystr) : bool :=
  forallb (λ c, negb ((c =? 42) || (c =? 63) || (c =? 91))%N) p.

Lemma tokens_plain_app p q f :
  plain p = true → tokens (length p + f) (p ++ q) = map TLit p ++ tokens f q.
Proof.
  unfold plain. induction p as [|c p IH]; intros Hp; [done|]. simpl in *. bprop.
  destruct (N.eqb_spec c 42), (N.eqb_spec c 63), (N.eqb_spec c 91); simplify_eq/=.
  f_equal. by apply IH.
Qed.

Lemma matches_lits p ts s :
  matches (map TLit p ++ ts) s = true ↔ ∃ t, s = p ++ t ∧ matches ts t = true.
Proof.
  revert s. induction p as [|c p IH]; intros s; simpl; [naive_solver|].
  destruct s as [|x s]; simpl; [naive_solver|].
  rewrite andb_true_iff, N.eqb_eq, IH. naive_solver.
Qed.

Lemma matches_star s : matches [TStar] s = true.
Proof.
  induction s as [|c s IH]; [done|]. apply orb_true_iff. right. exact IH.
Qed.

(** A plain pattern matches itself only. *)
Lemma fnmatch_plain s p : plain p = true → fnmatchcase s p = bool_decide (s = p).
Proof.
  intros Hp. apply eq_bool_prop_intro. unfold fnmatchcase.
  rewrite <- (Nat.add_0_r (length p)). rewrite <- (app_nil_r p) at 2.
  rewrite tokens_plain_app by done. split.
  - intros H%Is_true_true_1%matches_lits. destruct H as (t & -> & Ht).
    apply bool_decide_pack. destruct t; [|done]. by rewrite app_nil_r.
  - intros H%bool_decide_unpack. subst. apply Is_true_true_2, matches_lits.
    exists []. by rewrite app_nil_r.
Qed.

(** A plain prefix followed by a star matches exactly the extensions. *)
Lemma fnmatch_prefix s p :
  plain p = true → fnmatchcase s (p ++ "*") = startswith s p.
Proof.
  intros Hp. apply eq_bool_prop_intro. unfold fnmatchcase. rewrite length_app.
  rewrite tokens_plain_app by done. split.
  - intros H%Is_true_true_1%matches_lits. destruct H as (t & -> & Ht).
    apply Is_true_true_2, startswith_app.
  - intros H%Is_true_true_1%startswith_spec. destruct H as [t ->].
    apply Is_true_true_2, matches_lits. exists t.
    split; [done|]. apply matches_star.
Qed.
