(* ===== verification/Config.v ===== *)
(** [config.py]: the identity options and the node configuration. *)

From stdpp Require Import base list gmap sorting.
From Stdlib Require Import NArith ZArith Lia.
From S2P Require Import Prelude PyStr PyFloat Json.

(** Per-role add/remove patch for the generated forbidden commands. *)
Record ForbiddenCommandPatch := {
  patch_add : gset pystr;
  patch_remove : gset pystr;
}.

Definition DEFAULT_ADDON_LIFECYCLE_DENYLIST : gset pystr :=
  list_to_set ["homeassistant"; "supervisor"].

(** Identity and agent-routing options. *)
Record IdentityConfig := {
  super_admins : gset pystr;
  user_agent_map : list (pystr * pystr);
  default_agent_id : pystr;
  user_role_agent_id : pystr;
  admin_role_agent_id : pystr;
  forbidden_commands : list (pystr * ForbiddenCommandPatch);
  addon_lifecycle_denylist : gset pystr;
}.

(** [IdentityConfig()] *)
Definition identity_default : IdentityConfig := {|
  super_admins := ∅;
  user_agent_map := [];
  default_agent_id := [];
  user_role_agent_id := [];
  admin_role_agent_id := [];
  forbidden_commands := [];
  addon_lifecycle_denylist := DEFAULT_ADDON_LIFECYCLE_DENYLIST;
|}.
