(* ===== verification/Authz.v ===== *)
(** [authz.py], the tables and the role policy: which services and commands a
    household user, a Home Assistant admin and a super admin may reach, the
    forbidden set of a role under the configured patches, and the decision
    [is_forbidden].  Log lines are not modelled. *)

From stdpp Require Import base list gmap sorting.
From Stdlib Require Import NArith ZArith Lia.
From S2P Require Import Prelude PyStr PyFloat Json Fnmatch Config.

(** A coarse role of an Assist turn. *)
Inductive Role := user | admin | super_admin.

#[global] Instance Role_eq_dec : EqDecision Role.
Proof. solve_decision. Defined.

Definition role_name (r : Role) : pystr :=
  match r with user => "user" | admin => "admin" | super_admin => "super_admin" end.

(** ** The service and command tables *)

Definition _ON_OFF_TOGGLE : list pystr := ["turn_on"; "turn_off"; "toggle"].

Definition HOUSEHOLD_ALLOWED_SERVICES : list (pystr * list pystr) :=
  [
    ("light", _ON_OFF_TOGGLE);
    ("switch", _ON_OFF_TOGGLE);
    ("input_boolean", _ON_OFF_TOGGLE);
    ("media_player", _ON_OFF_TOGGLE ++ ["media_play"; "media_pause"; "media_play_pause";
       "media_stop"; "media_next_track"; "media_previous_track"; "volume_up";
       "volume_down"; "volume_mute"; "volume_set"; "select_source"; "select_sound_mode"]);
    ("cover", ["open_cover"; "close_cover"; "stop_cover"; "toggle"; "set_cover_position";
       "open_cover_tilt"; "close_cover_tilt"; "stop_cover_tilt"; "toggle_cover_tilt";
       "set_cover_tilt_position"]);
    ("climate", ["turn_on"; "turn_off"; "set_temperature"; "set_hvac_mode";
       "set_fan_mode"; "set_preset_mode"; "set_humidity"]);
    ("fan", _ON_OFF_TOGGLE ++ ["set_percentage"; "set_preset_mode"; "oscillate";
       "set_direction"]);
    ("input_select", ["select_option"; "select_next"; "select_previous"; "select_first";
       "select_last"]);
    ("input_number", ["set_value"; "increment"; "decrement"]);
    ("vacuum", ["start"; "pause"; "stop"; "return_to_base"; "locate"; "clean_spot"]);
    ("humidifier", _ON_OFF_TOGGLE ++ ["set_humidity"; "set_mode"]);
    ("water_heater", ["turn_on"; "turn_off"; "set_temperature"; "set_operation_mode"]);
    ("remote", _ON_OFF_TOGGLE ++ ["send_command"]);
    ("scene", ["turn_on"]);
    ("script", ["turn_on"]);
    ("button", ["press"]);
    ("lock", ["lock"; "unlock"; "open"]);
    ("alarm_control_panel", ["alarm_arm_away"; "alarm_arm_home"; "alarm_arm_night";
       "alarm_arm_vacation"; "alarm_arm_custom_bypass"; "alarm_disarm"])
  ].

(** Membership in a constant set of strings. *)
Definition elem (x : pystr) (l : list pystr) : bool := bool_decide (x ∈ l).

Definition service_allowed (service : pystr) : bool :=
  let '(domain, name) := partition_at 46 service in
  elem name (default [] (dget domain HOUSEHOLD_ALLOWED_SERVICES)).

Definition _WRAPPER_SERVICES : list (pystr * pystr) :=
  [("ha.light_turn_on", "light.turn_on"); ("ha.light_turn_off", "light.turn_off")].
Definition _CALL_SERVICE_PREFIX : pystr := "ha.call_service:".

(** [_SERVICE_NAME.fullmatch(value)] *)
Definition _SERVICE_NAME (value : pystr) : bool :=
  ((1 <=? length value) && (length value <=? 64))%nat &&
  forallb (λ c, is_lower c || is_digit c || (c =? 95)%N) value.

Definition USER_ALLOWED_COMMANDS : list pystr :=
  [
    "ping"; "fs.read"; "fs.list"; "fs.stat"; "fs.glob"; "fs.history"; "fs.diff";
    "system.which"; "ha.list_states"; "ha.get_state"; "ha.call_service";
    "ha.light_turn_on"; "ha.light_turn_off"; "ha.list_areas"; "ha.list_devices";
    "ha.list_services"; "ha.get_config"; "ha.list_events"; "ha.list_config_entries";
    "ha.core_logs"; "ha.calendar_get_events"; "ha.list_entity_registry"; "ha.logbook";
    "ha.history"; "ha.list_automations"; "ha.check_config"; "ha.addon_logs";
    "ha.list_addons"; "ha.addon_info"; "ha.addon_stats"; "ha.addon_changelog";
    "ha.addon_documentation"; "ha.supervisor_info"
  ].

Definition USER_FORBIDDEN_COMMANDS : list pystr :=
  [
    "fs.write"; "fs.delete"; "fs.move"; "fs.restore"; "fs.patch"; "system.run";
    "system.run.prepare"; "system.execApprovals.get"; "system.execApprovals.set";
    "ha.reload_config"; "ha.addon_start"; "ha.addon_stop"; "ha.addon_restart";
    "ha.addon_update"; "ha.update_install"; "ha.config.lovelace";
    "ha.config.automation"; "ha.config.script"; "ha.config.scene"; "ha.config.helpers";
    "ha.config.area_registry"; "ha.config.device_registry"; "ha.config.entity_registry";
    "ha.config.config_entries"
  ].

Definition _USER_SERVICE_WILDCARD : pystr := "ha.call_service:*".
Definition _USER_NON_REMOVABLE : gset pystr :=
  list_to_set (_USER_SERVICE_WILDCARD :: USER_FORBIDDEN_COMMANDS).

Definition admin_default : list pystr :=
  ["fs.write"; "fs.delete"; "fs.move"; "fs.restore"; "fs.patch"; "system.run";
   "ha.call_service:shell_command.*"; "ha.call_service:python_script.*";
   "ha.call_service:command_line.*"; "ha.call_service:homeassistant.stop"].
Definition _DEFAULT_FORBIDDEN (r : Role) : gset pystr :=
  match r with
  | user => _USER_NON_REMOVABLE
  | admin => list_to_set admin_default
  | super_admin => ∅
  end.

(** ** Actors and roles *)

Record Actor := { user_id : pystr; actor_is_admin : bool }.

Definition resolve_role (identity : IdentityConfig) (actor : option Actor) : Role :=
  match actor with
  | None => user
  | Some a =>
      if actor_is_admin a && bool_decide (user_id a ∈ super_admins identity) then super_admin
      else if actor_is_admin a then admin
      else user
  end.

(** ** Forbidden sets *)

Definition patch_of (identity : IdentityConfig) (r : Role) : option ForbiddenCommandPatch :=
  dget (role_name r) (forbidden_commands identity).

(** The service prohibitions that the patches of more privileged roles pass
    down. *)
Definition service_entries (p : ForbiddenCommandPatch) : gset pystr :=
  filter (λ e, startswith e _CALL_SERVICE_PREFIX = true) (patch_add p).
Definition _inherited_service_prohibitions (identity : IdentityConfig) (r : Role) : gset pystr :=
  let roles := match r with user => [admin; super_admin] | _ => [super_admin] end in
  ⋃ (map (λ q, match patch_of identity q with
               | None => ∅
               | Some p => service_entries p
               end) roles).

Definition forbidden_set (identity : IdentityConfig) (r : Role) : gset pystr :=
  let patched :=
    match patch_of identity r with
    | None => _DEFAULT_FORBIDDEN r
    | Some p =>
        let removable :=
          if decide (r = user) then patch_remove p ∖ _USER_NON_REMOVABLE
          else patch_remove p in
        (_DEFAULT_FORBIDDEN r ∪ patch_add p) ∖ removable
    end in
  if decide (r = super_admin) then patched
  else patched ∪ _inherited_service_prohibitions identity r.
Definition forbidden_for_role (identity : IdentityConfig) (r : Role) : list pystr :=
  sorted_set (forbidden_set identity r).

(** ** The decision *)

Definition service_component (params : dict) (key : pystr) : option pystr :=
  let value := match dget key params with Some (JStr raw) => strip raw | _ => [] end in
  if _SERVICE_NAME value then Some value else None.

Definition service_for_command (command : pystr) (params : dict) : option pystr :=
  match dget command _WRAPPER_SERVICES with
  | Some s => Some s
  | None =>
      if decide (command = "ha.call_service") then
        match service_component params "domain", service_component params "service" with
        | Some d, Some s => Some (d ++ "." ++ s)
        | _, _ => None
        end
      else None
  end.

(** The globs of the [ha.call_service:] entries. *)
Definition service_patterns (entries : list pystr) : list pystr :=
  map (drop (length _CALL_SERVICE_PREFIX))
    (List.filter (λ e, startswith e _CALL_SERVICE_PREFIX) entries).

Definition pattern_blocks (service pattern : pystr) : bool :=
  if decide (pattern = "*") then negb (service_allowed service)
  else fnmatchcase service pattern.

Definition is_forbidden (forbidden : list pystr) (command : pystr) (params : dict) : bool :=
  if elem command forbidden then true
  else if negb (bool_decide (command = "ha.call_service")) && negb (dmem command _WRAPPER_SERVICES)
  then false
  else
    let patterns := service_patterns forbidden in
    match patterns with
    | [] => false
    | _ =>
        match service_for_command command params with
        | None => true
        | Some service => existsb (pattern_blocks service) patterns
        end
    end.

(** ** Agent routing *)

Definition resolve_agent_id (identity : IdentityConfig) (actor : option Actor) : pystr :=
  let mapped := match actor with
                | Some a => strip (default [] (dget (user_id a) (user_agent_map identity)))
                | None => []
                end in
  match mapped with
  | _ :: _ => mapped
  | [] =>
      let role_default := match resolve_role identity actor with
                          | user => user_role_agent_id identity
                          | admin => admin_role_agent_id identity
                          | super_admin => []
                          end in
      match strip role_default with
      | [] => strip (default_agent_id identity)
      | s => s
      end
  end.

(** ** Facts about the tables and the sets *)

Lemma elem_true x l : elem x l = true ↔ x ∈ l.
Proof. unfold elem. by rewrite bool_decide_eq_true. Qed.
Lemma elem_false x l : elem x l = false ↔ x ∉ l.
Proof. unfold elem. by rewrite bool_decide_eq_false. Qed.

Lemma elem_of_forbidden_for_role x identity r :
  x ∈ forbidden_for_role identity r ↔ x ∈ forbidden_set identity r.
Proof. apply elem_of_sorted_set. Qed.
#[export] Hint Rewrite elem_of_forbidden_for_role : py.

Lemma elem_of_service_patterns p l :
  p ∈ service_patterns l ↔ _CALL_SERVICE_PREFIX ++ p ∈ l.
Proof.
  unfold service_patterns. rewrite list_elem_of_fmap. split.
  - intros (e & -> & He). rewrite list_elem_of_In, filter_In in He. destruct He as [He Hs].
    apply startswith_spec in Hs as [t ->]. by rewrite drop_app_length, list_elem_of_In.
  - intros H. exists (_CALL_SERVICE_PREFIX ++ p). rewrite drop_app_length.
    split; [done|]. rewrite list_elem_of_In, filter_In, <- list_elem_of_In.
    by rewrite startswith_app.
Qed.

Lemma elem_of_service_entries e p :
  e ∈ service_entries p ↔ startswith e _CALL_SERVICE_PREFIX = true ∧ e ∈ patch_add p.
Proof. unfold service_entries. set_solver. Qed.

(** The roles whose patches bind a role. *)
Definition privilege (r : Role) : nat :=
  match r with user => 0 | admin => 1 | super_admin => 2 end.

Lemma inherited_from identity r1 r2 p e :
  privilege r1 < privilege r2 → patch_of identity r2 = Some p →
  startswith e _CALL_SERVICE_PREFIX = true → e ∈ patch_add p →
  e ∈ _inherited_service_prohibitions identity r1.
Proof.
  intros Hr Hp He Hadd. unfold _inherited_service_prohibitions.
  apply elem_of_union_list. exists (service_entries p).
  split; [|by apply elem_of_service_entries].
  apply list_elem_of_fmap. exists r2. rewrite Hp. split; [done|].
  destruct r1, r2; simpl in Hr; try lia; set_solver.
Qed.

Lemma inherited_mono identity r1 r2 e :
  privilege r1 < privilege r2 → r2 ≠ super_admin →
  e ∈ _inherited_service_prohibitions identity r2 →
  e ∈ _inherited_service_prohibitions identity r1.
Proof.
  intros Hr Hne (X & HX & He)%elem_of_union_list. apply elem_of_union_list.
  exists X. split; [|done]. clear He.
  destruct r1, r2; simpl in Hr; try (exfalso; lia); try congruence. right. exact HX.
Qed.

(** Where a service entry of a more privileged role comes from, for a less
    privileged one. *)
Lemma service_entry_passes_down identity r1 r2 e :
  privilege r1 < privilege r2 → startswith e _CALL_SERVICE_PREFIX = true →
  e ∈ forbidden_set identity r2 →
  e ∈ forbidden_set identity r1 ∨ (r1 = user ∧ e ∈ _DEFAULT_FORBIDDEN admin).
Proof.
  intros Hr He Hin.
  assert (Hsup : r1 ≠ super_admin) by (destruct r1, r2; simpl in Hr; lia || done).
  assert (Hinh : ∀ x, x ∈ _inherited_service_prohibitions identity r1 →
                      x ∈ forbidden_set identity r1).
  { intros x Hx. unfold forbidden_set. rewrite (decide_False (P := r1 = super_admin)) by done.
    set_solver. }
  assert (Hcases : e ∈ _DEFAULT_FORBIDDEN r2 ∨
    (∃ p, patch_of identity r2 = Some p ∧ e ∈ patch_add p) ∨
    (r2 ≠ super_admin ∧ e ∈ _inherited_service_prohibitions identity r2)).
  { unfold forbidden_set in Hin. revert Hin.
    generalize (_DEFAULT_FORBIDDEN r2), (_inherited_service_prohibitions identity r2).
    intros D I Hin. destruct (patch_of identity r2) as [p|] eqn:Hp;
      destruct (decide (r2 = super_admin)); set_solver. }
  destruct Hcases as [Hd|[(p & Hp & Ha)|[Hne Hi]]].
  - destruct r1, r2; simpl in Hr; try (exfalso; lia);
      [right; split; [reflexivity|exact Hd]| |]; by apply not_elem_of_empty in Hd.
  - left. apply Hinh. by eapply inherited_from.
  - left. apply Hinh. by eapply inherited_mono.
Qed.

Lemma wildcard_for_user identity :
  ∀ x, x ∈ _USER_NON_REMOVABLE → x ∈ forbidden_set identity user.
Proof.
  intros x Hx. unfold forbidden_set. rewrite (decide_False (P := user = super_admin)) by done.
  change (_DEFAULT_FORBIDDEN user) with _USER_NON_REMOVABLE.
  revert Hx. generalize _USER_NON_REMOVABLE as U, (_inherited_service_prohibitions identity user).
  intros U I Hx.
  destruct (patch_of identity user) as [p|]; cbn zeta; [|set_solver].
  rewrite (decide_True (P := user = user)) by done. set_solver.
Qed.

Lemma wildcard_non_removable : _USER_SERVICE_WILDCARD ∈ _USER_NON_REMOVABLE.
Proof. unfold _USER_NON_REMOVABLE. apply elem_of_list_to_set. set_solver. Qed.

(** A service of a domain that the table lacks is not allowed. *)
Lemma service_allowed_other_domain d t :
  46%N ∉ d → dget d HOUSEHOLD_ALLOWED_SERVICES = None →
  service_allowed (d ++ 46%N :: t) = false.
Proof.
  intros Hd Hn. unfold service_allowed. rewrite partition_at_app by done.
  by rewrite Hn.
Qed.

Lemma prefix_pattern_outside_table s d :
  plain (d ++ ".") && bool_decide (46%N ∉ d) && negb (dmem d HOUSEHOLD_ALLOWED_SERVICES) &&
    bool_decide ((d ++ ".") ++ "*" ≠ ("*" : pystr)) = true →
  pattern_blocks s ((d ++ ".") ++ "*") = true → service_allowed s = false.
Proof.
  intros Hd Hf. bprop. unfold pattern_blocks in Hf.
  rewrite decide_False, fnmatch_prefix in Hf by done.
  apply startswith_spec in Hf as [t ->]. rewrite <- app_assoc.
  apply service_allowed_other_domain; [done|]. by apply dmem_false.
Qed.

Lemma admin_default_patterns :
  service_patterns admin_default =
  [("shell_command" ++ ".") ++ "*"; ("python_script" ++ ".") ++ "*";
   ("command_line" ++ ".") ++ "*"; "homeassistant.stop"].
Proof. vm_compute. reflexivity. Qed.

(** The services that the default admin patterns block are outside the table. *)
Lemma admin_patterns_outside_table s p :
  p ∈ service_patterns admin_default →
  pattern_blocks s p = true → service_allowed s = false.
Proof.
  rewrite admin_default_patterns, !elem_of_cons. intros [->|[->|[->|[->|[]%elem_of_nil]]]];
    [apply prefix_pattern_outside_table; vm_compute; reflexivity ..|].
  unfold pattern_blocks. rewrite decide_False, fnmatch_plain by (done || by vm_compute).
  intros ->%bool_decide_eq_true_1. vm_compute. reflexivity.
Qed.

(** ** Canonical services *)

Lemma service_component_valid params key v :
  service_component params key = Some v → _SERVICE_NAME v = true.
Proof. unfold service_component. intros H. by case_match; simplify_eq. Qed.

Lemma service_name_no_dot v : _SERVICE_NAME v = true → 46%N ∉ v.
Proof.
  unfold _SERVICE_NAME. intros [_ H]%andb_true_iff. rewrite forallb_true_forall in H.
  intros Hin. by specialize (H _ Hin).
Qed.

Lemma service_for_command_wrapper command s params :
  dget command _WRAPPER_SERVICES = Some s → service_for_command command params = Some s.
Proof. intros H. unfold service_for_command. by rewrite H. Qed.

(** The service of a call is [domain.name] with a dot-free domain. *)
Lemma service_for_command_canonical command params s :
  service_for_command command params = Some s →
  ∃ d n, s = d ++ "." ++ n ∧ 46%N ∉ d.
Proof.
  unfold service_for_command. intros H.
  destruct (dget command _WRAPPER_SERVICES) as [w|] eqn:Hw.
  - apply dget_elem in Hw. injection H as ->.
    exists "light", (drop 6 s). unfold _WRAPPER_SERVICES in Hw. rewrite !elem_of_cons in Hw.
    destruct Hw as [[= -> ->]|[[= -> ->]|[]%elem_of_nil]]; split; try done; compute_done.
  - case_decide; [|done].
    destruct (service_component params "domain") as [d|] eqn:Hd; [|done].
    destruct (service_component params "service") as [n|] eqn:Hn; [|done].
    injection H as <-. exists d, n. split; [done|].
    eapply service_name_no_dot, service_component_valid, Hd.
Qed.

(** The part of [is_forbidden] after the exact-name test. *)
Definition service_command (command : pystr) : bool :=
  bool_decide (command = "ha.call_service") || dmem command _WRAPPER_SERVICES.

Lemma is_forbidden_service forbidden command params :
  command ∉ forbidden → service_command command = true →
  is_forbidden forbidden command params = true ↔
    ∃ p, p ∈ service_patterns forbidden ∧
         ∀ s, service_for_command command params = Some s → pattern_blocks s p = true.
Proof.
  intros He Hc. unfold is_forbidden. rewrite (proj2 (elem_false _ _)) by done.
  unfold service_command in Hc. rewrite <- negb_orb, Hc. simpl.
  destruct (service_patterns forbidden) as [|p0 ps] eqn:Hps.
  - split; [done|]. by intros (p & ?%elem_of_nil & _).
  - destruct (service_for_command command params) as [s|].
    + rewrite existsb_true_exists. split; intros (p & ? & Hb); exists p.
      * split; [done|]. by intros ? [= <-].
      * split; [done|]. by apply Hb.
    + split; [|done]. intros _. exists p0. split; [by left|]. by intros ? [=].
Qed.

Lemma is_forbidden_other forbidden command params :
  service_command command = false →
  is_forbidden forbidden command params = elem command forbidden.
Proof.
  unfold service_command. intros [H1 H2]%orb_false_iff. unfold is_forbidden.
  rewrite H1, H2. simpl. by destruct (elem command forbidden).
Qed.

Lemma wildcard_pattern_for_user identity :
  _CALL_SERVICE_PREFIX ++ "*" ∈ forbidden_for_role identity user.
Proof.
  rewrite elem_of_forbidden_for_role. apply wildcard_for_user, wildcard_non_removable.
Qed.

(** ** Properties *)

(** Whatever a configuration patch removes, the forbidden set of the
    household user keeps every command of [USER_FORBIDDEN_COMMANDS] and the
    service wildcard. *)
Theorem user_forbidden_non_removable identity x :
  x ∈ _USER_SERVICE_WILDCARD :: USER_FORBIDDEN_COMMANDS →
  x ∈ forbidden_for_role identity user.
Proof.
  intros Hx. rewrite elem_of_forbidden_for_role. apply wildcard_for_user.
  unfold _USER_NON_REMOVABLE. by apply elem_of_list_to_set.
Qed.

Definition patched_user : IdentityConfig :=
  {| super_admins := {["root"]}; user_agent_map := []; default_agent_id := [];
     user_role_agent_id := []; admin_role_agent_id := [];
     forbidden_commands :=
       [("user", {| patch_add := {["ha.call_service:lock.*"]};
                    patch_remove := {["fs.write"; "ha.call_service:*"]} |});
        ("super_admin", {| patch_add := {["ha.call_service:vacuum.*"; "ha.light_turn_on"]};
                           patch_remove := {["ha.call_service:vacuum.*"]} |})];
     addon_lifecycle_denylist := ∅ |}.

Example user_forbidden_non_removable_witness :
  ("fs.write" : pystr) ∈ forbidden_for_role patched_user user.
Proof. apply (user_forbidden_non_removable patched_user). compute_done. Defined.

(** Under every configuration, a service call that the forbidden set lets a
    household user make names a service of [HOUSEHOLD_ALLOWED_SERVICES]. *)
Theorem user_services_within_table identity command params :
  service_command command = true →
  is_forbidden (forbidden_for_role identity user) command params = false →
  ∃ s, service_for_command command params = Some s ∧ service_allowed s = true.
Proof.
  intros Hc Hf.
  assert (Hne : command ∉ forbidden_for_role identity user).
  { intros Hin. unfold is_forbidden in Hf. by rewrite (proj2 (elem_true _ _) Hin) in Hf. }
  assert (Hw : ("*" : pystr) ∈ service_patterns (forbidden_for_role identity user)).
  { apply elem_of_service_patterns, wildcard_pattern_for_user. }
  destruct (service_for_command command params) as [s|] eqn:Hs.
  - exists s. split; [done|]. destruct (service_allowed s) eqn:Ha; [done|].
    rewrite (proj2 (is_forbidden_service _ _ params Hne Hc)) in Hf; [done|].
    exists "*". split; [done|]. intros s' Hs'. simplify_eq. unfold pattern_blocks.
    rewrite decide_True by done. by rewrite Ha.
  - rewrite (proj2 (is_forbidden_service _ _ params Hne Hc)) in Hf; [done|].
    exists "*". split; [done|]. intros s'. by rewrite Hs.
Qed.

Example user_services_within_table_witness :
  ∃ s, service_for_command "ha.call_service"
         [("domain", JStr "light"); ("service", JStr " turn_on ")] = Some s ∧
       service_allowed s = true.
Proof.
  apply (user_services_within_table identity_default "ha.call_service"
           [("domain", JStr "light"); ("service", JStr " turn_on ")]);
    vm_compute; reflexivity.
Defined.

(** Service prohibitions never invert privilege: a service call (generic or
    through a light wrapper) that the service patterns of a more privileged
    role's forbidden set block is blocked for every less privileged role too,
    under every configuration. *)
Theorem service_prohibitions_never_invert identity r1 r2 command params :
  privilege r1 < privilege r2 →
  service_command command = true →
  command ∉ forbidden_for_role identity r2 →
  is_forbidden (forbidden_for_role identity r2) command params = true →
  is_forbidden (forbidden_for_role identity r1) command params = true.
Proof.
  intros Hr Hc Hne Hf.
  destruct (decide (command ∈ forbidden_for_role identity r1)) as [Hin|Hn1].
  { unfold is_forbidden. by rewrite (proj2 (elem_true _ _) Hin). }
  apply is_forbidden_service in Hf as (p & Hp & Hb); [|done..].
  apply is_forbidden_service; [done..|].
  rewrite elem_of_service_patterns, elem_of_forbidden_for_role in Hp.
  destruct (service_entry_passes_down identity r1 r2 _ Hr (startswith_app _ _) Hp)
    as [Hp1|[-> Hd]].
  - exists p. by rewrite elem_of_service_patterns, elem_of_forbidden_for_role.
  - exists "*". split; [apply elem_of_service_patterns, wildcard_pattern_for_user|].
    intros s Hs. unfold pattern_blocks. rewrite decide_True by done. apply negb_true_iff.
    apply (admin_patterns_outside_table s p); [|by apply Hb].
    apply elem_of_service_patterns. by apply elem_of_list_to_set in Hd.
Qed.

Example service_prohibitions_never_invert_witness :
  is_forbidden (forbidden_for_role patched_user user) "ha.call_service"
    [("domain", JStr "shell_command"); ("service", JStr "run")] = true.
Proof.
  apply (service_prohibitions_never_invert patched_user user admin);
    [simpl; lia|vm_compute; reflexivity|compute_done|vm_compute; reflexivity].
Defined.

(** The guarantee stops at service patterns: a command that a super admin's
    patch forbids by its exact name stays allowed to admins and to household
    users. *)
Theorem exact_name_prohibition_inverts :
  ∃ identity command params,
    service_command command = true ∧
    is_forbidden (forbidden_for_role identity super_admin) command params = true ∧
    is_forbidden (forbidden_for_role identity admin) command params = false ∧
    is_forbidden (forbidden_for_role identity user) command params = false.
Proof.
  exists patched_user, "ha.light_turn_on", []. vm_compute. done.
Qed.
