(* ===== verification/Policy.v ===== *)
(** [caller.py], [approval_policy.py], [effect_policy.py] and the interim
    service denials of [commands/ha.py]: who is calling, which gated mutations
    run without an approval marker, and the gate [check] that decides before any
    handler runs. *)

From stdpp Require Import base list gmap sorting.
From Stdlib Require Import NArith ZArith Lia.
From S2P Require Import Prelude PyStr PyFloat Json Fnmatch Config Authz.

(** ** Callers *)

(** The principal of a call: a role of an Assist turn, or an operator. *)
Inductive CallerRole := TurnRole (r : Role) | operator.

#[global] Instance CallerRole_eq_dec : EqDecision CallerRole.
Proof. solve_decision. Defined.

Record Caller := {
  caller_role : CallerRole;
  actor_id : pystr;
  caller_forbidden : list pystr;
}.

Record TurnAuthz := {
  turn_actor : option Actor;
  turn_role : Role;
  turn_agent_id : pystr;
  turn_forbidden : list pystr;
  turn_disclaimer : pystr;
}.

Definition Caller_operator (actor_id : pystr) : Caller :=
  {| caller_role := operator; actor_id := actor_id; caller_forbidden := [] |}.
Definition Caller_from_turn (authz : TurnAuthz) : Caller :=
  {| caller_role := TurnRole (turn_role authz);
     actor_id := match turn_actor authz with Some a => user_id a | None => "<anonymous>" end;
     caller_forbidden := turn_forbidden authz |}.
Definition UNTRUSTED : Caller :=
  {| caller_role := TurnRole user;
     actor_id := "<untrusted>";
     caller_forbidden := forbidden_for_role identity_default user |}.

(** ** Approval policy *)

(** Command to actions; the empty action stands for commands without one. *)
Abbreviation ActionTable := (list (pystr * list pystr)).

Definition DESTRUCTIVE : ActionTable :=
  [("ha.config.automation", ["delete"]); ("ha.config.script", ["delete"]);
   ("ha.config.scene", ["delete"]); ("ha.config.helpers", ["delete"]);
   ("ha.config.area_registry", ["delete"]); ("ha.config.entity_registry", ["remove"]);
   ("ha.config.config_entries", ["disable"]); ("fs.delete", [[]]); ("fs.move", [[]]);
   ("fs.restore", [[]]); ("ha.update_install", [[]])].

Definition USER_DIRECTED : ActionTable :=
  [("ha.config.automation", ["save"]); ("ha.config.script", ["save"]);
   ("ha.config.scene", ["save"]); ("ha.config.helpers", ["create"; "update"]);
   ("ha.config.area_registry", ["create"; "update"]);
   ("ha.config.device_registry", ["update"]); ("ha.config.entity_registry", ["update"]);
   ("ha.config.config_entries", ["enable"]);
   ("ha.config.lovelace", ["save"; "resources_create"])].

Definition LIFECYCLE_NO_APPROVAL (r : CallerRole) : option ActionTable :=
  match r with
  | TurnRole admin => Some [("ha.addon_start", [[]]); ("ha.addon_restart", [[]])]
  | TurnRole super_admin =>
      Some [("ha.addon_start", [[]]); ("ha.addon_stop", [[]]); ("ha.addon_restart", [[]])]
  | _ => None
  end.

Definition _listed (table : ActionTable) (command action : pystr) : bool :=
  elem action (default [] (dget command table)).

Definition approval_exempt (caller : option Caller) (command action : pystr) : bool :=
  match caller with
  | None => false
  | Some c =>
      match LIFECYCLE_NO_APPROVAL (caller_role c) with
      | None => false
      | Some table =>
          if decide (actor_id c = "<anonymous>") then false
          else _listed USER_DIRECTED command action || _listed table command action
      end
  end.

(** ** Interim service denials *)

Definition _INTERIM_DENIED_SERVICE_PATTERNS : list (pystr * pystr) :=
  [("hassio.addon_start", "use ha.addon_start with node slug policy");
   ("hassio.addon_stop", "use ha.addon_stop with node slug policy");
   ("hassio.addon_restart", "use ha.addon_restart with node slug policy");
   ("hassio.addon_update", "use ha.addon_update with node slug policy");
   ("hassio.app_start", "use ha.addon_start with node slug policy");
   ("hassio.app_stop", "use ha.addon_stop with node slug policy");
   ("hassio.app_restart", "use ha.addon_restart with node slug policy");
   ("hassio.app_update", "use ha.addon_update with node slug policy");
   ("hassio.addon_stdin", "use the future service effect-policy path");
   ("hassio.app_stdin", "use the future service effect-policy path");
   ("hassio.host_reboot", "use the future host lifecycle approval path");
   ("hassio.host_shutdown", "use the future host lifecycle approval path");
   ("hassio.host_update", "use the future host update approval path");
   ("hassio.supervisor_update", "use the future Supervisor update approval path");
   ("hassio.mount_reload", "use the dedicated reload/configuration policy path");
   ("update.*", "use ha.update_install with operator approval");
   ("shell_command.*", "use system.run with native exec approval");
   ("python_script.*", "use the future service effect-policy path");
   ("command_line.*", "use the future service effect-policy path");
   ("homeassistant.restart", "use the future lifecycle approval path");
   ("homeassistant.stop", "use the future shutdown approval path");
   ("*.reload", "use the dedicated reload/configuration policy path");
   ("*.reload_*", "use the dedicated reload/configuration policy path")].

Definition _interim_service_denial (domain service : pystr) : option pystr :=
  let candidates :=
    [domain ++ "." ++ service; domain ++ ".*"] ++
    (if decide (service = "reload") then ["*.reload"]
     else if startswith service "reload_" then ["*.reload_*"] else []) in
  (* the first candidate with a (non-empty) reason *)
  head (omap (λ p, match dget p _INTERIM_DENIED_SERVICE_PATTERNS with
                   | Some [] => None
                   | r => r
                   end) candidates).

(** ** Effect policy *)

Inductive Effect := deny | auto_allow | unclassified.

Definition classify (service : option pystr) : Effect :=
  match service with
  | None => deny
  | Some s =>
      let '(domain, name) := partition_at 46 s in
      match _interim_service_denial domain name with
      | Some _ => deny
      | None => if service_allowed s then auto_allow else unclassified
      end
  end.

Definition not_permitted (command : pystr) : json :=
  error_dict "PERMISSION_DENIED" (command ++ " is not permitted for this caller").

(** The refusal of a call, or [None] when it may proceed. *)
Definition check (caller : Caller) (command : pystr) (params : dict) : option json :=
  let is_operator := bool_decide (caller_role caller = operator) in
  let is_user := bool_decide (caller_role caller = TurnRole user) in
  let service := service_for_command command params in
  let effect := classify service in
  match service, effect with
  | Some s, deny => Some (error_dict "SERVICE_DENIED" (command ++ " denies " ++ s))
  | _, _ =>
      if is_user && negb (elem command USER_ALLOWED_COMMANDS)
      then Some (not_permitted command)
      else if negb is_operator && is_forbidden (caller_forbidden caller) command params
      then Some (not_permitted command)
      else match service with
           | None =>
               if negb (bool_decide (command = "ha.call_service")) then None
               else if is_operator then None
               else Some (error_dict "PERMISSION_DENIED" "service is malformed")
           | Some s =>
               match effect with
               | auto_allow => None
               | _ =>
                   if is_operator then None
                   else if is_user
                   then Some (error_dict "PERMISSION_DENIED"
                                ("service " ++ s ++ " is not permitted for this caller"))
                   else Some (error_dict "APPROVAL_REQUIRED"
                                ("service " ++ s ++ " needs approval; native approval is not "
                                 ++ "available in this build"))
               end
           end
  end.

(** ** Tables *)

Lemma elem_default_dget {k x} (t : list (pystr * list pystr)) :
  elem x (default [] (dget k t)) = true → ∃ l, (k, l) ∈ t ∧ x ∈ l.
Proof.
  rewrite elem_true. destruct (dget k t) as [l|] eqn:Hl; simpl; [|by intros ?%elem_of_nil].
  intros Hx. exists l. split; [|done]. by apply dget_elem.
Qed.

Lemma table_forall (t : list (pystr * list pystr)) (f : pystr → pystr → bool) :
  forallb (λ '(k, l), forallb (f k) l) t = true →
  ∀ k x, elem x (default [] (dget k t)) = true → f k x = true.
Proof.
  rewrite forallb_true_forall. intros H k x (l & Hl & Hx)%elem_default_dget.
  specialize (H _ Hl). rewrite forallb_true_forall in H. by apply H.
Qed.

Lemma allowed_table_not_denied domain name :
  elem name (default [] (dget domain HOUSEHOLD_ALLOWED_SERVICES)) = true →
  _interim_service_denial domain name = None.
Proof.
  intros H.
  assert (Hf : (λ d n, bool_decide (_interim_service_denial d n = None)) domain name = true).
  { revert domain name H. apply table_forall. vm_compute. reflexivity. }
  by apply bool_decide_eq_true_1 in Hf.
Qed.

(** ** The approval policy *)

(** No caller may run a destructive action without approval. *)
Theorem destructive_never_exempt caller command action :
  _listed DESTRUCTIVE command action = true →
  approval_exempt caller command action = false.
Proof.
  intros H. destruct caller as [c|]; [|done].
  assert (Ht : ∀ r, (λ k a,
    negb (_listed USER_DIRECTED k a || _listed (default [] (LIFECYCLE_NO_APPROVAL r)) k a))
    command action = true).
  { intros r. revert command action H. apply table_forall.
    destruct r as [[]|]; vm_compute; reflexivity. }
  specialize (Ht (caller_role c)). apply negb_true_iff in Ht. unfold approval_exempt.
  destruct (LIFECYCLE_NO_APPROVAL (caller_role c)); [|done]. by case_decide.
Qed.

Example destructive_never_exempt_witness :
  approval_exempt (Some {| caller_role := TurnRole super_admin; actor_id := "root";
                           caller_forbidden := [] |}) "fs.delete" [] = false.
Proof. apply destructive_never_exempt. vm_compute. reflexivity. Defined.

(** Exemption from approval grows with privilege: what an admin may run
    without approval, a super admin with the same identity may run too; and it
    is never granted to a household user, an operator, an anonymous actor or an
    unresolved caller. *)
Theorem approval_exempt_by_role actor forbidden forbidden' command action :
  (approval_exempt (Some (Build_Caller (TurnRole admin) actor forbidden)) command action = true →
   approval_exempt (Some (Build_Caller (TurnRole super_admin) actor forbidden')) command action
     = true) ∧
  approval_exempt (Some (Build_Caller (TurnRole user) actor forbidden)) command action = false ∧
  approval_exempt (Some (Build_Caller operator actor forbidden)) command action = false ∧
  approval_exempt None command action = false ∧
  ∀ r, approval_exempt (Some (Build_Caller r "<anonymous>" forbidden)) command action = false.
Proof.
  split; [|split; [done|split; [done|split; [done|by intros [[]|]]]]].
  unfold approval_exempt. simpl. case_decide; [done|].
  destruct (_listed USER_DIRECTED command action); [done|]. simpl.
  apply (table_forall _ (λ k a, _listed (default [] (LIFECYCLE_NO_APPROVAL (TurnRole super_admin))) k a)).
  vm_compute. reflexivity.
Qed.

Example approval_exempt_by_role_witness :
  approval_exempt (Some (Build_Caller (TurnRole super_admin) "root" [])) "ha.addon_start" [] = true.
Proof. apply (approval_exempt_by_role "root" [] []). vm_compute. reflexivity. Defined.

(** ** The effect policy *)

(** The printed table and the classification agree: a service is classified
    [auto_allow] exactly when the table allows it, so no allowed service is in
    the deny class. *)
Theorem classify_auto_allow s :
  classify (Some s) = auto_allow ↔ service_allowed s = true.
Proof.
  unfold classify, service_allowed. destruct (partition_at 46 s) as [d n].
  destruct (elem n _) eqn:He.
  - by rewrite allowed_table_not_denied.
  - by destruct (_interim_service_denial d n).
Qed.

(** What the module promises, by principal. *)
Definition permitted (c : Caller) (command : pystr) (params : dict) : Prop :=
  let service := service_for_command command params in
  (∀ s, service = Some s → classify service ≠ deny) ∧
  (caller_role c ≠ operator →
     is_forbidden (caller_forbidden c) command params = false ∧
     (command = "ha.call_service" → service ≠ None) ∧
     (∀ s, service = Some s → service_allowed s = true)) ∧
  (caller_role c = TurnRole user → command ∈ USER_ALLOWED_COMMANDS).

(** C2. The gate refines its specification: a call passes [check] exactly when
    no deny-class service is named, a non-operator is not forbidden the call and
    names, where the command carries one, a service of the table, and a
    household user stays within [USER_ALLOWED_COMMANDS]. *)
Theorem check_refines_policy c command params :
  check c command params = None ↔ permitted c command params.
Proof.
  unfold check, permitted. cbv zeta.
  pose proof (classify_auto_allow) as Haa.
  destruct (service_for_command command params) as [s|] eqn:Hs.
  - specialize (Haa s). destruct (classify (Some s)) eqn:Hcl;
      (destruct (service_allowed s) eqn:Ha;
       [|try (destruct Haa as [Haa _]; discriminate (Haa eq_refl))];
       try (destruct Haa as [_ Haa]; discriminate (Haa eq_refl)));
      repeat (case_bool_decide; simpl); destruct (elem command USER_ALLOWED_COMMANDS) eqn:He;
      rewrite ?elem_true, ?elem_false in He;
      destruct (is_forbidden (caller_forbidden c) command params); simpl; naive_solver.
  - repeat (case_bool_decide; simpl); destruct (elem command USER_ALLOWED_COMMANDS) eqn:He;
      rewrite ?elem_true, ?elem_false in He;
      destruct (is_forbidden (caller_forbidden c) command params); simpl; naive_solver.
Qed.

(** Each refusal code has one cause: [SERVICE_DENIED] is the deny class, for
    every caller; [APPROVAL_REQUIRED] is an admin's or super admin's service
    outside the table; an operator gets no other refusal. *)
Theorem check_refusal_codes c command params r :
  check c command params = Some r →
  let service := service_for_command command params in
  (error_code r = Some "SERVICE_DENIED" ∧ ∃ s, service = Some s ∧ classify service = deny) ∨
  (caller_role c ≠ operator ∧ error_code r = Some "PERMISSION_DENIED") ∨
  (error_code r = Some "APPROVAL_REQUIRED" ∧ classify service = unclassified ∧
   is_forbidden (caller_forbidden c) command params = false ∧
   (caller_role c = TurnRole admin ∨ caller_role c = TurnRole super_admin)).
Proof.
  unfold check. cbv zeta.
  assert (Hrole : caller_role c = operator ∨ caller_role c = TurnRole user ∨
                  caller_role c = TurnRole admin ∨ caller_role c = TurnRole super_admin).
  { destruct (caller_role c) as [[]|]; auto. }
  destruct (service_for_command command params) as [s|];
    destruct (classify _) eqn:?; repeat (case_bool_decide; simpl);
    destruct (elem command USER_ALLOWED_COMMANDS);
    destruct (is_forbidden (caller_forbidden c) command params) eqn:?; simpl;
    intros [= <-]; try congruence; try (left; by eauto); try (right; left; by split);
    try (right; right; split; [done|split; [done|split; [done|naive_solver]]]).
Qed.

Example check_refusal_codes_witness :
  let params := [("domain", JStr "input_select"); ("service", JStr "set_options")] in
  let c := Build_Caller (TurnRole admin) "ann" (forbidden_for_role identity_default admin) in
  ∃ r, check c "ha.call_service" params = Some r ∧
       (error_code r = Some "SERVICE_DENIED" ∧
          (∃ s, service_for_command "ha.call_service" params = Some s ∧
                classify (service_for_command "ha.call_service" params) = deny) ∨
        (caller_role c ≠ operator ∧ error_code r = Some "PERMISSION_DENIED") ∨
        (error_code r = Some "APPROVAL_REQUIRED" ∧
         classify (service_for_command "ha.call_service" params) = unclassified ∧
         is_forbidden (caller_forbidden c) "ha.call_service" params = false ∧
         (caller_role c = TurnRole admin ∨ caller_role c = TurnRole super_admin))).
Proof.
  eexists. split; [vm_compute; reflexivity|].
  apply (check_refusal_codes
    (Build_Caller (TurnRole admin) "ann" (forbidden_for_role identity_default admin))).
  vm_compute. reflexivity.
Defined.
