(* ===== verification/Scrub.v ===== *)
(** [authz.py], the lock and alarm codes: which values of a call are codes
    ([collect_codes]), how a code is masked wherever it could leave the node
    ([scrub_codes], [redact_code]), and the normalisation of a service's own
    [code] field. *)

From stdpp Require Import base list gmap sorting.
From Stdlib Require Import NArith ZArith Lia.
From S2P Require Import Prelude PyStr PyFloat Json Authz.

Definition _MASK_CANDIDATES : list pystr := ["[redacted]"; "***"; "<masked>"].
Definition _CODE_DOMAINS : list pystr := ["lock"; "alarm_control_panel"].
Definition _MASK_PASSES : nat := 8.

(** [math.isfinite(z)] of an integer converts it to a float first: an integer
    that rounds past the largest float raises. *)
Definition int_isfinite (z : Z) : res bool :=
  if (Z.abs z <? 2 ^ 1024 - 2 ^ 970)%Z then Ret true
  else Raise (Exn "OverflowError" "int too large to convert to float").

(** Whether the value of a ["code"] key is collected. *)
Definition is_code (item : json) : res bool :=
  match item with
  | JStr s => Ret (match s with [] => false | _ => true end)
  | JInt z => int_isfinite z
  | JFloat x => Ret (isfinite x)
  | _ => Ret false
  end.

Fixpoint collect_codes (value : json) : res (list json) :=
  match value with
  | JDict d =>
      (fix go (d : dict) : res (list json) :=
         match d with
         | [] => Ret []
         | (key, item) :: d =>
             let? here :=
               (if decide (key = "code") then
                  let? c := is_code item in
                  if c then Ret [item] else collect_codes item
                else collect_codes item) in
             let? rest := go d in
             Ret (here ++ rest)
         end) d
  | JList l =>
      (fix go (l : list json) : res (list json) :=
         match l with
         | [] => Ret []
         | item :: l =>
             let? here := collect_codes item in
             let? rest := go l in
             Ret (here ++ rest)
         end) l
  | _ => Ret []
  end.

(** ** Masking *)

(** One pass of [pattern.sub]: the alternatives are the forms in order, a match
    is replaced and the scan resumes after it. *)
Fixpoint sub_pass (fuel : nat) (forms : list pystr) (mask text : pystr) : pystr :=
  match fuel, text with
  | S f, c :: t =>
      match List.find (startswith text) forms with
      | Some n => mask ++ sub_pass f forms mask (drop (length n) text)
      | None => c :: sub_pass f forms mask t
      end
  | _, _ => []
  end.

Fixpoint mask_passes (n : nat) (forms : list pystr) (mask text : pystr) : pystr :=
  match n with
  | O => []
  | S n =>
      let text := sub_pass (length text) forms mask text in
      if negb (existsb (contains text) forms) then text else mask_passes n forms mask text
  end.

(** The pattern is [None] exactly when there is no form. *)
Definition _mask_text (text : pystr) (forms : list pystr) (mask : pystr) : pystr :=
  match forms with
  | [] => text
  | _ => mask_passes _MASK_PASSES forms mask text
  end.

Section scrub.
Context `{Unicode}.

(** The recognisable forms of a code. *)
Definition needles_of (code : json) : list pystr :=
  match code with
  | JStr s => [s; json_dumps_str s; repr_str s; json_esc s]
  | JInt z => [str_of_Z z]
  | JFloat x => [float_repr x; json_dumps_float x]
  | _ => []
  end.
Definition longer (a b : pystr) : Prop := (length b ≤ length a)%nat.
#[global] Instance longer_dec : RelDecision longer.
Proof. intros a b. unfold longer. apply _. Defined.

(** The non-empty forms, longest first.  Python leaves the order of forms of
    equal length open (they come from a set). *)
Definition ordered (codes : list json) : list pystr :=
  merge_sort longer
    (remove_dups (List.filter (λ n, negb (bool_decide (n = [])))
                    (concat (map needles_of codes)))).

(** The first candidate that holds no form, else the empty string. *)
Definition choose_mask (forms : list pystr) : pystr :=
  default [] (List.find (λ m, negb (existsb (contains m) forms)) _MASK_CANDIDATES).

Definition numbers (codes : list json) : list num :=
  omap num_of (List.filter (λ c, negb (is_str c)) codes).

Definition is_number (j : json) : bool :=
  match j with JInt _ | JFloat _ => true | _ => false end.
Definition masked_number (nums : list num) (j : json) : bool :=
  match num_of j with
  | Some n => is_number j && existsb (num_eqb n) nums
  | None => false
  end.

Fixpoint walk (forms : list pystr) (mask : pystr) (nums : list num) (item : json) : json :=
  match item with
  | JStr s => JStr (_mask_text s forms mask)
  | JInt _ | JFloat _ => if masked_number nums item then JStr mask else item
  | JDict d =>
      JDict (dict_of (map (λ kv, (_mask_text kv.1 forms mask, walk forms mask nums kv.2)) d))
  | JList l => JList (map (walk forms mask nums) l)
  | JNull | JBool _ => item
  end.

Definition scrub_codes (value : json) (codes : list json) : json :=
  let forms := ordered codes in
  walk forms (choose_mask forms) (numbers codes) value.

Fixpoint _mask_code_keys (value : json) : json :=
  match value with
  | JDict d =>
      JDict (map (λ kv, (kv.1, if decide (kv.1 = "code") then JStr "[redacted]"
                               else _mask_code_keys kv.2)) d)
  | JList l => JList (map _mask_code_keys l)
  | _ => value
  end.

Definition redact_code (params : dict) : res json :=
  let? codes := collect_codes (JDict params) in
  Ret (scrub_codes (_mask_code_keys (JDict params)) codes).

Definition normalise_service_code (domain : pystr) (body : dict) : res dict :=
  if negb (elem domain _CODE_DOMAINS) then Ret body
  else match dget "code" body with
       | None => Ret body
       | Some code =>
           let bad := Raise (Exn "ValueError" "code must be a string or a finite number") in
           match code with
           | JBool _ | JList _ | JDict _ => bad
           | JFloat x => if isfinite x then Ret (dset "code" (JStr (float_repr x)) body) else bad
           | JInt z => Ret (dset "code" (JStr (str_of_Z z)) body)
           | JStr _ | JNull => Ret body
           end
       end.
End scrub.

(** ** Masking one string *)

Lemma sub_pass_clean fuel forms mask text :
  (∀ f, f ∈ forms → contains text f = false) → (length text ≤ fuel)%nat →
  sub_pass fuel forms mask text = text.
Proof.
  revert text. induction fuel as [|n IH]; intros [|c t] Hc Hl; simpl in *; try done; [lia|].
  destruct (List.find _ forms) as [f|] eqn:Hf.
  - apply find_Some_elem in Hf as [Hin Hs]. specialize (Hc f Hin).
    apply orb_false_iff in Hc as [Hc _]. congruence.
  - f_equal. apply IH; [|lia]. intros f Hin. specialize (Hc f Hin).
    by apply orb_false_iff in Hc as [_ ?].
Qed.

Lemma mask_passes_clean n forms mask text f :
  [] ∉ forms → f ∈ forms → contains (mask_passes n forms mask text) f = false.
Proof.
  intros Hne Hf. revert text. induction n as [|n IH]; intros text; simpl.
  - apply contains_nil_needle. by intros ->.
  - destruct (existsb _ forms) eqn:He; simpl; [apply IH|].
    rewrite existsb_false_forall in He. by apply He.
Qed.

Lemma mask_text_clean text forms mask f :
  [] ∉ forms → f ∈ forms → contains (_mask_text text forms mask) f = false.
Proof.
  intros Hne Hf. unfold _mask_text. destruct forms; [by apply elem_of_nil in Hf|].
  by apply mask_passes_clean.
Qed.

Lemma mask_text_id text forms mask :
  (∀ f, f ∈ forms → contains text f = false) → _mask_text text forms mask = text.
Proof.
  intros Hc. unfold _mask_text. destruct forms as [|f0 fs]; [done|].
  unfold _MASK_PASSES. cbn [mask_passes]. rewrite sub_pass_clean by (done || lia).
  rewrite (proj2 (existsb_false_forall _ _)); done.
Qed.

(** The order of the forms matters only through their lengths: two forms of the
    same length that match at one place are equal. *)
Lemma startswith_same_length text f g :
  startswith text f = true → startswith text g = true → length f = length g → f = g.
Proof.
  rewrite !startswith_spec. intros [t ->] [u Hu] Hl. by apply app_inj_1 in Hu as [-> _].
Qed.

Definition by_length (forms : list pystr) : Prop := Sorted longer forms.

#[global] Instance longer_trans : Transitive longer.
Proof. unfold longer. intros a b c ??. lia. Qed.
#[global] Instance longer_total : Total longer.
Proof. unfold longer. intros a b. lia. Qed.

Lemma find_longest text forms f :
  by_length forms → List.find (startswith text) forms = Some f →
  ∀ g, g ∈ forms → startswith text g = true → (length g ≤ length f)%nat.
Proof.
  intros Hs%Sorted_StronglySorted; [|apply _]. induction Hs as [|x l Hl IH Hx]; [done|].
  simpl. destruct (startswith text x) eqn:Hxs.
  - intros [= ->] g [->|Hg]%elem_of_cons Hgs; [done|].
    rewrite Forall_forall in Hx. by apply Hx.
  - intros Hf g [->|Hg]%elem_of_cons Hgs; [congruence|]. by apply IH.
Qed.

Lemma find_order text forms forms' :
  by_length forms → by_length forms' → forms ≡ₚ forms' →
  List.find (startswith text) forms = List.find (startswith text) forms'.
Proof.
  intros Hs Hs' Hp.
  destruct (List.find (startswith text) forms) as [f|] eqn:Hf.
  - pose proof (find_Some_elem _ _ _ Hf) as [Hin Hst].
    destruct (List.find (startswith text) forms') as [g|] eqn:Hg.
    + pose proof (find_Some_elem _ _ _ Hg) as [Hin' Hst'].
      pose proof (find_longest _ _ _ Hs Hf g). pose proof (find_longest _ _ _ Hs' Hg f).
      f_equal. apply (startswith_same_length text); [done..|].
      rewrite Hp in *. specialize (H Hin' Hst'). specialize (H0 Hin Hst). lia.
    + rewrite Hp, list_elem_of_In in Hin. eapply find_none in Hg; [|done]. congruence.
  - destruct (List.find (startswith text) forms') as [g|] eqn:Hg; [|done].
    pose proof (find_Some_elem _ _ _ Hg) as [Hin' Hst'].
    rewrite <- Hp, list_elem_of_In in Hin'. eapply find_none in Hf; [|done]. congruence.
Qed.

Lemma sub_pass_order fuel forms forms' mask text :
  by_length forms → by_length forms' → forms ≡ₚ forms' →
  sub_pass fuel forms mask text = sub_pass fuel forms' mask text.
Proof.
  intros Hs Hs' Hp. revert text. induction fuel as [|n IH]; intros [|c t]; cbn [sub_pass]; try done.
  rewrite (find_order _ _ _ Hs Hs' Hp). destruct (List.find _ forms'); by rewrite ?IH.
Qed.

Lemma existsb_perm {A} (f : A → bool) l l' : l ≡ₚ l' → existsb f l = existsb f l'.
Proof. induction 1; simpl; try congruence. destruct (f x), (f y); done. Qed.

Lemma mask_passes_order n forms forms' mask text :
  by_length forms → by_length forms' → forms ≡ₚ forms' →
  mask_passes n forms mask text = mask_passes n forms' mask text.
Proof.
  intros Hs Hs' Hp. revert text. induction n as [|n IH]; intros text; simpl; [done|].
  rewrite (sub_pass_order _ _ _ _ _ Hs Hs' Hp), (existsb_perm _ _ _ Hp). by rewrite IH.
Qed.

(** ** Masking a value *)

Section walk.
Context `{Unicode}.
Implicit Types forms : list pystr.

Lemma elem_of_ordered codes f :
  f ∈ ordered codes ↔ f ≠ [] ∧ ∃ c, c ∈ codes ∧ f ∈ needles_of c.
Proof.
  unfold ordered. rewrite (merge_sort_Permutation longer), elem_of_remove_dups.
  rewrite list_elem_of_In, filter_In, <- list_elem_of_In, negb_true_iff,
    bool_decide_eq_false, <- flat_map_concat_map, list_elem_of_In, in_flat_map.
  setoid_rewrite <- list_elem_of_In. naive_solver.
Qed.
Lemma ordered_nonempty codes : [] ∉ ordered codes.
Proof. rewrite elem_of_ordered. naive_solver. Qed.
Lemma ordered_by_length codes : by_length (ordered codes).
Proof. apply Sorted_merge_sort, _. Qed.

Lemma choose_mask_clean forms f :
  [] ∉ forms → f ∈ forms → contains (choose_mask forms) f = false.
Proof.
  intros Hne Hf. unfold choose_mask. destruct (List.find _ _) as [m|] eqn:Hm; simpl.
  - apply find_Some_elem in Hm as [_ Hm]. apply negb_true_iff in Hm.
    rewrite existsb_false_forall in Hm. by apply Hm.
  - apply contains_nil_needle. by intros ->.
Qed.

(** Every string of the result is a masked string or the mask, and every
    number left is no supplied number. *)
Lemma walk_strings forms mask nums s j :
  occurs (JStr s) (walk forms mask nums j) → s = mask ∨ ∃ t, s = _mask_text t forms mask.
Proof.
  revert s. induction j as [|b|z|x|t|l IH|d IH] using json_ind; intros s Ho; simpl in Ho.
  - inversion Ho.
  - inversion Ho.
  - destruct (masked_number _ _); inversion Ho; by left.
  - destruct (masked_number _ _); inversion Ho; by left.
  - inversion Ho. subst. right. by exists t.
  - inversion Ho as [|l' y Hin Hy|]; subst. apply list_elem_of_fmap in Hin as (i & -> & Hi).
    rewrite Forall_forall in IH. by apply (IH i).
  - inversion Ho as [| |d' k y Hin Hy]; subst. apply elem_of_dict_of in Hin.
    apply list_elem_of_fmap in Hin as (kv & [= -> ->] & Hi).
    rewrite Forall_forall in IH. by apply (IH kv).
Qed.

Lemma walk_keys forms mask nums d k v j :
  occurs (JDict d) (walk forms mask nums j) → (k, v) ∈ d →
  ∃ t, k = _mask_text t forms mask.
Proof.
  intros Ho Hk. revert Ho. induction j as [|b|z|x|t|l IH|d0 IH] using json_ind;
    intros Ho; simpl in Ho.
  - inversion Ho.
  - inversion Ho.
  - destruct (masked_number _ _); inversion Ho.
  - destruct (masked_number _ _); inversion Ho.
  - inversion Ho.
  - inversion Ho as [|l' y Hin Hy|]; subst. apply list_elem_of_fmap in Hin as (i & -> & Hi).
    rewrite Forall_forall in IH. by apply (IH i).
  - inversion Ho as [| |d' k' y Hin Hy]; subst.
    + apply elem_of_dict_of, list_elem_of_fmap in Hk as (kv & [= -> _] & _). by exists kv.1.
    + apply elem_of_dict_of, list_elem_of_fmap in Hin as (kv & [= -> ->] & Hi).
      rewrite Forall_forall in IH. by apply (IH kv).
Qed.

Lemma walk_numbers forms mask nums x j :
  is_number x = true → occurs x (walk forms mask nums j) → masked_number nums x = false.
Proof.
  intros Hx. induction j as [|b|z|y|t|l IH|d IH] using json_ind; intros Ho; simpl in Ho.
  - by inversion Ho; subst.
  - by inversion Ho; subst.
  - destruct (masked_number nums (JInt z)) eqn:Hm; by inversion Ho; subst.
  - destruct (masked_number nums (JFloat y)) eqn:Hm; by inversion Ho; subst.
  - by inversion Ho; subst.
  - inversion Ho as [|l' y Hin Hy|]; subst; [done|].
    apply list_elem_of_fmap in Hin as (i & -> & Hi).
    rewrite Forall_forall in IH. by apply (IH i).
  - inversion Ho as [| |d' k y Hin Hy]; subst; [done|]. apply elem_of_dict_of in Hin.
    apply list_elem_of_fmap in Hin as (kv & [= -> ->] & Hi).
    rewrite Forall_forall in IH. by apply (IH kv).
Qed.

Lemma walk_wf forms mask nums j : wf (walk forms mask nums j).
Proof.
  induction j as [|b|z|y|t|l IH|d IH] using json_ind; simpl; try done.
  - by destruct (masked_number _ _).
  - by destruct (masked_number _ _).
  - apply wf_list. by apply Forall_fmap.
  - apply wf_dict. split; [apply dict_of_NoDup|]. rewrite Forall_forall in IH |- *.
    intros kv Hin. apply elem_of_dict_of, list_elem_of_fmap in Hin as (kv' & -> & Hi).
    by apply IH.
Qed.

(** A value that shows no form and no supplied number is left alone. *)
Definition clean forms nums (j : json) : Prop :=
  (∀ s f, str_occurs s j → f ∈ forms → contains s f = false) ∧
  (∀ x, is_number x = true → occurs x j → masked_number nums x = false).

Lemma clean_item forms nums l j : clean forms nums (JList l) → j ∈ l → clean forms nums j.
Proof.
  intros [Hs Hn] Hj. split.
  - intros s f [Ho|(d & v & Ho & Hin)] Hf; (eapply Hs; [|done]).
    + left. by eapply occurs_item.
    + right. exists d, v. split; [by eapply occurs_item|done].
  - intros x Hx Ho. apply Hn; [done|]. by eapply occurs_item.
Qed.
Lemma clean_value forms nums d kv : clean forms nums (JDict d) → kv ∈ d → clean forms nums kv.2.
Proof.
  destruct kv as [k j]. intros [Hs Hn] Hj. split.
  - intros s f [Ho|(d' & v & Ho & Hin)] Hf; (eapply Hs; [|done]).
    + left. by eapply occurs_value.
    + right. exists d', v. split; [by eapply occurs_value|done].
  - intros x Hx Ho. apply Hn; [done|]. by eapply occurs_value.
Qed.

Lemma walk_id forms mask nums j :
  wf j → clean forms nums j → walk forms mask nums j = j.
Proof.
  induction j as [|b|z|y|t|l IH|d IH] using json_ind; intros Hw Hc; cbn [walk]; try done.
  - rewrite (proj2 Hc); [done..|apply occurs_here].
  - rewrite (proj2 Hc); [done..|apply occurs_here].
  - f_equal. apply mask_text_id. intros f. apply (proj1 Hc). left. apply occurs_here.
  - f_equal. apply wf_list in Hw. rewrite Forall_forall in *.
    rewrite <- (map_id l) at 2. apply map_ext_in. intros j Hj%list_elem_of_In.
    apply IH; [done|by apply Hw|by eapply clean_item].
  - f_equal. apply wf_dict in Hw as [Hnd Hw]. rewrite Forall_forall in *.
    rewrite <- (dict_of_id d Hnd) at 2. f_equal.
    rewrite <- (map_id d) at 2. apply map_ext_in. intros [k j] Hj%list_elem_of_In. f_equal.
    + apply mask_text_id. intros f. apply (proj1 Hc). right. exists d, j.
      split; [apply occurs_here|done].
    + apply (IH (k, j)); [done|by apply (Hw (k, j))|by apply (clean_value _ _ d (k, j))].
Qed.

Lemma walk_order forms forms' mask nums j :
  by_length forms → by_length forms' → forms ≡ₚ forms' →
  walk forms mask nums j = walk forms' mask nums j.
Proof.
  intros Hs Hs' Hp.
  assert (Ht : ∀ t, _mask_text t forms mask = _mask_text t forms' mask).
  { intros t. unfold _mask_text. pose proof (Permutation_length Hp) as Hl.
    destruct forms, forms'; [done|discriminate Hl|discriminate Hl|].
    by apply mask_passes_order. }
  induction j as [|b|z|y|t|l IH|d IH] using json_ind; simpl; try done.
  - f_equal. apply Ht.
  - f_equal. apply map_ext_in. intros j Hj%list_elem_of_In. rewrite Forall_forall in IH.
    by apply IH.
  - do 2 f_equal. apply map_ext_in. intros kv Hj%list_elem_of_In.
    rewrite Forall_forall in IH. by rewrite Ht, IH.
Qed.
End walk.

(** ** Which values are codes *)

(** [code_at c j]: [c] is the collected value of a ["code"] key of [j], at any
    depth. *)
Inductive code_at (c : json) : json → Prop :=
| code_here d : ("code", c) ∈ d → is_code c = Ret true → code_at c (JDict d)
| code_item l y : y ∈ l → code_at c y → code_at c (JList l)
| code_value d k y : (k, y) ∈ d → ¬ (k = "code" ∧ is_code y = Ret true) →
    code_at c y → code_at c (JDict d).

Lemma collect_list l cs :
  collect_codes (JList l) = Ret cs →
  ∀ c, c ∈ cs ↔ ∃ y ys, y ∈ l ∧ collect_codes y = Ret ys ∧ c ∈ ys.
Proof.
  cbn [collect_codes]. revert cs. induction l as [|j l IH]; intros cs H c.
  - injection H as <-. split; [by intros ?%elem_of_nil|].
    by intros (? & ? & ?%elem_of_nil & _).
  - apply rbind_Ret in H as (here & Hh & H). apply rbind_Ret in H as (rest & Hr & H).
    injection H as <-. specialize (IH _ Hr c). rewrite elem_of_app, IH.
    split.
    + intros [Hc|(y & ys & Hy & Hys & Hc)]; [by exists j, here; split; [left|]|].
      exists y, ys. split; [by right|done].
    + intros (y & ys & [->|Hy]%elem_of_cons & Hys & Hc); [left; congruence|].
      right. by exists y, ys.
Qed.

Lemma collect_dict d cs :
  collect_codes (JDict d) = Ret cs →
  ∀ c, c ∈ cs ↔ ∃ k y, (k, y) ∈ d ∧
    ((k = "code" ∧ is_code y = Ret true ∧ c = y) ∨
     (¬ (k = "code" ∧ is_code y = Ret true) ∧ ∃ ys, collect_codes y = Ret ys ∧ c ∈ ys)).
Proof.
  cbn [collect_codes]. revert cs. induction d as [|[k j] d IH]; intros cs H c.
  - injection H as <-. split; [by intros ?%elem_of_nil|].
    by intros (? & ? & ?%elem_of_nil & _).
  - apply rbind_Ret in H as (here & Hh & H). apply rbind_Ret in H as (rest & Hr & H).
    injection H as <-. specialize (IH _ Hr c). rewrite elem_of_app, IH.
    assert (Hhere : c ∈ here ↔
      (k = "code" ∧ is_code j = Ret true ∧ c = j) ∨
      (¬ (k = "code" ∧ is_code j = Ret true) ∧ ∃ ys, collect_codes j = Ret ys ∧ c ∈ ys)).
    { clear -Hh.
      assert (Hrec : ∀ P Q, ¬ P → collect_codes j = Ret here → (Q → P) →
        c ∈ here ↔ Q ∨ (¬ P ∧ ∃ ys, collect_codes j = Ret ys ∧ c ∈ ys)).
      { intros P Q HP -> HQ. split; [intros; right; split; [done|by exists here]|].
        intros [?%HQ|(_ & ys & [= ->] & ?)]; done. }
      case_decide as Hk; [|apply Hrec; [tauto|done|tauto]].
      apply rbind_Ret in Hh as ([] & Hc & Hh);
        [|apply Hrec; [intros [_ ?]; congruence|done|tauto]].
      injection Hh as <-. rewrite list_elem_of_singleton.
      split; [intros ->; by left|intros [(_ & _ & ->)|[[] _]]; done]. }
    rewrite Hhere. split.
    + intros [Hc|(k' & y & Hy & Hc)]; [exists k, j|exists k', y]; (split; [|done]);
        [by left|by right].
    + intros (k' & y & [[= -> ->]|Hy]%elem_of_cons & Hc); [by left|right; by exists k', y].
Qed.

Lemma collect_list_item l cs y :
  collect_codes (JList l) = Ret cs → y ∈ l → ∃ ys, collect_codes y = Ret ys.
Proof.
  cbn [collect_codes]. revert cs. induction l as [|j l IH]; intros cs H; [by intros ?%elem_of_nil|].
  apply rbind_Ret in H as (here & Hh & H). apply rbind_Ret in H as (rest & Hr & H).
  intros [->|Hy]%elem_of_cons; [by exists here|]. by eapply IH.
Qed.

Lemma collect_dict_item d cs k y :
  collect_codes (JDict d) = Ret cs → (k, y) ∈ d → ¬ (k = "code" ∧ is_code y = Ret true) →
  ∃ ys, collect_codes y = Ret ys.
Proof.
  cbn [collect_codes]. revert cs. induction d as [|[k' j] d IH]; intros cs H;
    [by intros ?%elem_of_nil|].
  apply rbind_Ret in H as (here & Hh & H). apply rbind_Ret in H as (rest & Hr & H).
  intros [[= -> ->]|Hy]%elem_of_cons Hn; [|by eapply IH].
  case_decide; [|by exists here].
  apply rbind_Ret in Hh as ([] & Hc & Hh); [by destruct Hn|by exists here].
Qed.

Lemma collect_codes_spec value cs c :
  collect_codes value = Ret cs → c ∈ cs ↔ code_at c value.
Proof.
  revert cs. induction value as [|b|z|y|t|l IH|d IH] using json_ind; intros cs H;
    try (injection H as <-; split; [by intros ?%elem_of_nil|by inversion 1]; fail).
  - rewrite (collect_list l cs H). rewrite Forall_forall in IH. split.
    + intros (y & ys & Hy & Hys & Hc). eapply code_item; [done|]. by apply (IH y Hy ys).
    + inversion 1 as [|? y Hy Hc|]; subst.
      destruct (collect_list_item l cs y H Hy) as [ys Hys].
      exists y, ys. split; [done|]. split; [done|]. by apply (IH y Hy ys).
  - rewrite (collect_dict d cs H). rewrite Forall_forall in IH. split.
    + intros (k & y & Hy & [(-> & Hi & ->)|(Hn & ys & Hys & Hc)]); [by apply code_here|].
      eapply code_value; [done..|]. by apply (IH (k, y) Hy ys).
    + inversion 1 as [? Hin Hi| |? k y Hy Hn Hc]; subst.
      * exists "code", c. split; [done|]. by left.
      * destruct (collect_dict_item d cs k y H Hy Hn) as [ys Hys].
        exists k, y. split; [done|]. right. split; [done|]. exists ys. split; [done|].
        by apply (IH (k, y) Hy ys).
Qed.

(** The strings of a scrubbed value hold no form. *)
Lemma scrub_string_clean `{Unicode} value codes c s f :
  c ∈ codes → f ∈ needles_of c → f ≠ [] →
  str_occurs s (scrub_codes value codes) → contains s f = false.
Proof.
  intros Hc Hf Hne Hs. unfold scrub_codes in Hs.
  assert (Hin : f ∈ ordered codes) by (apply elem_of_ordered; eauto).
  pose proof (ordered_nonempty codes) as Hnil.
  destruct Hs as [Ho|(d & v & Ho & Hk)].
  - apply walk_strings in Ho as [->|[t ->]];
      [by apply choose_mask_clean|by apply mask_text_clean].
  - destruct (walk_keys _ _ _ _ _ _ _ Ho Hk) as [t ->]. by apply mask_text_clean.
Qed.

(** A Unicode database for the witnesses. *)
Definition all_printable : Unicode := {| uni_printable := λ _, true; uni_decimal := λ _, None |}.

(** ** Properties *)

(** No leak through text: no string of a scrubbed value, key or value,
    contains a form ([str], [repr], JSON text or JSON-escaped inner text) of a
    supplied code, whatever the handler returned. *)
Theorem scrub_leaves_no_form `{Unicode} value codes c s f :
  c ∈ codes → f ∈ needles_of c → f ≠ [] →
  str_occurs s (scrub_codes value codes) → contains s f = false.
Proof. by apply scrub_string_clean. Qed.

Definition scrub_example : json :=
  JDict [("state", JStr "pin 1234!"); ("1234", JInt 1234); ("ok", JBool true)].

Example scrub_leaves_no_form_witness :
  contains "pin [redacted]!" "1234" = false.
Proof.
  apply (@scrub_leaves_no_form all_printable scrub_example [JStr "1234"] (JStr "1234")
           "pin [redacted]!" "1234").
  - by left.
  - by left.
  - done.
  - left. eapply occurs_value with (k := "state"); [|apply occurs_here].
    vm_compute. by left.
Defined.

(** No leak through numbers: no number of a scrubbed value equals (in Python's
    sense, across integers and floats) a numeric code. *)
Theorem scrub_leaves_no_number `{Unicode} value codes c n x m :
  c ∈ codes → is_number c = true → num_of c = Some n →
  occurs x (scrub_codes value codes) → is_number x = true → num_of x = Some m →
  num_eqb m n = false.
Proof.
  intros Hc Hcn Hn Ho Hx Hm. apply walk_numbers in Ho; [|done].
  unfold masked_number in Ho. rewrite Hm, Hx in Ho. simpl in Ho.
  rewrite existsb_false_forall in Ho. apply Ho. unfold numbers.
  apply list_elem_of_omap. exists c. split; [|done].
  rewrite list_elem_of_In, filter_In, <- list_elem_of_In. split; [done|].
  by destruct c.
Qed.

Example scrub_leaves_no_number_witness : num_eqb (NInt 7) (NInt 1234) = false.
Proof.
  apply (@scrub_leaves_no_number all_printable (JList [JInt 7; JInt 1234]) [JInt 1234]
           (JInt 1234) _ (JInt 7)); [by left|done|done| |done|done].
  eapply occurs_item; [|apply occurs_here]. vm_compute. by left.
Defined.

(** Scrubbing changes nothing that shows no code, so with no supplied code a
    result leaves the dispatcher unchanged; in particular a scrubbed value is
    scrubbed again to itself. *)
Theorem scrub_fixpoint `{Unicode} value codes :
  (wf value → scrub_codes value [] = value) ∧
  scrub_codes (scrub_codes value codes) codes = scrub_codes value codes.
Proof.
  split.
  - intros Hw. apply walk_id; [done|]. split; [by intros s f _ ?%elem_of_nil|].
    intros x _ _. unfold masked_number. destruct (num_of x); [|done]. apply andb_false_r.
  - apply walk_id; [apply walk_wf|]. split.
    + intros s f Hs Hf. pose proof (ordered_nonempty codes) as Hnil.
      destruct Hs as [Ho|(d & v & Ho & Hk)].
      * apply walk_strings in Ho as [->|[t ->]];
          [by apply choose_mask_clean|by apply mask_text_clean].
      * destruct (walk_keys _ _ _ _ _ _ _ Ho Hk) as [t ->]. by apply mask_text_clean.
    + intros x Hx Ho. by eapply walk_numbers.
Qed.

Example scrub_fixpoint_witness :
  @scrub_codes all_printable scrub_example [] = scrub_example.
Proof.
  apply (proj1 (@scrub_fixpoint all_printable scrub_example [])).
  apply wf_dict. split; [compute_done|by repeat constructor].
Defined.

(** The order in which a set yields forms of equal length cannot matter:
    every ordering of the forms by decreasing length scrubs alike. *)
Theorem scrub_order_independent `{Unicode} value codes forms :
  forms ≡ₚ ordered codes → by_length forms →
  walk forms (choose_mask forms) (numbers codes) value = scrub_codes value codes.
Proof.
  intros Hp Hs. unfold scrub_codes.
  assert (Hm : choose_mask forms = choose_mask (ordered codes)).
  { unfold choose_mask. f_equal. induction _MASK_CANDIDATES as [|m ms IH]; simpl; [done|].
    rewrite (existsb_perm _ _ _ Hp). by destruct (existsb _ _). }
  rewrite Hm. by apply walk_order, Hp; [|apply ordered_by_length].
Qed.

Example scrub_order_independent_witness :
  let forms := @ordered all_printable [JStr "ab"; JStr "cd"] in
  let w f := walk f (choose_mask f) (numbers [JStr "ab"; JStr "cd"]) (JStr "xabcd") in
  w (take 2 (rev (take 2 forms)) ++ drop 2 forms) =
    @scrub_codes all_printable (JStr "xabcd") [JStr "ab"; JStr "cd"].
Proof.
  apply (@scrub_order_independent all_printable).
  - apply (bool_decide_unpack _). vm_compute. exact I.
  - unfold by_length. vm_compute. repeat constructor; vm_compute; lia.
Defined.

(** Every code is found: [collect_codes] returns exactly the values of the
    ["code"] keys, at any depth, that are non-empty strings or finite
    numbers. *)
Theorem collect_codes_exact value cs :
  collect_codes value = Ret cs → ∀ c, c ∈ cs ↔ code_at c value.
Proof. intros Hcs c. by apply collect_codes_spec. Qed.

Example collect_codes_exact_witness :
  code_at (JInt 7) (JDict [("code", JStr "12"); ("data", JList [JDict [("code", JInt 7)]]);
                           ("x", JDict [("code", JBool true)])]).
Proof.
  apply (collect_codes_exact _ [JStr "12"; JInt 7]); [vm_compute; reflexivity|]. right. by left.
Defined.
