(* ===== verification/Printing.v ===== *)
(** Compact JSON text determines the value: a generic printer over values
    whose numbers and constants are already text, and its injectivity.  The
    canonical text of an approval and the signed text of an actor are both
    instances. *)

From stdpp Require Import base list sorting.
From Stdlib Require Import NArith ZArith Lia.
From S2P Require Import Prelude PyStr Json.

Unset Elimination Schemes.
Inductive cval : Set :=
| CAtom (s : pystr)
| CStr (s : pystr)
| CArr (l : list cval)
| CObj (d : list (pystr * cval)).
Set Elimination Schemes.

Section cval_ind.
Variable P : cval → Prop.
Hypothesis Patom : ∀ s, P (CAtom s).
Hypothesis Pstr : ∀ s, P (CStr s).
Hypothesis Parr : ∀ l, Forall P l → P (CArr l).
Hypothesis Pobj : ∀ d, Forall (λ kv, P kv.2) d → P (CObj d).
Fixpoint cval_ind (v : cval) : P v :=
  match v with
  | CAtom s => Patom s
  | CStr s => Pstr s
  | CArr l => Parr l
      ((fix go (l : list cval) : Forall P l :=
          match l with
          | [] => Forall_nil_2 _
          | v :: l => Forall_cons_2 _ _ _ (cval_ind v) (go l)
          end) l)
  | CObj d => Pobj d
      ((fix go (d : list (pystr * cval)) : Forall (λ kv, P kv.2) d :=
          match d with
          | [] => Forall_nil_2 _
          | kv :: d => Forall_cons_2 _ _ _ (cval_ind kv.2) (go d)
          end) d)
  end.
End cval_ind.

(** The characters of numbers and constants: anything but the structural
    ones. *)
Definition atom_char (c : N) : bool := negb (bool_decide (c ∈ [DQ; 44; 91; 93; 123; 125]%N)).
Definition is_atom (s : pystr) : bool :=
  match s with [] => false | _ => forallb atom_char s end.

(** A printed value is followed by the end of the text or by a structural
    character. *)
Definition stops (x : pystr) : Prop :=
  match x with [] => True | c :: _ => atom_char c = false end.

Section print.
(** The escaped text of a string, between its quotes. *)
Variable esc : pystr → pystr.
Variable str_ok : pystr → Prop.
Hypothesis esc_inj : ∀ s t x y, str_ok s → str_ok t →
  esc s ++ DQ :: x = esc t ++ DQ :: y → s = t ∧ x = y.

Definition print_str (s : pystr) : pystr := DQ :: esc s ++ [DQ].
Fixpoint print (v : cval) : pystr :=
  match v with
  | CAtom s => s
  | CStr s => print_str s
  | CArr l => "[" ++ join "," (map print l) ++ "]"
  | CObj d => "{" ++ join "," (map (λ kv, print_str kv.1 ++ ":" ++ print kv.2) d) ++ "}"
  end.

Inductive good : cval → Prop :=
| good_atom s : is_atom s = true → good (CAtom s)
| good_str s : str_ok s → good (CStr s)
| good_arr l : Forall good l → good (CArr l)
| good_obj d : Forall (λ kv, str_ok kv.1 ∧ good kv.2) d → good (CObj d).

Lemma atoms_inj s t x y :
  forallb atom_char s = true → forallb atom_char t = true → stops x → stops y →
  s ++ x = t ++ y → s = t ∧ x = y.
Proof.
  revert t. induction s as [|a s IH]; intros [|b t]; simpl; intros Hs Ht Hx Hy H; bprop.
  - done.
  - subst x. simpl in Hx. congruence.
  - subst y. simpl in Hy. congruence.
  - injection H as -> H. by destruct (IH t) as [-> ->].
Qed.

Lemma print_str_inj s t x y :
  str_ok s → str_ok t → print_str s ++ x = print_str t ++ y → s = t ∧ x = y.
Proof.
  unfold print_str. simpl. rewrite <- !app_assoc. simpl. intros Hs Ht [= H]. by apply esc_inj.
Qed.

(** What the first character of a printed value tells. *)
Lemma print_head v :
  good v → ∃ c t, print v = c :: t ∧
    match v with
    | CAtom _ => atom_char c = true
    | CStr _ => c = DQ
    | CArr _ => c = 91%N
    | CObj _ => c = 123%N
    end.
Proof.
  intros [s Hs|s Hs|l Hl|d Hd]; simpl; eauto.
  destruct s as [|c s]; simpl in Hs; [done|]. bprop. eauto.
Qed.

Lemma print_not_close v c x y :
  good v → c ∈ [93; 125]%N → print v ++ x = c :: y → False.
Proof.
  intros (c' & t & Ht & Hv)%print_head Hc H. rewrite Ht in H. injection H as -> _.
  rewrite !elem_of_cons in Hc.
  destruct Hc as [->|[->|[]%elem_of_nil]]; destruct v; try done; by vm_compute in Hv.
Qed.

Definition print_inj_at (v : cval) : Prop :=
  ∀ w x y, good v → good w → stops x → stops y → print v ++ x = print w ++ y →
    v = w ∧ x = y.

(** Elements separated by commas up to a closing character [e]. *)
Section items.
Context {A : Type} (pr : A → pystr) (ok : A → Prop) (e : N).
Hypothesis e_close : e ∈ [93; 125]%N.
Hypothesis no_close : ∀ a x y, ok a → pr a ++ x = e :: y → False.

Lemma items_inj l m x y :
  Forall (λ a, ∀ b x y, ok a → ok b → stops x → stops y →
                 pr a ++ x = pr b ++ y → a = b ∧ x = y) l →
  Forall ok l → Forall ok m →
  join "," (map pr l) ++ e :: x = join "," (map pr m) ++ e :: y → l = m ∧ x = y.
Proof.
  assert (He : ∀ z, stops (e :: z)).
  { intros z. simpl. rewrite !elem_of_cons in e_close.
    destruct e_close as [->|[->|[]%elem_of_nil]]; by vm_compute. }
  assert (Hne : e ≠ 44%N).
  { rewrite !elem_of_cons in e_close. by destruct e_close as [->|[->|[]%elem_of_nil]]. }
  intros Hinj. revert m. induction Hinj as [|a l Ha Hl IH]; intros m Hok Hokm H.
  - destruct m as [|b m]; simpl in H; [by injection H as ->|]. exfalso.
    inversion Hokm; subst. destruct m; simpl in H; [|rewrite <- !app_assoc in H];
      symmetry in H; by eapply no_close in H.
  - inversion Hok as [|?? Hoka Hokl]; subst.
    destruct m as [|b m].
    { exfalso. simpl in H. destruct l; simpl in H; [|rewrite <- !app_assoc in H];
        by eapply no_close in H. }
    inversion Hokm as [|?? Hokb Hokm']; subst.
    destruct l as [|a' l], m as [|b' m]; simpl in H.
    + apply Ha in H as [-> [= ->]]; done.
    + rewrite <- !app_assoc in H. apply Ha in H as [_ [= ?]]; [congruence|done..|].
      by vm_compute.
    + rewrite <- !app_assoc in H. apply Ha in H as [_ [= ?]]; [congruence|done..| |done].
      by vm_compute.
    + rewrite <- !app_assoc in H.
      apply Ha in H as [-> [= H]]; [|done..|by vm_compute|by vm_compute].
      destruct (IH (b' :: m)) as [-> ->]; done.
Qed.
End items.

Definition entry_ok (kv : pystr * cval) : Prop := str_ok kv.1 ∧ good kv.2.
Definition print_entry (kv : pystr * cval) : pystr := print_str kv.1 ++ ":" ++ print kv.2.

Lemma print_inj v : print_inj_at v.
Proof.
  induction v as [s|s|l IH|d IH] using cval_ind; intros w x y Hv Hw Hx Hy H.
  all: pose proof (print_head _ Hv) as (c1 & t1 & E1 & K1);
       pose proof (print_head _ Hw) as (c2 & t2 & E2 & K2);
       assert (Hc : c1 = c2) by (rewrite E1, E2 in H; by injection H);
       destruct w as [s'|s'|l'|d']; try (exfalso; subst; by vm_compute in K2);
       try (exfalso; subst; by vm_compute in K1); try congruence; clear E1 E2 K1 K2 Hc.
  - inversion Hv as [? Hs| | |]; inversion Hw as [? Hs'| | |]; subst. simpl in H.
    destruct (atoms_inj s s' x y) as [-> ->]; try done; by destruct s, s'.
  - inversion Hv; inversion Hw; subst. by apply print_str_inj in H as [-> ->].
  - inversion Hv as [| |? Hl|]; inversion Hw as [| |? Hl'|]; subst.
    simpl in H. injection H as H. rewrite <- !app_assoc in H. simpl in H.
    destruct (items_inj print good 93) with (l := l) (m := l') (x := x) (y := y)
      as [-> ->]; [by left| | |done|done|done|done].
    + intros a z z' Ha Hz. eapply print_not_close in Hz; [done|done|by left].
    + eapply Forall_impl; [exact IH|]. intros a Ha b x' y' ?? Hx' Hy'. by apply Ha.
  - inversion Hv as [| | |? Hd]; inversion Hw as [| | |? Hd']; subst.
    simpl in H. injection H as H. rewrite <- !app_assoc in H. simpl in H.
    destruct (items_inj print_entry entry_ok 125) with (l := d) (m := d') (x := x) (y := y)
      as [-> ->]; [by right; left|done| |done|done|done|done].
    eapply Forall_impl; [exact IH|]. intros [k a] Ha [k' b] x' y' [? ?] [? ?] Hx' Hy'.
    unfold print_entry, print_inj_at in *. simpl in *. intros Hp. injection Hp as Hp.
    rewrite <- !app_assoc in Hp. simpl in Hp.
    apply esc_inj in Hp as [-> [= Hp]]; [|done..]. by apply Ha in Hp as [-> ->].
Qed.
End print.

(** ** Sorting commutes with rendering the values *)

Section sort_map.
Context {A B : Type} (f : A → B) (R : relation A) (S : relation B).
Context `{!RelDecision R, !RelDecision S} (HRS : ∀ x y, R x y ↔ S (f x) (f y)).

Lemma list_merge_map l1 l2 :
  map f (list_merge R l1 l2) = list_merge S (map f l1) (map f l2).
Proof.
  revert l2. induction l1 as [|a l1 IH1]; intros l2; [by destruct l2|].
  induction l2 as [|b l2 IH2]; [done|]. simpl in *.
  destruct (decide (R a b)) as [Hr|Hr], (decide (S (f a) (f b))) as [Hs|Hs];
    try (exfalso; by apply HRS in Hs || apply HRS in Hr); simpl; f_equal;
    [by rewrite IH1|done].
Qed.

Abbreviation smap := (map (option_map (map f))).
Lemma merge_list_to_stack_map st l :
  smap (merge_list_to_stack R st l) = merge_list_to_stack S (smap st) (map f l).
Proof.
  revert l. induction st as [|[l'|] st IH]; intros l; simpl; [done| |done].
  by rewrite IH, list_merge_map.
Qed.
Lemma merge_stack_map st : map f (merge_stack R st) = merge_stack S (smap st).
Proof.
  induction st as [|[l|] st IH]; simpl; [done| |done]. by rewrite list_merge_map, IH.
Qed.
Lemma merge_sort_aux_map st l :
  map f (merge_sort_aux R st l) = merge_sort_aux S (smap st) (map f l).
Proof.
  revert st. induction l as [|a l IH]; intros st; simpl; [apply merge_stack_map|].
  by rewrite IH, merge_list_to_stack_map.
Qed.
Lemma merge_sort_map l : map f (merge_sort R l) = merge_sort S (map f l).
Proof. apply merge_sort_aux_map. Qed.
End sort_map.
