(* ===== verification/Canonical.v ===== *)
(** [config_mutation.py], the canonical text of a call and its digest: the
    ECMAScript-compatible JSON that an approval binds. *)

From stdpp Require Import base list gmap sorting.
From Stdlib Require Import NArith ZArith Lia.
From S2P Require Import Prelude PyStr PyFloat Json Sha256 Printing.

(** Reserved invoke parameters: the marker, and the caller field. *)
Definition APPROVAL_PARAM : pystr := "_openclaw_approval".
Definition _RESERVED : list pystr := [APPROVAL_PARAM; "_openclaw_caller"].

(** [s.rstrip("0")] *)
Fixpoint rstrip0 (s : pystr) : pystr :=
  match s with
  | [] => []
  | c :: s => match rstrip0 s with
              | [] => if (c =? 48)%N then [] else [c]
              | t => c :: t
              end
  end.

Definition _es_number (value : pyfloat) : pystr :=
  match value with
  | FFin neg m e =>
      if (m =? 0)%N then "0" else
      let '(sign, raw_digits, exponent) := decimal_tuple neg m e in
      let ds := rstrip0 (digit_chars raw_digits) in
      let k := Z.of_nat (length ds) in
      let n := (Z.of_nat (length raw_digits) + exponent)%Z in
      let body :=
        if ((k <=? n) && (n <=? 21))%Z then ds ++ zeros (n - k)
        else if ((0 <? n) && (n <=? 21))%Z then
          take (Z.to_nat n) ds ++ "." ++ drop (Z.to_nat n) ds
        else if ((-6 <? n) && (n <=? 0))%Z then "0." ++ zeros (- n) ++ ds
        else
          let tail := if (1 <? k)%Z then "." ++ drop 1 ds else [] in
          take 1 ds ++ tail ++ "e" ++ (if (0 <? n)%Z then "+" else "-") ++
          str_of_Z (Z.abs (n - 1)) in
      (if (sign : bool) then "-" else []) ++ body
  | _ => "null"
  end.

(** [key.encode("utf-16-be", "surrogatepass")] *)
Definition utf16_unit (u : N) : list N := [(u / 256)%N; (u mod 256)%N].
Definition _utf16_key (key : pystr) : list N :=
  concat (map (λ c, if (c <? 65536)%N then utf16_unit c
                    else utf16_unit (55296 + (c - 65536) / 1024)%N ++
                         utf16_unit (56320 + (c - 65536) mod 1024)%N) key).

Definition es_char (c : N) : pystr :=
  (if c =? DQ then [BS; DQ]
   else if c =? BS then [BS; BS]
   else if c =? 8 then [BS; 98]
   else if c =? 12 then [BS; 102]
   else if c =? 10 then [BS; 110]
   else if c =? 13 then [BS; 114]
   else if c =? 9 then [BS; 116]
   else if (c <? 32) || is_surrogate c then u_escape c
   else [c])%N.
Definition _es_string (value : pystr) : pystr := DQ :: concat (map es_char value) ++ [DQ].

(** [sorted(value, key=_utf16_key)], carrying the rendered values along. *)
Definition utf16_le {V} (a b : pystr * V) : Prop := str_le (_utf16_key a.1) (_utf16_key b.1).
#[global] Instance utf16_le_dec {V} : RelDecision (@utf16_le V).
Proof. intros a b. unfold utf16_le. apply _. Defined.

Fixpoint _canonical (value : json) : pystr :=
  match value with
  | JDict d =>
      "{" ++ join "," (map (λ kv, _es_string kv.1 ++ ":" ++ kv.2)
                         (merge_sort utf16_le (map (λ kv, (kv.1, _canonical kv.2)) d))) ++ "}"
  | JList l => "[" ++ join "," (map _canonical l) ++ "]"
  | JStr s => _es_string s
  | JBool b => if b then "true" else "false"
  | JNull => "null"
  | JInt z => str_of_Z z
  | JFloat x => _es_number x
  end.

(** The value that is digested, and the digest.  [_canonical] is always
    encodable ([canonical_encodable] below), so the default is never used. *)
Definition bind_body (params : dict) : dict :=
  List.filter (λ kv, negb (bool_decide (kv.1 ∈ _RESERVED))) params.
Definition bind_value (command action : pystr) (params : dict) : json :=
  JDict [("command", JStr command); ("action", JStr action); ("params", JDict (bind_body params))].
Definition approval_bind (command action : pystr) (params : dict) : pystr :=
  Sha.sha256_hex (default [] (utf8 (_canonical (bind_value command action params)))).

(** ** The canonical text as a printed value *)

Lemma es_char_shape c : escape_shape (es_char c) c.
Proof.
  unfold escape_shape, es_char.
  destruct (N.eqb_spec c DQ) as [->|]; [left; by exists DQ|].
  destruct (N.eqb_spec c BS) as [->|]; [left; by exists BS|].
  destruct (N.eqb_spec c 8) as [->|]; [left; by exists 98%N|].
  destruct (N.eqb_spec c 12) as [->|]; [left; by exists 102%N|].
  destruct (N.eqb_spec c 10) as [->|]; [left; by exists 110%N|].
  destruct (N.eqb_spec c 13) as [->|]; [left; by exists 114%N|].
  destruct (N.eqb_spec c 9) as [->|]; [left; by exists 116%N|].
  destruct ((c <? 32)%N || is_surrogate c) eqn:E; [|by right; right].
  right; left. split; [done|]. unfold is_surrogate in E.
  apply orb_true_iff in E as [E|E]; bprop; lia.
Qed.

Definition es_esc (s : pystr) : pystr := concat (map es_char s).

Lemma es_esc_inj s t x y :
  True → True → es_esc s ++ DQ :: x = es_esc t ++ DQ :: y → s = t ∧ x = y.
Proof.
  intros _ _. apply (escape_inj es_char (λ _, True)); [by intros; apply es_char_shape|..];
    by apply Forall_true.
Qed.

(** The value with its numbers rendered and its keys sorted. *)
Fixpoint normal (value : json) : cval :=
  match value with
  | JDict d => CObj (merge_sort utf16_le (map (λ kv, (kv.1, normal kv.2)) d))
  | JList l => CArr (map normal l)
  | JStr s => CStr s
  | JBool b => CAtom (if b then "true" else "false")
  | JNull => CAtom "null"
  | JInt z => CAtom (str_of_Z z)
  | JFloat x => CAtom (_es_number x)
  end.

Lemma canonical_print value : _canonical value = print es_esc (normal value).
Proof.
  induction value as [|b|z|x|s|l IH|d IH] using json_ind; simpl; try done.
  - do 3 f_equal. rewrite map_map. apply map_ext_in. intros j Hj%list_elem_of_In.
    rewrite Forall_forall in IH. by apply IH.
  - rewrite Forall_forall in IH. do 3 f_equal.
    transitivity (map (λ kv : pystr * pystr, _es_string kv.1 ++ ":" ++ kv.2)
      (map (λ kv, (kv.1, print es_esc kv.2))
         (merge_sort utf16_le (map (λ kv, (kv.1, normal kv.2)) d)))).
    + f_equal. rewrite (merge_sort_map _ utf16_le utf16_le) by done.
      f_equal. rewrite map_map. apply map_ext_in. intros kv Hkv%list_elem_of_In. simpl.
      by rewrite IH.
    + rewrite map_map. done.
Qed.

(** ** Number texts are atoms *)

Lemma atom_digits s : Forall (λ c, is_digit c = true) s → forallb atom_char s = true.
Proof.
  intros H. apply forallb_true_forall. intros c Hc. rewrite Forall_forall in H.
  specialize (H c Hc). unfold is_digit in H. bprop. unfold atom_char.
  apply negb_true_iff, bool_decide_eq_false. rewrite !elem_of_cons.
  intros [->|[->|[->|[->|[->|[->|[]%elem_of_nil]]]]]]; lia.
Qed.

Lemma is_atom_intro s : s ≠ [] → forallb atom_char s = true → is_atom s = true.
Proof. by destruct s. Qed.

Lemma is_atom_int z : is_atom (str_of_Z z) = true.
Proof.
  unfold str_of_Z. pose proof (str_of_N_digits (Z.abs_N z)) as Hd.
  pose proof (str_of_N_nonempty (Z.abs_N z)) as Hn.
  destruct (z <? 0)%Z; [by apply (atom_digits _) in Hd|].
  by apply is_atom_intro, atom_digits.
Qed.

Lemma rstrip0_digits s :
  Forall (λ c, is_digit c = true) s → Forall (λ c, is_digit c = true) (rstrip0 s).
Proof.
  induction 1 as [|c s Hc Hs IH]; simpl; [done|].
  destruct (rstrip0 s); [|by constructor]. destruct (c =? 48)%N; by repeat constructor.
Qed.

Lemma rstrip0_nonempty l : Exists (λ d, d ≠ 0%N) l → rstrip0 (digit_chars l) ≠ [].
Proof.
  induction 1 as [d l Hd|d l Hl IH]; cbn [digit_chars map rstrip0].
  - destruct (rstrip0 _); [|done]. destruct (N.eqb_spec (48 + d) 48); [lia|done].
  - fold (digit_chars l). destruct (rstrip0 (digit_chars l)); done.
Qed.

Lemma zeros_digits n : Forall (λ c, is_digit c = true) (zeros n).
Proof. by apply Forall_replicate. Qed.

Lemma forallb_app_true {A} (f : A → bool) l m :
  forallb f l = true → forallb f m = true → forallb f (l ++ m) = true.
Proof. intros H1 H2. by rewrite forallb_app, H1, H2. Qed.

Lemma es_number_atom x : is_atom (_es_number x) = true.
Proof.
  destruct x as [|neg|neg m e]; simpl; try done.
  destruct (N.eqb_spec m 0) as [->|Hm]; [done|].
  destruct (decimal_tuple_digits neg m e Hm) as [Hd He].
  destruct (decimal_tuple neg m e) as [[sign raw] ex]. simpl in *.
  assert (Hds : Forall (λ c, is_digit c = true) (rstrip0 (digit_chars raw))).
  { apply rstrip0_digits, Forall_fmap. eapply Forall_impl; [exact Hd|].
    intros d Hlt. cbv beta in Hlt. unfold compose, is_digit. apply andb_true_iff.
    rewrite !N.leb_le. lia. }
  apply rstrip0_nonempty in He. set (ds := rstrip0 _) in *.
  assert (Hsub : ∀ n, forallb atom_char (take n ds) = true ∧ forallb atom_char (drop n ds) = true).
  { intros n. split; apply atom_digits; [by apply Forall_take|by apply Forall_drop]. }
  assert (Hb : ∀ body, body ≠ [] → forallb atom_char body = true →
    is_atom ((if sign then "-" else []) ++ body) = true).
  { intros body ??. destruct sign; simpl; [done|by apply is_atom_intro]. }
  pose proof (atom_digits _ (zeros_digits (Z.of_nat (length raw) + ex - Z.of_nat (length ds)))).
  pose proof (atom_digits _ (zeros_digits (- (Z.of_nat (length raw) + ex)))).
  pose proof (is_atom_int (Z.abs (Z.of_nat (length raw) + ex - 1))) as Hi.
  apply Hb; repeat case_match; try (by destruct ds); try (by destruct (take _ ds)); try done;
    repeat apply forallb_app_true; try apply Hsub; try done; try (by apply atom_digits);
    try (by destruct (str_of_Z _)).
Qed.

(** ** The text determines the value *)

Definition any_str (_ : pystr) : Prop := True.

Lemma normal_good value : good any_str (normal value).
Proof.
  induction value as [|b|z|x|s|l IH|d IH] using json_ind; simpl; constructor; try done.
  - by destruct b.
  - apply is_atom_int.
  - apply es_number_atom.
  - by apply Forall_fmap.
  - apply Forall_forall. intros kv Hkv.
    rewrite (merge_sort_Permutation utf16_le) in Hkv.
    apply list_elem_of_fmap in Hkv as (kv' & -> & Hin). split; [done|].
    rewrite Forall_forall in IH. by apply IH.
Qed.

Lemma canonical_injective a b : _canonical a = _canonical b → normal a = normal b.
Proof.
  rewrite !canonical_print. intros H.
  destruct (print_inj es_esc any_str) with (v := normal a) (w := normal b) (x := [] : pystr)
    (y := [] : pystr) as [E _]; try done; try apply normal_good.
  - intros. by apply es_esc_inj.
  - by rewrite !app_nil_r.
Qed.

(** ** The text is encodable *)

Abbreviation encodable := (Forall (λ c, is_surrogate c = false)).

Lemma hex_digit_ok w n : encodable (hex_pad w n).
Proof.
  unfold hex_pad. apply Forall_app. split; [by apply Forall_replicate|].
  apply Forall_fmap. eapply Forall_impl; [apply (digits_bound 16); lia|].
  intros d Hd. cbv beta in Hd. unfold compose, hex_digit, is_surrogate.
  apply andb_false_iff. left. apply N.leb_gt. destruct (d <? 10)%N; lia.
Qed.

Lemma es_string_encodable s : encodable (_es_string s).
Proof.
  constructor; [done|]. apply Forall_app. split; [|by repeat constructor].
  apply Forall_concat, Forall_fmap, Forall_true. intros c. unfold compose, es_char.
  repeat case_match; try by repeat constructor.
  - repeat constructor. apply hex_digit_ok.
  - apply orb_false_iff in H6 as [_ ?]. by repeat constructor.
Qed.

Lemma digits_encodable s : Forall (λ c, is_digit c = true) s → encodable s.
Proof.
  intros H. eapply Forall_impl; [exact H|]. intros c Hc. unfold is_digit in Hc. bprop.
  unfold is_surrogate. apply andb_false_iff. left. apply N.leb_gt. lia.
Qed.

Lemma int_encodable z : encodable (str_of_Z z).
Proof.
  unfold str_of_Z. pose proof (digits_encodable _ (str_of_N_digits (Z.abs_N z))).
  destruct (z <? 0)%Z; [by constructor|done].
Qed.

Lemma es_number_encodable x : encodable (_es_number x).
Proof.
  destruct x as [|neg|neg m e]; cbn [_es_number]; try by repeat constructor.
  destruct (N.eqb_spec m 0) as [->|Hm]; [by repeat constructor|].
  destruct (decimal_tuple_digits neg m e Hm) as [Hd _].
  destruct (decimal_tuple neg m e) as [[sign raw] ex]. simpl in Hd. cbv zeta.
  assert (Hds : encodable (rstrip0 (digit_chars raw))).
  { apply digits_encodable, rstrip0_digits, Forall_fmap. eapply Forall_impl; [exact Hd|].
    intros d Hlt. cbv beta in Hlt. unfold compose, is_digit. apply andb_true_iff.
    rewrite !N.leb_le. lia. }
  pose proof (λ n, digits_encodable _ (zeros_digits n)) as Hz.
  pose proof int_encodable as Hi.
  set (ds := rstrip0 _) in *.
  assert (Ht : ∀ n, encodable (take n ds)) by (intros n; by apply Forall_take).
  assert (Hdr : ∀ n, encodable (drop n ds)) by (intros n; by apply Forall_drop).
  apply Forall_app. split; [destruct sign; by repeat constructor|].
  destruct (_ && _); [apply Forall_app; by split|].
  destruct (_ && _); [repeat (apply Forall_app; split); by repeat constructor|].
  destruct (_ && _); [repeat (apply Forall_app; split); by repeat constructor|].
  repeat (apply Forall_app; split); try done.
  - destruct (1 <? _)%Z; [|done]. apply Forall_app. split; by repeat constructor.
  - by repeat constructor.
  - destruct (0 <? _)%Z; by repeat constructor.
Qed.

Lemma join_encodable sep ws : encodable sep → Forall encodable ws → encodable (join sep ws).
Proof.
  intros Hs Hw. induction Hw as [|w ws H Hw IH]; simpl; [done|].
  destruct ws; [done|]. by repeat (apply Forall_app; split).
Qed.

Lemma canonical_encodable value : ∃ b, utf8 (_canonical value) = Some b.
Proof.
  apply utf8_encodable.
  induction value as [|b|z|x|s|l IH|d IH] using json_ind; cbn [_canonical].
  - by repeat constructor.
  - destruct b; by repeat constructor.
  - apply int_encodable.
  - apply es_number_encodable.
  - apply es_string_encodable.
  - repeat (apply Forall_app; split); try by repeat constructor.
    apply join_encodable; [by repeat constructor|]. by apply Forall_fmap.
  - repeat (apply Forall_app; split); try by repeat constructor.
    apply join_encodable; [by repeat constructor|]. apply Forall_fmap, Forall_forall.
    intros kv Hkv. rewrite (merge_sort_Permutation utf16_le) in Hkv.
    apply list_elem_of_fmap in Hkv as (kv' & -> & Hin). unfold compose. simpl.
    constructor; [done|]. rewrite <- app_assoc.
    pose proof (es_string_encodable kv'.1) as Hk. apply Forall_cons in Hk as [_ Hk].
    apply Forall_app in Hk as [Hk1 Hk2].
    repeat (apply Forall_app; split); try done.
    constructor; [done|]. rewrite Forall_forall in IH. by apply IH.
Qed.

(** ** What a number text says *)

(** A reader of ECMAScript number texts: the sign, the digits with the point
    left out, and how many places the point stands before their end. *)
Definition digit_value (s : pystr) : N := undigits 10 0 (map (λ c, c - 48)%N s).
Fixpoint digit_span (s : pystr) : pystr * pystr :=
  match s with
  | c :: t => if is_digit c then let '(a, b) := digit_span t in (c :: a, b) else ([], s)
  | [] => ([], [])
  end.
Definition eat (c : N) (s : pystr) : option pystr :=
  match s with x :: t => if (x =? c)%N then Some t else None | [] => None end.
Definition es_exponent (s : pystr) : Z :=
  match eat 101 s with
  | Some t =>
      match eat 43 t, eat 45 t with
      | Some u, _ => Z.of_N (digit_value u)
      | None, Some u => (- Z.of_N (digit_value u))%Z
      | None, None => 0%Z
      end
  | None => 0%Z
  end.
Definition es_read (s : pystr) : bool * N * Z :=
  let '(neg, s) := match eat 45 s with Some t => (true, t) | None => (false, s) end in
  let '(whole, s) := digit_span s in
  let '(part, s) := match eat 46 s with Some t => digit_span t | None => ([], s) end in
  (neg, digit_value (whole ++ part), (Z.of_nat (length part) - es_exponent s)%Z).

Abbreviation all_digits := (Forall (λ c, is_digit c = true)).
Definition ends_digits (s : pystr) : Prop := match s with c :: _ => is_digit c = false | [] => True end.

Lemma digit_span_app ds t : all_digits ds → ends_digits t → digit_span (ds ++ t) = (ds, t).
Proof.
  intros Hd Ht. induction Hd as [|c ds Hc Hds IH]; cbn [app digit_span].
  - destruct t as [|c t]; [done|]. cbn in *. by rewrite Ht.
  - by rewrite Hc, IH.
Qed.

Lemma eat_digits c ds t : all_digits ds → ds ≠ [] → is_digit c = false → eat c (ds ++ t) = None.
Proof.
  intros [|x l Hx Hl]; [done|]. intros _ Hc. cbn. destruct (N.eqb_spec x c) as [->|]; congruence.
Qed.

(** The text after the digits before the point: a part after the point, and an
    exponent. *)
Definition part_text (part t : pystr) : Prop := part = [] ∧ t = [] ∨ t = 46%N :: part.
Definition tail_text (t : pystr) : Prop := t = [] ∨ ∃ u, t = 101%N :: u.

Lemma es_read_shape (neg : bool) whole part p t :
  all_digits whole → whole ≠ [] → all_digits part → part_text part p → tail_text t →
  es_read ((if neg then "-" else []) ++ whole ++ p ++ t) =
  (neg, digit_value (whole ++ part), (Z.of_nat (length part) - es_exponent t)%Z).
Proof.
  intros Hw Hn Hd Hp Ht.
  assert (Ht' : ends_digits t ∧ eat 46 t = None).
  { destruct Ht as [->|[u ->]]; done. }
  destruct Ht' as [Ht1 Ht2].
  assert (E : es_read ((if neg then "-" else []) ++ whole ++ p ++ t) =
    let '(w, s) := digit_span (whole ++ p ++ t) in
    let '(part, s) := match eat 46 s with Some t => digit_span t | None => ([], s) end in
    (neg, digit_value (w ++ part), (Z.of_nat (length part) - es_exponent s)%Z)).
  { unfold es_read. destruct neg; [done|]. cbn [app]. by rewrite eat_digits by done. }
  rewrite E. destruct Hp as [Hp|Hp]; [destruct Hp as [-> ->]|subst p].
  - cbn [app]. rewrite digit_span_app by done. by rewrite Ht2.
  - rewrite digit_span_app by done. cbn [app eat N.eqb Pos.eqb]. by rewrite digit_span_app by done.
Qed.

Lemma digit_value_chars d : digit_value (digit_chars d) = undigits 10 0 d.
Proof.
  unfold digit_value, digit_chars. rewrite map_map. f_equal. rewrite <- (map_id d) at 2.
  apply map_ext. intros. lia.
Qed.

Lemma rstrip0_chars d : rstrip0 (digit_chars d) = digit_chars (trim0 d).
Proof.
  induction d as [|c d IH]; [done|]. cbn [digit_chars map rstrip0 trim0 foldr].
  fold (digit_chars d) (trim0 d). rewrite IH. destruct (trim0 d); [|done]. cbn [digit_chars map].
  destruct (N.eqb_spec c 0) as [->|]; [done|]. by rewrite (proj2 (N.eqb_neq _ _)) by lia.
Qed.

Lemma digit_chars_digits d : Forall (λ d, (d < 10)%N) d → all_digits (digit_chars d).
Proof.
  intros H. apply Forall_fmap. eapply Forall_impl; [exact H|].
  intros c Hlt. cbv beta in Hlt. unfold compose, is_digit. apply andb_true_iff. rewrite !N.leb_le. lia.
Qed.

Lemma zeros_values n : map (λ c, c - 48)%N (zeros n) = replicate (Z.to_nat n) 0%N.
Proof. unfold zeros. by induction (Z.to_nat n) as [|k IH]; simpl; [|rewrite IH]. Qed.

Lemma digit_value_zeros_end s n : digit_value (s ++ zeros n) = (digit_value s * 10 ^ N.of_nat (Z.to_nat n))%N.
Proof.
  unfold digit_value. rewrite map_app, zeros_values. by rewrite undigits_zeros_end.
Qed.
Lemma digit_value_zeros_start s n : digit_value ("0" ++ zeros n ++ s) = digit_value s.
Proof.
  unfold digit_value. rewrite !map_app, zeros_values.
  by apply (undigits_zeros 10 (S (Z.to_nat n))).
Qed.

(** What the text of a finite float other than zero says rounds to the float. *)
Lemma es_number_reads neg m e :
  m ≠ 0%N → let '(sign, q, s) := es_read (_es_number (FFin neg m e)) in
  sign = neg ∧ rounds_back m e q s = true.
Proof.
  intros Hm. pose proof (decimal_tuple_prints neg m e Hm) as H. cbn [_es_number].
  rewrite (proj2 (N.eqb_neq _ _)) by done.
  destruct (decimal_tuple neg m e) as [[sign raw] ex]. destruct H as (-> & Hp). cbv zeta.
  rewrite rstrip0_chars. destruct (trim0_split raw) as [j Ej].
  set (d := trim0 raw) in *. set (n := (Z.of_nat (length raw) + ex)%Z).
  assert (Hl : length (digit_chars d) = length d) by apply length_map. rewrite Hl.
  assert (Hraw : length raw = (length d + j)%nat) by by rewrite Ej, length_app, length_replicate.
  assert (Hpd : prints m e d (Z.of_nat (length d) - n)).
  { apply (prints_zeros _ _ _ _ j). rewrite <- Ej.
    by replace (_ + Z.of_nat j)%Z with (- ex)%Z by (subst n; lia). }
  destruct Hpd as [Hd Hr]. clearbody n d. clear Hp Ej Hraw raw ex j.
  pose proof (digit_chars_digits d Hd) as Hc. pose proof (digit_value_chars d) as Hv.
  assert (Hne : digit_chars d ≠ []).
  { pose proof (rounds_back_pos _ _ _ _ Hm Hr). by destruct d. }
  assert (Htk : ∀ i, all_digits (take i (digit_chars d)) ∧ all_digits (drop i (digit_chars d)))
    by (intros i; split; [by apply Forall_take|by apply Forall_drop]).
  set (ds := digit_chars d) in *. set (k := length d) in *.
  assert (Hk : (0 < k)%nat) by (rewrite <- Hl; destruct ds; [done|cbn; lia]).
  destruct ((Z.of_nat k <=? n) && (n <=? 21))%Z eqn:C1.
  { bprop. pose proof (es_read_shape neg (ds ++ zeros (n - Z.of_nat k)) [] [] []) as E.
    cbn [app] in E. rewrite !app_nil_r in E. rewrite E; [| | |by constructor|by left|by left].
    - split; [done|]. rewrite digit_value_zeros_end, Hv. cbn [length].
      replace (Z.of_nat 0 - es_exponent [])%Z with (Z.of_nat k - n + Z.of_nat (Z.to_nat (n - Z.of_nat k)))%Z
        by (cbn; lia). by rewrite rounds_back_zeros.
    - apply Forall_app. split; [done|]. apply zeros_digits.
    - destruct ds; done. }
  destruct ((0 <? n) && (n <=? 21))%Z eqn:C2.
  { bprop. pose proof (es_read_shape neg (take (Z.to_nat n) ds) (drop (Z.to_nat n) ds) ("." ++ drop (Z.to_nat n) ds) []) as E.
    rewrite app_nil_r in E. rewrite E; [|apply Htk| |apply Htk|by right|by left].
    - split; [done|]. rewrite take_drop, Hv, length_drop, Hl.
      by replace (_ - es_exponent [])%Z with (Z.of_nat k - n)%Z by (cbn; apply andb_false_iff in C1 as [C1|C1]; bprop; lia).
    - destruct ds; [done|]. destruct (Z.to_nat n) eqn:?; [lia|done]. }
  destruct ((-6 <? n) && (n <=? 0))%Z eqn:C3.
  { bprop. pose proof (es_read_shape neg "0" (zeros (- n) ++ ds) ("." ++ zeros (- n) ++ ds) []) as E.
    rewrite app_nil_r in E. change ("0." ++ zeros (- n) ++ ds) with ("0" ++ "." ++ zeros (- n) ++ ds).
    rewrite E; [|by repeat constructor|done| |by right|by left].
    - split; [done|]. rewrite digit_value_zeros_start, Hv. unfold zeros.
      rewrite length_app, length_replicate, Hl.
      by replace (_ - es_exponent [])%Z with (Z.of_nat k - n)%Z by (cbn; lia).
    - apply Forall_app. split; [apply zeros_digits|done]. }
  set (tl := "e" ++ (if (0 <? n)%Z then "+" else "-") ++ str_of_Z (Z.abs (n - 1))).
  assert (Ex : es_exponent tl = (n - 1)%Z).
  { unfold tl, es_exponent, str_of_Z. rewrite (proj2 (Z.ltb_ge (Z.abs (n - 1)) 0)) by lia.
    pose proof (str_of_N_value (Z.abs_N (Z.abs (n - 1)))) as Ev.
    destruct (Z.ltb_spec 0 n); cbn [app eat N.eqb Pos.eqb]; unfold digit_value; rewrite Ev, N2Z.inj_abs_N; lia. }
  assert (Hone : take 1 ds ≠ []) by by destruct ds.
  destruct (1 <? _)%Z eqn:C4.
  - pose proof (es_read_shape neg (take 1 ds) (drop 1 ds) ("." ++ drop 1 ds) tl) as E.
    rewrite E; [|apply Htk|done|apply Htk|by right|right; by eexists].
    split; [done|]. rewrite take_drop, Hv, Ex, length_drop, Hl.
    by replace (_ - (n - 1))%Z with (Z.of_nat k - n)%Z by lia.
  - pose proof (es_read_shape neg (take 1 ds) [] [] tl) as E.
    rewrite E; [|apply Htk|done|constructor|by left|right; by eexists].
    split; [done|]. rewrite app_nil_r, take_ge by lia. rewrite Hv, Ex. cbn [length].
    by replace (_ - (n - 1))%Z with (Z.of_nat k - n)%Z by (bprop; lia).
Qed.

Lemma str_of_Z_reads z : es_read (str_of_Z z) = ((z <? 0)%Z, Z.abs_N z, 0%Z).
Proof.
  pose proof (es_read_shape (z <? 0)%Z (str_of_N (Z.abs_N z)) [] [] [] (str_of_N_digits _)
    (str_of_N_nonempty _) (Forall_nil_2 _) (or_introl (conj eq_refl eq_refl)) (or_introl eq_refl)) as E.
  rewrite !app_nil_r in E. unfold str_of_Z.
  replace (if (z <? 0)%Z then _ else _) with ((if (z <? 0)%Z then "-" else []) ++ str_of_N (Z.abs_N z))
    by by destruct (z <? 0)%Z.
  rewrite E. unfold digit_value. by rewrite str_of_N_value.
Qed.

(** ** Values that print alike *)

(** The floats of a value are numbers of binary64. *)
Fixpoint floats_ok (j : json) : bool :=
  match j with
  | JFloat (FFin _ m e) => binary64 m e
  | JList l => forallb floats_ok l
  | JDict d => forallb (λ kv, floats_ok kv.2) d
  | _ => true
  end.

(** [x] is the float an integer rounds to. *)
Definition nearest (z : Z) (x : pyfloat) : bool :=
  match x with
  | FFin neg m e => if (m =? 0)%N then (z =? 0)%Z else Bool.eqb neg (z <? 0)%Z && rounds_back m e (Z.abs_N z) 0
  | _ => false
  end.
(** What JSON writes as [null]. *)
Definition no_value (j : json) : bool :=
  match j with JNull => true | JFloat x => negb (isfinite x) | _ => false end.

(** The same value for a reader of JSON numbers as binary64. *)
Inductive same : json → json → Prop :=
| same_null x y : no_value x = true → no_value y = true → same x y
| same_bool b : same (JBool b) (JBool b)
| same_int z : same (JInt z) (JInt z)
| same_float x y : float_eqb x y = true → same (JFloat x) (JFloat y)
| same_int_float z x : nearest z x = true → same (JInt z) (JFloat x)
| same_float_int z x : nearest z x = true → same (JFloat x) (JInt z)
| same_str s : same (JStr s) (JStr s)
| same_list l m : Forall2 same l m → same (JList l) (JList m)
| same_dict d d' e : e ≡ₚ d' → Forall2 (λ a b, a.1 = b.1 ∧ same a.2 b.2) d e → same (JDict d) (JDict d').

(** A text that starts as a number does. *)
Definition numeric (s : pystr) : bool := match s with c :: _ => is_digit c || (c =? 45)%N | [] => false end.

Lemma numeric_digits (neg : bool) ds t :
  all_digits ds → ds ≠ [] → numeric ((if neg then "-" else []) ++ ds ++ t) = true.
Proof.
  intros Hd Hn. destruct neg; [done|]. destruct Hd as [|c l Hc]; [done|]. cbn in *. by rewrite Hc.
Qed.
Lemma numeric_int z : numeric (str_of_Z z) = true.
Proof.
  unfold str_of_Z. pose proof (numeric_digits (z <? 0)%Z (str_of_N (Z.abs_N z)) [] (str_of_N_digits _) (str_of_N_nonempty _)) as H.
  rewrite app_nil_r in H. by destruct (z <? 0)%Z.
Qed.
Lemma numeric_float neg m e : numeric (_es_number (FFin neg m e)) = true.
Proof.
  cbn [_es_number]. destruct (N.eqb_spec m 0) as [->|Hm]; [done|].
  destruct (decimal_tuple_digits neg m e Hm) as [Hd He].
  destruct (decimal_tuple neg m e) as [[sign raw] ex]. cbn [fst snd] in *. cbv zeta.
  rewrite rstrip0_chars. apply rstrip0_nonempty in He. rewrite rstrip0_chars in He.
  assert (Hds : all_digits (digit_chars (trim0 raw))).
  { rewrite <- rstrip0_chars. by apply rstrip0_digits, digit_chars_digits. }
  set (ds := digit_chars _) in *. set (n := (Z.of_nat (length raw) + ex)%Z).
  destruct ((Z.of_nat (length ds) <=? n) && (n <=? 21))%Z; [by apply numeric_digits|].
  destruct ((0 <? n) && (n <=? 21))%Z eqn:C.
  { apply numeric_digits; [by apply Forall_take|]. destruct ds; [done|].
    destruct (Z.to_nat _) eqn:?; [bprop; lia|done]. }
  destruct ((-6 <? n) && (n <=? 0))%Z; [apply (numeric_digits sign "0"); [by repeat constructor|done]|].
  apply numeric_digits; [by apply Forall_take|by destruct ds].
Qed.

Lemma es_number_zero neg e : _es_number (FFin neg 0 e) = "0".
Proof. done. Qed.

Lemma int_float_text z x :
  str_of_Z z = _es_number x → nearest z x = true.
Proof.
  pose proof (str_of_Z_reads z) as Hz. intros E. rewrite E in Hz. destruct x as [|neg|neg m e].
  - pose proof (numeric_int z) as H. by rewrite E in H.
  - pose proof (numeric_int z) as H. by rewrite E in H.
  - cbn [nearest]. destruct (N.eqb_spec m 0) as [->|Hm].
    + rewrite es_number_zero in Hz. change (es_read "0") with (false, 0%N, 0%Z) in Hz. injection Hz as _ Hz. apply Z.eqb_eq. lia.
    + pose proof (es_number_reads neg m e Hm) as H. rewrite Hz in H. destruct H as [<- H].
      by rewrite eqb_reflx.
Qed.

Lemma float_float_text neg m e neg' m' e' :
  binary64 m e = true → binary64 m' e' = true →
  _es_number (FFin neg m e) = _es_number (FFin neg' m' e') → float_eqb (FFin neg m e) (FFin neg' m' e') = true.
Proof.
  intros Hb Hb' E.
  assert (Hz : ∀ neg m e, m ≠ 0%N → _es_number (FFin neg m e) ≠ "0").
  { intros n1 m1 e1 Hm Hz. pose proof (es_number_reads n1 m1 e1 Hm) as H. rewrite Hz in H.
    destruct H as [_ H]. by apply rounds_back_pos in H. }
  destruct (N.eq_dec m 0) as [->|Hm], (N.eq_dec m' 0) as [->|Hm'].
  - by destruct neg, neg'.
  - by destruct (Hz neg' m' e' Hm').
  - by destruct (Hz neg m e Hm).
  - pose proof (es_number_reads neg m e Hm) as H. pose proof (es_number_reads neg' m' e' Hm') as H'.
    rewrite E in H. destruct (es_read _) as [[sg q] s]. destruct H as [-> H], H' as [-> H'].
    destruct (rounds_back_unique m e m' e' q s) as [-> ->]; try done. cbn. by rewrite Z.eqb_refl.
Qed.

Definition atom_text (v : cval) : pystr := match v with CAtom t => t | _ => [] end.
Lemma atoms_same a b :
  floats_ok a = true → floats_ok b = true → (∃ t, normal a = CAtom t) → normal a = normal b → same a b.
Proof.
  intros Ha Hb [t Ht] E. rewrite E in Ht.
  pose proof (f_equal atom_text E) as En. pose proof (f_equal numeric En) as Ec.
  destruct a as [|x|z|x|s|l|d], b as [|y|w|y|u|l'|d']; cbn [normal] in *; try discriminate; clear Ht E.
  all: repeat match goal with x : pyfloat |- _ => destruct x as [|?n|?n ?m ?e] end; try (by apply same_null).
  all: cbn [atom_text] in *; rewrite ?numeric_int, ?numeric_float in Ec.
  all: try (exfalso; repeat case_match; done).
  - destruct x, y; try discriminate; apply same_bool.
  - apply str_of_Z_inj in En as ->. apply same_int.
  - by apply same_int_float, int_float_text.
  - by apply same_float_int, int_float_text.
  - by apply same_float, float_float_text.
Qed.

Lemma map_normal_same l m :
  Forall (λ a, ∀ b, floats_ok a = true → floats_ok b = true → normal a = normal b → same a b) l →
  forallb floats_ok l = true → forallb floats_ok m = true → map normal l = map normal m → Forall2 same l m.
Proof.
  intros IH. revert m. induction IH as [|a l Ha IH IHl]; intros [|b m] Hl Hm E; try discriminate; [constructor|].
  cbn in *. apply andb_true_iff in Hl as [? ?], Hm as [? ?]. injection E as E1 E2.
  constructor; [by apply Ha|by apply IHl].
Qed.

Lemma normal_same a b : floats_ok a = true → floats_ok b = true → normal a = normal b → same a b.
Proof.
  revert b. induction a as [|x|z|x|s|l IH|d IH] using json_ind; intros b Ha Hb E;
    try (by eapply atoms_same; [..|by eexists|]).
  - destruct b; try discriminate. injection E as ->. apply same_str.
  - destruct b as [| | | | |m|]; try discriminate. injection E as E. apply same_list. by apply map_normal_same.
  - destruct b as [| | | | | |d']; try discriminate. injection E as E.
    set (f := λ kv : pystr * json, (kv.1, normal kv.2)) in *.
    assert (Hp : map f d ≡ₚ map f d').
    { by rewrite <- (merge_sort_Permutation utf16_le (map f d)), E, (merge_sort_Permutation utf16_le). }
    apply Permutation_map_inv in Hp as (e & He & Hp). apply (same_dict _ _ e); [by symmetry|].
    assert (Hd' : Forall (λ kv, floats_ok kv.2 = true) e).
    { rewrite <- Hp. cbn in Hb. by apply Forall_forall, forallb_true_forall. }
    clear Hp E Hb. cbn in Ha. revert e He Hd'.
    induction IH as [|[k a] d Hk IH IHd]; intros [|[k' b] e] He Hd'; try discriminate; [apply Forall2_nil_2|apply Forall2_cons_2].
    + cbn in *. injection He as -> He _. apply andb_true_iff in Ha as [? _]. apply Forall_cons in Hd' as [? _].
      split; [done|]. by apply Hk.
    + cbn in *. injection He as _ _ He. apply andb_true_iff in Ha as [_ ?]. apply Forall_cons in Hd' as [_ ?].
      by apply IHd.
Qed.

Lemma bind_body_floats d : floats_ok (JDict d) = true → floats_ok (JDict (bind_body d)) = true.
Proof.
  cbn. rewrite !forallb_forall. intros H x [Hx _]%filter_In. by apply H.
Qed.

Lemma bind_value_normal c1 a1 p1 c2 a2 p2 :
  normal (bind_value c1 a1 p1) = normal (bind_value c2 a2 p2) →
  c1 = c2 ∧ a1 = a2 ∧ normal (JDict (bind_body p1)) = normal (JDict (bind_body p2)).
Proof.
  intros E.
  set (l1 := map (λ kv, (kv.1, normal kv.2))
    [("command", JStr c1); ("action", JStr a1); ("params", JDict (bind_body p1))]).
  set (l2 := map (λ kv, (kv.1, normal kv.2))
    [("command", JStr c2); ("action", JStr a2); ("params", JDict (bind_body p2))]).
  assert (E' : merge_sort utf16_le l1 = merge_sort utf16_le l2)
    by exact (f_equal (λ v, match v with CObj d => d | _ => [] end) E).
  assert (Hin : ∀ kv, kv ∈ l1 ↔ kv ∈ l2).
  { intros kv. by rewrite <- (merge_sort_Permutation utf16_le l1), E',
      (merge_sort_Permutation utf16_le l2). }
  subst l1 l2.
  pose proof (proj1 (Hin ("command", CStr c1)) ltac:(by left)) as Hc.
  pose proof (proj1 (Hin ("action", CStr a1)) ltac:(by right; left)) as Ha.
  pose proof (proj1 (Hin ("params", normal (JDict (bind_body p1)))) ltac:(by right; right; left)) as Hp.
  cbn [map fst snd] in Hc, Ha, Hp. rewrite !elem_of_cons in Hc, Ha, Hp.
  split; [|split].
  - destruct Hc as [[= ->]|[[=]|[[=]|[]%elem_of_nil]]]. done.
  - destruct Ha as [[=]|[[= ->]|[[=]|[]%elem_of_nil]]]. done.
  - destruct Hp as [[=]|[[=]|[[= Hp]|[]%elem_of_nil]]]. cbn [normal]. by rewrite Hp.
Qed.

(** ** Properties *)

(** C4. One approval binds one call: two calls with the same digest have the same
    command, the same action and the same parameters outside the reserved
    fields: the same keys with the same texts, truth values and numbers (as
    binary64 where one side is a float: an integer there is the float it rounds
    to; a number that is not finite is null).  Or the texts that were digested
    exhibit a collision of SHA-256. *)
Theorem approval_bind_binds c1 a1 p1 c2 a2 p2 :
  floats_ok (JDict p1) = true → floats_ok (JDict p2) = true →
  approval_bind c1 a1 p1 = approval_bind c2 a2 p2 →
  (c1 = c2 ∧ a1 = a2 ∧ same (JDict (bind_body p1)) (JDict (bind_body p2))) ∨
  ∃ m1 m2, utf8 (_canonical (bind_value c1 a1 p1)) = Some m1 ∧
           utf8 (_canonical (bind_value c2 a2 p2)) = Some m2 ∧ sha256_collision m1 m2.
Proof.
  intros F1%bind_body_floats F2%bind_body_floats. unfold approval_bind.
  destruct (canonical_encodable (bind_value c1 a1 p1)) as [m1 H1].
  destruct (canonical_encodable (bind_value c2 a2 p2)) as [m2 H2].
  rewrite H1, H2. simpl. intros Hh.
  destruct (decide (m1 = m2)) as [->|Hne]; [left|right; by exists m1, m2].
  pose proof (canonical_injective _ _ (utf8_inj _ _ _ H1 H2)) as E.
  apply bind_value_normal in E as (-> & -> & E). split; [done|]. split; [done|].
  by apply normal_same.
Qed.

Definition witness_call_1 : dict :=
  [("path", JStr "/config/a"); ("n", JInt 1); ("x", JFloat (FFin false 7205759403792794 (-56)))].
Definition witness_call_2 : dict :=
  [("n", JFloat (FFin false (2 ^ 52) (-52))); (APPROVAL_PARAM, JNull);
   ("x", JFloat (FFin false 7205759403792794 (-56))); ("path", JStr "/config/a")].
Example approval_bind_binds_witness :
  (("fs.write" : pystr) = "fs.write" ∧ ([] : pystr) = [] ∧
   same (JDict (bind_body witness_call_1)) (JDict (bind_body witness_call_2))) ∨
  ∃ m1 m2,
    utf8 (_canonical (bind_value "fs.write" [] witness_call_1)) = Some m1 ∧
    utf8 (_canonical (bind_value "fs.write" [] witness_call_2)) = Some m2 ∧ sha256_collision m1 m2.
Proof. apply approval_bind_binds; vm_compute; reflexivity. Defined.

(** The digested text is defined for every value, lone surrogates included,
    and equal texts come from equal values up to key order and number text. *)
Theorem canonical_total_injective a b :
  (∃ bytes, utf8 (_canonical a) = Some bytes) ∧
  (utf8 (_canonical a) = utf8 (_canonical b) → normal a = normal b).
Proof.
  destruct (canonical_encodable a) as [ba Ha]. split; [by exists ba|]. rewrite Ha.
  intros Hb. symmetry in Hb. by apply canonical_injective, (utf8_inj _ _ ba).
Qed.

Example canonical_total_injective_witness :
  normal (JDict [("b", JInt 2); ("a", JNull)]) = normal (JDict [("a", JNull); ("b", JInt 2)]).
Proof. apply canonical_total_injective. vm_compute. reflexivity. Defined.

(** Integers are not printed the way ECMAScript prints numbers: from [10^21]
    on, an integer keeps all its digits where a float of the same value is
    printed with an exponent. *)
Theorem canonical_large_integer :
  _canonical (JInt (10 ^ 21)) = "1000000000000000000000" ∧
  _canonical (JFloat (FFin false 7629394531250000 17)) = "1e+21" ∧
  float_eq_int (FFin false 7629394531250000 17) (10 ^ 21) = true.
Proof. vm_compute. done. Qed.
