(* ===== verification/Mutation.v ===== *)
(** [config_mutation.py], the approval gate: single-use approval markers. *)

From stdpp Require Import base list gmap sorting.
From Stdlib Require Import NArith ZArith Lia.
From S2P Require Import Prelude PyStr PyFloat Json Sha256 Authz Policy Canonical.

(** [_USED_IDS]: marker id to expiry, in insertion order.

    [now] is [time.time()] rounded up to an integer: for an integer [exp],
    [exp < time.time()] is exactly [exp < now]. *)
Abbreviation used_ids := (list (pystr * Z)).

Definition require_config_mutation_approval (command action : pystr) : json :=
  let target := match action with
                | [] => command
                | _ => command ++ " action=" ++ action
                end in
  error_dict "PROPOSAL_REQUIRED"
    (target ++ ": mutation requires native approval; proposal_id alone is not authorization").

(** The fields of a well-formed marker: exactly [id], [exp] and [bind], a
    non-empty string, an integer (not a boolean) and a string. *)
Definition marker_fields (marker : json) : option (pystr * Z * pystr) :=
  match marker with
  | JDict d =>
      if forallb (λ k, elem k ["id"; "exp"; "bind"]) (dkeys d) then
        match dget "id" d, dget "exp" d, dget "bind" d with
        | Some (JStr id), Some (JInt exp), Some (JStr bind) =>
            match id with [] => None | _ => Some (id, exp, bind) end
        | _, _, _ => None
        end
      else None
  | _ => None
  end.

(** The ids whose expiry has passed are forgotten. *)
Definition purge (now : Z) (used : used_ids) : used_ids :=
  List.filter (λ kv, negb (kv.2 <? now)%Z) used.

(** The result ([None] authorizes the call), the parameters without the marker,
    and the ids used so far. *)
Definition consume_approval_marker (caller : option Caller) (now : Z) (command action : pystr)
    (params : dict) (used : used_ids) : option json * dict * used_ids :=
  match dget APPROVAL_PARAM params with
  | None =>
      (if approval_exempt caller command action then None
       else Some (require_config_mutation_approval command action), params, used)
  | Some marker =>
      let params := ddel APPROVAL_PARAM params in
      match marker_fields marker with
      | None => (Some (error_dict "APPROVAL_INVALID" "approval marker is malformed"), params, used)
      | Some (id, exp, bind) =>
          let used := purge now used in
          if (exp <? now)%Z then
            (Some (error_dict "APPROVAL_INVALID" "approval marker has expired"), params, used)
          else if negb (bool_decide (bind = approval_bind command action params)) then
            (Some (error_dict "APPROVAL_INVALID" "approval marker does not match this call"),
             params, used)
          else if dmem id used then
            (Some (error_dict "APPROVAL_INVALID" "approval marker was already used"), params, used)
          else (None, params, dset id exp used)
      end
  end.

(** [approval_checker]: the closure keeps the first result. *)
Definition checker_call (caller : option Caller) (now : Z) (command : pystr)
    (st : option (option json) * dict * used_ids) :
    option json * (option (option json) * dict * used_ids) :=
  let '(result, params, used) := st in
  match result with
  | Some r => (r, st)
  | None =>
      let '(r, params, used) := consume_approval_marker caller now command [] params used in
      (r, (Some r, params, used))
  end.

(** ** A history of gated calls *)

Record GatedCall := {
  gc_caller : option Caller;
  gc_now : Z;
  gc_command : pystr;
  gc_action : pystr;
  gc_params : dict;
}.

Definition gated_step (used : used_ids) (c : GatedCall) : option json * used_ids :=
  let '(r, _, used) := consume_approval_marker (gc_caller c) (gc_now c) (gc_command c)
                         (gc_action c) (gc_params c) used in (r, used).

Fixpoint gated_run (used : used_ids) (cs : list GatedCall) : used_ids :=
  match cs with
  | [] => used
  | c :: cs => gated_run (gated_step used c).2 cs
  end.

(** The marker a call carries. *)
Definition carries (c : GatedCall) (id : pystr) (exp : Z) : Prop :=
  ∃ marker bind, dget APPROVAL_PARAM (gc_params c) = Some marker ∧
                 marker_fields marker = Some (id, exp, bind).

(** ** Facts *)

Lemma dget_purge_keep k e now (used : used_ids) :
  dget k used = Some e → (now ≤ e)%Z → dget k (purge now used) = Some e.
Proof.
  induction used as [|[k' e'] used IH]; simpl; [done|]. intros H Hle.
  case_decide as Hk.
  - injection H as ->. destruct (Z.ltb_spec e now); [lia|]. simpl. by rewrite decide_True.
  - destruct (e' <? now)%Z; simpl; [by apply IH|]. rewrite decide_False by done. by apply IH.
Qed.

Lemma purge_none k now used : dget k used = None → dget k (purge now used) = None.
Proof.
  induction used as [|[k' e'] used IH]; simpl; [done|]. case_decide as Hk; [done|]. intros H.
  destruct (e' <? now)%Z; simpl; [by apply IH|]. rewrite decide_False by done. by apply IH.
Qed.

(** An unexpired id stays used. *)
Lemma gated_step_keeps used c id e :
  dget id used = Some e → (gc_now c ≤ e)%Z → dget id (gated_step used c).2 = Some e.
Proof.
  intros H Hle. unfold gated_step, consume_approval_marker.
  destruct (dget APPROVAL_PARAM (gc_params c)) as [marker|]; [|done].
  destruct (marker_fields marker) as [[[id' exp] bind]|]; [|done].
  pose proof (dget_purge_keep id e (gc_now c) used H Hle) as Hp.
  repeat case_match; simplify_eq/=; try done.
  destruct (decide (id = id')) as [->|Hne]; [|by rewrite dget_dset_ne].
  match goal with Hm : dmem _ _ = false |- _ => apply dmem_false in Hm end. congruence.
Qed.

(** What acceptance means, and what it records. *)
Lemma gated_accept used c id exp :
  carries c id exp → (gated_step used c).1 = None →
  (gc_now c ≤ exp)%Z ∧ dget id (purge (gc_now c) used) = None ∧
  dget id (gated_step used c).2 = Some exp.
Proof.
  intros (marker & bind & Hm & Hf) H. unfold gated_step, consume_approval_marker in *.
  rewrite Hm, Hf in *. destruct (Z.ltb_spec exp (gc_now c)); [done|].
  destruct (negb _); [done|].
  destruct (dmem id _) eqn:Hd; [done|]. simpl. apply dmem_false in Hd.
  split; [lia|]. split; [done|]. apply dget_dset_eq.
Qed.

Lemma gated_run_keeps used cs id e :
  dget id used = Some e → (∀ c, c ∈ cs → (gc_now c ≤ e)%Z) → dget id (gated_run used cs) = Some e.
Proof.
  revert used. induction cs as [|c cs IH]; intros used H Hle; simpl; [done|].
  apply IH; [|intros; apply Hle; by right]. apply gated_step_keeps; [done|]. apply Hle. by left.
Qed.

(** ** Properties *)

(** C1. A marker authorizes at most one call: along any history of gated calls
    whose clock does not run backwards past the second use, if a call accepts a
    marker and a later call accepts one with the same id, the first marker had
    expired by then, so the second is a different marker. *)
Theorem marker_single_use used c1 between c2 id exp1 exp2 :
  carries c1 id exp1 → carries c2 id exp2 →
  (∀ c, c ∈ between → (gc_now c ≤ gc_now c2)%Z) →
  (gated_step used c1).1 = None →
  (gated_step (gated_run (gated_step used c1).2 between) c2).1 = None →
  (exp1 < gc_now c2 ≤ exp2)%Z.
Proof.
  intros Hc1 Hc2 Hmono H1 H2.
  destruct (gated_accept _ _ _ _ Hc1 H1) as (_ & _ & Hin).
  destruct (gated_accept _ _ _ _ Hc2 H2) as (Hle2 & Hout & _).
  split; [|done]. destruct (Z.lt_ge_cases exp1 (gc_now c2)) as [|Hge]; [done|]. exfalso.
  rewrite (dget_purge_keep id exp1) in Hout; [done| |lia].
  apply gated_run_keeps; [done|]. intros c Hc. specialize (Hmono c Hc). lia.
Qed.

Definition marker_of (command : pystr) (params : dict) (id : pystr) (exp : Z) : json :=
  JDict [("id", JStr id); ("exp", JInt exp); ("bind", JStr (approval_bind command [] params))].
Definition example_call (now exp : Z) : GatedCall :=
  {| gc_caller := None; gc_now := now; gc_command := "fs.delete"; gc_action := [];
     gc_params := [("path", JStr "/config/x");
                   (APPROVAL_PARAM, marker_of "fs.delete" [("path", JStr "/config/x")] "m1" exp)] |}.

Example marker_single_use_witness : (20 < 21 ≤ 40)%Z.
Proof.
  apply (marker_single_use [] (example_call 10 20) [example_call 15 20] (example_call 21 40)
           "m1" 20 40).
  - eexists _, _. split; [reflexivity|]. vm_compute. reflexivity.
  - eexists _, _. split; [reflexivity|]. vm_compute. reflexivity.
  - intros c [->|[]%elem_of_nil]%elem_of_cons. vm_compute. discriminate.
  - vm_compute. reflexivity.
  - vm_compute. reflexivity.
Defined.

(** The clock matters: when it steps back after a marker has been purged, the
    same marker authorizes a second call. *)
Theorem clock_step_back_replays :
  ∃ used c between,
    carries c "m1" 20 ∧
    (gated_step used c).1 = None ∧
    (gated_step (gated_run (gated_step used c).2 between) c).1 = None.
Proof.
  exists [], (example_call 10 20), [example_call 21 40; example_call 41 40].
  split; [|by vm_compute].
  eexists _, _. split; [reflexivity|]. vm_compute. reflexivity.
Qed.

(** The gate on every branch.  The reserved parameter never survives the call;
    the call is authorized exactly when it carries a well-formed, unexpired marker
    bound to this command, action and parameters whose id is not in use, or
    carries none and the caller is exempt; a missing marker is
    [PROPOSAL_REQUIRED] and any other refusal is [APPROVAL_INVALID]. *)
Theorem consume_spec caller now command action params used :
  let '(r, params', used') := consume_approval_marker caller now command action params used in
  dget APPROVAL_PARAM params' = None ∧
  (r = None ↔
     (dget APPROVAL_PARAM params = None ∧ approval_exempt caller command action = true) ∨
     ∃ marker id exp, dget APPROVAL_PARAM params = Some marker ∧
       marker_fields marker =
         Some (id, exp, approval_bind command action (ddel APPROVAL_PARAM params)) ∧
       (now ≤ exp)%Z ∧ dget id (purge now used) = None) ∧
  (∀ e, r = Some e → error_code e =
     Some (if dmem APPROVAL_PARAM params then "APPROVAL_INVALID" else "PROPOSAL_REQUIRED")) ∧
  (r ≠ None → ∀ id, dget id used = None → dget id used' = None).
Proof.
  unfold consume_approval_marker, dmem.
  destruct (dget APPROVAL_PARAM params) as [marker|] eqn:Hm.
  - destruct (marker_fields marker) as [[[id exp] bind]|] eqn:Hf.
    + pose proof (λ k, purge_none k now used) as Hpurge.
      pose proof (dget_ddel_eq APPROVAL_PARAM params) as Hdel.
      destruct (Z.ltb_spec exp now) as [Hlt|Hge].
      { split_and!; try naive_solver.
        split; [done|]. intros [[? _]|(? & ? & ? & [= <-] & Hf' & ? & _)]; [done|].
        rewrite Hf in Hf'. injection Hf' as -> -> _. lia. }
      destruct (decide (bind = approval_bind command action (ddel APPROVAL_PARAM params)))
        as [->|Hb].
      2:{ rewrite bool_decide_eq_false_2 by done. split_and!; naive_solver. }
      rewrite bool_decide_eq_true_2 by done. cbn [negb].
      destruct (dget id (purge now used)) as [e|] eqn:Hd; split_and!; naive_solver.
    + pose proof (dget_ddel_eq APPROVAL_PARAM params). split_and!; naive_solver.
  - destruct (approval_exempt caller command action); split_and!; naive_solver.
Qed.

(** The checker of a handler with several protected paths consumes the marker
    once: every later call repeats the first result and changes nothing. *)
Theorem checker_consumes_once caller now now' command params used :
  let '(r, st) := checker_call caller now command (None, params, used) in
  checker_call caller now' command st = (r, st).
Proof.
  unfold checker_call.
  destruct (consume_approval_marker caller now command [] params used) as [[r p] u]. done.
Qed.
