(* ===== verification/Params.v ===== *)
(** [commands/params.py], and the two handlers that need nothing else:
    [commands/ping.py] and [commands/system.py]. *)

From stdpp Require Import base list gmap sorting.
From Stdlib Require Import NArith ZArith Lia.
From S2P Require Import Prelude PyStr PyFloat Json Authz.

(** An unknown key, else the first accepted key (in sorted order) that is present
    as [null] without being nullable. *)
Definition unknown_keys (params : dict) (allowed : gset pystr) : list pystr :=
  sorted_set (list_to_set (dkeys params) ∖ allowed).
Definition misplaced_null (params : dict) (allowed nullable : gset pystr) : option pystr :=
  List.find (λ name, match dget name params with Some JNull => true | _ => false end)
    (sorted_set (allowed ∖ nullable)).

Definition strict_keys_error (params : dict) (allowed nullable : gset pystr) : option json :=
  match unknown_keys params allowed with
  | _ :: _ as unknown =>
      Some (error_dict "INVALID_PARAM"
        ("unknown parameter(s): " ++ join ", " unknown ++ "; allowed: "
         ++ join ", " (sorted_set allowed)))
  | [] =>
      match misplaced_null params allowed nullable with
      | Some name =>
          Some (error_dict "INVALID_PARAM" (name ++ " must not be null; omit it instead"))
      | None => None
      end
  end.

Definition _PING_KEYS : gset pystr := {["message"]}.

(** [handle_ping]; [ts] is [int(time.time() * 1000)]. *)
Definition handle_ping `{Unicode} (ts : Z) (params : dict) : json :=
  match strict_keys_error params _PING_KEYS ∅ with
  | Some invalid => invalid
  | None =>
      JDict [("pong", JBool true); ("message", JStr (str_get "message" [] params));
             ("ts", JInt ts)]
  end.

Definition _WHICH_KEYS : gset pystr := {["name"]}.

(** [handle_system_which]; [which] is [shutil.which], the [PATH] lookup. *)
Definition handle_system_which (which : pystr → option pystr) (params : dict) : json :=
  match strict_keys_error params _WHICH_KEYS ∅ with
  | Some invalid => invalid
  | None =>
      match dget "name" params with
      | Some (JStr (_ :: _ as name)) =>
          (* os.sep is "/" on the node's platform *)
          if existsb (N.eqb 47) name
          then error_dict "NAME_REQUIRED" "Executable name must be a basename"
          else match which name with
               | None => JDict [("ok", JBool true); ("name", JStr name); ("found", JBool false)]
               | Some located =>
                   JDict [("ok", JBool true); ("name", JStr name); ("found", JBool true);
                          ("path", JStr located)]
               end
      | _ => error_dict "NAME_REQUIRED" "Missing required 'name' parameter"
      end
  end.

(** ** Facts *)

Lemma unknown_keys_nil params allowed :
  unknown_keys params allowed = [] ↔ ∀ k, k ∈ dkeys params → k ∈ allowed.
Proof.
  unfold unknown_keys. split.
  - intros H k Hk. destruct (decide (k ∈ allowed)) as [|Hn]; [done|].
    assert (Hin : k ∈ sorted_set (list_to_set (dkeys params) ∖ allowed)).
    { apply elem_of_sorted_set, elem_of_difference. split; [|done]. by apply elem_of_list_to_set. }
    rewrite H in Hin. by apply elem_of_nil in Hin.
  - intros H. destruct (sorted_set _) as [|k l] eqn:E; [done|]. exfalso.
    assert (Hin : k ∈ k :: l) by (by left). rewrite <- E in Hin.
    apply elem_of_sorted_set, elem_of_difference in Hin as [Hk Hn].
    by apply Hn, H, (elem_of_list_to_set (C := gset pystr)).
Qed.

(** Strict parameters: a handler proceeds exactly when every key it was given
    is one it accepts and no accepted key outside the nullable ones is [null]; so
    a misspelled key is never ignored. *)
Theorem strict_keys_error_exact params allowed nullable :
  strict_keys_error params allowed nullable = None ↔
    (∀ k, k ∈ dkeys params → k ∈ allowed) ∧
    (∀ k, k ∈ allowed → k ∉ nullable → dget k params ≠ Some JNull).
Proof.
  unfold strict_keys_error. rewrite <- unknown_keys_nil.
  destruct (unknown_keys params allowed) as [|u us]; [|naive_solver].
  unfold misplaced_null. destruct (List.find _ _) as [n|] eqn:Hf.
  - apply find_Some_elem in Hf as [Hin Hn].
    apply elem_of_sorted_set, elem_of_difference in Hin as [Ha Hnn].
    destruct (dget n params) as [[]|] eqn:Hd; try done. naive_solver.
  - split; [|done]. intros _. split; [done|]. intros k Ha Hn Hd.
    apply find_none with (x := k) in Hf; [by rewrite Hd in Hf|].
    apply list_elem_of_In, elem_of_sorted_set, elem_of_difference. done.
Qed.
