(* ===== verification/Dispatch.v ===== *)
(** [commands/dispatcher.py]: the registry, and the synchronous and awaiting
    dispatch of one command through the policy gate, the caller context and the
    scrubbing exit.  [logging] is not modelled. *)

From stdpp Require Import base list gmap sorting.
From Stdlib Require Import NArith ZArith Lia.
From S2P Require Import Prelude PyStr PyFloat Json Config Authz Policy Scrub.

(** The registered command names, in order. *)
Definition _REGISTRY : list pystr :=
  ["ping"; "fs.read"; "fs.list"; "fs.stat"; "fs.glob"; "fs.write"; "fs.restore";
   "fs.history"; "fs.diff"; "fs.move"; "fs.delete"; "fs.patch"; "system.run";
   "system.run.prepare"; "system.which"; "system.execApprovals.get";
   "system.execApprovals.set"; "ha.list_states"; "ha.get_state"; "ha.call_service";
   "ha.list_areas"; "ha.list_devices"; "ha.list_services"; "ha.get_config";
   "ha.list_events"; "ha.list_config_entries"; "ha.core_logs"; "ha.calendar_get_events";
   "ha.list_entity_registry"; "ha.logbook"; "ha.history"; "ha.reload_config";
   "ha.light_turn_on"; "ha.light_turn_off"; "ha.list_automations"; "ha.check_config";
   "ha.addon_logs"; "ha.list_addons"; "ha.addon_info"; "ha.addon_stats";
   "ha.addon_changelog"; "ha.addon_documentation"; "ha.supervisor_info"; "ha.addon_start";
   "ha.addon_stop"; "ha.addon_restart"; "ha.addon_update"; "ha.update_install";
   "ha.config.lovelace"; "ha.config.automation"; "ha.config.script"; "ha.config.scene";
   "ha.config.helpers"; "ha.config.area_registry"; "ha.config.device_registry";
   "ha.config.entity_registry"; "ha.config.config_entries"].

Section dispatch.
Context `{Unicode}.
(** The state the handlers share. *)
Context {W : Type}.

(** A handler reads the current caller.  Calling an [async] handler only makes
    a coroutine; its body runs when awaited. *)
Inductive handler :=
| Sync (f : W → option Caller → dict → W * res json)
| Async (f : W → option Caller → dict → W * res json).

Context (handlers : pystr → handler).
Definition lookup_handler (command : pystr) : option handler :=
  if elem command _REGISTRY then Some (handlers command) else None.

(** The shared state and [CURRENT_CALLER]. *)
Record DState := { world : W; CURRENT_CALLER : option Caller }.

Definition scrub_str (s : pystr) (codes : list json) : pystr :=
  match scrub_codes (JStr s) codes with JStr t => t | _ => [] end.

Definition UnknownCommandError (command : pystr) : exn :=
  Exn "UnknownCommandError" ("No handler registered for command: " ++ repr_str command).
Definition AsyncHandlerError (command : pystr) : exn :=
  Exn "AsyncHandlerError"
    ("Command " ++ repr_str command ++ " is async; use dispatch_async() instead").
Definition _masked_failure (command : pystr) (codes : list json) : exn :=
  Exn "HandlerFailedError"
    ("Handler failed for command: " ++ repr_str (scrub_str command codes)).
Definition _scrubbed (result : json) (codes : list json) : json := scrub_codes result codes.

(** What leaves the dispatcher after a handler body ran. *)
Definition leave (command : pystr) (codes : list json) (r : res json) : res json :=
  match r with
  | Ret result => Ret (_scrubbed result codes)
  | Raise exc => match codes with
                 | [] => Raise exc
                 | _ => Raise (_masked_failure command codes)
                 end
  end.

(** [CURRENT_CALLER.set(caller)], the body, [CURRENT_CALLER.reset(token)]. *)
Definition run_body (f : W → option Caller → dict → W * res json) (caller : Caller)
    (params : dict) (st : DState) : DState * res json :=
  let inner := {| world := world st; CURRENT_CALLER := Some caller |} in
  let '(w, r) := f (world inner) (CURRENT_CALLER inner) params in
  ({| world := w; CURRENT_CALLER := CURRENT_CALLER st |}, r).

Definition dispatch (command : pystr) (params : dict) (caller : Caller) (st : DState)
    : DState * res json :=
  match collect_codes (JDict params) with
  | Raise e => (st, Raise e)
  | Ret codes =>
      match lookup_handler command with
      | None => (st, Raise (UnknownCommandError (scrub_str command codes)))
      | Some h =>
          match check caller command params with
          | Some refusal => (st, Ret (_scrubbed refusal codes))
          | None =>
              match h with
              | Sync f =>
                  let '(st, r) := run_body f caller params st in
                  (st, leave command codes r)
              | Async _ => (* the coroutine is closed unstarted *)
                  (st, Raise (AsyncHandlerError command))
              end
          end
      end
  end.

Definition dispatch_async (command : pystr) (params : dict) (caller : Caller) (st : DState)
    : DState * res json :=
  match collect_codes (JDict params) with
  | Raise e => (st, Raise e)
  | Ret codes =>
      match lookup_handler command with
      | None => (st, Raise (UnknownCommandError (scrub_str command codes)))
      | Some h =>
          match check caller command params with
          | Some refusal => (st, Ret (_scrubbed refusal codes))
          | None =>
              let f := match h with Sync f => f | Async f => f end in
              let '(st, r) := run_body f caller params st in
              (st, leave command codes r)
          end
      end
  end.
End dispatch.

(** ** Properties *)

(** Every registered command is classified for household users: it is in
    exactly one of the allowed and the forbidden tables, and every command of the
    tables is registered. *)
Theorem registry_classified :
  (∀ c, c ∈ _REGISTRY →
     (c ∈ USER_ALLOWED_COMMANDS ∧ c ∉ USER_FORBIDDEN_COMMANDS) ∨
     (c ∉ USER_ALLOWED_COMMANDS ∧ c ∈ USER_FORBIDDEN_COMMANDS)) ∧
  (∀ c, c ∈ USER_ALLOWED_COMMANDS ++ USER_FORBIDDEN_COMMANDS → c ∈ _REGISTRY).
Proof.
  assert (H1 : forallb (λ c, xorb (elem c USER_ALLOWED_COMMANDS) (elem c USER_FORBIDDEN_COMMANDS))
                 _REGISTRY = true) by (vm_compute; reflexivity).
  assert (H2 : forallb (λ c, elem c _REGISTRY)
                 (USER_ALLOWED_COMMANDS ++ USER_FORBIDDEN_COMMANDS) = true)
    by (vm_compute; reflexivity).
  rewrite forallb_true_forall in H1, H2. split.
  - intros c Hc%H1.
    destruct (elem c USER_ALLOWED_COMMANDS) eqn:EA, (elem c USER_FORBIDDEN_COMMANDS) eqn:EF;
      try discriminate Hc; [left|right]; split;
      first [by apply elem_true|by apply elem_false].
  - intros c Hc%H2. by apply elem_true.
Qed.

Section properties.
Context `{Unicode} {W : Type} (handlers : pystr → @handler W).
Implicit Types st : @DState W.

(** A refused or unknown call runs no handler: the shared state and the
    caller context are unchanged by both dispatchers, and the outcome does not
    depend on the handlers. *)
Theorem refused_runs_nothing handlers' command params caller st :
  check caller command params ≠ None ∨ command ∉ _REGISTRY →
  (dispatch handlers command params caller st).1 = st ∧
  dispatch_async handlers command params caller st = dispatch handlers command params caller st ∧
  dispatch handlers' command params caller st = dispatch handlers command params caller st.
Proof.
  intros Hr. unfold dispatch, dispatch_async, lookup_handler.
  destruct (collect_codes (JDict params)) as [codes|e]; [|done].
  destruct (elem command _REGISTRY) eqn:He; [|done].
  destruct (check caller command params); [done|].
  apply elem_true in He. naive_solver.
Qed.

(** Both dispatchers restore [CURRENT_CALLER] on every path, and agree on
    synchronous handlers; on an [async] handler the synchronous dispatcher
    raises without running its body. *)
Theorem dispatch_agree command params caller st :
  CURRENT_CALLER (dispatch handlers command params caller st).1 = CURRENT_CALLER st ∧
  CURRENT_CALLER (dispatch_async handlers command params caller st).1 = CURRENT_CALLER st ∧
  match handlers command with
  | Sync _ => dispatch handlers command params caller st =
              dispatch_async handlers command params caller st
  | Async _ => (dispatch handlers command params caller st).1 = st
  end.
Proof.
  unfold dispatch, dispatch_async, lookup_handler, run_body.
  destruct (collect_codes (JDict params)) as [codes|e]; [|by destruct (handlers command)].
  destruct (elem command _REGISTRY); [|by destruct (handlers command)].
  destruct (check caller command params); [by destruct (handlers command)|].
  destruct (handlers command) as [f|f]; destruct (f _ _ _); done.
Qed.

(** C39. No supplied code leaves the dispatcher in a result in a form that is looked
    for: whatever the handler returns, no text and no key of the result contains a
    form of a code of the call, and no number of it equals a code that was
    supplied as a number.  (A code that was supplied as a text is not looked for
    among the numbers.) *)
Theorem dispatch_leaks_no_code command params caller st st' v c :
  dispatch_async handlers command params caller st = (st', Ret v) →
  code_at c (JDict params) →
  (∀ s f, f ∈ needles_of c → f ≠ [] → str_occurs s v → contains s f = false) ∧
  (∀ x n m, is_number c = true → num_of c = Some n →
     occurs x v → is_number x = true → num_of x = Some m → num_eqb m n = false).
Proof.
  unfold dispatch_async. intros Hd Hc.
  destruct (collect_codes (JDict params)) as [codes|e] eqn:Hcs; [|done].
  assert (Hin : c ∈ codes) by (by apply (collect_codes_spec _ _ _ Hcs)).
  assert (Hv : ∃ v0, v = scrub_codes v0 codes).
  { destruct (lookup_handler handlers command) as [h|]; [|done].
    destruct (check caller command params) as [r|]; [injection Hd as <- <-; by exists r|].
    destruct (run_body _ _ _ _) as [st1 [r|e]]; simpl in Hd; [|by destruct codes].
    injection Hd as <- <-. by exists r. }
  destruct Hv as [v0 ->]. split.
  - intros s f Hf Hne Hs. by eapply scrub_string_clean.
  - intros x n m Hcn Hn Ho Hx Hm. by eapply scrub_leaves_no_number.
Qed.

(** A handler's exception cannot carry a code out: when the call supplied
    one, the outcome of a raising handler is the same whatever it raised. *)
Theorem masked_failure_uniform f g command params caller st codes w e1 e2 :
  collect_codes (JDict params) = Ret codes → codes ≠ [] →
  handlers command = Async f →
  f (world st) (Some caller) params = (w, Raise e1) →
  g (world st) (Some caller) params = (w, Raise e2) →
  dispatch_async (λ _, Async g) command params caller st =
  dispatch_async handlers command params caller st.
Proof.
  intros Hcs Hne Hh Hf Hg. unfold dispatch_async, lookup_handler. rewrite Hcs, Hh.
  destruct (elem command _REGISTRY); [|done]. destruct (check caller command params); [done|].
  unfold run_body. simpl. rewrite Hf, Hg. simpl. by destruct codes.
Qed.
End properties.

(** ** Witnesses *)

(** Handlers that echo their parameters, raise with them, or wait. *)
Definition echo (w : nat) (c : option Caller) (params : dict) : nat * res json :=
  (S w, Ret (JDict params)).
Definition fail_with (msg : pystr) (w : nat) (c : option Caller) (params : dict) : nat * res json :=
  (S w, Raise (Exn "RuntimeError" msg)).
Definition echo_handlers (_ : pystr) : @handler nat := Async echo.
Definition example_state : @DState nat := {| world := 0; CURRENT_CALLER := None |}.
Definition lock_call : dict :=
  [("domain", JStr "lock"); ("service", JStr "unlock"); ("data", JDict [("code", JStr "4711")])].

Example refused_runs_nothing_witness :
  (@dispatch all_printable nat echo_handlers "fs.write" [] UNTRUSTED example_state).1
    = example_state.
Proof.
  apply (@refused_runs_nothing all_printable nat echo_handlers echo_handlers). left.
  vm_compute. discriminate.
Defined.

(** A numeric code that a handler echoes twice, as a number and in a text. *)
Definition number_call : dict :=
  [("domain", JStr "lock"); ("service", JStr "unlock"); ("data", JDict [("code", JInt 4711)])].
Definition tell_handlers (_ : pystr) : @handler nat :=
  Async (λ w _ _, (S w, Ret (JList [JInt 4711; JInt 7; JStr "is 4711."]))).
Example dispatch_leaks_no_code_witness :
  (@dispatch_async all_printable nat tell_handlers "ha.call_service" number_call (Caller_operator "op") example_state).2 =
    Ret (JList [JStr "[redacted]"; JInt 7; JStr "is [redacted]."]) ∧
  contains "is [redacted]." "4711" = false ∧ num_eqb (NInt 7) (NInt 4711) = false.
Proof.
  split; [vm_compute; reflexivity|].
  destruct (@dispatch_leaks_no_code all_printable nat tell_handlers "ha.call_service" number_call
           (Caller_operator "op") example_state {| world := 1; CURRENT_CALLER := None |}
           (JList [JStr "[redacted]"; JInt 7; JStr "is [redacted]."]) (JInt 4711)) as [Ht Hn].
  - vm_compute. reflexivity.
  - eapply code_value with (k := "data"); [by right; right; left|by intros [[=] _]|].
    apply code_here; [by left|reflexivity].
  - split.
    + apply Ht; [by left|done|]. left. eapply occurs_item; [|apply occurs_here]. do 2 right. left.
    + apply (Hn (JInt 7)); try reflexivity. eapply occurs_item; [|apply occurs_here]. right. left.
Defined.

Example masked_failure_uniform_witness :
  @dispatch_async all_printable nat (λ _, Async (fail_with "4711")) "ha.call_service" lock_call
    (Caller_operator "op") example_state =
  @dispatch_async all_printable nat (λ _, Async (fail_with "x")) "ha.call_service" lock_call
    (Caller_operator "op") example_state.
Proof.
  apply (@masked_failure_uniform all_printable nat (λ _, Async (fail_with "x")) (fail_with "x")
           (fail_with "4711") "ha.call_service" lock_call (Caller_operator "op") example_state
           [JStr "4711"] 1 (Exn "RuntimeError" "x") (Exn "RuntimeError" "4711"));
    try reflexivity. discriminate.
Defined.
