(* ===== verification/ExecApprovals.v ===== *)
(** [commands/exec_approvals.py]: the plan a Gateway asks a human to approve
    ([system.run.prepare]), and the policy document the node keeps for it
    ([system.execApprovals.get] and [.set]). *)

From stdpp Require Import base list gmap sorting.
From Stdlib Require Import NArith ZArith Lia.
From S2P Require Import Prelude PyStr PyFloat Json JsonParse SafePath Sha256.

Definition APPROVALS_DOC_VERSION : Z := 1.
Definition _VALID_SECURITY : list pystr := ["allowlist"; "deny"; "full"].
Definition _VALID_ASK : list pystr := ["always"; "off"; "on-miss"].
Definition _POLICY_FIELDS : list pystr := ["security"; "ask"; "askFallback"; "autoAllowSkills"].
Definition _DEFAULT_POLICY : dict :=
  [("security", JStr "deny"); ("ask", JStr "on-miss"); ("askFallback", JStr "deny");
   ("autoAllowSkills", JBool false)].
Definition _MAX_ARGV : nat := 256.
Definition _MAX_ARG_LEN : nat := N.to_nat 8192.
Definition _MISSING_HASH : pystr := "missing:" ++ Sha.sha256_hex [].

(** JavaScript's [\s] *)
Definition _JS_WHITESPACE (c : N) : bool :=
  (existsb (N.eqb c) [9; 10; 11; 12; 13; 32; 160; 5760; 8232; 8233; 8239; 8287; 12288; 65279]
   || ((8192 <=? c) && (c <? 8203)))%N.
Definition _JS_QUOTE_TRIGGERS (c : N) : bool := _JS_WHITESPACE c || (c =? DQ)%N.

(** A failing check returns the error payload. *)
Abbreviation bad m := (error_dict "INVALID_PARAM" m).

Definition _default_document : dict :=
  [("version", JInt APPROVALS_DOC_VERSION); ("defaults", JDict _DEFAULT_POLICY);
   ("agents", JDict [])].

(** ** The plan *)

Fixpoint strings_of (l : list json) : option (list pystr) :=
  match l with
  | [] => Some []
  | JStr s :: l => match strings_of l with Some r => Some (s :: r) | None => None end
  | _ => None
  end.

Definition _validate_argv (value : json) : list pystr + json :=
  match value with
  | JNull => inr (error_dict "MISSING_PARAM" "command is required")
  | JList l =>
      match strings_of l with
      | None | Some [] => inr (bad "command must be a non-empty list of strings")
      | Some ([] :: _) => inr (bad "command[0] must be a non-empty executable name")
      | Some argv =>
          if (_MAX_ARGV <? length argv)%nat
          then inr (bad ("command has more than " ++ str_of_nat _MAX_ARGV ++ " arguments"))
          else if existsb (λ a, _MAX_ARG_LEN <? length a)%nat argv
          then inr (bad ("command contains an argument longer than " ++ str_of_nat _MAX_ARG_LEN))
          else if existsb (existsb (N.eqb 0)) argv
          then inr (bad "command arguments must not contain NUL bytes")
          else inl argv
      end
  | _ => inr (bad "command must be a list of strings")
  end.

Definition _validate_env (value : json) : option json :=
  let msg := bad "env must be an object of non-empty string keys and values" in
  match value with
  | JNull => None
  | JDict d => if forallb (λ kv, negb (bool_decide (kv.1 = [])) && is_str kv.2) d
               then None else Some msg
  | _ => Some msg
  end.

Definition format_arg (arg : pystr) : pystr :=
  match arg with
  | [] => [DQ; DQ]
  | _ => if negb (existsb _JS_QUOTE_TRIGGERS arg) then arg
         else DQ :: replace_char DQ [BS; DQ] arg ++ [DQ]
  end.
Definition _format_exec_command (argv : list pystr) : pystr := join " " (map format_arg argv).

Definition _inline_shell_payload (argv : list pystr) : option pystr :=
  match argv with
  | [argv0; flag; text] =>
      if bool_decide (argv0 = "/bin/sh"%py) &&
         (bool_decide (flag = "-c"%py) || bool_decide (flag = "-lc"%py))
      then match strip text with [] => None | payload => Some payload end
      else None
  | _ => None
  end.

(** The command text and the preview shown with it. *)
Definition _resolve_command_text (argv : list pystr) (raw_command : json)
    : (pystr * option pystr) + json :=
  match raw_command with
  | JNull | JStr _ =>
      let raw := match raw_command with JStr s => strip s | _ => [] end in
      let command_text := _format_exec_command argv in
      let payload := _inline_shell_payload argv in
      let preview := match payload with
                     | Some p => if bool_decide (p = command_text) then None else Some p
                     | None => None
                     end in
      if bool_decide (raw = []) then inl (command_text, preview)
      else if negb (bool_decide (raw = command_text)) && negb (bool_decide (Some raw = payload))
      then inr (JDict [("ok", JBool false); ("error", JStr "RAW_COMMAND_MISMATCH");
                       ("message", JStr "INVALID_REQUEST: rawCommand does not match command");
                       ("inferred", JStr command_text); ("formattedArgv", JStr command_text)])
      else inl (command_text, preview)
  | _ => inr (bad "rawCommand must be a string")
  end.

(** ** The document *)

Definition _is_one_of (value : json) (allowed : list pystr) : bool :=
  match value with JStr s => bool_decide (s ∈ allowed) | _ => false end.

Definition _validate_optional_string (scope : pystr) (container : dict) (field : pystr) : option json :=
  match dget field container with
  | None | Some (JStr _) => None
  | Some _ => Some (bad (scope ++ "." ++ field ++ " must be a string"))
  end.

Definition _validate_min_length_string (scope : pystr) (value : json) : option json :=
  match value with
  | JStr (_ :: _) => None
  | _ => Some (bad (scope ++ " must be a non-empty string"))
  end.

Definition _validate_non_blank_string (scope : pystr) (value : json) : option json :=
  match value with
  | JStr ((_ :: _) as s) =>
      if forallb _JS_WHITESPACE s
      then Some (bad (scope ++ " must contain a non-whitespace character")) else None
  | _ => Some (bad (scope ++ " must be a non-empty string"))
  end.

Definition _validate_timestamp (scope : pystr) (container : dict) (field : pystr)
    (required : bool) : option json :=
  let complain m := Some (bad (scope ++ "." ++ field ++ m)) in
  match dget field container with
  | None => if required then complain " is required" else None
  | Some (JInt z) => if (z <? 0)%Z then complain " must be greater than or equal to 0" else None
  | Some (JFloat x) =>
      if negb (isfinite x) then complain " must be a finite number"
      else if float_neg x then complain " must be greater than or equal to 0" else None
  | Some _ => complain " must be a number"
  end.

Definition _ALLOWLIST_ENTRY_FIELDS : list pystr :=
  ["id"; "pattern"; "source"; "commandText"; "argPattern"; "lastUsedAt"; "lastUsedCommand";
   "lastResolvedPath"].
Definition _MCP_TOOL_FIELDS : list pystr := ["server"; "tool"; "source"; "addedAt"; "lastUsedAt"].

(** [set(d) - allowed], sorted *)
Definition unknown_fields (d : dict) (allowed : list pystr) : list pystr :=
  sorted_strs (List.filter (λ k, negb (bool_decide (k ∈ allowed))) (dkeys d)).

(** The first complaint of a list of checks. *)
Fixpoint first_error (l : list (option json)) : option json :=
  match l with
  | [] => None
  | Some e :: _ => Some e
  | None :: l => first_error l
  end.
Definition expect (ok : bool) (e : json) : option json := if ok then None else Some e.

Section validate.
Context `{Unicode}.

Definition list_text (l : list pystr) : pystr := py_repr (JList (map JStr l)).
Definition no_unknown (scope : pystr) (d : dict) (allowed : list pystr) : option json :=
  match unknown_fields d allowed with
  | [] => None
  | u => Some (bad (scope ++ " contains unknown fields: " ++ list_text u))
  end.
Definition source_is (e : json) : bool := bool_decide (e = JStr "allow-always").

Definition _validate_allowlist_entry (scope : pystr) (entry : json) : option json :=
  match entry with
  | JDict d => first_error
      [no_unknown scope d _ALLOWLIST_ENTRY_FIELDS;
       expect (is_str (get_or_null "pattern" d)) (bad (scope ++ ".pattern must be a string"));
       match dget "id" d with
       | Some v => _validate_min_length_string (scope ++ ".id") v
       | None => None
       end;
       match dget "source" d with
       | Some v => expect (source_is v) (bad (scope ++ ".source must be 'allow-always'"))
       | None => None
       end;
       first_error (map (_validate_optional_string scope d)
         ["commandText"; "argPattern"; "lastUsedCommand"; "lastResolvedPath"]);
       _validate_timestamp scope d "lastUsedAt" false]
  | _ => Some (bad (scope ++ " must be an object"))
  end.

Definition _validate_mcp_tool (scope : pystr) (entry : json) : option json :=
  match entry with
  | JDict d => first_error
      [no_unknown scope d _MCP_TOOL_FIELDS;
       first_error (map (λ f, _validate_non_blank_string (scope ++ "." ++ f) (get_or_null f d))
                      ["server"; "tool"]);
       expect (source_is (get_or_null "source" d)) (bad (scope ++ ".source must be 'allow-always'"));
       _validate_timestamp scope d "addedAt" true;
       _validate_timestamp scope d "lastUsedAt" false]
  | _ => Some (bad (scope ++ " must be an object"))
  end.

(** The entries of a list with their positions. *)
Definition check_entries (scope name : pystr) (f : pystr → json → option json)
    (policy : dict) : option json :=
  match dget name policy with
  | None => None
  | Some (JList l) =>
      first_error (imap (λ i e, f (scope ++ "." ++ name ++ "[" ++ str_of_nat i ++ "]") e) l)
  | Some _ => Some (bad (scope ++ "." ++ name ++ " must be a list"))
  end.
Definition check_choice (scope name : pystr) (policy : dict) (choices : list pystr) : option json :=
  match dget name policy with
  | Some v => expect (_is_one_of v choices)
                (bad (scope ++ "." ++ name ++ " must be one of " ++ list_text choices))
  | None => None
  end.

Definition _validate_policy (scope : pystr) (policy : dict) (allow_allowlist : bool) : option json :=
  first_error
    [no_unknown scope policy
       (_POLICY_FIELDS ++ if allow_allowlist then ["allowlist"; "mcpTools"]%py else []);
     check_choice scope "security" policy _VALID_SECURITY;
     check_choice scope "ask" policy _VALID_ASK;
     check_choice scope "askFallback" policy _VALID_SECURITY;
     match dget "autoAllowSkills" policy with
     | Some v => expect (is_bool v) (bad (scope ++ ".autoAllowSkills must be boolean"))
     | None => None
     end;
     check_entries scope "allowlist" _validate_allowlist_entry policy;
     check_entries scope "mcpTools" _validate_mcp_tool policy].

Definition _validate_document (value : json) : option json :=
  match value with
  | JDict d => first_error
      [expect (bool_decide (unknown_fields d ["version"; "socket"; "defaults"; "agents"] = []))
         (bad "file contains unknown fields");
       expect (negb (is_bool (get_or_null "version" d))
              && py_eq_int (get_or_null "version" d) APPROVALS_DOC_VERSION)
         (bad ("file.version must be " ++ str_of_Z APPROVALS_DOC_VERSION));
       match dget "socket" d with
       | None => None
       | Some (JDict s) =>
           if bool_decide (unknown_fields s ["path"; "token"] = [])
           then expect (forallb (λ kv, is_str kv.2) s) (bad "file.socket values must be strings")
           else Some (bad "file.socket is invalid")
       | Some _ => Some (bad "file.socket is invalid")
       end;
       match dget "defaults" d with
       | None => None
       | Some (JDict p) => _validate_policy "file.defaults" p false
       | Some _ => Some (bad "file.defaults must be an object")
       end;
       match dget "agents" d with
       | None => None
       | Some (JDict a) => first_error (map (λ kv,
           match kv.2 with
           | JDict p => _validate_policy ("file.agents." ++ kv.1) p true
           | _ => Some (bad "file.agents entries must be policy objects")
           end) a)
       | Some _ => Some (bad "file.agents must be an object")
       end]
  | _ => Some (bad "file must be an object")
  end.

(** [_read_snapshot]: [file] is the content of the document, [None] when it
    does not exist or cannot be read. *)
Definition _read_snapshot (file : option (list N)) : dict * option (list N) :=
  match file with
  | None => (_default_document, None)
  | Some raw =>
      match decode raw with
      | None => (_default_document, Some raw)
      | Some text =>
          match loads text with
          | Ret (JDict d) =>
              match _validate_document (JDict d) with
              | None => (d, Some raw)
              | Some _ => (_default_document, Some raw)
              end
          | _ => (_default_document, Some raw)
          end
      end
  end.
End validate.

(** The string at [field] of the object [j]. *)
Definition str_field (field : pystr) (j : json) : option pystr :=
  match j with
  | JDict d => match dget field d with Some (JStr s) => Some s | _ => None end
  | _ => None
  end.

Definition _redact_socket_value (value : pystr) : pystr := strip value.
Definition _redact_document (document : dict) : dict :=
  match str_field "path" (get_or_null "socket" document) with
  | Some p => if bool_decide (strip p = []) then ddel "socket" document
              else dset "socket" (JDict [("path", JStr (_redact_socket_value p))]) document
  | None => ddel "socket" document
  end.

Definition pick_path (incoming stored : json) : option pystr :=
  match str_field "path" incoming, str_field "path" stored with
  | None, s => s
  | Some i, Some s => if bool_decide (i = _redact_socket_value s) then Some s else Some i
  | Some i, None => Some i
  end.
Definition pick_token (incoming stored : json) : option pystr :=
  match str_field "token" incoming with
  | None => str_field "token" stored
  | i => i
  end.
Definition opt_field (k : pystr) (v : option pystr) : dict :=
  match v with Some s => [(k, JStr s)] | None => [] end.
Definition _merge_socket (document current : dict) : dict :=
  let incoming := get_or_null "socket" document in
  let stored := get_or_null "socket" current in
  match opt_field "path" (pick_path incoming stored) ++ opt_field "token" (pick_token incoming stored) with
  | [] => ddel "socket" document
  | socket => dset "socket" (JDict socket) document
  end.

Definition snapshot_hash (raw : option (list N)) : pystr :=
  match raw with None => _MISSING_HASH | Some raw => Sha.sha256_hex raw end.
Definition _snapshot `{Unicode} (path : pystr) (file : option (list N)) : json :=
  let '(document, raw) := _read_snapshot file in
  JDict [("path", JStr path); ("exists", JBool (match raw with Some _ => true | None => false end));
         ("hash", JStr (snapshot_hash raw)); ("file", JDict (_redact_document document))].
Definition handle_system_exec_approvals_get `{Unicode} := _snapshot.

(** ** The policy shown for approval *)

Record rule := Rule { rule_pattern : pystr; rule_argPattern : option pystr; rule_source : bool }.
#[global] Instance rule_eq_dec : EqDecision rule.
Proof. solve_decision. Defined.

Definition rule_of (entry : json) : option rule :=
  match entry with
  | JDict d =>
      match dget "pattern" d with
      | Some (JStr p) => Some (Rule p (str_field "argPattern" entry)
                                 (source_is (get_or_null "source" d)))
      | _ => None
      end
  | _ => None
  end.
Fixpoint add_rules (entries : list json) (rules : list rule) : list rule :=
  match entries with
  | [] => rules
  | e :: entries =>
      add_rules entries
        match rule_of e with
        | Some r => if bool_decide (r ∈ rules) then rules else rules ++ [r]
        | None => rules
        end
  end.

(** The sort key: three byte strings; [encode] raises on a surrogate. *)
Definition rule_key (r : rule) : res (list (list N)) :=
  match utf8 (rule_pattern r), utf8 (default [] (rule_argPattern r)) with
  | Some p, Some a => Ret [p; a; if rule_source r then "allow-always"%py else []]
  | _, _ => Raise (Exn "UnicodeEncodeError" "surrogates not allowed")
  end.
Fixpoint key_leb (a b : list (list N)) : bool :=
  match a, b with
  | x :: a, y :: b => if bool_decide (x = y) then key_leb a b else str_leb x y
  | [], _ => true
  | _, [] => false
  end.
(** A stable sort. *)
Fixpoint insert_rule (k : list (list N)) (r : rule) (l : list (list (list N) * rule)) :=
  match l with
  | [] => [(k, r)]
  | (k', r') :: l' => if key_leb k k' then (k, r) :: l else (k', r') :: insert_rule k r l'
  end.
Fixpoint sort_rules (l : list rule) : res (list (list (list N) * rule)) :=
  match l with
  | [] => Ret []
  | r :: l => let? k := rule_key r in let? s := sort_rules l in Ret (insert_rule k r s)
  end.
Definition rule_json (r : rule) : json :=
  JDict ([("pattern", JStr (rule_pattern r))] ++ opt_field "argPattern" (rule_argPattern r)
         ++ (if rule_source r then [("source"%py, JStr "allow-always")] else [])).

Definition as_dict (j : json) : dict := match j with JDict d => d | _ => [] end.
Definition as_list (j : json) : list json := match j with JList l => l | _ => [] end.

Definition agent_block (agent : pystr) (document : dict) : dict :=
  as_dict (get_or_null agent (as_dict (get_or_null "agents" document))).
Definition exact_block (agent_id : option pystr) (document : dict) : dict :=
  match agent_id with Some ((_ :: _) as a) => agent_block a document | _ => [] end.
(** The closure [field] *)
Definition policy_field (agent_id : option pystr) (document : dict) (name : pystr) : json :=
  match dget name (exact_block agent_id document), dget name (agent_block "*" document),
        dget name (as_dict (get_or_null "defaults" document)) with
  | Some v, _, _ | None, Some v, _ | None, None, Some v => v
  | None, None, None => get_or_null name _DEFAULT_POLICY
  end.

Definition _resolve_policy (document : dict) (agent_id : option pystr) : res dict :=
  let field := policy_field agent_id document in
  let rules := add_rules (as_list (get_or_null "allowlist" (exact_block agent_id document)))
                 (add_rules (as_list (get_or_null "allowlist" (agent_block "*" document))) []) in
  let? sorted := sort_rules rules in
  Ret [("security", field "security"); ("ask", field "ask"); ("askFallback", field "askFallback");
       ("autoAllowSkills", field "autoAllowSkills");
       ("allowlistRules", JList (map (λ kr, rule_json kr.2) sorted))].

(** An optional parameter that must be a string with something in it. *)
Definition optional_name (name : pystr) (params : dict) : option pystr + json :=
  match get_or_null name params with
  | JNull => inl None
  | JStr s => if bool_decide (strip s = [])
              then inr (bad (name ++ " must be a non-empty string")) else inl (Some s)
  | _ => inr (bad (name ++ " must be a non-empty string"))
  end.
Definition opt_json (o : option pystr) : json :=
  match o with Some s => JStr s | None => JNull end.

(** What the handlers ask of the host: the allowed roots, the working
    directory, the links, the directories, and the policy document. *)
Record Host := {
  host_roots : res (list path);
  host_cwd : list pystr;
  host_links : links;
  host_is_dir : path → bool;
}.

Definition _validate_cwd `{Unicode} (h : Host) (cwd : pystr) : res (pystr + json) :=
  let? roots := host_roots h in
  match resolve_safe (host_links h) (host_cwd h) cwd roots with
  | Raise e =>
      if bool_decide (e = NoAllowedRootsError)
      then Ret (inr (error_dict "NO_ALLOWED_ROOTS" "No filesystem roots configured"))
      else if bool_decide (e = OutOfBoundsError)
      then Ret (inr (error_dict "PATH_NOT_ALLOWED"
                       ("cwd is outside the allowed roots: " ++ repr_str cwd)))
      else Raise e
  | Ret p =>
      if host_is_dir h p then Ret (inl (path_str p))
      else Ret (inr (bad ("cwd is not a directory: " ++ repr_str cwd)))
  end.

Definition handle_system_run_prepare `{Unicode} (h : Host) (file : option (list N))
    (params : dict) : res json :=
  match _validate_argv (get_or_null "command" params) with
  | inr e => Ret e
  | inl argv =>
      match _resolve_command_text argv (get_or_null "rawCommand" params) with
      | inr e => Ret e
      | inl (command_text, command_preview) =>
          match _validate_env (get_or_null "env" params) with
          | Some e => Ret e
          | None =>
              let? cwd := match optional_name "cwd" params with
                          | inr e => Ret (inr e)
                          | inl None => Ret (inl None)
                          | inl (Some c) =>
                              let? r := _validate_cwd h c in
                              Ret match r with inl p => inl (Some p) | inr e => inr e end
                          end in
              match cwd, optional_name "agentId" params, optional_name "sessionKey" params with
              | inr e, _, _ | inl _, inr e, _ | inl _, inl _, inr e => Ret e
              | inl cwd, inl agent_id, inl session_key =>
                  let? policy := _resolve_policy (_read_snapshot file).1 agent_id in
                  Ret (JDict
                    [("plan", JDict
                        [("argv", JList (map JStr argv)); ("cwd", opt_json cwd);
                         ("commandText", JStr command_text);
                         ("commandPreview", opt_json command_preview);
                         ("agentId", opt_json agent_id); ("sessionKey", opt_json session_key);
                         ("policySnapshot", JDict policy)]);
                     ("execPolicy", JDict [("security", get_or_null "security" policy);
                                           ("ask", get_or_null "ask" policy)]);
                     ("allowAlwaysCoverage", JDict [("complete", JBool false);
                                                    ("patterns", JList [])])])
              end
          end
      end
  end.

(** ** Replacing the document

    [doc] is the document on disk and [temps] are the temporary files left beside
    it.  An operating-system call can fail: [fault] gives the text of the
    [OSError] at each point, [None] where the call succeeds. *)
Record Store := { doc : option (list N); temps : list (list N) }.
Inductive io_point := MkParent | WriteLock | ReadCurrent | MkTemp | OpenTemp | WriteTemp | Replace
                    | ReadBack | Unlink.

Definition _serialize_document (document : dict) : option (list N) :=
  utf8 (dumps_indent 0 (JDict document) ++ [NL]).

(** The comparison with the content found under the lock. *)
Definition base_hash_error (raw : option (list N)) (base_hash : pystr) : option json :=
  let refuse m := Some (error_dict "INVALID_REQUEST" m) in
  match raw with
  | Some raw =>
      if bool_decide (Sha.sha256_hex raw = [])
      then refuse "exec approvals base hash unavailable; reload and retry"%py
      else if bool_decide (base_hash = [])
      then refuse "exec approvals base hash required; reload and retry"%py
      else if negb (bool_decide (base_hash = Sha.sha256_hex raw))
      then refuse "exec approvals changed; reload and retry"%py
      else None
  | None =>
      if negb (bool_decide (base_hash = [])) && negb (bool_decide (base_hash = _MISSING_HASH))
      then refuse "exec approvals changed; reload and retry"%py
      else None
  end.

Section set.
Context `{Unicode} (path : pystr) (fault : io_point → option pystr).

(** What a read finds. *)
Definition read_file (at_ : io_point) (file : option (list N)) : option (list N) :=
  match fault at_ with Some _ => None | None => file end.
Definition io_error (msg : pystr) : res json :=
  Ret (error_dict "IO_ERROR" ("Could not write approvals document: " ++ msg)).
(** The [finally] block: a temporary file that was not moved is removed. *)
Definition clean_up (s : Store) (content : list N) : Store :=
  match fault Unlink with
  | Some _ => {| doc := doc s; temps := temps s ++ [content] |}
  | None => s
  end.

(** The locked section, from a document that is there or not. *)
Definition locked_replace (document : dict) (base_hash : pystr) (s : Store) : res json * Store :=
  let '(current, raw) := _read_snapshot (read_file ReadCurrent (doc s)) in
  match base_hash_error raw base_hash with
  | Some e => (Ret e, s)
  | None =>
      let merged := _merge_socket document current in
      match fault MkTemp, fault OpenTemp, _serialize_document merged with
      | Some m, _, _ => (io_error m, s)
      | None, Some m, _ => (io_error m, clean_up s [])
      | None, None, None =>
          (Raise (Exn "UnicodeEncodeError" "surrogates not allowed"), clean_up s [])
      | None, None, Some bytes =>
          match fault WriteTemp, fault Replace with
          | Some m, _ => (io_error m, clean_up s [])
          | None, Some m => (io_error m, clean_up s bytes)
          | None, None =>
              (Ret (_snapshot path (read_file ReadBack (Some bytes))),
               {| doc := Some bytes; temps := temps s |})
          end
      end
  end.

Definition handle_system_exec_approvals_set (params : dict) (s : Store) : res json * Store :=
  match get_or_null "file" params with
  | JDict document =>
      match _validate_document (JDict document) with
      | Some e => (Ret e, s)
      | None =>
          let base_hash := match get_or_null "baseHash" params with
                           | JStr b => strip b
                           | _ => []
                           end in
          match fault MkParent, fault WriteLock with
          | Some m, _ | None, Some m => (io_error m, s)
          | None, None => locked_replace document base_hash s
          end
      end
  | value => (Ret (default JNull (_validate_document value)), s)
  end.
End set.

(** ** The command text determines the argument vector *)

Definition esc (a : pystr) : pystr := replace_char DQ [BS; DQ] a.
Lemma esc_cons c a : esc (c :: a) = (if (c =? DQ)%N then [BS; DQ] else [c]) ++ esc a.
Proof. done. Qed.

(** What follows an argument: the end, or a space and more arguments. *)
Definition more (y : pystr) : Prop :=
  y = [] ∨ ∃ args, args ≠ [] ∧ y = 32%N :: _format_exec_command args.

Lemma format_cons a args : ∃ y, _format_exec_command (a :: args) = format_arg a ++ y ∧ more y ∧
  (args = [] ∧ y = [] ∨ args ≠ [] ∧ y = 32%N :: _format_exec_command args).
Proof.
  unfold _format_exec_command. destruct args as [|b args].
  - exists []. rewrite app_nil_r. split; [done|]. split; [by left|by left].
  - exists (32%N :: _format_exec_command (b :: args)). split; [done|].
    split; [right; by exists (b :: args)|by right].
Qed.

(** The three renderings of an argument. *)
Lemma format_arg_cases a :
  (a = [] ∧ format_arg a = [DQ; DQ]) ∨
  (a ≠ [] ∧ format_arg a = a ∧ Forall (λ c, c ≠ DQ ∧ c ≠ 32%N) a) ∨
  (a ≠ [] ∧ format_arg a = DQ :: esc a ++ [DQ]).
Proof.
  destruct a as [|c a]; [by left|]. right. unfold format_arg.
  destruct (existsb _JS_QUOTE_TRIGGERS (c :: a)) eqn:E; [by right|]. left. split; [done|].
  split; [done|]. apply Forall_forall. intros x Hx.
  rewrite existsb_false_forall in E. specialize (E x Hx). split; intros ->; done.
Qed.

(** The head of the inside of a quoted argument with its closing quote. *)
Lemma esc_head b y c x :
  esc b ++ DQ :: y = c :: x →
  (b = [] ∧ c = DQ ∧ x = y) ∨
  (∃ b', b = DQ :: b' ∧ c = BS ∧ x = DQ :: esc b' ++ DQ :: y) ∨
  (∃ b', b = c :: b' ∧ c ≠ DQ ∧ x = esc b' ++ DQ :: y).
Proof.
  destruct b as [|d b]; [intros [= -> ->]; by left|]. rewrite esc_cons.
  destruct (N.eqb_spec d DQ) as [->|Hd]; intros [= <- <-]; right; [left|right]; by exists b.
Qed.

Lemma plain_arg_inside t z b y :
  Forall (λ c, c ≠ DQ ∧ c ≠ 32%N) t → more z → t ++ z = esc b ++ DQ :: y →
  ∃ b', z = esc b' ++ DQ :: y.
Proof.
  intros Ht Hz. revert b. induction Ht as [|c t [Hc _] Ht IH]; intros b E; [by exists b|].
  symmetry in E. apply esc_head in E as [(_ & ? & _)|[(b' & -> & -> & E)|(b' & -> & _ & E)]];
    [done| |by eapply IH].
  destruct t as [|c' t]; simpl in E.
  - destruct Hz as [->|(? & _ & ->)]; discriminate.
  - injection E as -> _. by apply Forall_cons in Ht as [[? _] _].
Qed.

Lemma more_inside z b y :
  more z → z = esc b ++ DQ :: y →
  ∃ args b', z = 32%N :: _format_exec_command args ∧
             _format_exec_command args = esc b' ++ DQ :: y.
Proof.
  intros [->|(args & _ & ->)] E; symmetry in E; [by destruct b as [|c b]; [|rewrite esc_cons in E; destruct (c =? DQ)%N]|].
  apply esc_head in E as [(_ & ? & _)|[(b' & -> & ? & E)|(b' & -> & _ & E)]]; [done..|].
  by exists args, b'.
Qed.

(** Off by one quote: the text of some arguments is never the inside of a quoted
    argument, up to its closing quote and what follows. *)
Lemma out_of_phase n args b y :
  length (_format_exec_command args) ≤ n → more y →
  _format_exec_command args = esc b ++ DQ :: y → False.
Proof.
  revert args b y. induction n as [|n IH]; intros args b y Hn Hy E.
  { rewrite E, length_app in Hn. simpl in Hn. lia. }
  destruct args as [|t args].
  { destruct b as [|c b]; [done|]. rewrite esc_cons in E. by destruct (c =? DQ)%N. }
  destruct (format_cons t args) as (z & Ez & Hz & _). rewrite Ez in E, Hn.
  destruct (format_arg_cases t) as [[-> Ht]|[(Hne & Ht & Hf)|[Hne Ht]]]; rewrite Ht in *.
  - symmetry in E. apply esc_head in E as [(_ & _ & E)|[(b' & -> & ? & E)|(b' & -> & ? & E)]]; [|done..].
    destruct Hy as [->|(? & _ & ->)]; discriminate.
  - apply plain_arg_inside in E as [b' E]; [|done..].
    apply more_inside in E as (args' & b'' & -> & E); [|done].
    apply (IH args' b'' y); [|done..]. rewrite length_app in Hn. destruct t; [done|].
    simpl in Hn. lia.
  - symmetry in E. rewrite <- app_comm_cons, <- app_assoc in E.
    apply esc_head in E as [(_ & _ & E)|[(b' & -> & ? & E)|(b' & -> & ? & E)]]; [|done..].
    symmetry in E. apply (f_equal length) in E as El. simpl in E.
    apply more_inside in E as (args' & b'' & -> & E); [|done].
    apply (IH args' b'' z); [|done..].
    rewrite !length_app in Hn, El. simpl in Hn, El. rewrite length_app in Hn. simpl in Hn. lia.
Qed.

Lemma quoted_inj a b y z :
  more y → more z → esc a ++ DQ :: y = esc b ++ DQ :: z → a = b ∧ y = z.
Proof.
  assert (Hend : ∀ (b y z : pystr), more y → y = esc b ++ DQ :: z → more z → False).
  { intros b' y' z' Hy E Hz. apply more_inside in E as (args & b'' & _ & E); [|done].
    by eapply out_of_phase. }
  revert b. induction a as [|c a IH]; intros b Hy Hz E.
  - symmetry in E. cbn [esc replace_char map concat app] in E. simpl in E.
    apply esc_head in E as [(-> & _ & ->)|[(b' & -> & ? & E)|(b' & -> & ? & E)]]; done.
  - rewrite esc_cons in E. destruct (N.eqb_spec c DQ) as [->|Hc]; symmetry in E; simpl in E.
    + apply esc_head in E as [(-> & ? & _)|[(b' & -> & _ & E)|(b' & -> & _ & E)]]; [done| |].
      * injection E as E. destruct (IH b' Hy Hz E) as [-> ->]. done.
      * symmetry in E. exfalso. apply esc_head in E as [(-> & _ & E)|[(b2 & -> & ? & E)|(b2 & -> & ? & E)]]; [|done..].
        by apply (Hend a z y).
    + apply esc_head in E as [(-> & ? & _)|[(b' & -> & -> & E)|(b' & -> & _ & E)]]; [done| |].
      * exfalso. apply esc_head in E as [(-> & _ & E)|[(b2 & -> & ? & E)|(b2 & -> & ? & E)]]; [|done..].
        by apply (Hend b' y z).
      * destruct (IH b' Hy Hz E) as [-> ->]. done.
Qed.

Lemma plain_arg_inj a b y z :
  Forall (λ c, c ≠ DQ ∧ c ≠ 32%N) a → Forall (λ c, c ≠ DQ ∧ c ≠ 32%N) b →
  more y → more z → a ++ y = b ++ z → a = b ∧ y = z.
Proof.
  assert (Hend : ∀ (b z y : pystr) c, c ≠ 32%N → more y → y = c :: b ++ z → False).
  { intros b' z' y' c Hc [->|(? & _ & ->)] E; [done|]. injection E as ? _. congruence. }
  intros Ha. revert b. induction Ha as [|c a [Hc1 Hc2] Ha IH]; intros [|d b] Hb Hy Hz E; [done|..].
  - exfalso. apply Forall_cons in Hb as [[? ?] _]. by eapply (Hend b z y d).
  - exfalso. symmetry in E. by eapply (Hend a y z c).
  - apply Forall_cons in Hb as [_ Hb]. injection E as -> E.
    destruct (IH b Hb Hy Hz E) as [-> ->]. done.
Qed.

Lemma more_format args1 args2 y z :
  (args1 = [] ∧ y = [] ∨ args1 ≠ [] ∧ y = 32%N :: _format_exec_command args1) →
  (args2 = [] ∧ z = [] ∨ args2 ≠ [] ∧ z = 32%N :: _format_exec_command args2) →
  y = z → (args1 = [] ∧ args2 = []) ∨ _format_exec_command args1 = _format_exec_command args2.
Proof. intros [[-> ->]|[? ->]] [[-> ->]|[? ->]]; intros [=]; auto. Qed.

Lemma format_inj args1 args2 :
  _format_exec_command args1 = _format_exec_command args2 → args1 = args2.
Proof.
  revert args2. induction args1 as [|a args1 IH]; intros [|b args2] E; [done|..].
  - destruct (format_cons b args2) as (y & Ey & _). rewrite Ey in E.
    destruct (format_arg_cases b) as [[-> Ht]|[(Hne & Ht & _)|[Hne Ht]]]; rewrite Ht in E;
      [done| |done]. by destruct b.
  - destruct (format_cons a args1) as (y & Ey & _). rewrite Ey in E.
    destruct (format_arg_cases a) as [[-> Ht]|[(Hne & Ht & _)|[Hne Ht]]]; rewrite Ht in E;
      [done| |done]. by destruct a.
  - destruct (format_cons a args1) as (y & Ey & Hy & Hy').
    destruct (format_cons b args2) as (z & Ez & Hz & Hz').
    assert (Hab : a = b ∧ y = z).
    { rewrite Ey, Ez in E. clear IH Ey Ez Hy' Hz'.
      destruct (format_arg_cases a) as [[-> Ha]|[(Hna & Ha & Hfa)|[Hna Ha]]],
        (format_arg_cases b) as [[-> Hb]|[(Hnb & Hb & Hfb)|[Hnb Hb]]]; rewrite ?Ha, ?Hb in E.
      - by injection E.
      - destruct b; [done|]. injection E as <- _. by apply Forall_cons in Hfb as [[? _] _].
      - injection E as E. rewrite <- app_assoc in E. symmetry in E.
        apply esc_head in E as [(-> & _)|[(? & _ & ? & _)|(? & _ & ? & _)]]; done.
      - destruct a; [done|]. injection E as -> _. by apply Forall_cons in Hfa as [[? _] _].
      - by apply plain_arg_inj.
      - destruct a; [done|]. injection E as -> _. by apply Forall_cons in Hfa as [[? _] _].
      - injection E as E. rewrite <- app_assoc in E.
        apply esc_head in E as [(-> & _)|[(? & _ & ? & _)|(? & _ & ? & _)]]; done.
      - destruct b; [done|]. injection E as <- _. by apply Forall_cons in Hfb as [[? _] _].
      - injection E as E. rewrite <- !app_assoc in E. by apply quoted_inj in E. }
    destruct Hab as [-> Hyz]. f_equal.
    destruct (more_format _ _ _ _ Hy' Hz' Hyz) as [[-> ->]|E']; [done|by apply IH].
Qed.

(** ** Validation, as facts *)

Lemma first_error_None l : first_error l = None ↔ Forall (λ o, o = None) l.
Proof.
  induction l as [|[e|] l IH]; simpl; [by split| |].
  - split; [done|]. intros H. by apply Forall_cons in H as [[=] _].
  - rewrite IH, Forall_cons. naive_solver.
Qed.
Lemma expect_None b e : expect b e = None ↔ b = true.
Proof. by destruct b. Qed.

Lemma unknown_fields_nil d allowed : unknown_fields d allowed = [] ↔ ∀ k, k ∈ dkeys d → k ∈ allowed.
Proof.
  unfold unknown_fields, sorted_strs.
  assert (Hp : ∀ l : list pystr, merge_sort str_le l = [] ↔ l = []).
  { intros l. pose proof (merge_sort_Permutation str_le l) as P. split; intros E.
    - rewrite E in P. by apply Permutation_nil in P.
    - by rewrite E. }
  rewrite Hp. induction (dkeys d) as [|k ks IH]; simpl; [split; [by intros _ ? ?%elem_of_nil|done]|].
  case_bool_decide; simpl.
  - rewrite IH. setoid_rewrite elem_of_cons. naive_solver.
  - split; [done|]. intros Hk. destruct H. apply Hk. by left.
Qed.

Section valid_facts.
Context `{Unicode}.

Lemma default_document_valid : _validate_document (JDict _default_document) = None.
Proof. vm_compute. reflexivity. Qed.

Lemma read_snapshot_valid file : _validate_document (JDict (_read_snapshot file).1) = None.
Proof.
  unfold _read_snapshot. pose proof default_document_valid as Hd. destruct file as [raw|]; [|exact Hd].
  destruct (decode raw) as [text|]; [|exact Hd].
  destruct (loads text) as [[| | | | | |d]|]; try exact Hd.
  destruct (_validate_document (JDict d)) eqn:E; [exact Hd|exact E].
Qed.

(** A valid document, by parts. *)
Lemma validate_document_None d :
  _validate_document (JDict d) = None ↔
  (∀ k, k ∈ dkeys d → k ∈ ["version"; "socket"; "defaults"; "agents"]%py) ∧
  is_bool (get_or_null "version" d) = false ∧
  py_eq_int (get_or_null "version" d) APPROVALS_DOC_VERSION = true ∧
  (∀ v, dget "socket" d = Some v → ∃ s, v = JDict s ∧
     (∀ k, k ∈ dkeys s → k ∈ ["path"; "token"]%py) ∧ ∀ kv, kv ∈ s → is_str kv.2 = true) ∧
  (∀ v, dget "defaults" d = Some v → ∃ p, v = JDict p ∧ _validate_policy "file.defaults" p false = None) ∧
  (∀ v, dget "agents" d = Some v → ∃ a, v = JDict a ∧ ∀ kv, kv ∈ a → ∃ p, kv.2 = JDict p ∧
     _validate_policy ("file.agents." ++ kv.1) p true = None).
Proof.
  unfold _validate_document. rewrite first_error_None, !Forall_cons, Forall_nil, !expect_None,
    andb_true_iff, negb_true_iff, bool_decide_eq_true, unknown_fields_nil.
  assert (Hs : ∀ A B C D E F A' B' C' D' E' F' : Prop,
    (A ↔ A') → (B ↔ B') → (C ↔ C') → (D ↔ D') → (E ↔ E') → (F ↔ F') →
    (A ∧ (B ∧ C) ∧ D ∧ E ∧ F ∧ True ↔ A' ∧ B' ∧ C' ∧ D' ∧ E' ∧ F')) by tauto.
  apply Hs; clear Hs; [done..| | |].
  - destruct (dget "socket" d) as [[| | | | | |s]|]; try naive_solver.
    case_bool_decide as E.
    + rewrite expect_None, forallb_true_forall. rewrite unknown_fields_nil in E. naive_solver.
    + rewrite unknown_fields_nil in E. naive_solver.
  - destruct (dget "defaults" d) as [[]|]; naive_solver.
  - destruct (dget "agents" d) as [[| | | | | |a]|]; try naive_solver.
    rewrite first_error_None, Forall_fmap, Forall_forall. split.
    + intros Ha v [= <-]. exists a. split; [done|]. intros [k v] Hin. specialize (Ha _ Hin).
      simpl in *. destruct v; naive_solver.
    + intros Ha [k v] Hin. destruct (Ha _ eq_refl) as (a' & [= <-] & Ha').
      destruct (Ha' _ Hin) as (p & Hp & Hv). simpl in *. by rewrite Hp.
Qed.

Lemma check_choice_legal scope name p choices v :
  check_choice scope name p choices = None → dget name p = Some v →
  ∃ s, v = JStr s ∧ s ∈ choices.
Proof.
  unfold check_choice. intros Hc Hv. rewrite Hv in Hc. apply expect_None in Hc.
  destruct v; try done. simpl in Hc. apply bool_decide_eq_true in Hc. eauto.
Qed.

(** The four settings of a valid policy block. *)
Definition legal (name : pystr) (v : json) : Prop :=
  (name = "security"%py ∨ name = "askFallback"%py → ∃ s, v = JStr s ∧ s ∈ _VALID_SECURITY) ∧
  (name = "ask"%py → ∃ s, v = JStr s ∧ s ∈ _VALID_ASK) ∧
  (name = "autoAllowSkills"%py → is_bool v = true).
Lemma validate_policy_legal scope p b name v :
  _validate_policy scope p b = None → dget name p = Some v → legal name v.
Proof.
  unfold _validate_policy. rewrite first_error_None, !Forall_cons.
  intros (_ & Hs & Ha & Hf & Hb & _) Hv. split_and!.
  - intros [-> | ->]; eauto using check_choice_legal.
  - intros ->. eauto using check_choice_legal.
  - intros ->. rewrite Hv in Hb. by apply expect_None in Hb.
Qed.
End valid_facts.

(** ** The rules shown *)

Lemma add_rules_NoDup entries rules : NoDup rules → NoDup (add_rules entries rules).
Proof.
  revert rules. induction entries as [|e entries IH]; intros rules Hr; simpl; [done|].
  apply IH. destruct (rule_of e) as [r|]; [|done]. case_bool_decide; [done|].
  apply NoDup_app. split; [done|]. split; [set_solver|apply NoDup_singleton].
Qed.
Lemma elem_of_add_rules r entries rules :
  r ∈ add_rules entries rules ↔ r ∈ rules ∨ ∃ e, e ∈ entries ∧ rule_of e = Some r.
Proof.
  revert rules. induction entries as [|e entries IH]; intros rules; simpl.
  - split; [by left|]. intros [?|(? & ?%elem_of_nil & _)]; done.
  - rewrite IH. setoid_rewrite elem_of_cons. destruct (rule_of e) as [r'|] eqn:E.
    + case_bool_decide; rewrite ?elem_of_app, ?list_elem_of_singleton; naive_solver.
    + naive_solver.
Qed.

Lemma key_leb_total a b : key_leb a b = false → key_leb b a = true.
Proof.
  revert b. induction a as [|x a IH]; intros [|y b]; simpl; try done.
  case_bool_decide as E; [subst; rewrite bool_decide_eq_true_2 by done; apply IH|].
  rewrite bool_decide_eq_false_2 by done. intros Hf.
  destruct (total str_le x y) as [Hl|Hl]; unfold str_le in Hl; congruence.
Qed.

(** Adjacent keys are in order. *)
Definition keys_sorted (l : list (list (list N) * rule)) : Prop :=
  ∀ i k k' r r', l !! i = Some (k, r) → l !! S i = Some (k', r') → key_leb k k' = true.

Lemma insert_rule_perm k r l : insert_rule k r l ≡ₚ (k, r) :: l.
Proof.
  induction l as [|[k' r'] l IH]; simpl; [done|]. destruct (key_leb k k'); [done|].
  rewrite IH. apply perm_swap.
Qed.
Lemma insert_rule_sorted k r l : keys_sorted l → keys_sorted (insert_rule k r l).
Proof.
  induction l as [|[k' r'] l IH]; intros Hl; simpl; [by intros [|i] ? ? ? ?|].
  destruct (key_leb k k') eqn:E.
  - intros [|i] a b ra rb; simpl; [by intros [= <- <-] [= <- <-]|apply Hl].
  - apply key_leb_total in E.
    assert (Hl' : keys_sorted l) by (intros i; apply (Hl (S i))).
    specialize (IH Hl'). intros [|i] a b ra rb; simpl; [|apply IH].
    intros [= <- <-]. destruct l as [|[k2 r2] l]; simpl; [by intros [= <- <-]|].
    destruct (key_leb k k2); intros [= <- <-]; [done|]. by apply (Hl 0 k' k2 r' r2).
Qed.
Lemma sort_rules_spec rules s :
  sort_rules rules = Ret s →
  map snd s ≡ₚ rules ∧ keys_sorted s ∧ Forall (λ kr, rule_key kr.2 = Ret kr.1) s.
Proof.
  revert s. induction rules as [|r rules IH]; simpl; intros s.
  - intros [= <-]. split; [done|]. split; [by intros [|i] ? ? ? ?|constructor].
  - intros (k & Hk & (s' & Hs & [= <-])%rbind_Ret)%rbind_Ret. apply IH in Hs as (Hp & Hs & Hf).
    split_and!.
    + by rewrite insert_rule_perm, <- Hp.
    + by apply insert_rule_sorted.
    + rewrite insert_rule_perm. by constructor.
Qed.
Lemma sort_rules_answers rules :
  (∀ r, r ∈ rules → ∃ k, rule_key r = Ret k) → ∃ s, sort_rules rules = Ret s.
Proof.
  induction rules as [|r rules IH]; intros Hk; simpl; [by eexists|].
  destruct (Hk r) as [k ->]; [by left|]. destruct IH as [s ->]; [|by eexists].
  intros r' ?. apply Hk. by right.
Qed.

(** The entries of a policy block. *)
Definition entries_of (agent : pystr) (document : dict) : list json :=
  as_list (get_or_null "allowlist" (agent_block agent document)).

(** ** Properties *)

(** The command text shown for approval determines the argument vector: two
    vectors that print alike are equal, whatever quotes, spaces and backslashes
    their arguments hold. *)
Theorem command_text_injective args1 args2 :
  _format_exec_command args1 = _format_exec_command args2 ↔ args1 = args2.
Proof. split; [apply format_inj|congruence]. Qed.

Lemma strings_of_Some l argv : strings_of l = Some argv → l = map JStr argv.
Proof.
  revert argv. induction l as [|[| | | |s| |] l IH]; simpl; intros argv H; try done.
  - by injection H as <-.
  - destruct (strings_of l) as [r|]; [|done]. injection H as <-. simpl. f_equal. by apply IH.
Qed.

Lemma validate_argv_inl v argv :
  _validate_argv v = inl argv →
  v = JList (map JStr argv) ∧ argv ≠ [] ∧ Forall (λ a, 0%N ∉ a) argv.
Proof.
  destruct v as [| | | | |l|]; simpl; try done. destruct (strings_of l) as [argv'|] eqn:E; [|done].
  apply strings_of_Some in E as ->. destruct argv' as [|a0 argv']; [done|].
  destruct a0 as [|c a0]; [done|].
  destruct (_MAX_ARGV <? _)%nat; [done|].
  destruct (existsb (λ a, (_MAX_ARG_LEN <? length a)%nat) _); [done|].
  destruct (existsb (existsb (N.eqb 0)) _) eqn:En; [done|]. intros [= <-].
  split; [done|]. split; [done|]. apply Forall_forall. intros a Ha Hin.
  rewrite existsb_false_forall in En. specialize (En a Ha).
  rewrite existsb_false_forall in En. by specialize (En _ Hin).
Qed.

Lemma validate_cwd_inl `{Unicode} h cwd p :
  _validate_cwd h cwd = Ret (inl p) →
  ∃ roots q, host_roots h = Ret roots ∧ resolve_safe (host_links h) (host_cwd h) cwd roots = Ret q ∧
             host_is_dir h q = true ∧ p = path_str q.
Proof.
  unfold _validate_cwd. intros (roots & Hr & E)%rbind_Ret.
  destruct (resolve_safe _ _ _ _) as [q|e] eqn:Eq; [|by repeat case_bool_decide].
  destruct (host_is_dir h q) eqn:Ed; [|done]. injection E as <-. eauto 8.
Qed.

(** What a plan says of the request it was prepared for. *)
Definition plan_faithful (h : Host) (params plan : dict) : Prop :=
  ∃ argv, get_or_null "command" params = JList (map JStr argv) ∧ argv ≠ [] ∧
    Forall (λ a, 0%N ∉ a) argv ∧
    dget "argv" plan = Some (JList (map JStr argv)) ∧
    dget "commandText" plan = Some (JStr (_format_exec_command argv)) ∧
    (∀ raw, get_or_null "rawCommand" params = JStr raw → strip raw ≠ [] →
       strip raw = _format_exec_command argv ∨ Some (strip raw) = _inline_shell_payload argv) ∧
    (∀ c, get_or_null "cwd" params = JStr c → ∃ roots q, host_roots h = Ret roots ∧
       resolve_safe (host_links h) (host_cwd h) c roots = Ret q ∧ host_is_dir h q = true ∧
       dget "cwd" plan = Some (JStr (path_str q))).

(** The plan of an answer; a refusal has none. *)
Definition plan_of (r : json) : option dict :=
  match r with
  | JDict d => match dget "plan" d with Some (JDict p) => Some p | _ => None end
  | _ => None
  end.
Lemma validate_argv_refusal v e : _validate_argv v = inr e → plan_of e = None.
Proof. unfold _validate_argv. intros H. repeat (dm_in H; simplify_eq/=; try done). Qed.
Lemma resolve_text_refusal argv v e : _resolve_command_text argv v = inr e → plan_of e = None.
Proof. unfold _resolve_command_text. intros H. repeat (dm_in H; simplify_eq/=; try done). Qed.
Lemma validate_env_refusal v e : _validate_env v = Some e → plan_of e = None.
Proof. unfold _validate_env. intros H. repeat (dm_in H; simplify_eq/=; try done). Qed.
Lemma optional_name_refusal n params e : optional_name n params = inr e → plan_of e = None.
Proof. unfold optional_name. intros H. repeat (dm_in H; simplify_eq/=; try done). Qed.
Lemma validate_cwd_refusal `{Unicode} h c e : _validate_cwd h c = Ret (inr e) → plan_of e = None.
Proof.
  unfold _validate_cwd. intros (roots & _ & E)%rbind_Ret. repeat (dm_in E; simplify_eq/=; try done).
Qed.

Lemma resolve_text_inl argv raw t p :
  _resolve_command_text argv raw = inl (t, p) →
  t = _format_exec_command argv ∧
  ∀ s, raw = JStr s → strip s ≠ [] →
    strip s = _format_exec_command argv ∨ Some (strip s) = _inline_shell_payload argv.
Proof.
  unfold _resolve_command_text. destruct raw as [| | | |s| |]; try done.
  - intros [= <- <-]. by split.
  - case_bool_decide; [by intros [= <- <-]; split; [|intros ? [= ->]]|].
    destruct (negb _ && negb _) eqn:E; [done|]. intros [= <- _]. split; [done|].
    intros ? [= <-] _. apply andb_false_iff in E. rewrite !negb_false_iff, !bool_decide_eq_true in E. done.
Qed.

(** A plan binds what was asked: its argument vector is the requested one, its
    command text is the rendering of that vector and never the caller's words, a
    [rawCommand] was accepted only when it says the same, and a working
    directory is a directory under an allowed root. *)
Theorem run_prepare_faithful `{Unicode} h file params r plan :
  handle_system_run_prepare h file params = Ret r → plan_of r = Some plan →
  plan_faithful h params plan.
Proof.
  unfold handle_system_run_prepare.
  destruct (_validate_argv _) as [argv|e] eqn:Ea;
    [|intros [= <-]; rewrite (validate_argv_refusal _ _ Ea); done].
  destruct (_resolve_command_text _ _) as [[t p]|e] eqn:Et;
    [|intros [= <-]; rewrite (resolve_text_refusal _ _ _ Et); done].
  destruct (_validate_env _) as [e|] eqn:Ee;
    [intros [= <-]; rewrite (validate_env_refusal _ _ Ee); done|].
  intros (cwd & Hc & E)%rbind_Ret Hplan.
  apply validate_argv_inl in Ea as (Hcmd & Hne & Hnul). apply resolve_text_inl in Et as [-> Hraw].
  destruct cwd as [cwd|e].
  2: { injection E as <-. destruct (optional_name "cwd" params) as [[c|]|e'] eqn:Eo; simplify_eq/=.
       - apply rbind_Ret in Hc as ([q|e''] & Hq & [= <-]). by rewrite (validate_cwd_refusal _ _ _ Hq) in Hplan.
       - by rewrite (optional_name_refusal _ _ _ Eo) in Hplan. }
  destruct (optional_name "agentId" params) as [agent|e] eqn:Eg;
    [|injection E as <-; by rewrite (optional_name_refusal _ _ _ Eg) in Hplan].
  destruct (optional_name "sessionKey" params) as [sess|e] eqn:Es;
    [|injection E as <-; by rewrite (optional_name_refusal _ _ _ Es) in Hplan].
  apply rbind_Ret in E as (policy & _ & [= <-]). injection Hplan as <-.
  exists argv. split_and!; try done. intros c Hcwd.
  unfold optional_name in Hc. rewrite Hcwd in Hc. case_bool_decide; [done|].
  apply rbind_Ret in Hc as ([q|?] & Hq & [= <-]).
  apply validate_cwd_inl in Hq as (roots & w & ? & ? & ? & ->). by exists roots, w.
Qed.

#[local] Instance every_printable : Unicode := {| uni_printable := λ _, true; uni_decimal := λ _, None |}.
Definition demo_host : Host := {|
  host_roots := Ret [path_of "/config"]; host_cwd := []; host_links := demo_links;
  host_is_dir := λ _, true |}.
Definition demo_request : dict :=
  [("command", JList [JStr "/bin/sh"; JStr "-c"; JStr " echo hi "]); ("rawCommand", JStr "echo hi");
   ("cwd", JStr "/config/in"); ("agentId", JStr "main")].

Example run_prepare_faithful_witness :
  ∃ plan, (∃ r, handle_system_run_prepare demo_host None demo_request = Ret r ∧ plan_of r = Some plan) ∧
          plan_faithful demo_host demo_request plan.
Proof.
  destruct (handle_system_run_prepare demo_host None demo_request) as [r|e] eqn:E; [|by vm_compute in E].
  destruct (plan_of r) as [plan|] eqn:Ep.
  - exists plan. split; [exists r; split; [reflexivity|exact Ep]|].
    exact (run_prepare_faithful demo_host None demo_request r plan E Ep).
  - exfalso. revert E Ep. vm_compute. intros [= <-]. discriminate.
Defined.

Lemma elem_policy_fields name :
  name ∈ _POLICY_FIELDS ↔ name = "security"%py ∨ name = "ask"%py ∨ name = "askFallback"%py ∨
                          name = "autoAllowSkills"%py.
Proof. unfold _POLICY_FIELDS. rewrite !elem_of_cons, elem_of_nil. tauto. Qed.
Lemma default_policy_legal name :
  name ∈ _POLICY_FIELDS → legal name (get_or_null name _DEFAULT_POLICY).
Proof.
  rewrite elem_policy_fields.
  intros [->|[->|[->| ->]]]; (split; [|split]); intros Hn; try destruct Hn as [Hn|Hn];
    try discriminate Hn; try reflexivity.
  - exists "deny"%py. split; [reflexivity|]. right. by left.
  - exists "on-miss"%py. split; [reflexivity|]. right. right. by left.
  - exists "deny"%py. split; [reflexivity|]. right. by left.
Qed.

Lemma exact_entries agent d e :
  e ∈ as_list (get_or_null "allowlist" (exact_block agent d)) ↔
  ∃ a, agent = Some a ∧ a ≠ [] ∧ e ∈ entries_of a d.
Proof.
  unfold exact_block, entries_of. destruct agent as [[|c a]|].
  - split; [by intros ?%elem_of_nil|]. intros (? & [= <-] & ? & _). done.
  - split; [intros He; by exists (c :: a)|]. by intros (? & [= <-] & _ & He).
  - split; [by intros ?%elem_of_nil|]. by intros (? & [=] & _).
Qed.

(** What is shown for approval is always a closed policy: whatever the file
    holds, security, ask and fallback are legal values, and the rules are
    exactly the distinct allowlist rules of the wildcard and of the agent, in
    byte order.  Without a readable, valid file every request is denied. *)
Theorem approval_policy_closed `{Unicode} file agent policy :
  _resolve_policy (_read_snapshot file).1 agent = Ret policy →
  (∀ name, name ∈ _POLICY_FIELDS → ∃ v, dget name policy = Some v ∧ legal name v) ∧
  (∃ sorted, dget "allowlistRules" policy = Some (JList (map (λ kr, rule_json kr.2) sorted)) ∧
     keys_sorted sorted ∧ NoDup (map snd sorted) ∧
     Forall (λ kr, rule_key kr.2 = Ret kr.1) sorted ∧
     ∀ r, r ∈ map snd sorted ↔
       ∃ e, (e ∈ entries_of "*" (_read_snapshot file).1 ∨
             ∃ a, agent = Some a ∧ a ≠ [] ∧ e ∈ entries_of a (_read_snapshot file).1) ∧
            rule_of e = Some r) ∧
  ((_read_snapshot file).1 = _default_document →
   dget "security" policy = Some (JStr "deny") ∧ dget "allowlistRules" policy = Some (JList [])).
Proof.
  intros Hr. set (d := (_read_snapshot file).1) in *.
  assert (Hv : _validate_document (JDict d) = None) by apply read_snapshot_valid.
  apply validate_document_None in Hv as (_ & _ & _ & _ & Hd & Ha).
  unfold _resolve_policy in Hr. apply rbind_Ret in Hr as (sorted & Hs & [= <-]).
  assert (Hagent : ∀ a name v,
    dget name (agent_block a d) = Some v → legal name v).
  { intros a name v Hn. unfold agent_block, get_or_null in Hn. destruct (dget "agents" d) as [ag|]; [|done].
    destruct (Ha _ eq_refl) as (aa & -> & Haa). simpl in Hn.
    destruct (dget a aa) as [p|] eqn:Ep; [|done]. apply dget_elem in Ep.
    destruct (Haa _ Ep) as (p' & Hp & Hval). simpl in Hp. subst p. simpl in Hn.
    by eapply validate_policy_legal. }
  assert (Hfield : ∀ name, name ∈ _POLICY_FIELDS → legal name (policy_field agent d name)).
  { intros name Hname. unfold policy_field.
    destruct (dget name (exact_block agent d)) as [v|] eqn:E1.
    { unfold exact_block in E1. destruct agent as [[|c a]|]; try done. by eapply Hagent. }
    destruct (dget name (agent_block "*" d)) as [v|] eqn:E2; [by eapply Hagent|].
    destruct (dget name (as_dict (get_or_null "defaults" d))) as [v|] eqn:E3.
    { unfold get_or_null in E3. destruct (dget "defaults" d) as [p|]; [|done].
      destruct (Hd _ eq_refl) as (p' & -> & Hval). by eapply validate_policy_legal. }
    by apply default_policy_legal. }
  split; [|split].
  - intros name Hname. exists (policy_field agent d name). split; [|by apply Hfield].
    apply elem_policy_fields in Hname as [->|[->|[->| ->]]]; reflexivity.
  - apply sort_rules_spec in Hs as (Hp & Hso & Hf). exists sorted. split; [reflexivity|].
    split; [done|]. split; [|split; [done|]].
    + rewrite Hp. apply add_rules_NoDup, add_rules_NoDup, NoDup_nil_2.
    + intros r. rewrite Hp, !elem_of_add_rules, elem_of_nil. split.
      * intros [[[]|(e & He & Hr)]|(e & He & Hr)]; exists e; (split; [|done]); [by left|right].
        by apply exact_entries.
      * intros (e & [He|He] & Hr); [left; right|right]; exists e; (split; [|done]); [done|].
        by apply exact_entries.
  - intros Hdef. rewrite Hdef in *. destruct agent as [[|c a]|]; vm_compute in Hs; injection Hs as <-; done.
Qed.

Definition demo_document : dict :=
  [("version", JInt 1);
   ("socket", JDict [("path", JStr " /run/exec.sock "); ("token", JStr "s3cret")]);
   ("defaults", JDict [("security", JStr "allowlist")]);
   ("agents", JDict
      [("*", JDict [("ask", JStr "always");
                    ("allowlist", JList [JDict [("pattern", JStr "/usr/bin/git")];
                                         JDict [("pattern", JStr "/bin/ls");
                                                ("source", JStr "allow-always")]])]);
       ("main", JDict [("security", JStr "full");
                       ("allowlist", JList [JDict [("pattern", JStr "/usr/bin/git")]])])])].
Definition demo_file : option (list N) := _serialize_document demo_document.

Example approval_policy_closed_witness :
  ∃ policy, (_resolve_policy (_read_snapshot demo_file).1 (Some "main"%py) = Ret policy ∧
    dget "security" policy = Some (JStr "full") ∧ dget "ask" policy = Some (JStr "always") ∧
    dget "allowlistRules" policy = Some (JList
      [JDict [("pattern", JStr "/bin/ls"); ("source", JStr "allow-always")];
       JDict [("pattern", JStr "/usr/bin/git")]])) ∧
    ∀ name, name ∈ _POLICY_FIELDS → ∃ v, dget name policy = Some v ∧ legal name v.
Proof.
  destruct (_resolve_policy (_read_snapshot demo_file).1 (Some "main"%py)) as [policy|e] eqn:E;
    [|exfalso; vm_compute in E; discriminate].
  exists policy. split.
  - split; [reflexivity|]. vm_compute in E. injection E as <-. split_and!; reflexivity.
  - apply (proj1 (approval_policy_closed demo_file (Some "main"%py) policy E)).
Defined.

(** Writing back through the redacted snapshot keeps the credential: a document
    whose [socket] is the one the snapshot showed keeps the stored path, spaces
    included, and the stored token.  A token that is given is written exactly,
    even when it is empty, a new path is taken as given, and no other field of
    the document changes. *)
Theorem redacted_round_trip stored edits :
  (get_or_null "socket" edits = get_or_null "socket" (_redact_document stored) →
   ∀ f, f = "path"%py ∨ f = "token"%py →
     str_field f (get_or_null "socket" (_merge_socket edits stored))
     = str_field f (get_or_null "socket" stored)) ∧
  (∀ t, str_field "token" (get_or_null "socket" edits) = Some t →
     str_field "token" (get_or_null "socket" (_merge_socket edits stored)) = Some t) ∧
  (∀ p, str_field "path" (get_or_null "socket" edits) = Some p →
     option_map strip (str_field "path" (get_or_null "socket" stored)) ≠ Some p →
     str_field "path" (get_or_null "socket" (_merge_socket edits stored)) = Some p) ∧
  (∀ k, k ≠ "socket"%py → dget k (_merge_socket edits stored) = dget k edits).
Proof.
  assert (Hm : ∀ f, f = "path"%py ∨ f = "token"%py →
    str_field f (get_or_null "socket" (_merge_socket edits stored)) =
    if decide (f = "path"%py) then pick_path (get_or_null "socket" edits) (get_or_null "socket" stored)
    else pick_token (get_or_null "socket" edits) (get_or_null "socket" stored)).
  { intros f Hf. unfold _merge_socket.
    destruct (pick_path _ _) as [p|], (pick_token _ _) as [t|]; simpl; unfold get_or_null at 1;
      rewrite ?dget_dset_eq, ?dget_ddel_eq; destruct Hf as [-> | ->]; reflexivity. }
  assert (Hr : ∀ s f, str_field f (get_or_null "socket" (_redact_document s)) =
    if decide (f = "path"%py) then
      match str_field "path" (get_or_null "socket" s) with
      | Some p => if bool_decide (strip p = []) then None else Some (strip p)
      | None => None
      end
    else None).
  { intros s f. unfold _redact_document. destruct (str_field "path" _) as [p|] eqn:Ep.
    - destruct (bool_decide (strip p = [])); unfold get_or_null; rewrite ?dget_ddel_eq, ?dget_dset_eq;
        simpl; by case_decide.
    - unfold get_or_null. rewrite dget_ddel_eq. simpl. by case_decide. }
  split_and!.
  - intros Hs f Hf. rewrite (Hm f Hf), Hs. unfold pick_path, pick_token. rewrite !Hr.
    destruct Hf as [-> | ->]; [|done]. rewrite !decide_True by done.
    destruct (str_field "path" (get_or_null "socket" stored)) as [p|]; [|done].
    case_bool_decide; [done|]. unfold _redact_socket_value. by rewrite bool_decide_eq_true_2.
  - intros t Ht. rewrite Hm by auto. rewrite decide_False by done. unfold pick_token. by rewrite Ht.
  - intros p Hp Hne. rewrite Hm by auto. rewrite decide_True by done. unfold pick_path. rewrite Hp.
    destruct (str_field "path" (get_or_null "socket" stored)) as [p'|]; [|done].
    unfold _redact_socket_value. case_bool_decide; [|done]. subst. by destruct Hne.
  - intros k Hk. unfold _merge_socket. destruct (_ ++ _); [by rewrite dget_ddel_ne|by rewrite dget_dset_ne].
Qed.

(** The socket token is never disclosed: two documents that differ in nothing
    else are shown alike. *)
Theorem redaction_hides_token document socket t1 t2 :
  _redact_document (dset "socket" (JDict (dset "token" (JStr t1) socket)) document) =
  _redact_document (dset "socket" (JDict (dset "token" (JStr t2) socket)) document).
Proof.
  unfold _redact_document, get_or_null. rewrite !dget_dset_eq. simpl.
  rewrite !dget_dset_ne by done.
  destruct (dget "path" socket) as [[]|]; rewrite ?ddel_dset; try done.
  case_bool_decide; [done|]. by rewrite !dset_dset.
Qed.

Example redacted_round_trip_witness :
  let shown := _redact_document demo_document in
  let edited := dset "defaults" (JDict [("security", JStr "deny")]) shown in
  dget "socket" shown = Some (JDict [("path", JStr "/run/exec.sock")]) ∧
  get_or_null "socket" (_merge_socket edited demo_document) =
    JDict [("path", JStr " /run/exec.sock "); ("token", JStr "s3cret")] ∧
  str_field "token" (get_or_null "socket" (_merge_socket edited demo_document)) = Some "s3cret"%py.
Proof.
  intros shown edited. split; [reflexivity|]. split; [reflexivity|].
  apply (proj1 (redacted_round_trip demo_document edited)); [reflexivity|by right].
Defined.

(** ** Replacing the document *)

Definition is_error (e : json) : Prop := ∃ code msg, e = error_dict code msg.
Definition complains (o : option json) : Prop := ∀ e, o = Some e → is_error e.
Lemma complains_None : complains None.
Proof. done. Qed.
Lemma complains_Some c m : complains (Some (error_dict c m)).
Proof. intros e [= <-]. by exists c, m. Qed.
Lemma complains_expect b c m : complains (expect b (error_dict c m)).
Proof. destruct b; [apply complains_None|apply complains_Some]. Qed.
Lemma complains_first l : Forall complains l → complains (first_error l).
Proof.
  induction 1 as [|o l Ho Hl IH]; [apply complains_None|]. destruct o; simpl; [|done].
  intros e' [= <-]. by apply Ho.
Qed.
#[local] Hint Resolve complains_None complains_Some complains_expect complains_first : py.
#[local] Hint Constructors Forall : py.
Ltac complain := repeat case_match; simplify_eq; eauto 12 with py.

Section refusals.
Context `{Unicode}.
Lemma complains_no_unknown scope d allowed : complains (no_unknown scope d allowed).
Proof. unfold no_unknown. complain. Qed.
Lemma complains_timestamp scope d f r : complains (_validate_timestamp scope d f r).
Proof. unfold _validate_timestamp. complain. Qed.
Lemma complains_string scope d f : complains (_validate_optional_string scope d f).
Proof. unfold _validate_optional_string. complain. Qed.
Lemma complains_min_length scope v : complains (_validate_min_length_string scope v).
Proof. unfold _validate_min_length_string. complain. Qed.
Lemma complains_non_blank scope v : complains (_validate_non_blank_string scope v).
Proof. unfold _validate_non_blank_string. complain. Qed.
Lemma complains_choice scope n p l : complains (check_choice scope n p l).
Proof. unfold check_choice. complain. Qed.
#[local] Hint Resolve complains_no_unknown complains_timestamp complains_string complains_min_length
  complains_non_blank complains_choice : py.
Lemma complains_entry scope e : complains (_validate_allowlist_entry scope e).
Proof.
  destruct e; try apply complains_Some. apply complains_first. repeat constructor; complain.
Qed.
Lemma complains_tool scope e : complains (_validate_mcp_tool scope e).
Proof.
  destruct e; try apply complains_Some. apply complains_first. repeat constructor; complain.
Qed.
Lemma complains_entries scope n f p : (∀ s e, complains (f s e)) → complains (check_entries scope n f p).
Proof.
  intros Hf. unfold check_entries. destruct (dget n p) as [[| | | | |l|]|]; try apply complains_Some; [|done].
  apply complains_first, Forall_forall. intros o Ho. apply elem_of_lookup_imap in Ho as (i & y & -> & _).
  apply Hf.
Qed.
Lemma complains_policy scope p b : complains (_validate_policy scope p b).
Proof.
  apply complains_first. repeat constructor; complain;
    apply complains_entries; intros; [apply complains_entry|apply complains_tool].
Qed.
#[local] Hint Resolve complains_policy : py.
Lemma complains_document v : complains (_validate_document v).
Proof.
  destruct v as [| | | | | |d]; try apply complains_Some. apply complains_first. repeat constructor; complain.
  apply complains_first, Forall_fmap, Forall_forall. intros [k v] _. simpl. complain.
Qed.
End refusals.

(** The call failed or refused. *)
Definition refused (r : res json) : Prop :=
  match r with
  | Ret (JDict d) => dget "ok" d = Some (JBool false)
  | Ret _ => False
  | Raise _ => True
  end.
Lemma is_error_refused e : is_error e → refused (Ret e).
Proof. by intros (c & m & ->). Qed.

Definition base_hash_of (params : dict) : pystr :=
  match get_or_null "baseHash" params with JStr b => strip b | _ => [] end.

Lemma base_hash_error_refused raw h e : base_hash_error raw h = Some e → refused (Ret e).
Proof.
  intros E. apply is_error_refused. assert (complains (base_hash_error raw h)) as Hc; [|by apply Hc].
  unfold base_hash_error. complain.
Qed.
Lemma base_hash_error_Some raw h : base_hash_error (Some raw) h = None → h = Sha.sha256_hex raw.
Proof. unfold base_hash_error. repeat case_bool_decide; done. Qed.

Lemma read_snapshot_raw `{Unicode} file : (_read_snapshot file).2 = file.
Proof. unfold _read_snapshot. repeat (case_match; try done). Qed.

(** The document that was there and the one that is written. *)
Definition current_document `{Unicode} (fault : io_point → option pystr) (s : Store) : dict :=
  (_read_snapshot (read_file fault ReadCurrent (doc s))).1.

Definition committed `{Unicode} (path : pystr) (fault : io_point → option pystr) (params : dict)
    (s : Store) (r : res json) (bytes : list N) : Prop :=
  ∃ document,
    get_or_null "file" params = JDict document ∧
    _validate_document (JDict document) = None ∧
    (∀ raw, read_file fault ReadCurrent (doc s) = Some raw →
       base_hash_of params = Sha.sha256_hex raw) ∧
    _serialize_document (_merge_socket document (current_document fault s)) = Some bytes ∧
    r = Ret (_snapshot path (read_file fault ReadBack (Some bytes))).

Lemma set_outcome `{Unicode} path fault params s :
  let '(r, s') := handle_system_exec_approvals_set path fault params s in
  (fault Unlink = None → temps s' = temps s) ∧
  ((refused r ∧ doc s' = doc s) ∨
   ∃ bytes, committed path fault params s r bytes ∧ doc s' = Some bytes ∧ temps s' = temps s).
Proof.
  unfold handle_system_exec_approvals_set.
  assert (Hclean : ∀ s c, (fault Unlink = None → temps (clean_up fault s c) = temps s) ∧
                          doc (clean_up fault s c) = doc s).
  { intros s0 c. unfold clean_up. by destruct (fault Unlink). }
  assert (Herr : ∀ v e, _validate_document v = Some e → refused (Ret e)).
  { intros v e E. by apply is_error_refused, (complains_document v). }
  destruct (get_or_null "file" params) as [| | | | | |document] eqn:Ef;
    try (simpl; split; [done|left; split; done]).
  destruct (_validate_document (JDict document)) as [e|] eqn:Ev; [split; [done|left; eauto]|].
  destruct (fault MkParent), (fault WriteLock); try (split; [done|left; split; done]).
  unfold locked_replace. pose proof (read_snapshot_raw (read_file fault ReadCurrent (doc s))) as Hraw.
  pose proof (eq_refl (current_document fault s)) as Hcur. unfold current_document at 1 in Hcur.
  destruct (_read_snapshot _) as [current raw]. simpl in Hraw, Hcur. subst raw current.
  change (match get_or_null "baseHash" params with JStr b => strip b | _ => [] end) with (base_hash_of params).
  destruct (base_hash_error _ _) as [e|] eqn:Eb.
  { split; [done|left]. split; [|done]. by eapply base_hash_error_refused. }
  destruct (fault MkTemp); [split; [done|left; split; done]|].
  destruct (fault OpenTemp); [split; [apply Hclean|left; split; [done|apply Hclean]]|].
  destruct (_serialize_document _) as [bytes|] eqn:Es;
    [|split; [apply Hclean|left; split; [done|apply Hclean]]].
  destruct (fault WriteTemp); [split; [apply Hclean|left; split; [done|apply Hclean]]|].
  destruct (fault Replace); [split; [apply Hclean|left; split; [done|apply Hclean]]|].
  split; [done|]. right. exists bytes. split; [|done]. exists document. split_and!; try done.
  intros raw Hr. rewrite Hr in Eb. by apply base_hash_error_Some.
Qed.

(** C31. Replacing a policy that can be read is all or nothing, whichever other
    operating-system call fails: either the call is refused and the document is
    what it was, or it is the new document, merged with the credential that was
    stored, the caller named the hash of the content it replaced, and the answer
    is the snapshot of what is read back.  No temporary file stays behind unless
    removing it fails. *)
Theorem set_all_or_nothing `{Unicode} path fault params s :
  fault ReadCurrent = None →
  let '(r, s') := handle_system_exec_approvals_set path fault params s in
  (fault Unlink = None → temps s' = temps s) ∧
  ((refused r ∧ doc s' = doc s) ∨
   ∃ document bytes,
     get_or_null "file" params = JDict document ∧ _validate_document (JDict document) = None ∧
     (∀ raw, doc s = Some raw → base_hash_of params = Sha.sha256_hex raw) ∧
     _serialize_document (_merge_socket document (_read_snapshot (doc s)).1) = Some bytes ∧
     doc s' = Some bytes ∧ temps s' = temps s ∧
     r = Ret (_snapshot path (read_file fault ReadBack (Some bytes)))).
Proof.
  intros Hread. pose proof (set_outcome path fault params s) as Ho.
  destruct (handle_system_exec_approvals_set path fault params s) as [r s']. destruct Ho as [Ht Ho].
  split; [done|]. destruct Ho as [Ho|(bytes & (document & Hf & Hv & Hh & Hs & Hr) & Hd & Htemps)]; [by left|right].
  unfold current_document, read_file in Hh, Hs. rewrite Hread in Hh, Hs. exists document, bytes. by split_and!.
Qed.

Lemma merge_socket_valid `{Unicode} d current :
  _validate_document (JDict d) = None → _validate_document (JDict (_merge_socket d current)) = None.
Proof.
  rewrite !validate_document_None. intros (Hk & Hv1 & Hv2 & Hs & Hd & Ha).
  assert (Hget : ∀ k, k ≠ "socket"%py → dget k (_merge_socket d current) = dget k d).
  { intros k Hne. unfold _merge_socket. destruct (_ ++ _); [by rewrite dget_ddel_ne|by rewrite dget_dset_ne]. }
  split_and!.
  - intros k Hin. destruct (decide (k = "socket"%py)) as [->|Hne]; [right; by left|].
    apply Hk, elem_dkeys. apply elem_dkeys in Hin. by rewrite <- Hget.
  - unfold get_or_null. by rewrite Hget.
  - unfold get_or_null. by rewrite Hget.
  - intros v. unfold _merge_socket.
    destruct (pick_path _ _) as [p|], (pick_token _ _) as [t|]; cbn [opt_field app];
      rewrite ?dget_dset_eq, ?dget_ddel_eq; try done; intros [= <-]; eexists;
      (split; [reflexivity|]); (split; [intros k; simpl|intros kv]);
      rewrite !elem_of_cons, elem_of_nil; naive_solver.
  - by rewrite Hget.
  - by rewrite Hget.
Qed.

Lemma ddel_plain k d : plain (JDict d) → plain (JDict (ddel k d)).
Proof.
  rewrite !plain_dict. intros [Hn Hp]. unfold ddel. split.
  - clear Hp. induction d as [|[k' v] d IH]; simpl; [constructor|].
    apply NoDup_cons in Hn as [Hk Hn]. destruct (negb _); [|by apply IH].
    apply NoDup_cons. split; [|by apply IH]. intros Hin. apply Hk. unfold dkeys in *.
    apply list_elem_of_fmap in Hin as (y & Hy & Hin). apply list_elem_of_fmap. exists y.
    split; [done|]. apply list_elem_of_In in Hin. apply filter_In in Hin. apply list_elem_of_In. tauto.
  - apply Forall_forall. intros x Hx. rewrite Forall_forall in Hp. apply Hp.
    apply list_elem_of_In in Hx. apply filter_In in Hx. apply list_elem_of_In. tauto.
Qed.
Lemma dset_plain k v d : plain (JDict d) → plain v → plain (JDict (dset k v d)).
Proof.
  rewrite !plain_dict. intros [Hn Hp] Hv. split; [by apply dset_NoDup|].
  apply Forall_forall. intros x Hx. rewrite Forall_forall in Hp.
  apply elem_of_dset in Hx as [->|Hx]; [done|by apply Hp].
Qed.
Lemma merge_socket_plain d current : plain (JDict d) → plain (JDict (_merge_socket d current)).
Proof.
  intros Hp. unfold _merge_socket.
  destruct (pick_path _ _) as [p|], (pick_token _ _) as [t|]; cbn [opt_field app];
    try (by apply ddel_plain); apply dset_plain; try done; apply plain_dict;
    (split; [|repeat constructor]); simpl; apply NoDup_cons; (split; [|try apply NoDup_singleton; try constructor]);
    rewrite ?elem_of_cons, ?elem_of_nil; naive_solver.
Qed.

Lemma read_written `{Unicode} d bytes :
  plain (JDict d) → Forall valid_char (dumps_indent 0 (JDict d)) →
  _validate_document (JDict d) = None → _serialize_document d = Some bytes →
  _read_snapshot (Some bytes) = (d, Some bytes).
Proof.
  intros Hp Hc Hv Hs. unfold _read_snapshot. unfold _serialize_document in Hs.
  rewrite (decode_encode (dumps_indent 0 (JDict d) ++ [NL]) bytes);
    [|apply Forall_app_2; [exact Hc|by repeat constructor]|exact Hs].
  rewrite loads_dumps by done. by rewrite Hv.
Qed.

(** What a successful replacement wrote is what the next read finds: the stored
    document, merged with the credential that was there, is read back value for
    value (for documents without floats), so it is also what
    [system.execApprovals.get] shows and what the call itself answered. *)
Theorem set_then_get `{Unicode} path fault params s r s' document :
  handle_system_exec_approvals_set path fault params s = (r, s') → ¬ refused r →
  get_or_null "file" params = JDict document → plain (JDict document) →
  Forall valid_char (dumps_indent 0 (JDict (_merge_socket document (current_document fault s)))) →
  _read_snapshot (doc s') = (_merge_socket document (current_document fault s), doc s') ∧
  (fault ReadBack = None → r = Ret (handle_system_exec_approvals_get path (doc s'))).
Proof.
  intros E Hr Hf Hp Hc. pose proof (set_outcome path fault params s) as Ho. rewrite E in Ho.
  destruct Ho as [_ [[? _]|(bytes & (d & Hf' & Hv & _ & Hs & Hret) & Hdoc & _)]]; [done|].
  rewrite Hf in Hf'. injection Hf' as <-. rewrite Hdoc. split.
  - apply read_written; [by apply merge_socket_plain|done|by apply merge_socket_valid|done].
  - intros Hb. rewrite Hret. unfold read_file. by rewrite Hb.
Qed.

Definition no_fault : io_point → option pystr := λ _, None.
Definition demo_store : Store := {| doc := demo_file; temps := [] |}.
Definition demo_edit : dict :=
  [("version", JInt 1); ("defaults", JDict [("security", JStr "deny")])].
Definition demo_set : dict :=
  [("file", JDict demo_edit);
   ("baseHash", JStr (Sha.sha256_hex (default [] demo_file)))].

Definition accepted (r : res json) : bool :=
  match r with
  | Ret (JDict d) => match dget "ok" d with None => true | Some _ => false end
  | _ => false
  end.
Lemma accepted_not_refused r : accepted r = true → ¬ refused r.
Proof. destruct r as [[| | | | | |d]|]; simpl; try congruence. by destruct (dget "ok" d). Qed.

Example set_all_or_nothing_witness :
  let run := handle_system_exec_approvals_set "/data/p" no_fault demo_set demo_store in
  ∃ bytes, _serialize_document (_merge_socket demo_edit (_read_snapshot demo_file).1) = Some bytes ∧
    doc run.2 = Some bytes ∧ ∀ raw, demo_file = Some raw → base_hash_of demo_set = Sha.sha256_hex raw.
Proof.
  intros run.
  assert (Hb : accepted run.1 = true) by (vm_compute; reflexivity). apply accepted_not_refused in Hb.
  pose proof (set_all_or_nothing "/data/p" no_fault demo_set demo_store eq_refl) as H. subst run.
  destruct (handle_system_exec_approvals_set "/data/p" no_fault demo_set demo_store) as [r s'].
  destruct H as [_ [[Hr _]|(document & bytes & Hf & _ & Hh & Hs & Hd & _)]]; [destruct (Hb Hr)|].
  injection Hf as <-. exists bytes. split; [exact Hs|split; [exact Hd|exact Hh]].
Defined.

Example set_then_get_witness :
  ∃ r s', handle_system_exec_approvals_set "/data/p" no_fault demo_set demo_store = (r, s') ∧
    _merge_socket demo_edit (current_document no_fault demo_store) =
      dset "socket" (JDict [("path", JStr " /run/exec.sock "); ("token", JStr "s3cret")]) demo_edit ∧
    _read_snapshot (doc s') = (_merge_socket demo_edit (current_document no_fault demo_store), doc s') ∧
    (no_fault ReadBack = None → r = Ret (handle_system_exec_approvals_get "/data/p" (doc s'))).
Proof.
  assert (Hb : accepted (handle_system_exec_approvals_set "/data/p" no_fault demo_set demo_store).1 = true)
    by (vm_compute; reflexivity).
  destruct (handle_system_exec_approvals_set "/data/p" no_fault demo_set demo_store) as [r s'] eqn:E.
  pose proof (accepted_not_refused r Hb) as Hr.
  exists r, s'. split; [reflexivity|]. split; [vm_compute; reflexivity|].
  refine (set_then_get "/data/p" no_fault demo_set demo_store r s' demo_edit E Hr _ _ _).
  - reflexivity.
  - apply plain_dict. split; [by apply (bool_decide_unpack _); vm_compute|].
    constructor; [simpl; lia|]. constructor; [|constructor]. apply plain_dict.
    split; [by apply (bool_decide_unpack _); vm_compute|]. by repeat constructor.
  - apply (bool_decide_unpack _). vm_compute. reflexivity.
Defined.

(** A document that cannot be read counts as missing: a replacement that names
    no base hash then succeeds over it and drops the stored credential. *)
Theorem unreadable_document_overwritten :
  let fault p := match p with ReadCurrent => Some "Input/output error"%py | _ => None end in
  let params := [("file"%py, JDict demo_edit)] in
  let readable := handle_system_exec_approvals_set "/data/p" no_fault params demo_store in
  let unreadable := handle_system_exec_approvals_set "/data/p" fault params demo_store in
  (refused readable.1 ∧ doc readable.2 = doc demo_store) ∧
  doc unreadable.2 = _serialize_document demo_edit ∧
  get_or_null "socket" (_read_snapshot (doc unreadable.2)).1 = JNull.
Proof. vm_compute. repeat split; reflexivity. Qed.
