(* ===== verification/UnifiedDiff.v ===== *)
(** The unified-diff applier of [commands/fs_patch.py]. *)

From stdpp Require Import base list gmap.
From Stdlib Require Import NArith ZArith Lia.
From S2P Require Import Prelude PyStr.

Abbreviation bytes := (list N) (only parsing).

(** [repr] of a byte string *)
Definition repr_byte (quote c : N) : pystr :=
  (if (c =? quote) || (c =? BS) then [BS; c]
   else if c =? 10 then [BS; 110] else if c =? 13 then [BS; 114] else if c =? 9 then [BS; 116]
   else if (32 <=? c) && (c <? 127) then [c] else BS :: 120 :: hex_pad 2 c)%N.
Definition repr_bytes (b : bytes) : pystr :=
  let q := repr_quote b in 98%N :: q :: concat (map (repr_byte q) b) ++ [q].

Definition PatchApplyError (msg : pystr) : exn := Exn "PatchApplyError" msg.

(** Lines with their terminators; the last may have none. *)
Fixpoint _split_lines_keep_ends (data : bytes) : list bytes :=
  match data with
  | [] => []
  | c :: rest =>
      if (c =? NL)%N then [c] :: _split_lines_keep_ends rest
      else match _split_lines_keep_ends rest with
           | [] => [[c]]
           | l :: ls => (c :: l) :: ls
           end
  end.

(** A control line without a trailing carriage return. *)
Definition _control (line : pystr) : pystr :=
  if endswith line [13%N] then removelast line else line.
Definition is_header (line : pystr) : bool := startswith (_control line) "@@".
Definition is_no_newline (line : pystr) : bool := startswith (_control line) (BS :: " No newline").

(** The lines of the patch text: split on newlines, the empty piece after a
    final newline dropped. *)
Definition patch_lines_of (text : pystr) : list pystr :=
  let ls := split_on NL text in
  match last ls with Some [] => removelast ls | _ => ls end.

Section diff.
Context `{Unicode}.

Fixpoint take_decimals (s : pystr) : list N * pystr :=
  match s with
  | c :: s' => match decimal_value c with
               | Some d => let '(ds, r) := take_decimals s' in (d :: ds, r)
               | None => ([], s)
               end
  | [] => ([], [])
  end.
(** [(\d+)(?:,(\d+))?] *)
Definition take_range (s : pystr) : option (list N * option (list N) * pystr) :=
  match take_decimals s with
  | ([], _) => None
  | (start, 44%N :: r as rest) =>
      match take_decimals r with
      | ([], _) => Some (start, None, rest)
      | (count, r) => Some (start, Some count, r)
      end
  | (start, rest) => Some (start, None, rest)
  end.
Definition strip_lead (p s : pystr) : option pystr :=
  if startswith s p then Some (drop (length p) s) else None.
(** [_HUNK_HEADER_RE]: the old start and the two counts, as digits. *)
Definition match_header (s : pystr) : option (list N * option (list N) * option (list N)) :=
  match strip_lead "@@ -" s with
  | None => None
  | Some s =>
      match take_range s with
      | None => None
      | Some (old_start, old_count, s) =>
          match strip_lead " +" s with
          | None => None
          | Some s =>
              match take_range s with
              | None => None
              | Some (_, new_count, s) =>
                  if startswith s " @@" then Some (old_start, old_count, new_count) else None
              end
          end
      end
  end.

(** [int] of matched digits: at most 4300. *)
Definition int_of_digits (ds : list N) : res nat :=
  if (4300 <? length ds)%nat
  then Raise (Exn "ValueError" "Exceeds the limit (4300 digits) for integer string conversion")
  else Ret (N.to_nat (undigits 10 0 ds)).
Definition count_of (o : option (list N)) : res nat :=
  match o with Some ds => int_of_digits ds | None => Ret 1 end.

Definition encode_line (s : pystr) : res bytes :=
  match utf8 s with
  | Some b => Ret b
  | None => Raise (Exn "UnicodeEncodeError" "surrogates not allowed")
  end.

(** Where the walk stands: the lines written so far (in order), the index of
    the next source line, and the old and new lines of the current hunk. *)
Record DState := { out_lines : list bytes; src_cursor : nat; actual_old : nat; actual_new : nat }.

Definition mismatch (kind : pystr) (src : list bytes) (cursor : nat) (body : bytes) : exn :=
  PatchApplyError (kind ++ " mismatch at src line " ++ str_of_nat (S cursor) ++ ": expected "
    ++ repr_bytes body ++ ", got " ++ repr_bytes (default [] (src !! cursor))).

(** One body line with its bytes. *)
Definition apply_line (src : list bytes) (line : pystr) (tag : N) (body : bytes) (st : DState)
    : res DState :=
  let '{| out_lines := out; src_cursor := cur; actual_old := o; actual_new := n |} := st in
  if (tag =? 32)%N then
    if bool_decide (src !! cur = Some body)
    then Ret {| out_lines := out ++ [body]; src_cursor := S cur; actual_old := S o; actual_new := S n |}
    else Raise (mismatch "context" src cur body)
  else if (tag =? 45)%N then
    if bool_decide (src !! cur = Some body)
    then Ret {| out_lines := out; src_cursor := S cur; actual_old := S o; actual_new := n |}
    else Raise (mismatch "delete" src cur body)
  else if (tag =? 43)%N then
    Ret {| out_lines := out ++ [body]; src_cursor := cur; actual_old := o; actual_new := S n |}
  else if (tag =? BS)%N then
    if startswith line (BS :: " ") then Ret st
    else Raise (PatchApplyError ("unrecognised marker line: " ++ repr_str line))
  else Raise (PatchApplyError ("unrecognised hunk line prefix: " ++ repr_str line)).

(** An empty line stands for a blank context line. *)
Definition apply_blank (src : list bytes) (st : DState) : res DState :=
  if bool_decide (src !! src_cursor st = Some [NL])
  then Ret {| out_lines := out_lines st ++ [[NL]]; src_cursor := S (src_cursor st);
              actual_old := S (actual_old st); actual_new := S (actual_new st) |}
  else Raise (PatchApplyError ("context mismatch at src line " ++ str_of_nat (S (src_cursor st))
                ++ ": expected blank line")).

(** The body of a hunk: up to the next header or the end.  A marker that
    follows a line takes its newline away. *)
Fixpoint walk_body (src : list bytes) (lines : list pystr) (st : DState)
    : res (list pystr * DState) :=
  match lines with
  | [] => Ret ([], st)
  | line :: rest =>
      if is_header line then Ret (lines, st)
      else
        match line with
        | [] => let? st := apply_blank src st in walk_body src rest st
        | tag :: body =>
            match rest with
            | next :: rest' =>
                if is_no_newline next then
                  let? b := encode_line body in
                  let? st := apply_line src line tag b st in walk_body src rest' st
                else
                  let? b := encode_line (body ++ [NL]) in
                  let? st := apply_line src line tag b st in walk_body src rest st
            | [] =>
                let? b := encode_line (body ++ [NL]) in
                let? st := apply_line src line tag b st in walk_body src rest st
            end
        end
  end.

(** The source index a hunk starts at. *)
Definition hunk_index (src : list bytes) (old_start declared_old : nat) : res nat :=
  match declared_old with
  | O => if (length src <? old_start)%nat
         then Raise (PatchApplyError ("pure-add hunk at old_start=" ++ str_of_nat old_start
                ++ " is beyond end of source (" ++ str_of_nat (length src) ++ " lines)"))
         else Ret old_start
  | _ => Ret (old_start - 1)
  end.

Definition hunk (src : list bytes) (line : pystr) (rest : list pystr)
    (out : list bytes) (cursor : nat) : res (list pystr * list bytes * nat) :=
  match match_header (_control line) with
  | None => Raise (PatchApplyError ("malformed hunk header: " ++ repr_str (_control line)))
  | Some (s, oc, nc) =>
      let? old_start := int_of_digits s in
      let? declared_old := count_of oc in
      let? declared_new := count_of nc in
      let? index := hunk_index src old_start declared_old in
      if (index <? cursor)%nat
      then Raise (PatchApplyError ("overlapping or out-of-order hunk at line " ++ str_of_nat old_start))
      else
        let? (lines, st) := walk_body src rest
          {| out_lines := out ++ take (index - cursor) (drop cursor src);
             src_cursor := index; actual_old := 0; actual_new := 0 |} in
        if bool_decide (actual_old st = declared_old) && bool_decide (actual_new st = declared_new)
        then Ret (lines, out_lines st, src_cursor st)
        else Raise (PatchApplyError ("hunk count mismatch at old_start=" ++ str_of_nat old_start
               ++ ": header declared -" ++ str_of_nat declared_old ++ " +" ++ str_of_nat declared_new
               ++ ", body walked -" ++ str_of_nat (actual_old st) ++ " +" ++ str_of_nat (actual_new st)))
  end.

(** [fuel] bounds the hunks; every hunk takes its header line. *)
Fixpoint hunks (fuel : nat) (src : list bytes) (lines : list pystr) (out : list bytes)
    (cursor applied : nat) : res (list bytes * nat * nat) :=
  match lines, fuel with
  | [], _ => Ret (out, cursor, applied)
  | _, O => Raise (Exn "RuntimeError" "fuel")
  | line :: rest, S f =>
      let? (lines, out, cursor) := hunk src line rest out cursor in
      hunks f src lines out cursor (S applied)
  end.

Fixpoint skip_preamble (lines : list pystr) : list pystr :=
  match lines with
  | line :: rest => if is_header line then lines else skip_preamble rest
  | [] => []
  end.

Definition _apply_unified_diff (original : bytes) (patch_text : pystr) : res (bytes * nat) :=
  let src := _split_lines_keep_ends original in
  let lines := skip_preamble (patch_lines_of patch_text) in
  let? (out, cursor, applied) := hunks (length lines) src lines [] 0 0 in
  match applied with
  | O => Raise (PatchApplyError "no hunks found in patch")
  | _ => Ret (concat (out ++ drop cursor src), applied)
  end.

Definition _run_patch (original : bytes) (patch_text : pystr) (dry_run : bool) : res (bytes * nat) :=
  let? (patched, n) := _apply_unified_diff original patch_text in
  Ret (if dry_run then [] else patched, n).
End diff.

(** ** What a patch names, and what it did *)

(** A line of the result of a diff: copied between hunks, or named by the patch
    as kept, deleted or added. *)
Inductive edit := ECopy (l : bytes) | EKeep (l : bytes) | EDel (l : bytes) | EAdd (l : bytes).
Definition old_lines (e : edit) : list bytes :=
  match e with ECopy l | EKeep l | EDel l => [l] | EAdd _ => [] end.
Definition new_lines (e : edit) : list bytes :=
  match e with ECopy l | EKeep l | EAdd l => [l] | EDel _ => [] end.
Definition olds (es : list edit) : list bytes := concat (map old_lines es).
Definition news (es : list edit) : list bytes := concat (map new_lines es).
Definition is_named (e : edit) : bool := match e with ECopy _ => false | _ => true end.

Definition edit_of (tag : N) (b : bytes) : list edit :=
  if (tag =? 32)%N then [EKeep b] else if (tag =? 45)%N then [EDel b]
  else if (tag =? 43)%N then [EAdd b] else [].
(** The lines the patch text names, in order, read without the file. *)
Fixpoint named (lines : list pystr) : list edit :=
  match lines with
  | [] => []
  | line :: rest =>
      if is_header line then named rest
      else
        match line with
        | [] => EKeep [NL] :: named rest
        | tag :: body =>
            match rest with
            | next :: rest' =>
                if is_no_newline next then edit_of tag (default [] (utf8 body)) ++ named rest'
                else edit_of tag (default [] (utf8 (body ++ [NL]))) ++ named rest
            | [] => edit_of tag (default [] (utf8 (body ++ [NL]))) ++ named rest
            end
        end
  end.

Lemma olds_app a b : olds (a ++ b) = olds a ++ olds b.
Proof. unfold olds. by rewrite map_app, concat_app. Qed.
Lemma news_app a b : news (a ++ b) = news a ++ news b.
Proof. unfold news. by rewrite map_app, concat_app. Qed.

Lemma olds_copies l : olds (map ECopy l) = l.
Proof. induction l as [|x l IH]; [done|]. unfold olds in *. simpl. by rewrite IH. Qed.
Lemma news_copies l : news (map ECopy l) = l.
Proof. induction l as [|x l IH]; [done|]. unfold news in *. simpl. by rewrite IH. Qed.
Lemma unnamed_copies l : List.filter is_named (map ECopy l) = [].
Proof. by induction l. Qed.

(** The walk has consumed the first [src_cursor] source lines with [es]. *)
Record walked (src : list bytes) (es : list edit) (st st' : DState) : Prop := {
  w_old : take (src_cursor st') src = take (src_cursor st) src ++ olds es;
  w_new : out_lines st' = out_lines st ++ news es;
  w_named : List.filter is_named es = es;
  w_old_count : actual_old st' = actual_old st + length (olds es);
  w_new_count : actual_new st' = actual_new st + length (news es);
}.
Lemma walked_nil src st : walked src [] st st.
Proof. split; unfold olds, news; simpl; rewrite ?app_nil_r; done || lia. Qed.
Lemma walked_app src a b s1 s2 s3 : walked src a s1 s2 → walked src b s2 s3 → walked src (a ++ b) s1 s3.
Proof.
  intros [A1 A2 A3 A4 A5] [B1 B2 B3 B4 B5].
  split; rewrite ?olds_app, ?news_app, ?List.filter_app, ?length_app, ?A3, ?B3; try done; try lia.
  - by rewrite B1, A1, app_assoc.
  - by rewrite B2, A2, app_assoc.
Qed.

Section sound.
Context `{Unicode}.

Lemma apply_line_walked src line tag b st st' :
  apply_line src line tag b st = Ret st' → walked src (edit_of tag b) st st'.
Proof.
  unfold apply_line, edit_of. destruct st as [out cur o n]. intros E.
  destruct (tag =? 32)%N; [|destruct (tag =? 45)%N; [|destruct (tag =? 43)%N]].
  - case_bool_decide as Hs; [|done]. injection E as <-. unfold olds, news.
    split; simpl; try done; try lia. by apply take_S_r.
  - case_bool_decide as Hs; [|done]. injection E as <-. unfold olds, news.
    split; simpl; rewrite ?app_nil_r; try done; try lia. by apply take_S_r.
  - injection E as <-. unfold olds, news. split; simpl; rewrite ?app_nil_r; try done; lia.
  - destruct (tag =? BS)%N; [|done]. destruct (startswith line _); [|done]. injection E as <-.
    apply walked_nil.
Qed.
Lemma apply_blank_walked src st st' :
  apply_blank src st = Ret st' → walked src [EKeep [NL]] st st'.
Proof.
  unfold apply_blank. case_bool_decide as Hs; [|done]. intros [= <-]. unfold olds, news.
  split; simpl; try done; try lia. by apply take_S_r.
Qed.

Lemma walk_body_walked n src lines st rest st' :
  length lines ≤ n → walk_body src lines st = Ret (rest, st') →
  ∃ es, walked src es st st' ∧ named lines = es ++ named rest ∧ length rest ≤ length lines.
Proof.
  revert lines st. induction n as [|n IH]; intros lines st Hn E.
  { destruct lines; [|simpl in Hn; lia]. injection E as <- <-. exists []. split; [apply walked_nil|done]. }
  destruct lines as [|line lines].
  { injection E as <- <-. exists []. split; [apply walked_nil|done]. }
  simpl in Hn. cbn [walk_body named] in *. destruct (is_header line) eqn:Hh.
  { injection E as <- <-. exists []. split; [apply walked_nil|]. simpl. by rewrite Hh. }
  assert (Hstep : ∀ ls es st1, length ls ≤ length lines → walked src es st st1 →
    walk_body src ls st1 = Ret (rest, st') →
    ∃ es', walked src (es ++ es') st st' ∧ named ls = es' ++ named rest ∧ length rest ≤ S (length lines)).
  { intros ls es st1 Hl Hw Hb. destruct (IH ls st1) as (es' & Hw' & Hn' & Hl'); [lia|done|].
    exists es'. split; [by eapply walked_app|]. split; [done|lia]. }
  destruct line as [|tag body].
  { apply rbind_Ret in E as (st1 & E1 & E). apply apply_blank_walked in E1.
    destruct (Hstep _ _ _ ltac:(done) E1 E) as (es' & Hw & Hn' & Hl).
    exists (EKeep [NL] :: es'). rewrite Hn'. done. }
  assert (Henc : ∀ s b, encode_line s = Ret b → b = default [] (utf8 s)).
  { unfold encode_line. intros s b. destruct (utf8 s); [|done]. by intros [= <-]. }
  destruct lines as [|next lines].
  - apply rbind_Ret in E as (b & Eb & (st1 & E1 & E)%rbind_Ret). apply Henc in Eb as <-.
    apply apply_line_walked in E1. destruct (Hstep _ _ _ ltac:(done) E1 E) as (es' & Hw & Hn' & Hl).
    eexists. split; [exact Hw|]. rewrite Hn', app_assoc. done.
  - destruct (is_no_newline next);
      apply rbind_Ret in E as (b & Eb & (st1 & E1 & E)%rbind_Ret); apply Henc in Eb as <-;
      apply apply_line_walked in E1.
    + destruct (Hstep lines _ _ ltac:(simpl; lia) E1 E) as (es' & Hw & Hn' & Hl).
      eexists. split; [exact Hw|]. rewrite Hn', app_assoc. done.
    + destruct (Hstep (next :: lines) _ _ ltac:(done) E1 E) as (es' & Hw & Hn' & Hl).
      eexists. split; [exact Hw|]. rewrite Hn', app_assoc. done.
Qed.

Lemma hunk_walked src line lines out cursor es rest out' cursor' :
  is_header line = true →
  out = news es → take cursor src = olds es →
  hunk src line lines out cursor = Ret (rest, out', cursor') →
  ∃ es', out' = news (es ++ es') ∧ take cursor' src = olds (es ++ es') ∧
         named (line :: lines) = List.filter is_named es' ++ named rest ∧
         length rest ≤ length lines.
Proof.
  intros Hh -> Ht. unfold hunk. destruct (match_header _) as [[[s oc] nc]|]; [|done].
  intros (old & _ & (dold & _ & (dnew & _ & (index & _ & E)%rbind_Ret)%rbind_Ret)%rbind_Ret)%rbind_Ret.
  destruct (Nat.ltb_spec index cursor); [done|].
  apply rbind_Ret in E as ([ls st] & E1 & E2).
  destruct (bool_decide _ && bool_decide _); [|done]. injection E2 as <- <- <-.
  destruct (walk_body_walked (length lines) _ _ _ _ _ ltac:(done) E1) as (es' & [W1 W2 W3 _ _] & Hn & Hl).
  simpl in W1, W2. set (gap := take (index - cursor) (drop cursor src)) in *.
  exists (map ECopy gap ++ es'). rewrite !news_app, !olds_app, news_copies, olds_copies.
  split_and!.
  - by rewrite W2, app_assoc.
  - rewrite W1, app_assoc. f_equal. rewrite <- Ht. unfold gap.
    rewrite <- (take_drop cursor src) at 1. rewrite take_app, length_take.
    destruct (decide (cursor ≤ length src)).
    + rewrite Nat.min_l by done. f_equal. rewrite take_take. by rewrite Nat.min_r by lia.
    + rewrite drop_ge, !take_nil, !app_nil_r by lia. rewrite take_take. by rewrite Nat.min_r by lia.
  - rewrite List.filter_app, unnamed_copies, W3. simpl. rewrite Hh. done.
  - done.
Qed.

Lemma walk_body_rest n src lines st rest st' :
  length lines ≤ n → walk_body src lines st = Ret (rest, st') →
  rest = [] ∨ ∃ h r, rest = h :: r ∧ is_header h = true.
Proof.
  revert lines st. induction n as [|n IH]; intros lines st Hn E.
  { destruct lines; [|simpl in Hn; lia]. injection E as <- <-. by left. }
  destruct lines as [|line lines]; [injection E as <- <-; by left|].
  simpl in Hn. cbn [walk_body] in E. destruct (is_header line) eqn:Hh.
  { injection E as <- <-. right. eauto. }
  destruct line as [|tag body]; [apply rbind_Ret in E as (? & _ & E); eapply IH, E; lia|].
  destruct lines as [|next lines]; [apply rbind_Ret in E as (? & _ & (? & _ & E)%rbind_Ret); eapply IH, E; simpl; lia|].
  destruct (is_no_newline next); apply rbind_Ret in E as (? & _ & (? & _ & E)%rbind_Ret); eapply IH, E; simpl in *; lia.
Qed.

Lemma hunks_walked fuel src lines out cursor applied es out' cursor' n :
  (lines = [] ∨ ∃ h r, lines = h :: r ∧ is_header h = true) →
  out = news es → take cursor src = olds es →
  hunks fuel src lines out cursor applied = Ret (out', cursor', n) →
  ∃ es', out' = news (es ++ es') ∧ take cursor' src = olds (es ++ es') ∧
         List.filter is_named es' = named lines.
Proof.
  revert lines out cursor applied es. induction fuel as [|f IH]; intros lines out cursor applied es Hl Ho Ht E.
  - destruct lines; [|done]. injection E as <- <- <-. exists []. by rewrite app_nil_r.
  - destruct lines as [|line lines].
    { injection E as <- <- <-. exists []. by rewrite app_nil_r. }
    destruct Hl as [?|(h & r & [= <- <-] & Hh)]; [done|].
    cbn [hunks] in E. apply rbind_Ret in E as ([[ls out1] cur1] & E1 & E).
    destruct (hunk_walked _ _ _ _ _ _ _ _ _ Hh Ho Ht E1) as (es1 & -> & Ht1 & Hn1 & _).
    assert (Hls : ls = [] ∨ ∃ h r, ls = h :: r ∧ is_header h = true).
    { unfold hunk in E1. destruct (match_header _) as [[[s oc] nc]|]; [|done].
      apply rbind_Ret in E1 as (? & _ & (? & _ & (? & _ & (? & _ & E1)%rbind_Ret)%rbind_Ret)%rbind_Ret).
      destruct (_ <? _)%nat; [done|]. apply rbind_Ret in E1 as ([ls' st] & E1 & E2).
      destruct (_ && _); [|done]. injection E2 as <- _ _. by eapply walk_body_rest. }
    destruct (IH ls _ cur1 (S applied) (es ++ es1) Hls eq_refl Ht1 E) as (es2 & -> & Ht2 & Hn2).
    exists (es1 ++ es2). rewrite app_assoc. split; [done|]. split; [done|].
    by rewrite List.filter_app, Hn2, Hn1.
Qed.

(** What applying a patch may raise: a refusal, or the errors of [int] and
    [encode] on digits and text that Python cannot convert. *)
Definition diff_error (e : exn) : Prop :=
  exn_type e = "PatchApplyError"%py ∨ exn_type e = "ValueError"%py ∨
  exn_type e = "UnicodeEncodeError"%py.

Lemma int_of_digits_error ds e : int_of_digits ds = Raise e → diff_error e.
Proof. unfold int_of_digits, diff_error. destruct (_ <? _)%nat; [|done]. intros [= <-]. auto. Qed.
Lemma count_of_error o e : count_of o = Raise e → diff_error e.
Proof. destruct o; [apply int_of_digits_error|done]. Qed.
Lemma encode_line_error s e : encode_line s = Raise e → diff_error e.
Proof. unfold encode_line, diff_error. destruct (utf8 s); [done|]. intros [= <-]. auto. Qed.
Lemma apply_line_error src line tag b st e : apply_line src line tag b st = Raise e → diff_error e.
Proof.
  unfold apply_line, diff_error. destruct st. intros E.
  repeat (dm_in E; simplify_eq/=; try done); auto.
Qed.
Lemma rbind_Raise {A B} (m : res A) (f : A → res B) e :
  rbind m f = Raise e → m = Raise e ∨ ∃ a, m = Ret a ∧ f a = Raise e.
Proof. destruct m; simpl; [right; eauto|intros [= ->]; by left]. Qed.

Lemma walk_body_error n src lines st e :
  length lines ≤ n → walk_body src lines st = Raise e → diff_error e.
Proof.
  revert lines st. induction n as [|n IH]; intros lines st Hn E; [destruct lines; [done|simpl in Hn; lia]|].
  destruct lines as [|line lines]; [done|]. simpl in Hn. cbn [walk_body] in E.
  destruct (is_header line); [done|]. destruct line as [|tag body].
  { apply rbind_Raise in E as [E|(? & _ & E)]; [|eapply IH, E; lia].
    revert E. unfold apply_blank, diff_error. case_bool_decide; [done|]. intros [= <-]. auto. }
  assert (Hstep : ∀ s ls, length ls ≤ n →
    (let? b := encode_line s in let? st := apply_line src (tag :: body) tag b st in walk_body src ls st)
    = Raise e → diff_error e).
  { intros s ls Hls. intros [E'|(? & _ & [E'|(? & _ & E')]%rbind_Raise)]%rbind_Raise;
      [exact (encode_line_error _ _ E')|exact (apply_line_error _ _ _ _ _ _ E')|exact (IH _ _ Hls E')]. }
  destruct lines as [|next lines]; [eapply Hstep, E; simpl; lia|].
  destruct (is_no_newline next); eapply Hstep, E; simpl in *; lia.
Qed.

Lemma hunk_error src line lines out cursor e : hunk src line lines out cursor = Raise e → diff_error e.
Proof.
  unfold hunk. destruct (match_header _) as [[[s oc] nc]|]; [|intros [= <-]; by left].
  intros [E|(old & _ & [E|(dold & _ & [E|(dnew & _ & [E|(index & _ & E)]%rbind_Raise)]%rbind_Raise)]%rbind_Raise)]%rbind_Raise.
  - by eapply int_of_digits_error.
  - by eapply count_of_error.
  - by eapply count_of_error.
  - revert E. unfold hunk_index. destruct dold; [|done]. destruct (_ <? _)%nat; [|done]. intros [= <-]. by left.
  - destruct (_ <? _)%nat; [injection E as <-; by left|].
    apply rbind_Raise in E as [E|([ls st] & _ & E)]; [by eapply walk_body_error|].
    destruct (_ && _); [done|]. injection E as <-. by left.
Qed.
Lemma hunks_error fuel src lines out cursor applied e :
  length lines ≤ fuel → hunks fuel src lines out cursor applied = Raise e → diff_error e.
Proof.
  revert lines out cursor applied. induction fuel as [|f IH]; intros lines out cursor applied Hf E.
  - destruct lines; [done|simpl in Hf; lia].
  - destruct lines as [|line lines]; [done|]. cbn [hunks] in E. simpl in Hf.
    apply rbind_Raise in E as [E|([[ls out1] cur1] & E1 & E)]; [by eapply hunk_error|].
    eapply IH, E. unfold hunk in E1. destruct (match_header _) as [[[s oc] nc]|]; [|done].
    apply rbind_Ret in E1 as (? & _ & (? & _ & (? & _ & (? & _ & E1)%rbind_Ret)%rbind_Ret)%rbind_Ret).
    destruct (_ <? _)%nat; [done|]. apply rbind_Ret in E1 as ([ls' st] & E1 & E2).
    destruct (_ && _); [|done]. injection E2 as <- _ _.
    destruct (walk_body_walked (length lines) _ _ _ _ _ ltac:(done) E1) as (? & _ & _ & ?). lia.
Qed.

Lemma skip_preamble_header lines :
  skip_preamble lines = [] ∨ ∃ h r, skip_preamble lines = h :: r ∧ is_header h = true.
Proof.
  induction lines as [|l ls IH]; simpl; [by left|]. destruct (is_header l) eqn:E; [right; eauto|done].
Qed.

Lemma hunks_counts fuel src lines out cursor applied out' cursor' n :
  hunks fuel src lines out cursor applied = Ret (out', cursor', n) → applied ≤ n.
Proof.
  revert lines out cursor applied. induction fuel as [|f IH]; intros lines out cursor applied E.
  - destruct lines; [|done]. by injection E as <- <- <-.
  - destruct lines as [|line lines]; [by injection E as <- <- <-|]. cbn [hunks] in E.
    apply rbind_Ret in E as ([[ls out1] cur1] & _ & E). apply IH in E. lia.
Qed.
End sound.

(** The lines of [data] put together give it back. *)
Lemma concat_split data : concat (_split_lines_keep_ends data) = data.
Proof.
  induction data as [|c data IH]; simpl; [done|]. destruct (N.eqb_spec c NL) as [->|]; simpl; [by rewrite IH|].
  destruct (_split_lines_keep_ends data) as [|l ls]; simpl in *; by rewrite <- IH.
Qed.

(** Applying a diff changes what the diff names and nothing else: the old
    file is, line for line, the lines that were copied, kept or deleted, the
    new file is those copied, kept or added, and the lines kept, deleted and
    added are exactly the lines of the patch text in order, so every context
    and deleted line was found in the file.  A patch without hunks, or that does
    not match, is refused, and the applier always comes to an answer. *)
Theorem diff_sound `{Unicode} original patch_text :
  match _apply_unified_diff original patch_text with
  | Ret (patched, n) =>
      1 ≤ n ∧ ∃ es, concat (olds es) = original ∧ olds es = _split_lines_keep_ends original ∧
        concat (news es) = patched ∧
        List.filter is_named es = named (skip_preamble (patch_lines_of patch_text))
  | Raise e => diff_error e
  end.
Proof.
  unfold _apply_unified_diff. set (src := _split_lines_keep_ends original).
  set (lines := skip_preamble _). destruct (hunks _ _ _ _ _ _) as [[[out cursor] n]|e] eqn:E; simpl.
  - destruct n as [|n]; [by left|]. split; [lia|].
    destruct (hunks_walked _ src _ [] 0 0 [] _ _ _ (skip_preamble_header _) eq_refl eq_refl E)
      as (es & -> & Ht & Hn).
    exists (es ++ map ECopy (drop cursor src)). simpl in *.
    rewrite news_app, olds_app, olds_copies, news_copies, List.filter_app, unnamed_copies, app_nil_r.
    rewrite <- Ht, take_drop. unfold src. rewrite concat_split. done.
  - by eapply hunks_error.
Qed.

(** ** Every well-formed diff applies

    A line of a text is its characters and whether a newline ends it.  A diff
    between two texts: per hunk the lines copied before it, its lines, each with
    its tag, and whether its header leaves out the old and the new count where
    they are one; then the lines after the last hunk. *)
Inductive tag := TKeep | TDel | TAdd.
Abbreviation line := (pystr * bool)%type (only parsing).
Record HunkText := { h_gap : list line; h_ops : list (tag * line); h_short : bool * bool }.

Definition tag_char (t : tag) : N := match t with TKeep => 32%N | TDel => 45%N | TAdd => 43%N end.
Definition ops_old (ops : list (tag * line)) : list line :=
  concat (map (λ o, match o.1 with TAdd => [] | _ => [o.2] end) ops).
Definition ops_new (ops : list (tag * line)) : list line :=
  concat (map (λ o, match o.1 with TDel => [] | _ => [o.2] end) ops).
Definition diff_old (hs : list HunkText) (tail : list line) : list line :=
  concat (map (λ h, h_gap h ++ ops_old (h_ops h)) hs) ++ tail.
Definition diff_new (hs : list HunkText) (tail : list line) : list line :=
  concat (map (λ h, h_gap h ++ ops_new (h_ops h)) hs) ++ tail.

(** The unified-diff text, from line [p] of the old file and [q] of the new,
    behind lines that head the diff. *)
Definition range_text (short : bool) (p count : nat) : pystr :=
  str_of_nat (if (count =? 0)%nat then p else S p) ++
  (if short && (count =? 1)%nat then [] else "," ++ str_of_nat count).
Definition header_text (short : bool * bool) (p o q n : nat) : pystr :=
  "@@ -" ++ range_text short.1 p o ++ " +" ++ range_text short.2 q n ++ " @@".
Definition no_newline_marker : pystr := BS :: " No newline at end of file".
Definition op_lines (op : tag * line) : list pystr :=
  (tag_char op.1 :: op.2.1) :: (if op.2.2 then [] else [no_newline_marker]).
Definition body_lines (ops : list (tag * line)) : list pystr := concat (map op_lines ops).
Fixpoint hunk_lines (p q : nat) (hs : list HunkText) : list pystr :=
  match hs with
  | [] => []
  | h :: hs =>
      let p := p + length (h_gap h) in let q := q + length (h_gap h) in
      let o := length (ops_old (h_ops h)) in let n := length (ops_new (h_ops h)) in
      header_text (h_short h) p o q n :: body_lines (h_ops h) ++ hunk_lines (p + o) (q + n) hs
  end.
Definition diff_text (heads : list pystr) (hs : list HunkText) : pystr :=
  concat (map (λ l, l ++ [NL]) (heads ++ hunk_lines 0 0 hs)).

(** A line of text: no newline inside, and UTF-8 can encode it; one that no
    newline ends is not empty.  In a file only the last line may be such a one. *)
Definition good_line (l : line) : Prop :=
  NL ∉ l.1 ∧ Forall (λ c, is_surrogate c = false) l.1 ∧ (l.2 = false → l.1 ≠ []).
Fixpoint good_file (ls : list line) : Prop :=
  match ls with
  | [] => True
  | l :: rest => good_line l ∧ (rest ≠ [] → l.2 = true) ∧ good_file rest
  end.
Definition line_text (l : line) : pystr := if l.2 then l.1 ++ [NL] else l.1.
Definition line_bytes (l : line) : bytes := default [] (utf8 (line_text l)).
Definition file_bytes (ls : list line) : bytes := concat (map line_bytes ls).

Lemma utf8_app a b : utf8 (a ++ b) =
  match utf8 a, utf8 b with Some x, Some y => Some (x ++ y) | _, _ => None end.
Proof.
  induction a as [|c a IH]; simpl; [by destruct (utf8 b)|]. rewrite IH.
  destruct (utf8_char c), (utf8 a), (utf8 b); simpl; try done. by rewrite app_assoc.
Qed.
Lemma utf8_no_newline l b : NL ∉ l → utf8 l = Some b → NL ∉ b.
Proof.
  revert b. induction l as [|c l IH]; intros b Hn Hu; [injection Hu as <-; apply not_elem_of_nil|].
  apply utf8_cons in Hu as (u & us & Hc & Hus & -> & _). rewrite not_elem_of_cons in Hn.
  destruct Hn as [Hc10 Hn]. rewrite not_elem_of_app. split; [|by apply IH].
  apply utf8_char_cases in Hc as [[-> _]|[(q & r & -> & _)|[(p & q & r & -> & _)|(o & p & q & r & -> & _)]]];
    rewrite ?not_elem_of_cons; repeat split; try apply not_elem_of_nil; lia || done.
Qed.
Lemma line_bytes_shape l : good_line l →
  ∃ b, utf8 (line_text l) = Some (b ++ if l.2 then [NL] else []) ∧ NL ∉ b ∧ (l.2 = false → b ≠ []) ∧
       line_bytes l = b ++ if l.2 then [NL] else [].
Proof.
  intros (Hn & Hs & He). destruct (utf8_encodable l.1 Hs) as [b Hb]. exists b.
  assert (E : utf8 (line_text l) = Some (b ++ if l.2 then [NL] else [])).
  { unfold line_text. destruct l.2; [by rewrite utf8_app, Hb|by rewrite app_nil_r]. }
  unfold line_bytes. rewrite E. split_and!; [done|by eapply utf8_no_newline| |done].
  intros Hl ->. specialize (He Hl). destruct l.1 as [|c t]; [done|].
  apply utf8_cons in Hb as (u & us & Hc & _ & Hu & _). symmetry in Hu. apply app_eq_nil in Hu as [-> _].
  by apply utf8_char_cases in Hc as [[[=] _]|[(? & ? & [=] & _)|[(? & ? & ? & [=] & _)|(? & ? & ? & ? & [=] & _)]]].
Qed.

Lemma split_line b rest : NL ∉ b →
  _split_lines_keep_ends ((b ++ [NL]) ++ rest) = (b ++ [NL]) :: _split_lines_keep_ends rest.
Proof.
  induction b as [|c b IH]; intros Hn; [done|]. rewrite not_elem_of_cons in Hn. destruct Hn as [Hc Hn].
  cbn [app _split_lines_keep_ends]. rewrite (proj2 (N.eqb_neq c NL)) by congruence.
  rewrite IH by done. done.
Qed.
Lemma split_last b : NL ∉ b → b ≠ [] → _split_lines_keep_ends b = [b].
Proof.
  induction b as [|c b IH]; intros Hn Hne; [done|]. rewrite not_elem_of_cons in Hn. destruct Hn as [Hc Hn].
  cbn [_split_lines_keep_ends]. rewrite (proj2 (N.eqb_neq c NL)) by congruence.
  destruct b as [|d b]; [done|]. by rewrite IH.
Qed.
Lemma split_file ls : good_file ls → _split_lines_keep_ends (file_bytes ls) = map line_bytes ls.
Proof.
  induction ls as [|l ls IH]; [done|]. intros (Hl & Hend & Hls). unfold file_bytes. cbn [map concat].
  destruct (line_bytes_shape l Hl) as (b & _ & Hn & Hb & ->). destruct l.2 eqn:E.
  - rewrite split_line by done. f_equal. by apply IH.
  - destruct ls as [|l2 ls]; [|by specialize (Hend ltac:(done))].
    cbn [map concat]. rewrite !app_nil_r. apply split_last; auto.
Qed.

Lemma split_on_line c l rest : c ∉ l → split_on c (l ++ c :: rest) = l :: split_on c rest.
Proof.
  induction l as [|x l IH]; intros Hn; simpl; [by rewrite N.eqb_refl|].
  rewrite not_elem_of_cons in Hn. destruct Hn as [Hx Hn].
  rewrite (proj2 (N.eqb_neq x c)) by congruence. by rewrite IH.
Qed.
Lemma patch_lines_text ls : Forall (λ l, NL ∉ l) ls → patch_lines_of (concat (map (λ l, l ++ [NL]) ls)) = ls.
Proof.
  intros Hls. assert (E : split_on NL (concat (map (λ l, l ++ [NL]) ls)) = ls ++ [[]]).
  { induction Hls as [|l ls Hl Hls IH]; [done|]. cbn [map concat].
    rewrite <- app_assoc. cbn [app]. by rewrite split_on_line, IH. }
  unfold patch_lines_of. rewrite E, last_snoc, removelast_last. done.
Qed.

(** Numbers that [int] reads back. *)
Definition small (n : nat) : Prop := (N.of_nat n < 10 ^ 4299)%N.
Lemma small_length n : small n → (length (str_of_nat n) <= 4300)%nat.
Proof.
  unfold small, str_of_nat, str_of_N. intros Hn. rewrite length_map.
  etrans; [apply (digits_length 10 ltac:(lia) _ (N.to_nat 4298))|lia].
  rewrite Nat2N.inj_succ, N2Nat.id. exact Hn.
Qed.
Lemma small_le a b : small b → a ≤ b → small a.
Proof. unfold small. intros Hb Hab. eapply N.le_lt_trans; [|exact Hb]. lia. Qed.

Section complete.
Context `{Unicode}.

Definition digits_of (n : nat) : list N := map (λ c, c - 48)%N (str_of_nat n).

Lemma take_decimals_str n c r :
  decimal_value c = None → take_decimals (str_of_nat n ++ c :: r) = (digits_of n, c :: r).
Proof.
  intros Hc. unfold digits_of, str_of_nat. pose proof (str_of_N_digits (N.of_nat n)) as Hd.
  induction Hd as [|d l Hd Hl IH]; simpl; [by rewrite Hc|].
  assert (decimal_value d = Some (d - 48)%N) as ->.
  { unfold decimal_value, is_ascii. rewrite Hd. unfold is_digit in Hd. bprop.
    by rewrite (proj2 (N.ltb_lt d 128)) by lia. }
  by rewrite IH.
Qed.
Lemma int_of_digits_of n : small n → int_of_digits (digits_of n) = Ret n.
Proof.
  intros Hn. unfold int_of_digits, digits_of. rewrite length_map.
  apply small_length in Hn. rewrite (proj2 (Nat.ltb_ge _ _)) by exact Hn.
  unfold str_of_nat. by rewrite str_of_N_value, Nat2N.id.
Qed.
Lemma digits_of_nonempty n : digits_of n ≠ [].
Proof.
  unfold digits_of, str_of_nat. pose proof (str_of_N_nonempty (N.of_nat n)).
  by destruct (str_of_N (N.of_nat n)).
Qed.

Definition range_start (p count : nat) : nat := if (count =? 0)%nat then p else S p.
Definition count_digits (short : bool) (count : nat) : option (list N) :=
  if short && (count =? 1)%nat then None else Some (digits_of count).
Lemma take_range_text short p count r :
  take_range (range_text short p count ++ 32%N :: r)
  = Some (digits_of (range_start p count), count_digits short count, 32%N :: r).
Proof.
  assert (Hc : decimal_value 32 = None) by done.
  unfold range_text, take_range, count_digits. fold (range_start p count). rewrite <- app_assoc.
  pose proof (digits_of_nonempty (range_start p count)). pose proof (digits_of_nonempty count).
  destruct (short && _); cbn [app].
  - rewrite take_decimals_str by done. by destruct (digits_of (range_start p count)).
  - rewrite take_decimals_str by done. destruct (digits_of (range_start p count)); [done|].
    rewrite take_decimals_str by done. by destruct (digits_of count).
Qed.
Lemma count_of_digits short count : small count → count_of (count_digits short count) = Ret count.
Proof.
  intros Hs. unfold count_digits. destruct (short && _) eqn:E; [|by apply int_of_digits_of].
  apply andb_true_iff in E as [_ ->%Nat.eqb_eq]. done.
Qed.

Lemma strip_lead_app p r : strip_lead p (p ++ r) = Some r.
Proof. unfold strip_lead. by rewrite startswith_app, drop_app_length. Qed.

Lemma control_snoc x c : c ≠ 13%N → _control (x ++ [c]) = x ++ [c].
Proof.
  intros Hc. unfold _control, endswith. rewrite rev_app_distr. cbn [rev app startswith].
  rewrite (proj2 (N.eqb_neq 13 c)) by congruence. done.
Qed.
Lemma header_text_snoc h p o q n : ∃ x, header_text h p o q n = 64%N :: x ++ [64%N].
Proof.
  unfold header_text. eexists (("@ -" ++ range_text h.1 p o ++ " +" ++ range_text h.2 q n ++ " @")%py).
  cbn [app]. rewrite <- !app_assoc. cbn [app]. rewrite <- !app_assoc. done.
Qed.
Lemma control_header h p o q n : _control (header_text h p o q n) = header_text h p o q n.
Proof.
  destruct (header_text_snoc h p o q n) as [x ->]. by rewrite app_comm_cons, control_snoc.
Qed.
Lemma is_header_text h p o q n : is_header (header_text h p o q n) = true.
Proof.
  unfold is_header. rewrite control_header. unfold header_text.
  change ("@@ -" ++ ?x)%py with ("@@" ++ (" -" ++ x))%py. apply startswith_app.
Qed.
Lemma match_header_text h p o q n :
  match_header (header_text h p o q n)
  = Some (digits_of (range_start p o), count_digits h.1 o, count_digits h.2 n).
Proof.
  unfold match_header, header_text. rewrite strip_lead_app.
  change (" +" ++ ?x) with (32%N :: "+" ++ x). rewrite take_range_text.
  change (32%N :: "+" ++ ?x) with (" +" ++ x). rewrite strip_lead_app.
  change " @@"%py with (32%N :: "@@"%py). rewrite take_range_text. done.
Qed.

Lemma head_control c t : c ≠ 13%N → ∃ t', _control (c :: t) = c :: t'.
Proof.
  intros Hc. unfold _control. destruct (endswith (c :: t) [13%N]) eqn:E; [|by eexists].
  destruct t as [|d t]; [|by eexists]. unfold endswith in E. cbn [rev app startswith] in E.
  rewrite (proj2 (N.eqb_neq 13 c)) in E by congruence. done.
Qed.
Lemma not_header c t : c ≠ 13%N → c ≠ 64%N → is_header (c :: t) = false.
Proof.
  intros Hc Ha. unfold is_header. destruct (head_control c t Hc) as [t' ->]. cbn [startswith].
  by rewrite (proj2 (N.eqb_neq 64 c)) by congruence.
Qed.
Lemma not_marker c t : c ≠ 13%N → c ≠ BS → is_no_newline (c :: t) = false.
Proof.
  intros Hc Ha. unfold is_no_newline. destruct (head_control c t Hc) as [t' ->]. cbn [startswith].
  by rewrite (proj2 (N.eqb_neq BS c)) by congruence.
Qed.
Lemma header_not_marker h p o q n : is_no_newline (header_text h p o q n) = false.
Proof. destruct (header_text_snoc h p o q n) as [x ->]. by apply not_marker. Qed.

Definition starts_hunk (rest : list pystr) : Prop :=
  match rest with [] => True | h :: _ => is_header h = true ∧ is_no_newline h = false end.

Lemma lookup_drop_head {A} (l : list A) n x r : drop n l = x :: r → l !! n = Some x ∧ drop (S n) l = r.
Proof.
  intros E. split.
  - rewrite <- (Nat.add_0_r n), <- lookup_drop, E. done.
  - replace (S n) with (n + 1) by lia. rewrite <- drop_drop, E. done.
Qed.

(** One line of a hunk, with the marker behind it when it has one. *)
Lemma walk_body_op src t l rest st :
  good_line l → match rest with h :: _ => is_no_newline h = false | [] => True end →
  walk_body src (op_lines (t, l) ++ rest) st =
  let? st := apply_line src (tag_char t :: l.1) (tag_char t) (line_bytes l) st in walk_body src rest st.
Proof.
  intros Hl Hrest. destruct l as [l nl]. unfold op_lines. cbn [fst snd].
  assert (Hc : tag_char t ≠ 13%N ∧ tag_char t ≠ 64%N) by by destruct t.
  destruct (line_bytes_shape (l, nl) Hl) as (b & Hu & _ & _ & Hb). unfold line_text in Hu. cbn [fst snd] in *.
  destruct nl; cbn [app walk_body]; rewrite not_header by apply Hc.
  - assert (He : encode_line (l ++ [NL]) = Ret (line_bytes (l, true))) by (unfold encode_line; by rewrite Hu, Hb).
    destruct rest as [|h rest]; [|rewrite Hrest]; by rewrite He.
  - change (is_no_newline no_newline_marker) with true. cbv iota.
    assert (He : encode_line l = Ret (line_bytes (l, false))) by (unfold encode_line; by rewrite Hu, Hb).
    by rewrite He.
Qed.
Lemma body_lines_start ops rest :
  starts_hunk rest → match body_lines ops ++ rest with h :: _ => is_no_newline h = false | [] => True end.
Proof.
  intros Hr. destruct ops as [|[t l] ops]; cbn.
  - destruct rest; [done|]. by destruct Hr.
  - apply not_marker; by destruct t.
Qed.

Lemma walk_body_ops src ops rest st more :
  starts_hunk rest → Forall (λ op, good_line op.2) ops →
  drop (src_cursor st) src = map line_bytes (ops_old ops) ++ more →
  walk_body src (body_lines ops ++ rest) st = Ret (rest,
    {| out_lines := out_lines st ++ map line_bytes (ops_new ops);
       src_cursor := src_cursor st + length (ops_old ops);
       actual_old := actual_old st + length (ops_old ops);
       actual_new := actual_new st + length (ops_new ops) |}).
Proof.
  intros Hrest Hops. revert st. induction Hops as [|[t l] ops Hl Hops IH]; intros [out cur o n] Hd; cbn [src_cursor] in Hd.
  - unfold body_lines. cbn [map concat app]. destruct rest as [|h rest]; simpl.
    + by rewrite !Nat.add_0_r, app_nil_r.
    + destruct Hrest as [-> _]. by rewrite !Nat.add_0_r, app_nil_r.
  - change (body_lines ((t, l) :: ops)) with (op_lines (t, l) ++ body_lines ops). rewrite <- app_assoc.
    rewrite walk_body_op; [|done|by apply body_lines_start].
    destruct t; unfold ops_old, ops_new in *; cbn [map concat app fst snd] in Hd |- *; unfold apply_line;
      cbn [tag_char N.eqb Pos.eqb].
    + apply lookup_drop_head in Hd as [Hs Hd]. rewrite bool_decide_eq_true_2 by done. cbn [rbind].
      rewrite IH by exact Hd. simpl. do 3 f_equal; try lia. by rewrite <- app_assoc.
    + apply lookup_drop_head in Hd as [Hs Hd]. rewrite bool_decide_eq_true_2 by done. cbn [rbind].
      rewrite IH by exact Hd. simpl. do 3 f_equal; lia.
    + cbn [rbind]. rewrite IH by exact Hd. simpl. do 3 f_equal; try lia. by rewrite <- app_assoc.
Qed.

Lemma hunk_applies src h p q rest out more :
  p ≤ length src → starts_hunk rest → Forall (λ op, good_line op.2) (h_ops h) →
  drop p src = map line_bytes (h_gap h ++ ops_old (h_ops h)) ++ more →
  small (S (length src)) → small (length (ops_new (h_ops h))) →
  let p' := p + length (h_gap h) in
  hunk src (header_text (h_short h) p' (length (ops_old (h_ops h))) q (length (ops_new (h_ops h))))
    (body_lines (h_ops h) ++ rest) out p
  = Ret (rest, out ++ map line_bytes (h_gap h ++ ops_new (h_ops h)),
         p + length (h_gap h ++ ops_old (h_ops h))).
Proof.
  intros Hp Hrest Hops Hd Hs Hn p'. unfold hunk. rewrite control_header, match_header_text.
  set (o := length (ops_old (h_ops h))) in *. set (n := length (ops_new (h_ops h))) in *.
  assert (Hlen : p' + o ≤ length src).
  { apply (f_equal length) in Hd. rewrite length_drop, length_app, length_map, length_app in Hd.
    unfold p'. fold o in Hd. lia. }
  rewrite int_of_digits_of by (eapply small_le; [exact Hs|]; unfold range_start; destruct (o =? 0)%nat; lia).
  cbn [rbind]. rewrite !count_of_digits by (done || (eapply small_le; [exact Hs|lia])).
  cbn [rbind].
  assert (Hi : hunk_index src (range_start p' o) o = Ret p').
  { unfold hunk_index, range_start. destruct o as [|o']; simpl; [|by rewrite Nat.sub_0_r].
    by rewrite (proj2 (Nat.ltb_ge _ _)) by lia. }
  rewrite Hi. cbn [rbind]. rewrite (proj2 (Nat.ltb_ge p' p)) by (unfold p'; lia).
  replace (p' - p) with (length (map line_bytes (h_gap h))) by (rewrite length_map; unfold p'; lia).
  rewrite map_app, <- app_assoc in Hd.
  rewrite (walk_body_ops src (h_ops h) rest _ more); [|done|done|].
  - cbn [rbind actual_old actual_new out_lines src_cursor]. rewrite !Nat.add_0_l.
    rewrite !bool_decide_eq_true_2 by done. cbn [andb].
    rewrite Hd, take_app_length, map_app, <- app_assoc. unfold p'. rewrite length_app. fold o.
    by rewrite Nat.add_assoc.
  - cbn [src_cursor]. unfold p'. rewrite <- drop_drop, Hd.
    replace (length (h_gap h)) with (length (map line_bytes (h_gap h))) by apply length_map.
    by rewrite drop_app_length.
Qed.

Definition hunk_old (h : HunkText) : list line := h_gap h ++ ops_old (h_ops h).
Definition hunk_new (h : HunkText) : list line := h_gap h ++ ops_new (h_ops h).
Definition hunk_good (h : HunkText) : Prop :=
  Forall (λ op, good_line op.2) (h_ops h) ∧ small (length (ops_new (h_ops h))).

Lemma hunk_lines_start p q hs : starts_hunk (hunk_lines p q hs).
Proof. destruct hs; [done|]. split; [apply is_header_text|apply header_not_marker]. Qed.

Lemma hunks_apply hs fuel src p q out applied more :
  Forall hunk_good hs → small (S (length src)) → p ≤ length src →
  drop p src = map line_bytes (concat (map hunk_old hs)) ++ more →
  length (hunk_lines p q hs) ≤ fuel →
  hunks fuel src (hunk_lines p q hs) out p applied
  = Ret (out ++ map line_bytes (concat (map hunk_new hs)),
         p + length (concat (map hunk_old hs)), applied + length hs).
Proof.
  intros Hg Hs. revert fuel p q out applied. induction Hg as [|h hs [Hops Hn] Hg IH];
    intros fuel p q out applied Hp Hd Hf.
  - destruct fuel; simpl; by rewrite app_nil_r, !Nat.add_0_r.
  - cbn [hunk_lines] in *. destruct fuel as [|f]; [simpl in Hf; lia|]. cbn [hunks].
    cbn [map concat] in Hd. rewrite map_app, <- app_assoc in Hd.
    assert (Hlen : p + length (hunk_old h) ≤ length src).
    { apply (f_equal length) in Hd. rewrite length_drop, !length_app, !length_map in Hd. lia. }
    rewrite (hunk_applies src h p _ _ _ _ Hp (hunk_lines_start _ _ _) Hops Hd Hs Hn). cbn [rbind].
    fold (hunk_new h) (hunk_old h).
    assert (Hpos : p + length (h_gap h) + length (ops_old (h_ops h)) = p + length (hunk_old h))
      by (unfold hunk_old; rewrite length_app; lia).
    rewrite Hpos. rewrite Hpos in Hf. rewrite IH.
    + cbn [map concat]. rewrite map_app, !length_app, <- app_assoc. simpl. do 2 f_equal; [f_equal|]; lia.
    + done.
    + rewrite <- drop_drop, Hd. replace (length (hunk_old h)) with (length (map line_bytes (hunk_old h)))
        by apply length_map. by rewrite drop_app_length.
    + simpl in Hf. rewrite length_app in Hf. lia.
Qed.
End complete.

Lemma str_of_nat_digits n : Forall (λ c, c ≠ NL) (str_of_nat n).
Proof.
  unfold str_of_nat. eapply Forall_impl; [apply str_of_N_digits|]. intros c Hc ->. done.
Qed.
Lemma header_text_line h p o q n : NL ∉ header_text h p o q n.
Proof.
  unfold header_text, range_text.
  assert (Hd : ∀ k, NL ∉ str_of_nat k).
  { intros k Hin. pose proof (str_of_nat_digits k) as Hk. rewrite Forall_forall in Hk. by apply (Hk _ Hin). }
  assert (Hs : ∀ b k, NL ∉ (if b : bool then [] else "," ++ str_of_nat k)).
  { intros [] k; [apply not_elem_of_nil|]. rewrite not_elem_of_app. split; [|apply Hd].
    apply (bool_decide_unpack _); vm_compute; exact I. }
  rewrite !not_elem_of_app.
  repeat split; try apply Hd; try apply Hs; apply (bool_decide_unpack _); vm_compute; exact I.
Qed.
Lemma hunk_lines_lines p q hs :
  Forall (λ h, Forall (λ op, good_line op.2) (h_ops h)) hs → Forall (λ l, NL ∉ l) (hunk_lines p q hs).
Proof.
  revert p q. induction hs as [|h hs IH]; intros p q Hg; [constructor|].
  apply Forall_cons in Hg as [Hh Hg]. cbn [hunk_lines]. constructor; [apply header_text_line|].
  apply Forall_app_2; [|by apply IH]. apply Forall_concat, Forall_fmap. eapply Forall_impl; [exact Hh|].
  intros [t l] (Hl & _). unfold compose, op_lines. cbn [fst snd] in *. constructor.
  - rewrite not_elem_of_cons. split; [by destruct t|done].
  - destruct l.2; constructor; [|constructor]. apply (bool_decide_unpack _); vm_compute; exact I.
Qed.

(** A diff with hunks, of lines that text can hold and Python's [int] can count,
    behind lines that are no hunk headers. *)
Definition diff_good (heads : list pystr) (hs : list HunkText) (tail : list line) : Prop :=
  Forall (λ l, NL ∉ l ∧ is_header l = false) heads ∧ hs ≠ [] ∧ Forall hunk_good hs ∧
  good_file (diff_old hs tail) ∧ small (S (length (diff_old hs tail))).

Lemma skip_heads heads ls :
  Forall (λ l, is_header l = false) heads → match ls with l :: _ => is_header l = true | [] => False end →
  skip_preamble (heads ++ ls) = ls.
Proof.
  intros Hh Hl. induction Hh as [|h heads Hh _ IH]; cbn [app skip_preamble].
  - destruct ls as [|l ls]; [done|]. cbn [skip_preamble]. by rewrite Hl.
  - by rewrite Hh.
Qed.

(** C28. Every unified diff applies: printed as a patch, with any lines at its head
    that are no hunk headers, the diff of two texts, however its changes are
    grouped into hunks, whether or not its headers leave out counts of one, and
    with the marker behind a line that no newline ends, turns the old file into
    the new one byte for byte and reports its number of hunks. *)
Theorem diff_applies `{Unicode} heads hs tail :
  diff_good heads hs tail →
  _apply_unified_diff (file_bytes (diff_old hs tail)) (diff_text heads hs)
  = Ret (file_bytes (diff_new hs tail), length hs).
Proof.
  intros (Hh & Hne & Hg & Hold & Hs). unfold _apply_unified_diff, diff_text.
  rewrite patch_lines_text.
  2: { apply Forall_app_2; [eapply Forall_impl; [exact Hh|by intros ? []]|].
       apply hunk_lines_lines; eapply Forall_impl; [exact Hg|by intros ? []]. }
  rewrite split_file by done. rewrite skip_heads.
  2: { eapply Forall_impl; [exact Hh|by intros ? []]. }
  2: { destruct hs as [|h hs]; [done|]. cbn [hunk_lines]. apply is_header_text. }
  assert (Hd : map line_bytes (diff_old hs tail) = map line_bytes (concat (map hunk_old hs)) ++ map line_bytes tail).
  { unfold diff_old. by rewrite map_app. }
  rewrite (hunks_apply hs _ _ 0 0 [] 0 (map line_bytes tail));
    [|done|by rewrite length_map|lia|by rewrite drop_0|done].
  cbn [rbind app Nat.add]. destruct hs as [|h hs]; [done|]. cbn [length]. rewrite Hd.
  replace (length (concat (map hunk_old (h :: hs))))
    with (length (map line_bytes (concat (map hunk_old (h :: hs))))) by apply length_map.
  rewrite drop_app_length, <- map_app. done.
Qed.

(** Two hunks: the second changes one line each way, with both counts left out,
    and takes the newline at the end of the file away. *)
Definition demo_heads : list pystr := ["--- a/x"; "+++ b/x"]%py.
Definition demo_diff : list HunkText :=
  [ {| h_gap := [("a", true)]%py;
       h_ops := [(TKeep, ("b", true)); (TDel, ("@@ x", true)); (TAdd, ("c", true)); (TAdd, ([], true)); (TKeep, ([], true))]%py;
       h_short := (true, true) |};
    {| h_gap := [("k", true); ("l", true)]%py; h_ops := [(TDel, ("z", true)); (TAdd, ("-- z", false))]%py; h_short := (true, true) |} ].
Example diff_applies_witness :
  diff_text demo_heads demo_diff =
    concat (map (λ l, l ++ [NL])
      ["--- a/x"; "+++ b/x"; "@@ -2,3 +2,4 @@"; " b"; "-@@ x"; "+c"; "+"; " "; "@@ -7 +8 @@"; "-z"; "+-- z";
       BS :: " No newline at end of file"])%py ∧
  let all_ascii : Unicode := {| uni_printable := λ _, true; uni_decimal := λ _, None |} in
  _apply_unified_diff (file_bytes (diff_old demo_diff [])) (diff_text demo_heads demo_diff)
  = Ret (file_bytes (diff_new demo_diff []), 2).
Proof.
  split; [vm_compute; reflexivity|]. intros all_ascii. apply (diff_applies demo_heads demo_diff []).
  assert (Hgood : ∀ l, bool_decide (Forall (λ c, c ≠ NL ∧ is_surrogate c = false) l.1) && (l.2 || negb (bool_decide (l.1 = []))) = true →
    good_line l).
  { intros l [Hl%bool_decide_eq_true He]%andb_prop. rewrite Forall_forall in Hl. split_and!.
    - intros Hin. by apply (Hl _ Hin).
    - apply Forall_forall. intros c Hc. by apply (Hl _ Hc).
    - intros E. rewrite E in He. by apply negb_true_iff, bool_decide_eq_false in He. }
  split_and!; [repeat constructor; try reflexivity; apply (bool_decide_unpack _); vm_compute; exact I|discriminate
    |repeat constructor; apply Hgood || vm_compute; reflexivity
    |repeat split; try (apply Hgood; vm_compute; reflexivity); try discriminate; done|vm_compute; reflexivity].
Defined.
