(* ===== verification/JsonFlat.v ===== *)
(** Reading back [json.dumps(d, sort_keys=True, separators=(",", ":"))] for a
    dictionary of strings, integers, booleans and nulls: the lines of the backup
    store's logs. *)

From stdpp Require Import base list sorting.
From Stdlib Require Import NArith ZArith Lia.
From S2P Require Import Prelude PyStr PyFloat Json JsonParse Printing.

(** ** An escaped string *)

(** A character [json.dumps] escapes on its own: no surrogate. *)
Definition scalar (c : N) : Prop := (c < 1114112)%N ∧ is_surrogate c = false.
Definition scalarb (c : N) : bool := ((c <? 1114112)%N && negb (is_surrogate c)).
Lemma scalarb_spec c : scalarb c = true ↔ scalar c.
Proof. unfold scalarb, scalar. by rewrite andb_true_iff, N.ltb_lt, negb_true_iff. Qed.
Definition scalars (s : pystr) : Prop := Forall scalar s.
Lemma scalars_spec s : forallb scalarb s = true ↔ scalars s.
Proof.
  unfold scalars. rewrite forallb_true_forall, Forall_forall.
  split; intros H x Hx; apply scalarb_spec; auto.
Qed.
Lemma scalars_app s t : scalars s → scalars t → scalars (s ++ t).
Proof. apply Forall_app_2. Qed.
Lemma digits_scalars s : Forall (λ c, is_digit c = true) s → scalars s.
Proof.
  intros H. eapply Forall_impl; [exact H|]. intros c Hc. unfold is_digit in Hc. bprop.
  split; [lia|]. unfold is_surrogate. apply andb_false_iff. rewrite !N.leb_gt. lia.
Qed.

Lemma hex_value_digit d : (d < 16)%N → hex_value (hex_digit d) = Some d.
Proof.
  intros Hd. assert (Hin : d ∈ map N.of_nat (seq 0 16)).
  { apply list_elem_of_fmap. exists (N.to_nat d). split; [lia|]. apply elem_of_seq. lia. }
  clear Hd. simpl in Hin. repeat (apply elem_of_cons in Hin as [->|Hin]; [reflexivity|]).
  by apply elem_of_nil in Hin.
Qed.

Lemma hex_pad_digits w n : ∃ ds, hex_pad w n = map hex_digit ds ∧ Forall (λ d, d < 16)%N ds ∧
  undigits 16 0 ds = n.
Proof.
  exists (replicate (w - length (map hex_digit (digits 16 n))) 0%N ++ digits 16 n). split_and!.
  - unfold hex_pad. rewrite map_app. f_equal. symmetry. apply (fmap_replicate hex_digit).
  - apply Forall_app_2; [by apply Forall_replicate|apply digits_bound; lia].
  - rewrite undigits_zeros. apply digits_value; lia.
Qed.

Lemma hex4_pad u rest : (u < 65536)%N → hex4 (hex_pad 4 u ++ rest) = Some (u, rest).
Proof.
  intros Hu. destruct (hex_pad_digits 4 u) as (ds & E & Hd & Hv).
  assert (Hl : length (hex_pad 4 u) = 4).
  { unfold hex_pad. rewrite length_app, length_replicate, length_map.
    pose proof (digits_length 16 ltac:(lia) u 3 Hu). lia. }
  rewrite E, length_map in Hl. rewrite E.
  destruct ds as [|a [|b [|c [|d [|? ?]]]]]; simpl in Hl; try lia. clear Hl E.
  repeat (apply Forall_cons in Hd as [? Hd]). cbn [map app hex4].
  rewrite !hex_value_digit by done. rewrite <- Hv. done.
Qed.

(** What follows is not the escape of a low surrogate. *)
Definition not_low (t : pystr) : Prop :=
  match t with
  | 92%N :: 117%N :: t' => match hex4 t' with
                         | Some (v, _) => is_surrogate v = false ∨ (v < 56320)%N
                         | None => False
                         end
  | _ => True
  end.

Lemma scan_string_u f u t :
  (u < 65536)%N → is_surrogate u = false →
  scan_string (S f) (u_escape u ++ t) = cons_char u (scan_string f t).
Proof.
  intros Hu Hs. unfold u_escape. cbn [app scan_string]. rewrite hex4_pad by done.
  cbn [N.eqb Pos.eqb]. unfold is_surrogate in Hs. apply andb_false_iff in Hs.
  destruct ((55296 <=? u)%N && (u <=? 56319)%N) eqn:E; [|done]. bprop. exfalso.
  destruct Hs; bprop; lia.
Qed.

Lemma scan_string_pair f c t :
  (65536 ≤ c < 1114112)%N →
  scan_string (S f) (u_escape (55296 + (c - 65536) / 1024) ++
                     u_escape (56320 + (c - 65536) mod 1024) ++ t) = cons_char c (scan_string f t).
Proof.
  intros Hc. set (h := ((c - 65536) / 1024)%N). set (l := ((c - 65536) mod 1024)%N).
  assert (Hh : (h < 1024)%N) by (apply N.Div0.div_lt_upper_bound; lia).
  assert (Hl : (l < 1024)%N) by (by apply N.mod_lt).
  pose proof (N.div_mod (c - 65536) 1024 ltac:(done)) as E. fold h l in E.
  pose proof (N.le_0_l h). pose proof (N.le_0_l l). clearbody h l.
  unfold u_escape. rewrite <- !app_comm_cons. cbn [scan_string N.eqb Pos.eqb].
  rewrite hex4_pad by lia.
  rewrite (proj2 (N.leb_le 55296 _)), (proj2 (N.leb_le _ 56319)) by lia. cbn [andb].
  rewrite hex4_pad by lia.
  rewrite (proj2 (N.leb_le 56320 _)), (proj2 (N.leb_le _ 57343)) by lia. cbn [andb].
  f_equal. lia.
Qed.

Lemma scan_string_char f c t :
  scalar c → scan_string (S f) (json_esc_char c ++ t) = cons_char c (scan_string f t).
Proof.
  intros [Hc Hs]. unfold json_esc_char.
  destruct (N.eqb_spec c DQ) as [->|H1]; [done|]. destruct (N.eqb_spec c BS) as [->|H2]; [done|].
  repeat match goal with |- context [(c =? ?k)%N] => destruct (N.eqb_spec c k) as [->|]; [done|] end.
  destruct ((32 <=? c)%N && (c <? 127)%N) eqn:E.
  - bprop. cbn [app scan_string]. rewrite (proj2 (N.eqb_neq c DQ)), (proj2 (N.eqb_neq c BS)) by done.
    by rewrite (proj2 (N.ltb_ge c 32)).
  - destruct (N.ltb_spec c 65536); [by apply scan_string_u|].
    rewrite <- app_assoc. by apply scan_string_pair.
Qed.

Lemma json_esc_char_length c : 1 ≤ length (json_esc_char c).
Proof. unfold json_esc_char, u_escape. repeat case_match; simpl; lia. Qed.
Lemma json_esc_length s : length s ≤ length (json_esc s).
Proof.
  unfold json_esc. induction s as [|c s IH]; simpl; [lia|]. rewrite length_app.
  pose proof (json_esc_char_length c). lia.
Qed.

Lemma scan_string_esc s rest f :
  scalars s → length s < f → scan_string f (json_esc s ++ DQ :: rest) = Ret (s, rest).
Proof.
  unfold json_esc. intros Hs. revert f. induction Hs as [|c s Hc Hs IH]; intros [|f] Hf; simpl in Hf;
    try lia; [done|].
  cbn [map concat]. rewrite <- app_assoc, scan_string_char, IH by (done || lia). done.
Qed.

(** ** A flat dictionary *)

Definition atom (j : json) : Prop :=
  match j with
  | JNull | JBool _ => True
  | JInt z => (length (str_of_N (Z.abs_N z)) <= 4300)%nat
  | JStr s => scalars s
  | _ => False
  end.
Definition ends_value (rest : pystr) : Prop :=
  match rest with c :: _ => c = 44%N ∨ c = 125%N | [] => False end.

Lemma scan_atom j f rest :
  atom j → after_value rest → scan_value (S f) (dumps_compact j ++ rest) = Ret (j, rest).
Proof.
  intros Ha Hr'.
  destruct j as [|b|z|x|s|l|d]; try done.
  - pose proof (scan_constant_literal "null" JNull rest ltac:(auto)) as Hc.
    cbn [app] in Hc. cbn [dumps_compact app scan_value N.eqb Pos.eqb]. by rewrite Hc.
  - pose proof (scan_constant_literal (if b then "true" else "false") (JBool b) rest) as Hc.
    destruct b; cbn [app] in Hc; cbn [dumps_compact app scan_value N.eqb Pos.eqb]; rewrite Hc; auto.
  - destruct (str_of_Z_head z) as (c & t & E & Hv & _ & Hc & H1 & H2 & H3).
    specialize (Hc rest). cbn [dumps_compact]. rewrite E in *. cbn [app scan_value] in *.
    rewrite !(proj2 (N.eqb_neq c _)) by done. rewrite Hc.
    change (c :: t ++ rest) with ((c :: t) ++ rest). rewrite <- E. by apply scan_number_int.
  - cbn [dumps_compact]. unfold json_dumps_str. cbn [app]. rewrite <- app_assoc.
    cbn [app scan_value]. rewrite N.eqb_refl, scan_string_esc; [done|done|].
    rewrite length_app. simpl. pose proof (json_esc_length s). lia.
Qed.
Lemma scan_value_atom j f rest :
  atom j → ends_value rest → scan_value (S f) (dumps_compact j ++ rest) = Ret (j, rest).
Proof. intros Ha Hr. apply scan_atom; [done|]. destruct rest; [done|]; simpl in *; tauto. Qed.

Lemma atom_head j : atom j → ∃ c t, dumps_compact j = c :: t ∧ is_ws c = false.
Proof.
  destruct j as [|[]|z|x|s|l|d]; intros Hp; try done; try by eexists _, _.
  destruct (str_of_Z_head z) as (c & t & E & [Hc _] & _). by exists c, t.
Qed.

(** The members of a dictionary, with blanks behind the commas, behind the colons
    and before the brace. *)
Definition blank (w : pystr) : Prop := Forall (λ c, is_ws c = true) w.
Definition spaced (gap : pystr) (kv : pystr * json) : pystr := json_dumps_str kv.1 ++ ":" ++ gap ++ dumps_compact kv.2.
Definition member (kv : pystr * json) : pystr := json_dumps_str kv.1 ++ ":" ++ dumps_compact kv.2.
Definition flat (d : dict) : Prop := Forall (λ kv, scalars kv.1 ∧ atom kv.2) d.

Lemma skip_blank w s : blank w → skip_ws (w ++ s) = skip_ws s.
Proof. induction 1 as [|c w Hc Hw IH]; [done|]. simpl. by rewrite Hc. Qed.
Lemma spaced_head gap d : d ≠ [] → ∀ sep, ∃ t, join sep (map (spaced gap) d) = DQ :: t.
Proof.
  intros Hd sep. destruct (join_head sep (λ c, c = DQ) (map (spaced gap) d)) as (c & t & E & ->); [by destruct d| |eauto].
  apply Forall_fmap, Forall_forall. intros [k v] _. by eexists _, _.
Qed.
Lemma scan_spaced gap k j f x :
  blank gap → scalars k → atom j → after_value x →
  scan_members (S (S f)) (spaced gap (k, j) ++ x) =
  match skip_ws x with
  | 125%N :: r => Ret ([(k, j)], r)
  | 44%N :: r => let? (d, r) := scan_members (S f) (skip_ws r) in Ret ((k, j) :: d, r)
  | _ => malformed
  end.
Proof.
  intros Hg Hk Hj Hx. unfold spaced, json_dumps_str. cbn [fst snd app]. rewrite <- !app_assoc.
  cbn [app scan_members]. rewrite scan_string_esc; cbn [rbind]; [|done|].
  - rewrite (skip_ws_cons 58%N), <- !app_assoc, skip_blank by done.
    destruct (atom_head j Hj) as (c & t & E & Hc). rewrite E. cbn [app].
    rewrite skip_ws_cons by done. change (c :: t ++ x) with ((c :: t) ++ x). rewrite <- E.
    by rewrite scan_atom.
  - rewrite length_app. simpl. pose proof (json_esc_length k). lia.
Qed.
Lemma scan_members_spaced sep gap tail d f rest :
  blank sep → blank gap → blank tail → (tail = [] ∨ ∃ t, tail = NL :: t) → d ≠ [] → flat d → length d < f →
  scan_members f (join ("," ++ sep) (map (spaced gap) d) ++ tail ++ 125%N :: rest) = Ret (d, rest).
Proof.
  intros Hs Hg Ht Htl Hne Hd. revert f. induction Hd as [|[k j] d [Hk Hj] Hd IH]; [done|]. simpl in Hk, Hj.
  intros [|f] Hf; simpl in Hf; [lia|]. destruct f as [|f]; [lia|].
  destruct d as [|kv2 d].
  { cbn [map join]. rewrite scan_spaced, skip_blank; try done.
    destruct Htl as [->|[t ->]]; [right; by right|right; by left]. }
  rewrite map_cons, join_map_cons by done. rewrite <- !app_assoc, scan_spaced by (done || by left).
  change ("," ++ ?x) with (44%N :: x). rewrite (skip_ws_cons 44%N), skip_blank by done.
  destruct (spaced_head gap (kv2 :: d) ltac:(done) ("," ++ sep)) as [t Et]. rewrite Et. cbn [app].
  rewrite (skip_ws_cons DQ) by done. change (DQ :: t ++ ?x) with ((DQ :: t) ++ x). rewrite <- Et.
  rewrite IH; [done|done|simpl in *; lia].
Qed.

Lemma join_length_le sep ws : length ws ≤ S (length (join sep ws) + length ws * 0) ∨ sep = [].
Proof.
  destruct sep as [|c sep]; [by right|left]. induction ws as [|w [|w2 ws] IH]; [simpl; lia..|].
  rewrite join_map_cons by done. rewrite !length_app. simpl in *. lia.
Qed.

(** [json.loads] of such a text. *)
Lemma loads_spaced start sep gap tail d :
  blank start → blank sep → blank gap → blank tail → (tail = [] ∨ ∃ t, tail = NL :: t) →
  d ≠ [] → flat d → NoDup (dkeys d) →
  loads ("{" ++ start ++ join ("," ++ sep) (map (spaced gap) d) ++ tail ++ "}") = Ret (JDict d).
Proof.
  intros Hst Hs Hg Ht Htl Hne Hd Hn. change ("{" ++ ?x) with (123%N :: x). unfold loads.
  set (t := join _ _). set (text := start ++ t ++ _).
  assert (Hlen : length d ≤ S (length text)).
  { unfold text. rewrite !length_app. destruct (join_length_le ("," ++ sep) (map (spaced gap) d)) as [H|H]; [|done].
    rewrite length_map in H. fold t in H. lia. }
  rewrite (skip_ws_cons 123%N) by done.
  replace (2 * length (123%N :: text) + 2) with (S (S (S (S (2 * length text))))) by (simpl; lia).
  destruct (spaced_head gap d Hne ("," ++ sep)) as [u Et]. change (t = DQ :: u) in Et.
  assert (Hsk : skip_ws text = t ++ tail ++ "}") by (unfold text; rewrite skip_blank by done; by rewrite (skip_ws_head t DQ u)).
  cbn [scan_value N.eqb Pos.eqb]. rewrite Hsk, (eat_other 125%N DQ t u) by done.
  change (tail ++ "}") with (tail ++ 125%N :: []). unfold t.
  rewrite scan_members_spaced; [|done..|lia]. cbn [rbind]. by rewrite dict_of_id.
Qed.

Lemma dumps_compact_dict d :
  dumps_compact (JDict d) = "{" ++ join "," (map member (merge_sort key_le d)) ++ "}".
Proof.
  cbn [dumps_compact]. f_equal. f_equal. f_equal.
  rewrite <- (merge_sort_map (λ kv : pystr * json, (kv.1, dumps_compact kv.2)) key_le key_le) by done.
  rewrite map_map. done.
Qed.

(** [json.loads] undoes it, up to the order of the keys. *)
Lemma loads_flat d :
  d ≠ [] → flat d → NoDup (dkeys d) →
  loads (dumps_compact (JDict d)) = Ret (JDict (merge_sort key_le d)).
Proof.
  intros Hne Hd Hn. rewrite dumps_compact_dict.
  pose proof (merge_sort_Permutation key_le d) as Hp.
  apply (loads_spaced [] [] [] []); try (by constructor); try (by left).
  - intros E; rewrite E in Hp; by apply Permutation_nil_l in Hp.
  - unfold flat. by rewrite Hp.
  - unfold dkeys. by rewrite Hp.
Qed.

(** ** Its characters *)

(** A printable ASCII character: no line end, no blank but the space. *)
Definition visible (c : N) : Prop := (32 ≤ c ∧ c < 128)%N.
Lemma visible_literal w : forallb (λ c, (32 <=? c) && (c <? 128))%N w = true → Forall visible w.
Proof.
  rewrite forallb_true_forall, Forall_forall. intros H c Hc. specialize (H c Hc). bprop.
  unfold visible. lia.
Qed.
Lemma visible_digits s : Forall (λ c, is_digit c = true) s → Forall visible s.
Proof.
  intros H. eapply Forall_impl; [exact H|]. intros c Hc. unfold is_digit, visible in *. bprop. lia.
Qed.
Lemma hex_digit_visible d : (d < 16)%N → visible (hex_digit d).
Proof. unfold hex_digit, visible. intros. destruct (N.ltb_spec d 10); lia. Qed.
Lemma hex_pad_visible w n : Forall visible (hex_pad w n).
Proof.
  destruct (hex_pad_digits w n) as (ds & -> & Hd & _). apply Forall_fmap.
  eapply Forall_impl; [exact Hd|]. intros d. apply hex_digit_visible.
Qed.
Lemma u_escape_visible n : Forall visible (u_escape n).
Proof.
  apply (Forall_app_2 visible [BS; 117%N]); [by apply visible_literal|apply hex_pad_visible].
Qed.
Lemma json_esc_visible s : Forall visible (json_esc s).
Proof.
  unfold json_esc. induction s as [|c s IH]; [constructor|]. simpl. apply Forall_app_2; [|done].
  unfold json_esc_char.
  repeat match goal with |- context [(c =? ?k)%N] =>
    destruct (N.eqb_spec c k); [repeat constructor; unfold visible; by subst|] end.
  destruct ((32 <=? c) && (c <? 127))%N eqn:E; [bprop; repeat constructor; unfold visible; lia|].
  destruct (c <? 65536)%N; [apply u_escape_visible|].
  apply Forall_app_2; apply u_escape_visible.
Qed.
Lemma dumps_str_visible s : Forall visible (json_dumps_str s).
Proof.
  constructor; [unfold visible; lia|]. apply Forall_app_2; [apply json_esc_visible|].
  repeat constructor; unfold visible; lia.
Qed.
Lemma atom_visible j : atom j → Forall visible (dumps_compact j).
Proof.
  destruct j as [|b|z|x|s|l|d]; try done; intros _.
  - by apply visible_literal.
  - by apply visible_literal; destruct b.
  - simpl. unfold str_of_Z. destruct (z <? 0)%Z; [constructor; [unfold visible; lia|]|];
      apply visible_digits, str_of_N_digits.
  - apply dumps_str_visible.
Qed.
Lemma join_visible sep ws : Forall visible sep → Forall (Forall visible) ws → Forall visible (join sep ws).
Proof.
  intros Hs. induction 1 as [|w ws Hw Hws IH]; [constructor|]. destruct ws; [done|].
  rewrite join_map_cons by done. by repeat apply Forall_app_2.
Qed.
Lemma spaced_visible gap kv : Forall visible gap → atom kv.2 → Forall visible (spaced gap kv).
Proof.
  intros Hg Hv. apply Forall_app_2; [apply dumps_str_visible|]. constructor; [unfold visible; lia|].
  apply Forall_app_2; [done|by apply atom_visible].
Qed.
Lemma flat_visible d : flat d → Forall visible (dumps_compact (JDict d)).
Proof.
  intros Hd. rewrite dumps_compact_dict.
  apply Forall_app_2; [by apply visible_literal|]. apply Forall_app_2; [|by apply visible_literal].
  apply join_visible; [by apply visible_literal|]. apply Forall_fmap.
  assert (Hd' : flat (merge_sort key_le d)) by (unfold flat; by rewrite merge_sort_Permutation).
  eapply Forall_impl; [exact Hd'|]. intros kv [_ Hv]. by apply (spaced_visible []).
Qed.
