(* ===== verification/PyInt.v ===== *)
(** [int(value)] of a string or of a JSON value. *)

From stdpp Require Import base list.
From Stdlib Require Import NArith ZArith Lia.
From S2P Require Import Prelude PyStr PyFloat Json JsonParse.

(** Blanks [int] ignores: as [str.isspace], but for four control characters. *)
Definition int_blank (c : N) : bool := (is_space c && negb ((28 <=? c) && (c <=? 31)))%N.
Fixpoint skip_blanks (s : pystr) : pystr :=
  match s with
  | c :: s' => if int_blank c then skip_blanks s' else s
  | [] => []
  end.

Section int.
Context `{Unicode}.

(** Digits, with single underscores between them. *)
Fixpoint int_digits (s : pystr) : option (list N) :=
  match s with
  | [] => None
  | c :: s' =>
      match decimal_value c with
      | None => None
      | Some d =>
          match s' with
          | [] => Some [d]
          | 95%N :: s'' => option_map (cons d) (int_digits s'')
          | _ => option_map (cons d) (int_digits s')
          end
      end
  end.

Definition bad_literal (s : pystr) : exn :=
  Exn "ValueError" ("invalid literal for int() with base 10: " ++ repr_str s).

Definition int_of_str (s : pystr) : res Z :=
  let t := rev (skip_blanks (rev (skip_blanks s))) in
  let '(neg, ds) := match t with
                    | 45%N :: r => (true, r)
                    | 43%N :: r => (false, r)
                    | _ => (false, t)
                    end in
  match int_digits ds with
  | None => Raise (bad_literal s)
  | Some l => if (4300 <? length l)%nat then Raise int_too_long
              else Ret (signed neg (undigits 10 0 l))
  end.

Definition not_a_number (type : pystr) : exn :=
  Exn "TypeError" ("int() argument must be a string, a bytes-like object or a real number, not '"
                   ++ type ++ "'").

(** A float is truncated towards zero. *)
Definition int_of_float (x : pyfloat) : res Z :=
  match x with
  | FNan => Raise (Exn "ValueError" "cannot convert float NaN to integer")
  | FInf _ => Raise (Exn "OverflowError" "cannot convert float infinity to integer")
  | FFin neg m e =>
      Ret (signed neg (if (0 <=? e)%Z then m * 2 ^ Z.to_N e else m / 2 ^ Z.to_N (- e))%N)
  end.

Definition py_int (j : json) : res Z :=
  match j with
  | JInt z => Ret z
  | JBool b => Ret (if b then 1 else 0)%Z
  | JFloat x => int_of_float x
  | JStr s => int_of_str s
  | JNull => Raise (not_a_number "NoneType")
  | JList _ => Raise (not_a_number "list")
  | JDict _ => Raise (not_a_number "dict")
  end.
End int.

Lemma skip_blanks_digits s t : Forall (λ c, is_digit c = true) s → s ≠ [] → skip_blanks (s ++ t) = s ++ t.
Proof.
  intros Hs Hn. destruct s as [|c s]; [done|]. apply Forall_cons in Hs as [Hc _]. simpl.
  unfold int_blank, is_space, is_digit in *. bprop.
  repeat match goal with |- context [(?a <=? ?b)%N] => destruct (N.leb_spec a b); try lia end.
  repeat match goal with |- context [(?a =? ?b)%N] => destruct (N.eqb_spec a b); try lia end. done.
Qed.

Lemma int_digits_plain `{Unicode} s :
  Forall (λ c, is_digit c = true) s → s ≠ [] → int_digits s = Some (map (λ c, c - 48)%N s).
Proof.
  induction 1 as [|c s Hc Hs IH]; [done|]. intros _. cbn [int_digits map].
  assert (Hd : decimal_value c = Some (c - 48)%N).
  { unfold decimal_value, is_ascii. rewrite Hc. unfold is_digit in Hc. bprop.
    by rewrite (proj2 (N.ltb_lt c 128)) by lia. }
  rewrite Hd. destruct s as [|d s]; [done|]. rewrite IH by done.
  apply Forall_cons in Hs as [Hd' _]. destruct (decide (d = 95%N)) as [->|]; [done|].
  repeat case_match; try done; congruence.
Qed.

(** [int(str(z)) == z], up to 4300 digits. *)
Lemma int_of_str_of_Z `{Unicode} z :
  length (str_of_N (Z.abs_N z)) ≤ 4300 → int_of_str (str_of_Z z) = Ret z.
Proof.
  intros Hl. pose proof (str_of_N_digits (Z.abs_N z)) as Hd.
  pose proof (str_of_N_nonempty (Z.abs_N z)) as Hn.
  pose proof (str_of_N_value (Z.abs_N z)) as Hv.
  set (ds := str_of_N (Z.abs_N z)) in *.
  assert (Hs : ∀ p, Forall (λ c, int_blank c = false) p → p ++ ds = str_of_Z z →
               rev (skip_blanks (rev (skip_blanks (str_of_Z z)))) = str_of_Z z).
  { intros p Hp <-. assert (Hb : skip_blanks (p ++ ds) = p ++ ds).
    { destruct p as [|c p]; [|apply Forall_cons in Hp as [Hc _]; simpl; by rewrite Hc].
      pose proof (skip_blanks_digits ds [] Hd Hn) as E. by rewrite app_nil_r in E. }
    rewrite Hb, rev_app_distr, skip_blanks_digits, <- rev_app_distr, rev_involutive; [done| |].
    - by apply Forall_rev.
    - intros E. apply Hn. rewrite <- (rev_involutive ds), E. done. }
  unfold int_of_str. unfold str_of_Z in *. fold ds in Hs |- *. clearbody ds.
  assert (Hg : (4300 <? length (map (λ c, c - 48)%N ds))%nat = false).
  { rewrite length_map. by apply Nat.ltb_ge. }
  destruct (Z.ltb_spec z 0).
  - rewrite (Hs [45%N]) by (done || by repeat constructor).
    rewrite int_digits_plain, Hg, Hv by done. unfold signed. f_equal. lia.
  - rewrite (Hs []) by done.
    assert (Hm : match ds with 45%N :: r => (true, r) | 43%N :: r => (false, r) | _ => (false, ds) end
                 = (false, ds)).
    { destruct ds as [|d ds]; [done|]. apply Forall_cons in Hd as [Hd _].
      repeat case_match; try done. }
    rewrite Hm, int_digits_plain, Hg, Hv by done. unfold signed. f_equal. lia.
Qed.
