(* ===== verification/Base64.v ===== *)
(** [base64.b64encode] and the lenient [base64.b64decode]. *)

From stdpp Require Import base list.
From Stdlib Require Import NArith ZArith Lia.
From S2P Require Import Prelude PyStr.

(** The character of a value below 64. *)
Definition b64_char (v : N) : N :=
  (if v <? 26 then 65 + v else if v <? 52 then 71 + v else if v <? 62 then v - 4
   else if v =? 62 then 43 else 47)%N.
Definition b64_value (c : N) : option N :=
  (if (65 <=? c) && (c <=? 90) then Some (c - 65)
   else if (97 <=? c) && (c <=? 122) then Some (c - 71)
   else if (48 <=? c) && (c <=? 57) then Some (c + 4)
   else if c =? 43 then Some 62 else if c =? 47 then Some 63 else None)%N.

Fixpoint b64encode (bs : list N) : pystr :=
  match bs with
  | [] => []
  | [a] => [b64_char (a / 4); b64_char (a mod 4 * 16); 61; 61]%N
  | [a; b] => [b64_char (a / 4); b64_char (a mod 4 * 16 + b / 16); b64_char (b mod 16 * 4); 61]%N
  | a :: b :: c :: bs =>
      ([b64_char (a / 4); b64_char (a mod 4 * 16 + b / 16); b64_char (b mod 16 * 4 + c / 64);
        b64_char (c mod 64)] ++ b64encode bs)%N
  end.

(** The state of the decoder: how many characters of the current group it has
    read, the bits left over, the padding seen since the last of them. *)
Record b64_state := { quad_pos : nat; leftchar : N; pads : nat; out_rev : list N }.
Definition b64_init : b64_state := {| quad_pos := 0; leftchar := 0; pads := 0; out_rev := [] |}.
Definition b64_push (st : b64_state) (v : N) : b64_state :=
  let out := out_rev st in
  match quad_pos st with
  | 0 => {| quad_pos := 1; leftchar := v; pads := 0; out_rev := out |}
  | 1 => {| quad_pos := 2; leftchar := v mod 16; pads := 0;
            out_rev := ((leftchar st * 4 + v / 16) mod 256)%N :: out |}
  | 2 => {| quad_pos := 3; leftchar := v mod 4; pads := 0;
            out_rev := ((leftchar st * 16 + v / 4) mod 256)%N :: out |}
  | _ => {| quad_pos := 0; leftchar := 0; pads := 0;
            out_rev := ((leftchar st * 64 + v) mod 256)%N :: out |}
  end.
Definition b64_finish (st : b64_state) : res (list N) :=
  match quad_pos st with
  | 0 => Ret (rev (out_rev st))
  | 1 => Raise (Exn "binascii.Error"
           ("Invalid base64-encoded string: number of data characters ("
            ++ str_of_nat (length (out_rev st) / 3 * 4 + 1)
            ++ ") cannot be 1 more than a multiple of 4"))
  | _ => Raise (Exn "binascii.Error" "Incorrect padding")
  end.
(** [binascii.a2b_base64]: characters outside the alphabet are skipped, and the
    padding that completes a group ends the text. *)
Fixpoint a2b_base64 (s : list N) (st : b64_state) : res (list N) :=
  match s with
  | [] => b64_finish st
  | c :: s =>
      if (c =? 61)%N then
        if (2 <=? quad_pos st)%nat then
          if (4 <=? quad_pos st + S (pads st))%nat then Ret (rev (out_rev st))
          else a2b_base64 s {| quad_pos := quad_pos st; leftchar := leftchar st;
                               pads := S (pads st); out_rev := out_rev st |}
        else a2b_base64 s st
      else match b64_value c with
           | None => a2b_base64 s st
           | Some v => a2b_base64 s (b64_push st v)
           end
  end.
Definition b64decode (s : pystr) : res (list N) :=
  if forallb is_ascii s then a2b_base64 s b64_init
  else Raise (Exn "ValueError" "string argument should contain only ASCII characters").

(** ** Decoding undoes encoding *)

Definition is_byte (b : N) : Prop := (b < 256)%N.

Lemma below_64 (P : N → Prop) : (∀ n : nat, (n < 64)%nat → P (N.of_nat n)) → ∀ v, (v < 64)%N → P v.
Proof. intros H v Hv. rewrite <- (N2Nat.id v). apply H. lia. Qed.
Lemma b64_value_char v : (v < 64)%N → b64_value (b64_char v) = Some v ∧ (b64_char v =? 61)%N = false ∧
                                      is_ascii (b64_char v) = true.
Proof.
  apply (below_64 (λ v, b64_value (b64_char v) = Some v ∧ (b64_char v =? 61)%N = false ∧
                        is_ascii (b64_char v) = true)).
  intros n Hn. do 64 (destruct n as [|n]; [by vm_compute|]). lia.
Qed.
Lemma a2b_char v s st : (v < 64)%N → a2b_base64 (b64_char v :: s) st = a2b_base64 s (b64_push st v).
Proof. intros Hv. destruct (b64_value_char v Hv) as (E1 & E2 & _). simpl. by rewrite E2, E1. Qed.

Lemma group_bits a b : is_byte a → is_byte b →
  (a / 4 < 64 ∧ a mod 4 * 16 + b / 16 < 64 ∧ (a mod 4 * 16 + b / 16) / 16 = a mod 4 ∧
   (a mod 4 * 16 + b / 16) mod 16 = b / 16)%N.
Proof.
  unfold is_byte. intros Ha Hb.
  assert (Hq : (b / 16 < 16)%N) by (apply N.Div0.div_lt_upper_bound; lia).
  pose proof (N.mod_lt a 4 ltac:(done)) as Hm.
  pose proof (N.le_0_l (b / 16)) as Hz. pose proof (N.le_0_l (a mod 4)) as Hz'.
  split; [apply N.Div0.div_lt_upper_bound; lia|]. revert Hq Hm Hz Hz'.
  generalize (b / 16)%N (a mod 4)%N. intros x y Hx Hy _ _. split; [lia|]. split.
  - symmetry. apply (N.div_unique _ _ _ x); lia.
  - symmetry. apply (N.mod_unique _ _ y x); lia.
Qed.
Lemma group_bits' b c : is_byte b → is_byte c →
  (b mod 16 * 4 + c / 64 < 64 ∧ (b mod 16 * 4 + c / 64) / 4 = b mod 16 ∧
   (b mod 16 * 4 + c / 64) mod 4 = c / 64)%N.
Proof.
  unfold is_byte. intros Hb Hc.
  assert (Hq : (c / 64 < 4)%N) by (apply N.Div0.div_lt_upper_bound; lia).
  pose proof (N.mod_lt b 16 ltac:(done)) as Hm. revert Hq Hm.
  pose proof (N.le_0_l (c / 64)) as Hz. pose proof (N.le_0_l (b mod 16)) as Hz'. revert Hz Hz'.
  generalize (c / 64)%N (b mod 16)%N. intros x y _ _ Hx Hy. split; [lia|]. split.
  - symmetry. apply (N.div_unique _ _ _ x); lia.
  - symmetry. apply (N.mod_unique _ _ y x); lia.
Qed.
Lemma rejoin k a : (k ≠ 0)%N → is_byte a → ((a / k * k + a mod k) mod 256 = a)%N.
Proof.
  intros Hk Ha. replace (a / k * k + a mod k)%N with a; [by apply N.mod_small|].
  rewrite (N.div_mod a k) at 1 by done. lia.
Qed.

Definition ready (out : list N) : b64_state :=
  {| quad_pos := 0; leftchar := 0; pads := 0; out_rev := out |}.

Lemma list_ind3 {A} (P : list A → Prop) :
  P [] → (∀ a, P [a]) → (∀ a b, P [a; b]) → (∀ a b c l, P l → P (a :: b :: c :: l)) → ∀ l, P l.
Proof.
  intros H0 H1 H2 H3. fix IH 1. intros [|a [|b [|c l]]]; [done|apply H1|apply H2|apply H3, IH].
Qed.

Lemma a2b_encode bs out :
  Forall is_byte bs → a2b_base64 (b64encode bs) (ready out) = Ret (rev out ++ bs).
Proof.
  intros Hb. revert out. induction bs as [|a|a b|a b c bs IH] using list_ind3; intros out.
  - simpl. by rewrite app_nil_r.
  - apply Forall_cons in Hb as [Ha _].
    destruct (group_bits a 0 Ha ltac:(done)) as (H1 & H2 & H3 & H4).
    change (0 / 16)%N with 0%N in *. rewrite !N.add_0_r in *. cbn [b64encode].
    rewrite !a2b_char by done. unfold ready, b64_push. cbn [quad_pos leftchar out_rev].
    rewrite H3, rejoin by done. simpl. done.
  - apply Forall_cons in Hb as [Ha [Hb _]%Forall_cons].
    destruct (group_bits a b Ha Hb) as (H1 & H2 & H3 & H4).
    destruct (group_bits' b 0 Hb ltac:(done)) as (H5 & H6 & H7).
    change (0 / 64)%N with 0%N in *. rewrite !N.add_0_r in H5, H6, H7. cbn [b64encode].
    rewrite !a2b_char by done. unfold ready, b64_push. cbn [quad_pos leftchar out_rev].
    rewrite H3, H4, H6, !rejoin by done. simpl. by rewrite <- app_assoc.
  - apply Forall_cons in Hb as [Ha [Hb [Hc Hbs]%Forall_cons]%Forall_cons].
    destruct (group_bits a b Ha Hb) as (H1 & H2 & H3 & H4).
    destruct (group_bits' b c Hb Hc) as (H5 & H6 & H7).
    assert (H8 : (c mod 64 < 64)%N) by (by apply N.mod_lt).
    cbn [b64encode app]. rewrite !a2b_char by done. unfold ready, b64_push.
    cbn [quad_pos leftchar out_rev]. rewrite H3, H4, H6, H7, !rejoin by done.
    change {| quad_pos := 0; leftchar := 0; pads := 0; out_rev := ?o |} with (ready o).
    rewrite IH by done. simpl. by rewrite <- !app_assoc.
Qed.

Lemma b64encode_ascii bs : Forall is_byte bs → forallb is_ascii (b64encode bs) = true.
Proof.
  induction bs as [|a|a b|a b c bs IH] using list_ind3; intros Hb.
  - done.
  - apply Forall_cons in Hb as [Ha _].
    destruct (group_bits a 0 Ha ltac:(done)) as (H1 & H2 & _). change (0 / 16)%N with 0%N in *.
    rewrite !N.add_0_r in *. simpl. by rewrite !(λ v H, proj2 (proj2 (b64_value_char v H))) by done.
  - apply Forall_cons in Hb as [Ha [Hb _]%Forall_cons].
    destruct (group_bits a b Ha Hb) as (H1 & H2 & _).
    destruct (group_bits' b 0 Hb ltac:(done)) as (H5 & _).
    change (0 / 64)%N with 0%N in *. rewrite !N.add_0_r in H5.
    simpl. by rewrite !(λ v H, proj2 (proj2 (b64_value_char v H))) by done.
  - apply Forall_cons in Hb as [Ha [Hb [Hc Hbs]%Forall_cons]%Forall_cons].
    destruct (group_bits a b Ha Hb) as (H1 & H2 & _).
    destruct (group_bits' b c Hb Hc) as (H5 & _).
    assert (H8 : (c mod 64 < 64)%N) by (by apply N.mod_lt).
    cbn [b64encode app forallb]. rewrite !(λ v H, proj2 (proj2 (b64_value_char v H))) by done.
    by apply IH.
Qed.

(** [base64.b64decode(base64.b64encode(b)) == b] *)
Lemma b64decode_encode bs : Forall is_byte bs → b64decode (b64encode bs) = Ret bs.
Proof. intros Hb. unfold b64decode. rewrite b64encode_ascii by done. by apply (a2b_encode bs []). Qed.

(** The text without its padding, reversed. *)
Fixpoint lstrip_pad (s : pystr) : pystr :=
  match s with 61%N :: s => lstrip_pad s | _ => s end.
Lemma lstrip_pad_app k s : lstrip_pad (replicate k 61%N ++ s) = lstrip_pad s.
Proof. induction k as [|k IH]; [done|]. exact IH. Qed.
Lemma lstrip_pad_head c s : (c =? 61)%N = false → lstrip_pad (c :: s) = c :: s.
Proof. intros Hc. simpl. repeat (case_match; try done). Qed.

(** The characters of the text and its padding. *)
Lemma b64_shape bs :
  Forall is_byte bs →
  ∃ body, b64encode bs = map b64_char body ++ replicate (Z.to_nat ((- Z.of_nat (length body)) mod 4)) 61%N ∧
    Forall (λ v, v < 64)%N body ∧ (bs ≠ [] → body ≠ []) ∧
    Z.of_nat (length body) = ((4 * Z.of_nat (length bs) + 2) / 3)%Z.
Proof.
  induction bs as [|a|a b|a b c bs IH] using list_ind3; intros Hb.
  - by exists [].
  - apply Forall_cons in Hb as [Ha _]. destruct (group_bits a 0 Ha ltac:(done)) as (H1 & H2 & _).
    change (0 / 16)%N with 0%N in *. rewrite N.add_0_r in H2. exists [a / 4; a mod 4 * 16]%N. by split; [|split; [repeat constructor|split]].
  - apply Forall_cons in Hb as [Ha [Hb _]%Forall_cons]. destruct (group_bits a b Ha Hb) as (H1 & H2 & _).
    destruct (group_bits' b 0 Hb ltac:(done)) as (H5 & _). change (0 / 64)%N with 0%N in *. rewrite N.add_0_r in H5.
    exists [a / 4; a mod 4 * 16 + b / 16; b mod 16 * 4]%N. by split; [|split; [repeat constructor|split]].
  - apply Forall_cons in Hb as [Ha [Hb [Hc Hbs]%Forall_cons]%Forall_cons].
    destruct (group_bits a b Ha Hb) as (H1 & H2 & _). destruct (group_bits' b c Hb Hc) as (H5 & _).
    assert (H8 : (c mod 64 < 64)%N) by (by apply N.mod_lt). destruct (IH Hbs) as (body & E & Hf & _ & Hlen).
    exists ((a / 4) :: (a mod 4 * 16 + b / 16) :: (b mod 16 * 4 + c / 64) :: (c mod 64) :: body)%N. split; [|split; [by repeat constructor|split; [done|]]].
    2: { cbn [length]. rewrite !Nat2Z.inj_succ, Hlen. generalize (Z.of_nat (length bs)). intros n.
         replace (4 * Z.succ (Z.succ (Z.succ n)) + 2)%Z with (4 * n + 2 + 4 * 3)%Z by lia.
         rewrite Z.div_add by done. lia. }
    cbn [b64encode map app length]. rewrite E.
    replace (- Z.of_nat (S (S (S (S (length body))))))%Z with (- Z.of_nat (length body) + -1 * 4)%Z by lia.
    rewrite Z.mod_add by lia. done.
Qed.
