(* ===== verification/SafeFd.v ===== *)
(** Descriptor-rooted file access ([safe_fd.py]): a path is opened component by
    component below an allowed root, and files are read, replaced and removed
    relative to the directory so opened.

    A descriptor is the canonical location of what it denotes.  The operating
    system is the documented behaviour of the calls the module makes, over a
    disk that maps locations to files, directories and symbolic links; a call
    may also fail for a reason of its own, which an oracle decides. *)

From stdpp Require Import base list gmap.
From Stdlib Require Import NArith ZArith Lia.
From S2P Require Import Prelude PyStr SafePath.

(** ** The disk *)

Inductive node := File (data : list N) | Dir | Link (target : pystr).
#[global] Instance node_eq_dec : EqDecision node.
Proof. solve_decision. Defined.
(** Keyed by the parts of the location; the root directory is always there. *)
Abbreviation disk := (gmap (list pystr) node).
Definition node_at (d : disk) (p : list pystr) : option node :=
  match p with [] => Some Dir | _ => d !! p end.
Definition link_target (n : node) : option pystr :=
  match n with Link t => Some t | _ => None end.
Definition links_of (d : disk) : links := omap link_target d.
(** Every location has a name, and lies in a directory. *)
Definition disk_wf (d : disk) : Prop :=
  ∀ p, p ∈ dom d → ∃ q n, p = q ++ [n] ∧ node_at d q = Some Dir.

(** ** Errors *)

(** What a call can fail with whatever the disk holds. *)
Inductive fault := EACCES | EPERM | EIO | ENOSPC | ENAMETOOLONG | EROFS | EMFILE | ENOSYS | EXDEV.
Inductive errno := ENOENT | ENOTDIR | EISDIR | EEXIST | ENOTEMPTY | EINVAL | ELOOP | EFault (f : fault).
#[global] Instance fault_eq_dec : EqDecision fault.
Proof. solve_decision. Defined.
#[global] Instance errno_eq_dec : EqDecision errno.
Proof. solve_decision. Defined.

Definition errno_number (e : errno) : N :=
  match e with
  | ENOENT => 2 | EEXIST => 17 | ENOTDIR => 20 | EISDIR => 21 | EINVAL => 22
  | ENOTEMPTY => 39 | ELOOP => 40
  | EFault EPERM => 1 | EFault EIO => 5 | EFault EACCES => 13 | EFault EXDEV => 18
  | EFault EMFILE => 24 | EFault ENOSPC => 28 | EFault EROFS => 30
  | EFault ENAMETOOLONG => 36 | EFault ENOSYS => 38
  end.
Definition strerror (e : errno) : pystr :=
  match e with
  | ENOENT => "No such file or directory" | EEXIST => "File exists"
  | ENOTDIR => "Not a directory" | EISDIR => "Is a directory"
  | EINVAL => "Invalid argument" | ENOTEMPTY => "Directory not empty"
  | ELOOP => "Too many levels of symbolic links"
  | EFault EPERM => "Operation not permitted" | EFault EIO => "Input/output error"
  | EFault EACCES => "Permission denied" | EFault EXDEV => "Invalid cross-device link"
  | EFault EMFILE => "Too many open files" | EFault ENOSPC => "No space left on device"
  | EFault EROFS => "Read-only file system" | EFault ENAMETOOLONG => "File name too long"
  | EFault ENOSYS => "Function not implemented"
  end.

(** What an [OSError] names: nothing, a name, two names, or a descriptor. *)
Inductive os_names := NoName | Name (w : pystr) | Names (w x : pystr) | Fd (n : N).
(** [str(exc)] *)
Definition oserror_str `{Unicode} (e : errno) (names : os_names) : pystr :=
  "[Errno " ++ str_of_N (errno_number e) ++ "] " ++ strerror e ++
  match names with
  | NoName => []
  | Name w => ": " ++ repr_str w
  | Names w x => ": " ++ repr_str w ++ " -> " ++ repr_str x
  | Fd n => ": " ++ str_of_N n
  end.

(** An exception of this module: an [OSError], the two of [safe_path], or
    another one (a name that cannot be encoded). *)
Inductive fserr :=
| OsError (e : errno) (names : os_names)
| Bounds
| NoRoots
| PyError (e : exn).
Inductive out (A : Type) := Ok (a : A) | Err (e : fserr).
Arguments Ok {A} a.
Arguments Err {A} e.
Definition obind {A B} (m : out A) (f : A → out B) : out B :=
  match m with Ok a => f a | Err e => Err e end.
Notation "'let#' x ':=' m 'in' k" := (obind m (λ x, k))
  (at level 10, x pattern, m at level 100, k at level 200) : res_scope.

(** ** The calls of the operating system *)

Inductive syscall :=
| SysOpenRoot (p : list pystr) | SysOpenat2 (p : list pystr) | SysOpenat (p : list pystr)
| SysRead (p : list pystr) | SysCreate (p : list pystr) | SysWrite (p : list pystr)
| SysReplace (p q : list pystr) | SysUnlink (p : list pystr)
| SysStat (p : list pystr) | SysScan (p : list pystr).
Class Os := {
  (** the failure of a call, if it fails whatever the disk holds *)
  os_fault : syscall → option fault;
  (** [_sys_openat2()] is a number on this machine *)
  os_openat2 : bool;
  (** the bytes a failing write has left in the file *)
  os_partial : nat;
  (** the number of the descriptor an error message shows *)
  os_fd : N }.

Definition lookup_budget : nat := 40.
(** A path walked from [cur], links followed. *)
Fixpoint namei (budget : nat) (d : disk) {struct budget} : list pystr → list pystr → errno + list pystr :=
  fix go (cur rest : list pystr) {struct rest} :=
  match rest with
  | [] => inr cur
  | n :: rest =>
      match node_at d cur with
      | Some Dir =>
          if negb (real_part n) then go cur rest
          else if bool_decide (n = ".."%py) then go (removelast cur) rest
          else
            match node_at d (cur ++ [n]), budget with
            | None, _ => inl ENOENT
            | Some (Link _), O => inl ELOOP
            | Some (Link t), S b =>
                namei b d (if startswith t [SL] then [] else cur) (split_on SL t ++ rest)
            | Some _, _ => go (cur ++ [n]) rest
            end
      | _ => inl ENOTDIR
      end
  end.

(** [openat2] with [RESOLVE_BENEATH | RESOLVE_NO_SYMLINKS] and [O_NOFOLLOW]. *)
Fixpoint beneath (d : disk) (cur ps : list pystr) (dir_fd_only : bool) : errno + list pystr :=
  match ps with
  | [] => inr cur
  | n :: rest =>
      let next := cur ++ [n] in
      match node_at d next, rest with
      | None, _ => inl ENOENT
      | Some (Link _), [] => inl (if dir_fd_only then ENOTDIR else ELOOP)
      | Some (Link _), _ => inl ELOOP
      | Some (File _), [] => if dir_fd_only then inl ENOTDIR else inr next
      | Some (File _), _ => inl ENOTDIR
      | Some Dir, _ => beneath d next rest dir_fd_only
      end
  end.

(** [os.open(n, ..., dir_fd=cur)] with [O_NOFOLLOW], and [O_DIRECTORY] when [dir]. *)
Definition openat (d : disk) (cur : list pystr) (n : pystr) (dir : bool) : errno + list pystr :=
  match node_at d (cur ++ [n]) with
  | None => inl ENOENT
  | Some (Link _) => inl (if dir then ENOTDIR else ELOOP)
  | Some (File _) => if dir then inl ENOTDIR else inr (cur ++ [n])
  | Some Dir => inr (cur ++ [n])
  end.

(** What [os.fsencode] and the NUL check refuse of a name. *)
Definition name_error (w : pystr) : option exn :=
  if existsb (λ c, is_surrogate c && negb ((56448 <=? c) && (c <=? 56575))%N) w
  then Some (Exn "UnicodeEncodeError" "surrogates not allowed")
  else if existsb (N.eqb 0) w
  then Some (Exn "ValueError" "embedded null byte")
  else None.

(** A call that fails by the oracle, or does what it does. *)
Definition sys {A} `{Os} (c : syscall) (names : os_names) (r : errno + A) : out A :=
  match os_fault c with
  | Some f => Err (OsError (EFault f) names)
  | None => match r with inl e => Err (OsError e names) | inr a => Ok a end
  end.
Definition named {A} (w : pystr) (r : out A) : out A :=
  match name_error w with Some e => Err (PyError e) | None => r end.

(** [O_CREAT | O_EXCL] *)
Definition sys_create (d : disk) (p : list pystr) : errno + disk :=
  match node_at d p with Some _ => inl EEXIST | None => inr (<[p := File []]> d) end.
Definition sys_unlink (d : disk) (p : list pystr) : errno + disk :=
  match node_at d p with
  | None => inl ENOENT
  | Some Dir => inl EISDIR
  | Some _ => inr (delete p d)
  end.
(** The part of a location below [p]. *)
Fixpoint below (p q : list pystr) : option (list pystr) :=
  match p, q with
  | [], _ => Some q
  | a :: p, b :: q => if bool_decide (a = b) then below p q else None
  | _, _ => None
  end.
Definition empty_dir (d : disk) (p : list pystr) : bool :=
  forallb (λ kv : list pystr * node, match below p kv.1 with Some (_ :: _) => false | _ => true end)
    (map_to_list d).
Definition move_tree (d : disk) (s t : list pystr) : disk :=
  list_to_map (map (λ kv : list pystr * node,
                      (match below s kv.1 with Some r => t ++ r | None => kv.1 end, kv.2))
                 (map_to_list (delete t d))).
(** [rename] *)
Definition sys_rename (d : disk) (s t : list pystr) : errno + disk :=
  match node_at d s, node_at d t with
  | None, _ => inl ENOENT
  | Some Dir, Some (File _ | Link _) => inl ENOTDIR
  | Some Dir, target =>
      if bool_decide (s = t) then inr d
      else if bool_decide (is_Some (below s t)) then inl EINVAL
      else match target with
           | None => inr (move_tree d s t)
           | _ => if empty_dir d t then inr (move_tree d s t) else inl ENOTEMPTY
           end
  | Some n, Some Dir => inl EISDIR
  | Some n, _ => inr (<[t := n]> (delete s d))
  end.

(** ** Opening *)

Fixpoint root_matches (raw : path) (roots : list path) : out (list (path * list pystr)) :=
  match roots with
  | [] => Ok []
  | r :: roots =>
      if relative_to raw r then
        let rel := drop (length (parts r)) (parts raw) in
        if bool_decide (".."%py ∈ rel) then Err Bounds
        else let# ms := root_matches raw roots in Ok ((r, rel) :: ms)
      else root_matches raw roots
  end.
(** [max] keeps the first of the longest. *)
Fixpoint longest_root (best : path * list pystr) (ms : list (path * list pystr)) : path * list pystr :=
  match ms with
  | [] => best
  | m :: ms =>
      longest_root (if (length (parts best.1) <? length (parts m.1))%nat then m else best) ms
  end.
Definition _relative_to_root (p : pystr) (roots : list path) : out (path * list pystr) :=
  match roots with
  | [] => Err NoRoots
  | _ =>
      let raw := path_of p in
      if bool_decide (p = []) || bool_decide (root raw = []) then Err Bounds
      else
        let# ms := root_matches raw roots in
        match ms with
        | [] => Err Bounds
        | m :: ms => Ok (longest_root m ms)
        end
  end.

Definition _open_root `{Os} (d : disk) (r : path) : out (list pystr) :=
  sys (SysOpenRoot (parts r)) (Name (path_str r))
    match namei lookup_budget d [] (parts r) with
    | inr loc => match node_at d loc with Some Dir => inr loc | _ => inl ENOTDIR end
    | inl e => inl e
    end.

Definition _openat2_beneath `{Os} (d : disk) (root_fd rel_parts : list pystr) (dir_fd_only : bool)
    : out (list pystr) :=
  if negb os_openat2 then Err (OsError (EFault ENOSYS) NoName)
  else if existsb is_surrogate (concat rel_parts)
  then Err (PyError (Exn "UnicodeEncodeError" "surrogates not allowed"))
  else
    match sys (SysOpenat2 (root_fd ++ rel_parts)) NoName (beneath d root_fd rel_parts dir_fd_only) with
    | Err (OsError (ELOOP | EFault EXDEV) _) => Err Bounds
    | r => r
    end.

Definition _raise_if_symlink (d : disk) (fd : list pystr) : out unit :=
  match node_at d fd with Some (Link _) => Err Bounds | _ => Ok tt end.

Fixpoint fallback_from `{Os} (d : disk) (current ps : list pystr) (dir_fd_only : bool)
    : out (list pystr) :=
  match ps with
  | [] => Ok current
  | part :: ps =>
      let# next_fd :=
        match named part (sys (SysOpenat (current ++ [part])) (Name part)
                            (openat d current part (match ps with [] => dir_fd_only | _ => true end))) with
        | Err (OsError ELOOP _) => Err Bounds
        | r => r
        end in
      let# _ := _raise_if_symlink d next_fd in
      fallback_from d next_fd ps dir_fd_only
  end.
Definition _fallback_openat `{Os} (d : disk) (root_fd rel_parts : list pystr) (dir_fd_only : bool)
    : out (list pystr) :=
  match rel_parts with
  | [] => sys (SysOpenat root_fd) (Name ".") (inr root_fd)
  | _ => fallback_from d root_fd rel_parts dir_fd_only
  end.

Definition open_safe_fd `{Os} (d : disk) (p : pystr) (roots : list path) (dir_fd_only : bool)
    : out (list pystr) :=
  if bool_decide (0%N ∈ p) then Err Bounds
  else
    let# (r, rel_parts) := _relative_to_root p roots in
    let# root_fd := _open_root d r in
    match _openat2_beneath d root_fd rel_parts dir_fd_only with
    | Err (OsError _ _) => _fallback_openat d root_fd rel_parts dir_fd_only
    | x => x
    end.

Definition open_safe_parent_dir `{Os} (d : disk) (p : pystr) (roots : list path)
    : out (list pystr * pystr) :=
  let basename := path_name (path_of p) in
  if bool_decide (basename = []) || bool_decide (basename ∈ ["."%py; ".."%py]) then Err Bounds
  else
    let# dir_fd := open_safe_fd d (path_str (path_parent (path_of p))) roots true in
    Ok (dir_fd, basename).

(** ** Reading and changing files *)

Definition read_bytes_safe `{Os} (d : disk) (p : pystr) (roots : list path) (missing_ok : bool)
    : out (list N) :=
  match open_safe_fd d p roots false with
  | Err (OsError ENOENT names) => if missing_ok then Ok [] else Err (OsError ENOENT names)
  | Err e => Err e
  | Ok fd =>
      match node_at d fd with
      | Some (File data) => sys (SysRead fd) NoName (inr data)
      | _ => Err (OsError EISDIR (Fd os_fd))
      end
  end.

(** A write that fails has written [os_partial] bytes. *)
Definition write_all `{Os} (d : disk) (fd : list pystr) (data : list N) : out unit * disk :=
  match os_fault (SysWrite fd) with
  | Some f => (Err (OsError (EFault f) NoName), <[fd := File (take os_partial data)]> d)
  | None => (Ok tt, <[fd := File data]> d)
  end.
(** [suppress(OSError): os.unlink(...)] *)
Definition unlink_quietly `{Os} (d : disk) (p : list pystr) : disk :=
  match sys (SysUnlink p) NoName (sys_unlink d p) with Ok d => d | Err _ => d end.
Definition replace_at `{Os} (d : disk) (sdir : list pystr) (s : pystr) (ddir : list pystr) (t : pystr)
    : out disk :=
  named s (named t (sys (SysReplace (sdir ++ [s]) (ddir ++ [t])) (Names s t)
                      (sys_rename d (sdir ++ [s]) (ddir ++ [t])))).

(** [token] is the text of [secrets.token_hex(8)]. *)
(** [path.mkdir(parents=True, exist_ok=True)] from the directory [cur]; the
    location of the directory. *)
Fixpoint mkdirs `{Os} (d : disk) (cur ps : list pystr) : out (list pystr) * disk :=
  match ps with
  | [] => (Ok cur, d)
  | n :: ps =>
      match namei lookup_budget d cur [n] with
      | inr loc =>
          match node_at d loc with
          | Some Dir => mkdirs d loc ps
          | _ => (Err (OsError (match ps with [] => EEXIST | _ => ENOTDIR end) (Name n)), d)
          end
      | inl ENOENT =>
          let next := cur ++ [n] in
          match sys (SysCreate next) (Name n)
                  (match node_at d next with Some _ => inl EEXIST | None => inr tt end) with
          | Err x => (Err x, d)
          | Ok _ => mkdirs (<[next := Dir]> d) next ps
          end
      | inl x => (Err (OsError x (Name n)), d)
      end
  end.

Definition tmp_name (token : pystr) : pystr := ".oc_write." ++ token.
Definition atomic_write_safe `{Os} (d : disk) (p : pystr) (roots : list path) (data : list N)
    (token : pystr) : out unit * disk :=
  match open_safe_parent_dir d p roots with
  | Err e => (Err e, d)
  | Ok (dir_fd, basename) =>
      let fd := dir_fd ++ [tmp_name token] in
      match sys (SysCreate fd) (Name (tmp_name token)) (sys_create d fd) with
      | Err e => (Err e, d)
      | Ok d1 =>
          match write_all d1 fd data with
          | (Err e, d2) => (Err e, unlink_quietly d2 fd)
          | (Ok _, d2) =>
              match replace_at d2 dir_fd (tmp_name token) dir_fd basename with
              | Err e => (Err e, unlink_quietly d2 fd)
              | Ok d3 => (Ok tt, d3)
              end
          end
      end
  end.

Definition unlink_safe `{Os} (d : disk) (p : pystr) (roots : list path) : out bool * disk :=
  match open_safe_parent_dir d p roots with
  | Err e => (Err e, d)
  | Ok (dir_fd, basename) =>
      match named basename (sys (SysUnlink (dir_fd ++ [basename])) (Name basename)
                              (sys_unlink d (dir_fd ++ [basename]))) with
      | Err (OsError ENOENT _) => (Ok false, d)
      | Err e => (Err e, d)
      | Ok d' => (Ok true, d')
      end
  end.

Definition replace_safe `{Os} (d : disk) (src dst : pystr) (roots : list path) : out unit * disk :=
  match open_safe_parent_dir d src roots with
  | Err e => (Err e, d)
  | Ok (src_fd, src_name) =>
      match open_safe_parent_dir d dst roots with
      | Err e => (Err e, d)
      | Ok (dst_fd, dst_name) =>
          match replace_at d src_fd src_name dst_fd dst_name with
          | Err e => (Err e, d)
          | Ok d' => (Ok tt, d')
          end
      end
  end.

(** ** Paths print and parse back *)

Definition proper (p : path) : Prop :=
  root p ∈ [[]; [SL]; [SL; SL]] ∧ Forall (λ w, real_part w = true ∧ SL ∉ w) (parts p).

Lemma node_at_snoc (d : disk) l n : node_at d (l ++ [n]) = d !! (l ++ [n]).
Proof. by destruct l. Qed.
Lemma path_of_proper s : proper (path_of s).
Proof.
  split.
  - unfold path_of. cbn [root]. repeat case_match; set_solver.
  - apply Forall_forall. intros w Hw. apply list_elem_of_In, filter_In in Hw as [Hw Hr].
    split; [done|]. apply list_elem_of_In in Hw. by eapply split_on_no_sep.
Qed.

Lemma split_on_app c w s : c ∉ w → split_on c (w ++ c :: s) = w :: split_on c s.
Proof.
  induction w as [|x w IH]; intros Hc; simpl; [by rewrite N.eqb_refl|].
  destruct (N.eqb_spec x c) as [->|_]; [set_solver|]. rewrite IH by set_solver. done.
Qed.
Lemma split_on_none c w : c ∉ w → split_on c w = [w].
Proof.
  induction w as [|x w IH]; intros Hc; simpl; [done|].
  destruct (N.eqb_spec x c) as [->|_]; [set_solver|]. by rewrite IH by set_solver.
Qed.
Lemma split_on_join c ws : ws ≠ [] → Forall (λ w, c ∉ w) ws → split_on c (join [c] ws) = ws.
Proof.
  induction ws as [|w ws IH]; [done|]. intros _ [Hw Hws]%Forall_cons.
  destruct ws as [|v ws]; [by apply split_on_none|].
  change (join [c] (w :: v :: ws)) with (w ++ [c] ++ join [c] (v :: ws)). simpl app.
  rewrite split_on_app by done. f_equal. by apply IH.
Qed.

Lemma filter_real ws : Forall (λ w, real_part w = true ∧ SL ∉ w) ws → List.filter real_part ws = ws.
Proof. induction 1 as [|w ws [Hr _] _ IH]; simpl; [done|]. by rewrite Hr, IH. Qed.

Lemma join_slash_head w ws : real_part w = true → SL ∉ w → ∃ x s, join [SL] (w :: ws) = x :: s ∧ x ≠ SL.
Proof.
  intros [Hw _]%real_part_spec Hs. destruct w as [|x w]; [done|].
  assert (x ≠ SL) by set_solver. destruct ws; simpl; eauto.
Qed.

(** The parts a printed absolute path is walked through. *)
Lemma split_path_str p :
  proper p → root p ≠ [] → List.filter real_part (split_on SL (path_str p)) = parts p.
Proof.
  intros [Hr Hp] Hne.
  assert (Hj : List.filter real_part (split_on SL (join [SL] (parts p))) = parts p).
  { destruct (parts p) as [|w ws]; [done|]. rewrite split_on_join; [by apply filter_real|done|].
    eapply Forall_impl; [done|]. naive_solver. }
  unfold path_str. destruct p as [r ps]. simpl in *.
  apply elem_of_cons in Hr as [->|Hr]; [done|].
  apply elem_of_cons in Hr as [->| ->%list_elem_of_singleton]; simpl; destruct ps; done.
Qed.

Lemma path_of_str p : proper p → path_of (path_str p) = p.
Proof.
  intros Hp. pose proof Hp as [Hr Hps].
  destruct (decide (root p = [])) as [E|E].
  - destruct p as [r ps]. simpl in *. subst r. destruct ps as [|w ws]; [done|].
    apply Forall_cons in Hps as Hw. destruct Hw as [[Hw Hs] _].
    unfold path_str. simpl root. simpl parts.
    destruct (join_slash_head w ws Hw Hs) as (x & s & Ej & Hx). unfold path_of.
    f_equal.
    + rewrite app_nil_l, Ej. repeat case_match; congruence.
    + rewrite app_nil_l, split_on_join; [by apply filter_real|done|].
      eapply Forall_impl; [done|]. naive_solver.
  - pose proof (split_path_str p Hp E) as Hsp. unfold path_of. rewrite Hsp.
    destruct p as [r ps]. simpl in *. f_equal. unfold path_str. simpl.
    destruct ps as [|w ws].
    + apply elem_of_cons in Hr as [->|Hr]; [done|].
      apply elem_of_cons in Hr as [->| ->%list_elem_of_singleton]; done.
    + apply Forall_cons in Hps as [[Hw Hs] _]. destruct (join_slash_head w ws Hw Hs) as (x & s & Ej & Hx).
      apply elem_of_cons in Hr as [->|Hr]; [done|]. rewrite Ej.
      apply elem_of_cons in Hr as [->| ->%list_elem_of_singleton]; simpl; repeat case_match; congruence.
Qed.

Lemma proper_parent p : proper p → proper (path_parent p).
Proof.
  intros [Hr Hp]. split; [done|]. simpl. destruct (removelast_prefix (parts p)) as [r E].
  rewrite E in Hp. by apply Forall_app in Hp as [? _].
Qed.

(** ** What opening promises *)

(** From [cur] every name of [ps] exists and none is a symbolic link; all but
    the last are directories, and so is the last when [dir]. *)
Fixpoint clear_way (d : disk) (cur ps : list pystr) (dir : bool) : Prop :=
  match ps with
  | [] => True
  | n :: rest =>
      ∃ x, node_at d (cur ++ [n]) = Some x ∧ link_target x = None ∧
           (rest ≠ [] ∨ dir = true → x = Dir) ∧ clear_way d (cur ++ [n]) rest dir
  end.

Lemma beneath_spec d cur ps dir loc :
  beneath d cur ps dir = inr loc ↔ loc = cur ++ ps ∧ clear_way d cur ps dir.
Proof.
  revert cur. induction ps as [|n ps IH]; intros cur; simpl.
  { rewrite app_nil_r. naive_solver. }
  rewrite (cons_middle n cur ps), app_assoc.
  destruct (node_at d (cur ++ [n])) as [x|]; [|naive_solver].
  split.
  - intros H.
    assert (Hx : (∃ b, x = File b ∧ ps = [] ∧ dir = false ∧ loc = cur ++ [n]) ∨
                 (x = Dir ∧ beneath d (cur ++ [n]) ps dir = inr loc)).
    { destruct x as [b| |t]; destruct ps as [|m ps]; destruct dir; simplify_eq; eauto 10. }
    destruct Hx as [(b & -> & -> & -> & ->)|[-> Hb]].
    + rewrite app_nil_r. split; [done|]. exists (File b). split_and!; naive_solver.
    + apply IH in Hb as [-> Hc]. split; [done|]. by exists Dir.
  - intros [-> (y & [= <-] & Hl & Hd & Hc)]. destruct x as [b| |t]; [|by apply IH|done].
    destruct ps as [|m ps]; [|by discriminate Hd; left].
    rewrite app_nil_r. destruct dir; [|done]. by discriminate Hd; right.
Qed.

Lemma sys_Ok {A} `{Os} c names (r : errno + A) a : sys c names r = Ok a → r = inr a.
Proof. unfold sys. destruct (os_fault c); [done|]. destruct r; by intros [= ->]. Qed.
Lemma named_Ok {A} w (r : out A) a : named w r = Ok a → r = Ok a.
Proof. unfold named. by destruct (name_error w). Qed.
Lemma obind_Ok {A B} (m : out A) (f : A → out B) b :
  obind m f = Ok b ↔ ∃ a, m = Ok a ∧ f a = Ok b.
Proof. destruct m; simpl; naive_solver. Qed.

Lemma openat_spec d cur n dir loc :
  openat d cur n dir = inr loc ↔
  loc = cur ++ [n] ∧ ∃ x, node_at d loc = Some x ∧ link_target x = None ∧ (dir = true → x = Dir).
Proof.
  unfold openat. split.
  - destruct (node_at d (cur ++ [n])) as [[b| |t]|] eqn:E; [|intros [= <-]; eauto|done..].
    destruct dir; [done|]. intros [= <-]. split; [done|]. exists (File b). split_and!; naive_solver.
  - intros (-> & x & -> & Hl & Hd). destruct x as [b| |t]; [|done|done].
    destruct dir; [|done]. by discriminate Hd.
Qed.

Lemma fallback_from_sound `{Os} d cur ps dir loc :
  fallback_from d cur ps dir = Ok loc → loc = cur ++ ps ∧ clear_way d cur ps dir.
Proof.
  revert cur. induction ps as [|n ps IH]; intros cur; simpl; [rewrite app_nil_r; by intros [= ->]|].
  intros (fd & Hfd & H2)%obind_Ok.
  assert (Ho : named n (sys (SysOpenat (cur ++ [n])) (Name n)
                 (openat d cur n (match ps with [] => dir | _ => true end))) = Ok fd).
  { destruct (named n _) as [a|[e| | |]]; [done| |done..]. by destruct e. }
  apply named_Ok, sys_Ok, openat_spec in Ho as (-> & x & Hx & Hl & Hd).
  apply obind_Ok in H2 as (_ & _ & H2). apply IH in H2 as [-> Hc].
  rewrite <- app_assoc. split; [done|]. exists x. split_and!; try done.
  intros [?|?]; apply Hd; by destruct ps.
Qed.

Lemma fallback_from_complete `{Os} d cur ps dir :
  (∀ c, os_fault c = None) → Forall (λ w, name_error w = None) ps →
  clear_way d cur ps dir → fallback_from d cur ps dir = Ok (cur ++ ps).
Proof.
  intros Hf. revert cur. induction ps as [|n ps IH]; intros cur; simpl; [by rewrite app_nil_r|].
  intros [Hn Hps]%Forall_cons (x & Hx & Hl & Hd & Hc).
  assert (Ho : openat d cur n (match ps with [] => dir | _ => true end) = inr (cur ++ [n])).
  { apply openat_spec. split; [done|]. exists x. split_and!; try done.
    destruct ps; intros; apply Hd; auto. }
  unfold named, sys. rewrite Hn, Hf, Ho. simpl. unfold _raise_if_symlink. rewrite Hx.
  destruct x; try done; simpl; rewrite IH by done; by rewrite <- app_assoc.
Qed.

Lemma openat2_sound `{Os} d fd rel dir loc :
  _openat2_beneath d fd rel dir = Ok loc → loc = fd ++ rel ∧ clear_way d fd rel dir.
Proof.
  unfold _openat2_beneath. destruct (negb os_openat2); [done|].
  destruct (existsb _ _); [done|]. intros E. apply beneath_spec.
  eapply (sys_Ok (SysOpenat2 (fd ++ rel)) NoName).
  destruct (sys _ _ _) as [a|e]; [done|]. repeat case_match; done.
Qed.

Lemma fallback_sound `{Os} d fd rel dir loc :
  _fallback_openat d fd rel dir = Ok loc → loc = fd ++ rel ∧ clear_way d fd rel dir.
Proof.
  destruct rel as [|n rel]; [|apply fallback_from_sound].
  simpl. intros E%sys_Ok. simplify_eq. by rewrite app_nil_r.
Qed.

Lemma root_matches_sound raw roots ms :
  root_matches raw roots = Ok ms →
  ∀ r rel, (r, rel) ∈ ms → r ∈ roots ∧ root raw = root r ∧ parts raw = parts r ++ rel ∧ ".."%py ∉ rel.
Proof.
  revert ms. induction roots as [|r roots IH]; simpl; intros ms.
  { intros [= <-] ? ? []%elem_of_nil. }
  destruct (relative_to raw r) eqn:E; [|intros H ? ? Hin; destruct (IH _ H _ _ Hin); set_solver].
  apply relative_to_spec in E as [Hr [t Ht]]. rewrite Ht, drop_app_length.
  case_bool_decide; [done|]. intros (ms' & Hms & [= <-])%obind_Ok r' rel'.
  intros [[= -> ->]|Hin]%elem_of_cons; [split_and!; try done; by left|].
  destruct (IH _ Hms _ _ Hin) as (? & ? & ? & ?). rewrite <- Ht. set_solver.
Qed.
Lemma longest_root_elem best ms : longest_root best ms ∈ best :: ms.
Proof.
  revert best. induction ms as [|m ms IH]; intros best; simpl; [by left|].
  specialize (IH (if (length (parts best.1) <? length (parts m.1))%nat then m else best)).
  destruct (_ <? _)%nat; set_solver.
Qed.

Lemma relative_to_root_sound p roots r rel :
  _relative_to_root p roots = Ok (r, rel) →
  p ≠ [] ∧ root (path_of p) ≠ [] ∧ r ∈ roots ∧
  root (path_of p) = root r ∧ parts (path_of p) = parts r ++ rel ∧ ".."%py ∉ rel.
Proof.
  unfold _relative_to_root. destruct roots as [|r0 roots]; [done|].
  set (rs := r0 :: roots). destruct (_ || _) eqn:Eb; [done|]. bprop.
  intros (ms & Hms & H2)%obind_Ok. destruct ms as [|m ms]; [done|]. injection H2 as E.
  pose proof (longest_root_elem m ms) as Hin. rewrite E in Hin.
  split_and!; [done|done|..]; eapply root_matches_sound; eauto.
Qed.

(** A descriptor opened below the roots: where it is. *)
Definition opened `{Os} (d : disk) (p : pystr) (roots : list path) (dir : bool)
    (loc : list pystr) : Prop :=
  ∃ r rel fd, r ∈ roots ∧ root (path_of p) = root r ∧ root r ≠ [] ∧
    parts (path_of p) = parts r ++ rel ∧ ".."%py ∉ rel ∧
    _open_root d r = Ok fd ∧ loc = fd ++ rel ∧ clear_way d fd rel dir.

Lemma open_safe_fd_opened `{Os} d p roots dir loc :
  open_safe_fd d p roots dir = Ok loc → opened d p roots dir loc.
Proof.
  unfold open_safe_fd. case_bool_decide; [done|].
  intros ([r rel] & Hr & H2)%obind_Ok. apply obind_Ok in H2 as (fd & Hfd & H2).
  apply relative_to_root_sound in Hr as (_ & Hne & Hin & Hroot & Hparts & Hdd).
  assert (Hc : loc = fd ++ rel ∧ clear_way d fd rel dir).
  { destruct (_openat2_beneath d fd rel dir) as [a|[| | |]] eqn:E; simplify_eq.
    - by apply openat2_sound. - by apply fallback_sound. }
  destruct Hc as [-> Hc]. exists r, rel, fd. split_and!; try done. congruence.
Qed.

(** ** The location opened is the path that was checked *)

Lemma links_of_lookup d p : links_of d !! p = d !! p ≫= link_target.
Proof. apply lookup_omap. Qed.
Lemma links_of_none d p : p ≠ [] → links_of d !! p = None ↔ ∀ x, node_at d p = Some x → link_target x = None.
Proof.
  intros Hp. rewrite links_of_lookup. destruct p as [|a p]; [done|]. simpl.
  destruct (d !! (a :: p)) as [x|]; simpl; naive_solver.
Qed.

(** A root as the node configures it: absolute, and no link on the way. *)
Definition good_root (d : disk) (r : path) : Prop :=
  root r = [SL] ∧ clean (parts r) ∧ link_free (links_of d) (parts r).

Lemma link_free_app d cur ps dir :
  link_free (links_of d) cur → clear_way d cur ps dir → link_free (links_of d) (cur ++ ps).
Proof.
  revert cur. induction ps as [|n ps IH]; intros cur; simpl; [by rewrite app_nil_r|].
  intros Hc (x & Hx & Hl & _ & Hw). rewrite (cons_middle n cur ps), app_assoc. apply IH; [|done].
  apply link_free_snoc; [done|]. apply links_of_none; [by destruct cur|]. intros y. congruence.
Qed.

Lemma namei_plain b d cur ps loc :
  clean ps → link_free (links_of d) (cur ++ ps) → namei b d cur ps = inr loc → loc = cur ++ ps.
Proof.
  revert cur. induction ps as [|n ps IH]; intros cur Hc Hl.
  { rewrite app_nil_r. destruct b; simpl; congruence. }
  apply Forall_cons in Hc as [(Hn1 & Hn2 & Hn3 & _) Hc].
  assert (Hr : real_part n = true) by (by apply real_part_spec).
  assert (Hnl : ∀ x, node_at d (cur ++ [n]) = Some x → link_target x = None).
  { apply links_of_none; [by destruct cur|]. eapply Hl. done. }
  assert (Hgo : namei b d (cur ++ [n]) ps = inr loc → loc = cur ++ n :: ps).
  { intros H. rewrite (cons_middle n cur ps), app_assoc. apply IH; [done| |done].
    by rewrite <- app_assoc. }
  intros H. destruct b as [|b]; simpl in H; destruct (node_at d cur) as [[]|]; try done;
    rewrite Hr in H; simpl in H; rewrite bool_decide_eq_false_2 in H by done;
    destruct (node_at d (cur ++ [n])) as [[]|] eqn:E; try done;
    try (by apply Hgo); by specialize (Hnl _ eq_refl).
Qed.

Lemma open_root_plain `{Os} d r fd :
  good_root d r → _open_root d r = Ok fd → fd = parts r ∧ node_at d fd = Some Dir.
Proof.
  intros (_ & Hc & Hl) H0. apply sys_Ok in H0.
  destruct (namei _ d [] (parts r)) as [e|l] eqn:E; [done|].
  apply namei_plain in E as ->; [|done..]. simpl in *.
  destruct (node_at d (parts r)) as [[]|] eqn:En; by simplify_eq.
Qed.

Lemma clear_way_last d cur ps dir x :
  clear_way d cur ps dir → ps ≠ [] → node_at d (cur ++ ps) = Some x →
  link_target x = None ∧ (dir = true → x = Dir).
Proof.
  revert cur. induction ps as [|n ps IH]; intros cur; simpl; [done|].
  intros (y & Hy & Hl & Hd & Hw) _. destruct ps as [|m ps].
  - intros Hx. rewrite Hy in Hx. simplify_eq. eauto.
  - rewrite (cons_middle n cur), app_assoc. by apply IH.
Qed.
Lemma clear_way_exists d cur ps dir :
  clear_way d cur ps dir → ps ≠ [] → ∃ x, node_at d (cur ++ ps) = Some x.
Proof.
  revert cur. induction ps as [|n ps IH]; intros cur; simpl; [done|].
  intros (y & Hy & _ & _ & Hw) _. destruct ps as [|m ps]; [eauto|].
  rewrite (cons_middle n cur), app_assoc. by apply IH.
Qed.

Lemma opened_plain `{Os} d p roots dir loc :
  Forall (good_root d) roots → opened d p roots dir loc →
  loc = parts (path_of p) ∧ root (path_of p) = [SL] ∧ ".."%py ∉ loc ∧
  link_free (links_of d) loc ∧ (dir = true → node_at d loc = Some Dir).
Proof.
  intros Hg (r & rel & fd & Hin & Hr & _ & Hp & Hdd & Hfd & -> & Hw).
  rewrite Forall_forall in Hg. pose proof (Hg _ Hin) as (Hroot & Hc & Hl).
  destruct (open_root_plain d r fd (Hg _ Hin) Hfd) as [-> Hdir]. rewrite Hp, Hr.
  split_and!; try done.
  - rewrite not_elem_of_app. split; [|done]. intros Hx.
    unfold clean in Hc. rewrite Forall_forall in Hc. by destruct (Hc _ Hx) as (_ & _ & ? & _).
  - by eapply link_free_app.
  - intros ->. destruct rel as [|n rel]; [by rewrite app_nil_r|].
    destruct (clear_way_exists _ _ _ _ Hw) as [x Hx]; [done|].
    destruct (clear_way_last _ _ _ _ _ Hw ltac:(done) Hx) as [_ Hd]. by rewrite Hx, (Hd eq_refl).
Qed.

(** The walk of [realpath] adds the real parts one by one where no link lies. *)
Lemma walk_plain fs fuel ws cur seen w :
  ".."%py ∉ List.filter real_part ws → link_free fs (cur ++ List.filter real_part ws) →
  walk_run fuel fs (Walk (map Part ws) cur seen true) = Ret w →
  w_path w = cur ++ List.filter real_part ws.
Proof.
  revert fuel cur seen. induction ws as [|n ws IH]; intros fuel cur seen Hdd Hl.
  { destruct fuel; simpl; intros [= <-]; simpl; by rewrite app_nil_r. }
  destruct fuel as [|fuel]; [done|]. simpl in *.
  destruct (real_part n) eqn:Hn; unfold walk_step; cbn [w_rest map]; rewrite Hn; cbn [negb].
  - rewrite bool_decide_eq_false_2 by set_solver. cbn [w_querying negb w_path w_seen].
    rewrite (Hl cur n (List.filter real_part ws)) by done.
    destruct (lstat_error n); [done|]. cbn [rbind]. intros Hr%IH; [|set_solver|by rewrite <- app_assoc].
    by rewrite Hr, <- app_assoc.
  - cbn [rbind w_path w_seen w_querying]. by apply IH.
Qed.

Lemma resolve_plain fs cwd s p :
  startswith s [SL] = true → ".."%py ∉ parts (path_of s) → link_free fs (parts (path_of s)) →
  resolve fs cwd s = Ret p → p = abs_path (parts (path_of s)).
Proof.
  intros Hs Hdd Hl (w & Hw & [= <-])%rbind_Ret. f_equal.
  pose proof (path_of_proper s) as Hp.
  assert (Hr : root (path_of s) ≠ []).
  { apply startswith_spec in Hs as [t ->]. unfold path_of. simpl. repeat case_match; done. }
  pose proof (split_path_str _ Hp Hr) as Hsp.
  unfold realpath_walk, walk_start in Hw. rewrite path_str_absolute in Hw by done.
  apply walk_plain in Hw; rewrite Hsp in *; done.
Qed.

(** ** Changing files *)

Lemma path_name_snoc p : path_name p ≠ [] → parts p = parts (path_parent p) ++ [path_name p].
Proof.
  unfold path_name. destruct p as [r ps]. simpl.
  destruct ps as [|x ps _] using rev_ind; [done|].
  by rewrite last_snoc, removelast_last.
Qed.

(** The directory in which a file is changed, and the location of the file. *)
Lemma open_parent_plain `{Os} d p roots dir name :
  Forall (good_root d) roots → open_safe_parent_dir d p roots = Ok (dir, name) →
  parts (path_of p) = dir ++ [name] ∧ name ≠ ".."%py ∧ node_at d dir = Some Dir ∧
  root (path_of p) = [SL] ∧ ".."%py ∉ dir ∧ link_free (links_of d) dir.
Proof.
  intros Hg. unfold open_safe_parent_dir. destruct (_ || _) eqn:E; [done|]. bprop.
  intros (fd & Ho & [= -> <-])%obind_Ok. apply open_safe_fd_opened in Ho.
  apply opened_plain in Ho as (Hfd & Hr & Hdd & Hl & Hd); [|done].
  rewrite path_of_str in Hfd, Hr by (apply proper_parent, path_of_proper).
  rewrite Hfd. split_and!; try done; subst; auto; [by apply path_name_snoc|set_solver].
Qed.

Lemma write_all_spec `{Os} d fd data r d' :
  write_all d fd data = (r, d') →
  (r = Ok tt ∧ d' = <[fd := File data]> d) ∨ ∃ e junk, r = Err e ∧ d' = <[fd := File junk]> d.
Proof. unfold write_all. destruct (os_fault _); intros [= <- <-]; eauto. Qed.

Lemma unlink_quietly_spec `{Os} d fd junk :
  d !! fd = None → unlink_quietly (<[fd := File junk]> d) fd = d ∨
                   unlink_quietly (<[fd := File junk]> d) fd = <[fd := File junk]> d.
Proof.
  intros Hn. unfold unlink_quietly. destruct (sys _ _ _) as [x|] eqn:E; [|by right]. left.
  apply sys_Ok in E. unfold sys_unlink in E. destruct fd as [|a fd]; [done|]. simpl in E.
  rewrite lookup_insert_eq in E. simplify_eq. by apply delete_insert_id.
Qed.

Lemma replace_at_spec `{Os} d dir s t data d' :
  d !! (dir ++ [s]) = None →
  replace_at (<[dir ++ [s] := File data]> d) dir s dir t = Ok d' →
  d' = <[dir ++ [t] := File data]> d ∧ node_at d (dir ++ [t]) ≠ Some Dir.
Proof.
  intros Hn Hr%named_Ok%named_Ok%sys_Ok. unfold sys_rename in Hr.
  assert (Hat : ∀ n x, node_at x (dir ++ [n]) = x !! (dir ++ [n])) by (by intros; destruct dir).
  rewrite !Hat, lookup_insert_eq in Hr. rewrite Hat.
  destruct (decide (s = t)) as [<-|Hne].
  - rewrite lookup_insert_eq in Hr. simplify_eq. rewrite Hn. split; [|done].
    by rewrite insert_delete_eq, insert_insert_eq.
  - rewrite lookup_insert_ne in Hr by (by intros ?%app_inv_head; simplify_eq).
    rewrite delete_insert_id in Hr by done.
    by destruct (d !! (dir ++ [t])) as [[]|]; simplify_eq.
Qed.

Lemma atomic_write_steps `{Os} d p roots data token r d' :
  atomic_write_safe d p roots data token = (r, d') →
  (r = Ok tt ∧ ∃ dir name, open_safe_parent_dir d p roots = Ok (dir, name) ∧
     d' = <[dir ++ [name] := File data]> d ∧ node_at d (dir ++ [name]) ≠ Some Dir) ∨
  ∃ e, r = Err e ∧
    (d' = d ∨ ∃ dir name junk, open_safe_parent_dir d p roots = Ok (dir, name) ∧
       d !! (dir ++ [tmp_name token]) = None ∧ d' = <[dir ++ [tmp_name token] := File junk]> d).
Proof.
  unfold atomic_write_safe.
  destruct (open_safe_parent_dir d p roots) as [[dir name]|e]; [|intros [= <- <-]; right; eauto].
  set (fd := dir ++ [tmp_name token]).
  destruct (sys (SysCreate fd) _ _) as [d1|e] eqn:Ec; [|intros [= <- <-]; right; eauto].
  apply sys_Ok in Ec. unfold sys_create in Ec.
  destruct (node_at d fd) as [x|] eqn:En; [done|]. injection Ec as <-.
  assert (Hn : d !! fd = None) by (by unfold fd in *; destruct dir).
  destruct (write_all _ fd data) as [w d2] eqn:Ew.
  apply write_all_spec in Ew as [[-> ->]|(e & junk & -> & ->)]; rewrite insert_insert_eq.
  - destruct (replace_at _ _ _ _ _) as [d3|e] eqn:Er; intros [= <- <-].
    + apply replace_at_spec in Er as [-> ?]; [|done]. left. eauto 10.
    + right. exists e. split; [done|].
      destruct (unlink_quietly_spec d fd data Hn) as [-> | ->]; [by left|right; eauto 10].
  - intros [= <- <-]. right. exists e. split; [done|].
    destruct (unlink_quietly_spec d fd junk Hn) as [-> | ->]; [by left|right; eauto 10].
Qed.

(** ** The disk stays a tree *)

Lemma disk_wf_insert d dir n x :
  disk_wf d → node_at d dir = Some Dir → node_at d (dir ++ [n]) ≠ Some Dir →
  disk_wf (<[dir ++ [n] := x]> d).
Proof.
  intros Hd Hdir Hn p Hp. rewrite dom_insert in Hp.
  assert (Hkeep : ∀ q, node_at d q = Some Dir → node_at (<[dir ++ [n] := x]> d) q = Some Dir).
  { intros [|a q] Hq; [done|]. simpl in *. rewrite lookup_insert_ne; [done|].
    intros E. apply Hn. rewrite E. done. }
  destruct (decide (p = dir ++ [n])) as [->|Hne]; [exists dir, n; auto|].
  destruct (Hd p) as (q & m & -> & Hq); [set_solver|]. exists q, m. auto.
Qed.

Lemma disk_wf_not_dir d dir n : disk_wf d → d !! (dir ++ [n]) = None → node_at d (dir ++ [n]) ≠ Some Dir.
Proof. intros _ H. destruct dir; simpl in *; congruence. Qed.

(** Everything of [d], except at some locations, is in [d'] as it was. *)
Definition keeps (except : list (list pystr)) (d d' : disk) : Prop :=
  ∀ l x, l ∉ except → d !! l = Some x → d' !! l = Some x.
Lemma keeps_refl ex d : keeps ex d d.
Proof. by intros l x. Qed.
Lemma keeps_trans ex d1 d2 d3 : keeps ex d1 d2 → keeps ex d2 d3 → keeps ex d1 d3.
Proof. unfold keeps. eauto. Qed.
Lemma keeps_weaken ex d d' : keeps [] d d' → keeps ex d d'.
Proof. intros Hk l x _. apply Hk. set_solver. Qed.

Lemma mkdirs_keeps `{Os} d cur ps r d' : mkdirs d cur ps = (r, d') → keeps [] d d'.
Proof.
  revert d cur. induction ps as [|n ps IH]; intros d cur; cbn [mkdirs]; [intros [= _ <-]; apply keeps_refl|].
  destruct (namei lookup_budget d cur [n]) as [x|l].
  - destruct x; try (intros [= _ <-]; apply keeps_refl).
    destruct (sys _ _ _) as [?|?] eqn:Es; [|intros [= _ <-]; apply keeps_refl]. apply sys_Ok in Es.
    destruct (node_at d (cur ++ [n])) as [y|] eqn:En; [done|]. intros Hk%IH l y Hl Hy.
    apply Hk; [done|]. rewrite lookup_insert_ne; [done|]. intros <-. destruct cur; simpl in *; congruence.
  - destruct (node_at d l) as [[]|]; try (intros [= _ <-]; apply keeps_refl). apply IH.
Qed.

(** ** A missing file *)

(** Some location on the way, the last included, holds nothing. *)
Definition absent (d : disk) (cur ps : list pystr) : Prop :=
  ∃ q r, ps = q ++ r ∧ q ≠ [] ∧ node_at d (cur ++ q) = None.
Lemma absent_cons d cur n ps : absent d (cur ++ [n]) ps → absent d cur (n :: ps).
Proof. intros (q & r & -> & _ & H). exists (n :: q), r. split_and!; [done..|]. by rewrite cons_middle, app_assoc. Qed.
Lemma absent_here d cur n ps : node_at d (cur ++ [n]) = None → absent d cur (n :: ps).
Proof. by exists [n], ps. Qed.
Lemma absent_app d cur ps qs : absent d (cur ++ ps) qs → absent d cur (ps ++ qs).
Proof.
  intros (q & r & -> & Hq & H). exists (ps ++ q), r. split_and!; [by rewrite app_assoc| |by rewrite app_assoc].
  by destruct ps.
Qed.
Lemma absent_weaken d cur ps qs : absent d cur ps → absent d cur (ps ++ qs).
Proof. intros (q & r & -> & H). exists q, (r ++ qs). by rewrite <- app_assoc. Qed.

Lemma sys_enoent {A} `{Os} c names (r : errno + A) nm : sys c names r = Err (OsError ENOENT nm) → r = inl ENOENT.
Proof. unfold sys. destruct (os_fault c); [done|]. destruct r as [e|]; [|done]. by intros [= ->]. Qed.

Lemma fallback_enoent `{Os} d cur ps dir nm :
  fallback_from d cur ps dir = Err (OsError ENOENT nm) → absent d cur ps.
Proof.
  revert cur. induction ps as [|n ps IH]; intros cur; [done|]. cbn [fallback_from].
  set (o := named n _). destruct o as [fd|x] eqn:Eo; cbn [obind].
  - assert (Ho : fd = cur ++ [n]).
    { subst o. apply named_Ok, sys_Ok, openat_spec in Eo. tauto. }
    subst fd. destruct (_raise_if_symlink d (cur ++ [n])) as [|x] eqn:Es.
    + simpl. intros H0%IH. by apply absent_cons.
    + unfold _raise_if_symlink in Es. repeat case_match; by simplify_eq.
  - intros Hx. apply absent_here.
    assert (Hn : named n (sys (SysOpenat (cur ++ [n])) (Name n)
                   (openat d cur n (match ps with [] => dir | _ => true end))) = Err (OsError ENOENT nm)).
    { fold o. rewrite Eo. destruct x as [e ?| | |]; try done; try by simplify_eq.
      destruct e; by simplify_eq. }
    unfold named in Hn. destruct (name_error n); [done|]. apply sys_enoent in Hn.
    unfold openat in Hn. destruct (node_at d (cur ++ [n])) as [[]|]; try done.
    + by destruct ps, dir. + by destruct ps, dir.
Qed.

Lemma namei_enoent b d cur ps :
  clean ps → link_free (links_of d) (cur ++ ps) → namei b d cur ps = inl ENOENT → absent d cur ps.
Proof.
  revert cur. induction ps as [|n ps IH]; intros cur Hc Hl; [by destruct b|].
  apply Forall_cons in Hc as [(Hn1 & Hn2 & Hn3 & _) Hc].
  assert (Hr : real_part n = true) by (by apply real_part_spec).
  assert (Hnl : ∀ x, node_at d (cur ++ [n]) = Some x → link_target x = None).
  { apply links_of_none; [by destruct cur|]. eapply Hl. done. }
  assert (Hgo : namei b d (cur ++ [n]) ps = inl ENOENT → absent d cur (n :: ps)).
  { intros H. apply absent_cons, IH; [done| |done]. by rewrite <- app_assoc. }
  intros H. destruct b as [|b]; simpl in H; destruct (node_at d cur) as [[]|]; try done;
    rewrite Hr in H; simpl in H; rewrite bool_decide_eq_false_2 in H by done;
    destruct (node_at d (cur ++ [n])) as [[]|] eqn:E; try done;
    try (by apply Hgo); try (by apply absent_here); by specialize (Hnl _ eq_refl).
Qed.

(** Opening fails with [ENOENT] only where something is missing. *)
Lemma open_safe_fd_enoent `{Os} d p roots dir nm :
  Forall (good_root d) roots → open_safe_fd d p roots dir = Err (OsError ENOENT nm) →
  absent d [] (parts (path_of p)).
Proof.
  intros Hg. unfold open_safe_fd. case_bool_decide; [done|].
  destruct (_relative_to_root p roots) as [[r rel]|x] eqn:Er; cbn [obind].
  2:{ unfold _relative_to_root in Er. destruct roots as [|r0 roots]; [by simplify_eq|].
      set (rs := r0 :: roots) in *.
      destruct (_ || _); [by simplify_eq|]. destruct (root_matches _ rs) as [ms|y] eqn:Em.
      - simpl in Er. destruct ms; by simplify_eq.
      - simpl in Er. injection Er as ->. intros [= ->]. exfalso. clear -Em. clearbody rs.
        induction rs as [|r rs IH]; [done|]. simpl in Em.
        destruct (relative_to _ r); [|by apply IH]. case_bool_decide; [done|].
        destruct (root_matches _ rs); [done|]. simpl in Em. apply IH. congruence. }
  apply relative_to_root_sound in Er as (_ & _ & Hin & _ & -> & _).
  rewrite Forall_forall in Hg. destruct (Hg r Hin) as (Hroot & Hc & Hl).
  destruct (_open_root d r) as [fd|x] eqn:Eo; cbn [obind].
  - apply open_root_plain in Eo as [-> _]; [|by apply Hg]. intros Hx. apply absent_app. simpl.
    assert (Hf : _fallback_openat d (parts r) rel dir = Err (OsError ENOENT nm)).
    { destruct (_openat2_beneath d (parts r) rel dir) as [|[]]; try done; by simplify_eq. }
    destruct rel as [|n rel]; [|by eapply fallback_enoent].
    simpl in Hf. by apply sys_enoent in Hf.
  - intros [= ->]. apply sys_enoent in Eo. apply absent_weaken.
    apply (namei_enoent lookup_budget d []); [done..|].
    destruct (namei _ d [] (parts r)) as [e|l]; [congruence|]. by destruct (node_at d l) as [[]|].
Qed.

Lemma disk_wf_ancestors d p q : disk_wf d → is_Some (node_at d (p ++ q)) → is_Some (node_at d p).
Proof.
  intros Hw. induction q as [|x q IH] using rev_ind; [by rewrite app_nil_r|].
  rewrite app_assoc. intros [y Hy]. apply IH.
  destruct (Hw ((p ++ q) ++ [x])) as (u & n & E & Hu).
  { apply elem_of_dom. exists y. by destruct (p ++ q). }
  apply app_inj_tail in E as [-> _]. eauto.
Qed.

Lemma ancestor_dir d p n r :
  disk_wf d → is_Some (node_at d (p ++ n :: r)) → node_at d p = Some Dir.
Proof.
  intros Hw Hx. rewrite cons_middle, app_assoc in Hx. apply disk_wf_ancestors in Hx as [y Hy]; [|done].
  destruct (Hw (p ++ [n])) as (u & m & E & Hu).
  - apply elem_of_dom. exists y. by destruct p.
  - by apply app_inj_tail in E as [-> _].
Qed.
Lemma namei_reaches b d cur ps :
  disk_wf d → clean ps → link_free (links_of d) (cur ++ ps) → is_Some (node_at d (cur ++ ps)) →
  namei b d cur ps = inr (cur ++ ps).
Proof.
  intros Hw. revert cur. induction ps as [|n ps IH]; intros cur Hc Hl Hx.
  { rewrite app_nil_r. by destruct b. }
  apply Forall_cons in Hc as [(Hn1 & Hn2 & Hn3 & _) Hc].
  assert (Hr : real_part n = true) by (by apply real_part_spec).
  pose proof (ancestor_dir d cur n ps Hw Hx) as Hd.
  assert (Hnl : ∀ x, node_at d (cur ++ [n]) = Some x → link_target x = None).
  { apply links_of_none; [by destruct cur|]. eapply Hl. done. }
  rewrite (cons_middle n cur ps), app_assoc in Hl, Hx |- *.
  destruct (disk_wf_ancestors d _ _ Hw Hx) as [x Hat]. specialize (IH _ Hc Hl Hx).
  destruct b; cbn [namei]; rewrite Hd, Hr; cbn [negb]; rewrite bool_decide_eq_false_2 by done;
    rewrite Hat; destruct x; try done; by specialize (Hnl _ Hat).
Qed.
Lemma disk_wf_delete d p : disk_wf d → node_at d p ≠ Some Dir → disk_wf (delete p d).
Proof.
  intros Hw Hp q Hq. rewrite dom_delete in Hq. destruct (Hw q) as (u & n & E & Hu); [set_solver|].
  exists u, n. split; [done|]. destruct u as [|a u]; [done|]. simpl in *.
  rewrite lookup_delete_ne; [done|]. by intros ->.
Qed.
Lemma node_at_delete d p q : p ≠ q → node_at (delete p d) q = node_at d q.
Proof. intros Hne. destruct q; [done|]. simpl. by rewrite lookup_delete_ne. Qed.

(** A file that cannot be opened because it is not there, in a directory that
    is, is not there. *)
Lemma missing_target `{Os} d p roots dir name nm :
  disk_wf d → Forall (good_root d) roots →
  open_safe_fd d p roots false = Err (OsError ENOENT nm) →
  open_safe_parent_dir d p roots = Ok (dir, name) → node_at d (dir ++ [name]) = None.
Proof.
  intros Hw Hg He Hp. apply open_parent_plain in Hp as (Hp & _ & Hd & _); [|done].
  apply open_safe_fd_enoent in He; [|done]. rewrite Hp in He. destruct He as (q & r & E & Hq & Hn).
  simpl in Hn. destruct r as [|x r _] using rev_ind.
  - rewrite app_nil_r in E. by rewrite E.
  - rewrite app_assoc in E. apply app_inj_tail in E as [-> ->].
    destruct (disk_wf_ancestors d q r Hw); [by rewrite Hd|]. congruence.
Qed.

(** ** Deciding the hypotheses on a given disk *)

Definition clean_partb (w : pystr) : bool :=
  real_part w && negb (bool_decide (w = ".."%py)) && negb (bool_decide (SL ∈ w)).
Definition link_freeb (d : disk) (p : list pystr) : bool :=
  forallb (λ i, bool_decide (links_of d !! take (S i) p = None)) (seq 0 (length p)).
Definition good_rootb (d : disk) (r : path) : bool :=
  bool_decide (root r = [SL]) && forallb clean_partb (parts r) && link_freeb d (parts r).
Definition disk_wfb (d : disk) : bool :=
  forallb (λ kv : list pystr * node,
             negb (bool_decide (kv.1 = [])) && bool_decide (node_at d (removelast kv.1) = Some Dir))
    (map_to_list d).

Lemma good_rootb_spec d r : good_rootb d r = true → good_root d r.
Proof.
  unfold good_rootb. intros H. bprop. split_and!; [done| |].
  - apply Forall_forall. intros w Hw.
    match goal with H : forallb clean_partb _ = true |- _ =>
      pose proof (proj1 (forallb_true_forall _ _) H w Hw) as Hc end.
    unfold clean_partb in Hc. bprop.
    match goal with H : real_part w = true |- _ => apply real_part_spec in H as [??] end.
    by split_and!.
  - intros q n t E.
    match goal with H : link_freeb d _ = true |- _ =>
      pose proof (proj1 (forallb_true_forall _ _) H (length q)) as Hl end.
    ospecialize (Hl _); [apply elem_of_seq; rewrite E, length_app; simpl; lia|].
    cbv beta in Hl. bprop. rewrite E, cons_middle, app_assoc, take_app_length' in Hl; [done|rewrite length_app; simpl; lia].
Qed.
Lemma good_roots_spec d rs : forallb (good_rootb d) rs = true → Forall (good_root d) rs.
Proof.
  intros H. apply Forall_forall. intros r Hr. apply good_rootb_spec.
  exact (proj1 (forallb_true_forall _ _) H r Hr).
Qed.
Lemma disk_wfb_spec d : disk_wfb d = true → disk_wf d.
Proof.
  intros H p [x Hx]%elem_of_dom.
  pose proof (proj1 (forallb_true_forall _ _) H (p, x)) as Hp.
  ospecialize (Hp _); [by apply elem_of_map_to_list|]. simpl in Hp. bprop.
  exists (removelast p), (List.last p []). split; [|done]. by apply app_removelast_last.
Qed.

(** ** Properties *)

(** C29. The file opened is the file checked: where no link lies on the way to a
    root, what [open_safe_fd] opens is the location that [resolve_safe] returned
    for the same path, and it is not a symbolic link, whichever of [openat2] and
    the fallback opened it and whatever calls fail. *)
Theorem checked_path_is_opened `{Os} d cwd p roots dir q loc :
  Forall (good_root d) roots →
  resolve_safe (links_of d) cwd p roots = Ret q → open_safe_fd d p roots dir = Ok loc →
  q = abs_path loc ∧ (∀ x, node_at d loc = Some x → link_target x = None) ∧
  (dir = true → node_at d loc = Some Dir).
Proof.
  intros Hg (Hs & Hq & _)%resolve_safe_Ret Ho%open_safe_fd_opened.
  destruct (opened_plain _ _ _ _ _ Hg Ho) as (-> & _ & Hdd & Hl & Hd).
  apply resolve_plain in Hq as ->; [|done..]. split_and!; [done| |done].
  destruct (decide (parts (path_of p) = [])) as [->|Hne]; [by intros x [= <-]|].
  apply links_of_none; [done|]. destruct (parts (path_of p)) as [|n r _] using rev_ind; [done|].
  by eapply Hl.
Qed.

(** A small installation: a configuration directory with a file and a link out. *)
Definition demo_disk : disk :=
  {[ ["config"%py] := Dir; ["config"%py; "a.yaml"%py] := File [97%N];
     ["config"%py; "out"%py] := Link "/etc/passwd"; ["share"%py] := Dir ]}.
#[local] Instance calm_os : Os :=
  {| os_fault := λ _, None; os_openat2 := true; os_partial := 0; os_fd := 7 |}.
Definition demo_roots : list path := [path_of "/config"; path_of "/share"].

Lemma demo_roots_good : Forall (good_root demo_disk) demo_roots.
Proof. apply good_roots_spec. by vm_compute. Qed.

Example checked_path_is_opened_witness :
  abs_path ["config"; "a.yaml"] = abs_path ["config"; "a.yaml"] ∧
  (∀ x, node_at demo_disk ["config"%py; "a.yaml"%py] = Some x → link_target x = None) ∧
  (false = true → node_at demo_disk ["config"%py; "a.yaml"%py] = Some Dir).
Proof.
  apply (checked_path_is_opened demo_disk [] "/config//./a.yaml" demo_roots);
    [apply demo_roots_good|by vm_compute|by vm_compute].
Defined.

(** C30. Both ways of opening agree: when no call fails for a reason of its own, on
    names the system can be given, the per-component fallback opens a path
    exactly when [openat2] does, and the same location. *)
Theorem fallback_agrees_with_openat2 `{Os} d root_fd rel dir loc :
  (∀ c, os_fault c = None) → os_openat2 = true →
  Forall (λ w, name_error w = None) rel → existsb is_surrogate (concat rel) = false →
  _openat2_beneath d root_fd rel dir = Ok loc ↔ _fallback_openat d root_fd rel dir = Ok loc.
Proof.
  intros Hf Ho Hn Hs. split.
  - intros [-> Hw]%openat2_sound. destruct rel as [|n rel].
    + simpl. unfold sys. by rewrite Hf, app_nil_r.
    + by apply fallback_from_complete.
  - intros E%fallback_sound. apply beneath_spec in E.
    unfold _openat2_beneath, sys. by rewrite Ho, Hs, Hf, E.
Qed.

Example fallback_agrees_with_openat2_witness :
  _openat2_beneath demo_disk ["config"%py] ["a.yaml"%py] false = Ok ["config"%py; "a.yaml"%py] ↔
  _fallback_openat demo_disk ["config"%py] ["a.yaml"%py] false = Ok ["config"%py; "a.yaml"%py].
Proof.
  apply fallback_agrees_with_openat2; [done|done|by repeat constructor|by vm_compute].
Defined.

(** A write is all or nothing: on success exactly the named file has changed,
    and holds the data; on failure nothing has, but for a temporary file of a
    new name that could not be removed.  The directory it is written in is
    reached without links, and the disk stays a tree. *)
Theorem atomic_write_all_or_nothing `{Os} d p roots data token r d' :
  disk_wf d → Forall (good_root d) roots →
  atomic_write_safe d p roots data token = (r, d') →
  let target := parts (path_of p) in
  let dir := removelast target in
  disk_wf d' ∧
  match r with
  | Ok _ => d' = <[target := File data]> d ∧ node_at d target ≠ Some Dir ∧
            link_free (links_of d) dir ∧ node_at d dir = Some Dir
  | Err _ => d' = d ∨ ∃ junk, d !! (dir ++ [tmp_name token]) = None ∧
                              d' = <[dir ++ [tmp_name token] := File junk]> d
  end.
Proof.
  intros Hwf Hg Hw. apply atomic_write_steps in Hw as
    [(-> & dir & name & Hp & -> & Hn)|(e & -> & [->|(dir & name & junk & Hp & Hn & ->)])]; cbv zeta;
    [| by split; [|left]|].
  all: apply open_parent_plain in Hp as (-> & _ & Hd & _ & _ & Hl); [|done].
  all: rewrite removelast_last; split.
  - by apply disk_wf_insert.
  - done.
  - apply disk_wf_insert; [done..|]. by apply disk_wf_not_dir.
  - right. eauto.
Qed.

Lemma demo_disk_wf : disk_wf demo_disk.
Proof. apply disk_wfb_spec. by vm_compute. Qed.

Example atomic_write_all_or_nothing_witness :
  let d' := (atomic_write_safe demo_disk "/share/n" demo_roots [98%N] "00ff").2 in
  disk_wf d' ∧ d' = <[parts (path_of "/share/n") := File [98%N]]> demo_disk.
Proof.
  destruct (atomic_write_safe demo_disk "/share/n" demo_roots [98%N] "00ff") as [r d'] eqn:E.
  assert (Hr : r = Ok tt).
  { change r with (fst (r, d')). rewrite <- E. by vm_compute. }
  subst r.
  destruct (atomic_write_all_or_nothing _ _ _ _ _ _ _ demo_disk_wf demo_roots_good E)
    as [Hwf [Hd _]].
  exact (conj Hwf Hd).
Defined.
