(* ===== verification/BackupStore.v ===== *)
(** The per-file, content-addressed backup store ([backup_store.py]): objects
    keyed by the digest of their bytes, and one append-only log of versions for
    each path. *)

From stdpp Require Import base list gmap sorting.
From Stdlib Require Import NArith ZArith Lia.
From S2P Require Import Prelude PyStr PyFloat Json JsonParse JsonFlat PyInt Sha256 SafePath SafeFd.

Definition _STORE_VERSION : Z := 1.
Definition _INDEX_NAME_MAX : nat := 250.
(** The longest name of a file on the host's file system. *)
Definition NAME_MAX : nat := 255.

(** ** Errors *)

Section errors.
Context `{Unicode}.
Definition _CorruptMetaError (detail : pystr) : exn :=
  Exn "_CorruptMetaError" ("Corrupt meta.json: " ++ detail).
Definition _UnsupportedStoreVersionError (meta : json) : exn :=
  Exn "_UnsupportedStoreVersionError" ("Unsupported store_version in meta.json: " ++ py_repr meta).
Definition _CorruptIndexLineError (detail : pystr) : exn :=
  Exn "_CorruptIndexLineError" ("Corrupt index line: " ++ detail).
Definition _IndexLineNotObjectError : exn :=
  Exn "_IndexLineNotObjectError" "Index line is not a JSON object".
Definition _IndexLineMissingFieldError (field : pystr) : exn :=
  Exn "_IndexLineMissingFieldError" ("Index line missing field: " ++ field).
Definition _UnknownOpError (op : pystr) : exn := Exn "_UnknownOpError" ("Unknown op: " ++ repr_str op).
Definition _EncodedPathTooLongError (path : pystr) : exn :=
  Exn "_EncodedPathTooLongError"
    ("Encoded path too long for index filename (>" ++ str_of_nat _INDEX_NAME_MAX ++ " chars): "
     ++ repr_str path).
Definition _ObjectNotPresentError (sha256 : pystr) : exn :=
  Exn "_ObjectNotPresentError" ("Object " ++ sha256 ++ " is not present").
Definition _ObjectEvictedError (sha256 path : pystr) : exn :=
  Exn "_ObjectEvictedError"
    ("Version " ++ sha256 ++ " for " ++ repr_str path ++ " was evicted; cannot diff").
Definition _NoVersionsForPathError (path : pystr) : exn :=
  Exn "_NoVersionsForPathError" ("No versions recorded for " ++ repr_str path).
Definition _VersionOutOfRangeError (version : Z) (path : pystr) : exn :=
  Exn "_VersionOutOfRangeError"
    ("Version " ++ str_of_Z version ++ " out of range for " ++ repr_str path).
Definition _NoSuchProposalError (proposal_id : pystr) : exn :=
  Exn "_NoSuchProposalError" ("No version with proposal_id=" ++ repr_str proposal_id).
Definition _NoVersionAtTimeError (at_ path : pystr) : exn :=
  Exn "_NoVersionAtTimeError"
    ("No version at or before " ++ repr_str at_ ++ " for " ++ repr_str path).
Definition _NoVersionWithShaError (sha256 path : pystr) : exn :=
  Exn "_NoVersionWithShaError"
    ("No version with sha256=" ++ repr_str sha256 ++ " for " ++ repr_str path).
Definition _LiveReadError (path detail : pystr) : exn :=
  Exn "_LiveReadError" ("Cannot read live bytes for " ++ repr_str path ++ ": " ++ detail).
Definition _SelectorRequiredError : exn :=
  Exn "_SelectorRequiredError" "Exactly one of version/proposal_id/at/sha256 is required".
End errors.

(** [except BackupStoreError] *)
Definition is_backup_error (e : exn) : bool :=
  bool_decide (exn_type e ∈
    ["BackupStoreError"; "VersionNotFoundError"; "ObjectMissingError"; "_CorruptMetaError";
     "_UnsupportedStoreVersionError"; "_CorruptIndexLineError"; "_IndexLineNotObjectError";
     "_IndexLineMissingFieldError"; "_UnknownOpError"; "_EncodedPathTooLongError";
     "_ObjectNotPresentError"; "_ObjectEvictedError"; "_NoVersionsForPathError";
     "_VersionOutOfRangeError"; "_NoSuchProposalError"; "_NoVersionAtTimeError";
     "_NoVersionWithShaError"; "_LiveReadError"]%py).
(** [except ValueError] *)
Definition is_value_error (e : exn) : bool :=
  bool_decide (exn_type e ∈
    ["ValueError"; "JSONDecodeError"; "UnicodeEncodeError"; "UnicodeDecodeError";
     "_SelectorRequiredError"]%py).

(** ** Versions *)

Record Version := {
  ts : pystr; v_proposal_id : pystr; v_sha256 : pystr; size : Z; op : pystr; actor : pystr;
  prev_sha256 : option pystr; evicted : bool }.
#[global] Instance Version_eq_dec : EqDecision Version.
Proof. solve_decision. Defined.

Definition ops : list pystr := ["write"; "delete"; "move-src"; "move-dst"; "restore"; "patch"].
Definition _validate_op `{Unicode} (value : pystr) : res pystr :=
  if bool_decide (value ∈ ops) then Ret value else Raise (_UnknownOpError value).

Definition version_payload (v : Version) : dict :=
  [("ts", JStr (ts v)); ("proposal_id", JStr (v_proposal_id v)); ("sha256", JStr (v_sha256 v));
   ("size", JInt (size v)); ("op", JStr (op v)); ("actor", JStr (actor v));
   ("prev_sha256", match prev_sha256 v with Some s => JStr s | None => JNull end)]
  ++ (if evicted v then [("evicted", JBool true)] else []).
Definition to_json (v : Version) : pystr := dumps_compact (JDict (version_payload v)).

Section store.
Context `{Unicode}.

(** [data[k]], whose [KeyError] names the field. *)
Definition field (k : pystr) (d : dict) : res json :=
  match dget k d with Some j => Ret j | None => Raise (Exn "KeyError" k) end.
Definition version_of (d : dict) : res Version :=
  let? t := field "ts" d in
  let? p := field "proposal_id" d in
  let? s := field "sha256" d in
  let? n := field "size" d in
  let? size := py_int n in
  let? o := field "op" d in
  let? op := _validate_op (py_str o) in
  let? a := field "actor" d in
  Ret {| ts := py_str t; v_proposal_id := py_str p; v_sha256 := py_str s; size := size; op := op;
         actor := py_str a;
         prev_sha256 := match get_or_null "prev_sha256" d with JNull => None | j => Some (py_str j) end;
         evicted := match dget "evicted" d with Some j => truthy j | None => false end |}.
(** The handlers around the two parts of [Version.from_json]. *)
Definition from_json (line : pystr) : res Version :=
  match loads line with
  | Raise e => if bool_decide (e = JSONDecodeError) then Raise (_CorruptIndexLineError (exn_msg e))
               else Raise e
  | Ret (JDict d) =>
      match version_of d with
      | Ret v => Ret v
      | Raise e =>
          if bool_decide (exn_type e = "KeyError"%py) then Raise (_IndexLineMissingFieldError (exn_msg e))
          else if bool_decide (exn_type e ∈ ["ValueError"; "TypeError"]%py)
          then Raise (_CorruptIndexLineError (exn_msg e))
          else Raise e
      end
  | Ret _ => Raise _IndexLineNotObjectError
  end.

(** ** Names of index files *)

(** [urllib.parse.quote(path, safe="")] *)
Definition always_safe (b : N) : bool :=
  (is_digit b || is_lower b || (65 <=? b) && (b <=? 90)
   || (b =? 95) || (b =? 46) || (b =? 45) || (b =? 126))%N.
Definition upper_hex (d : N) : N := (if d <? 10 then 48 + d else 55 + d)%N.
Definition quote_byte (b : N) : pystr :=
  if always_safe b then [b] else [37%N; upper_hex (b / 16); upper_hex (b mod 16)].
Definition quote (s : pystr) : res pystr :=
  match utf8 s with
  | Some bs => Ret (concat (map quote_byte bs))
  | None => Raise (Exn "UnicodeEncodeError" "surrogates not allowed")
  end.
Definition _encode_path (path : pystr) : res pystr :=
  let? encoded := quote path in
  if (_INDEX_NAME_MAX <? length encoded)%nat then Raise (_EncodedPathTooLongError path)
  else Ret encoded.
(** The name of the file below [index/]. *)
Definition _index_path (path : pystr) : res pystr :=
  let? e := _encode_path path in Ret (e ++ ".jsonl").

(** ** The store on disk *)

(** The objects by digest, and the index files by name. *)
Record Store := { objects : gmap pystr (list N); index : gmap pystr (list N) }.

(** The calls of the store that may fail by themselves. *)
Inductive io_call :=
| IoStat (name : pystr) | IoRead (name : pystr)
| IoWriteObject (sha : pystr) | IoOpenAppend (name : pystr) | IoFsync (name : pystr)
| IoRename (src dst : pystr) | IoUnlink (name : pystr).
Class StoreIo := { io_fault : io_call → option fault }.
Context `{StoreIo}.

Definition os_error (f : fault) (name : pystr) : exn :=
  Exn "OSError" (oserror_str (EFault f) (Name name)).
Definition io {A} (c : io_call) (name : pystr) (r : A) : res A :=
  match io_fault c with Some f => Raise (os_error f name) | None => Ret r end.
(** A call on an index file; the system refuses a name that is too long. *)
Definition io_named {A} (c : io_call) (name : pystr) (r : A) : res A :=
  if (NAME_MAX <? length name)%nat then Raise (os_error ENAMETOOLONG name) else io c name r.

(** [idx.exists()] lets every error through but the absence of the file. *)
Definition index_exists (name : pystr) (st : Store) : res bool :=
  io_named (IoStat name) name (bool_decide (is_Some (index st !! name))).
Definition index_bytes (name : pystr) (st : Store) : res (list N) :=
  io_named (IoRead name) name (default [] (index st !! name)).

(** Universal newlines. *)
Fixpoint universal (s : pystr) : pystr :=
  match s with
  | 13%N :: 10%N :: s => NL :: universal s
  | 13%N :: s => NL :: universal s
  | c :: s => c :: universal s
  | [] => []
  end.
(** The lines of a log that hold something.  (The line's terminator is dropped;
    the parser ignores it.) *)
Definition log_lines (text : pystr) : list pystr :=
  List.filter (λ l, negb (bool_decide (strip l = []))) (split_on NL (universal text)).
Fixpoint parse_lines (ls : list pystr) : res (list Version) :=
  match ls with
  | [] => Ret []
  | l :: ls => let? v := from_json l in let? vs := parse_lines ls in Ret (v :: vs)
  end.
Definition decode_utf8 (bs : list N) : res pystr :=
  match decode bs with
  | Some s => Ret s
  | None => Raise (Exn "UnicodeDecodeError" "'utf-8' codec can't decode the data")
  end.

(** The text is decoded before its first line is parsed, as it is for a log
    that fits in one read. *)
Definition history (path : pystr) (st : Store) : res (list Version) :=
  let? name := _index_path path in
  let? there := index_exists name st in
  if there then
    let? bytes := index_bytes name st in
    let? text := decode_utf8 bytes in
    parse_lines (log_lines text)
  else Ret [].

Definition _last_sha (path : pystr) (st : Store) : res (option pystr) :=
  match history path st with
  | Ret vs => Ret (option_map v_sha256 (last vs))
  | Raise e => if is_backup_error e then Ret None else Raise e
  end.

Definition object_exists (sha : pystr) (st : Store) : res bool :=
  io (IoStat sha) sha (bool_decide (is_Some (objects st !! sha))).
Definition fetch_object (sha : pystr) (st : Store) : res (list N) :=
  let? there := object_exists sha st in
  if there then io (IoRead sha) sha (default [] (objects st !! sha))
  else Raise (_ObjectNotPresentError sha).

(** [_atomic_write_bytes] of an object: written under a temporary name, then
    renamed, so it is there in full or not at all. *)
Definition put_object (sha : pystr) (data : list N) (st : Store) : res Store :=
  let? there := object_exists sha st in
  if there then Ret st
  else io (IoWriteObject sha) sha
         {| objects := <[sha := data]> (objects st); index := index st |}.

Definition encode_ascii_or_utf8 (s : pystr) : list N := default [] (utf8 s).
(** One [write] of the line; a failing [fsync] comes after it. *)
Definition _atomic_append_line (name line : pystr) (st : Store) : res unit * Store :=
  match io_named (IoOpenAppend name) name tt with
  | Raise e => (Raise e, st)
  | Ret _ =>
      (io (IoFsync name) name tt,
       {| objects := objects st;
          index := <[name := default [] (index st !! name)
                             ++ encode_ascii_or_utf8 (line ++ [NL])]> (index st) |})
  end.

(** [now] is [_utc_now_iso()]. *)
Definition capture (now path : pystr) (prior_bytes : list N) (proposal_id op_ actor_ : pystr)
    (st : Store) : res Version * Store :=
  let sha := Sha.sha256_hex prior_bytes in
  match put_object sha prior_bytes st with
  | Raise e => (Raise e, st)
  | Ret st1 =>
      match _last_sha path st1 with
      | Raise e => (Raise e, st1)
      | Ret prev_sha =>
          let version := {| ts := now; v_proposal_id := proposal_id; v_sha256 := sha;
                            size := Z.of_nat (length prior_bytes); op := op_; actor := actor_;
                            prev_sha256 := prev_sha; evicted := false |} in
          match _index_path path with
          | Raise e => (Raise e, st1)
          | Ret name =>
              match _atomic_append_line name (to_json version) st1 with
              | (Raise e, st2) => (Raise e, st2)
              | (Ret _, st2) => (Ret version, st2)
              end
          end
      end
  end.

Definition end_line (b : list N) : list N :=
  match b with [] => [] | _ => if endswith b [NL] then b else b ++ [NL] end.

Definition with_index (st : Store) (i : gmap pystr (list N)) : Store :=
  {| objects := objects st; index := i |}.
(** What is known before anything changes: whether the source has a log, the
    names, the source's bytes and those of a log the destination has. *)
Definition rename_plan (src dst : pystr) (st : Store)
    : res (option (pystr * pystr * list N * option (list N))) :=
  let? src_index := _index_path src in
  let? there := index_exists src_index st in
  if negb there then Ret None
  else
    let? dst_index := _index_path dst in
    let? src_data := index_bytes src_index st in
    let? dst_there := index_exists dst_index st in
    if dst_there then
      let? dst_data := index_bytes dst_index st in
      Ret (Some (src_index, dst_index, src_data, Some dst_data))
    else Ret (Some (src_index, dst_index, src_data, None)).
Definition rename_history (src dst : pystr) (st : Store) : res bool * Store :=
  match rename_plan src dst st with
  | Raise e => (Raise e, st)
  | Ret None => (Ret false, st)
  | Ret (Some (src_index, dst_index, src_data, dst_data)) =>
      match io_named (IoRename src_index dst_index) dst_index tt, dst_data with
      | Raise e, _ => (Raise e, st)
      | Ret _, Some dst_data =>
          let merged := <[dst_index := end_line src_data ++ end_line dst_data]> (index st) in
          match io_named (IoUnlink src_index) src_index tt with
          | Raise e => (Raise e, with_index st merged)
          | Ret _ => (Ret true, with_index st (delete src_index merged))
          end
      | Ret _, None =>
          (Ret true, with_index st (<[dst_index := src_data]> (delete src_index (index st))))
      end
  end.

(** ** Selecting a version *)

(** [datetime.fromisoformat]: whether the time is aware of its offset, and the
    instant. *)
Class IsoFormat := { fromisoformat : pystr → res (bool * Z) }.
Context `{IsoFormat}.
Definition plus_zero : pystr := "+00:00".
Definition _parse_iso (t : pystr) : res (bool * Z) :=
  fromisoformat (replace_char 90%N plus_zero t).
(** [a <= b] *)
Definition time_le (a b : bool * Z) : res bool :=
  if Bool.eqb a.1 b.1 then Ret (a.2 <=? b.2)%Z
  else Raise (Exn "TypeError" "can't compare offset-naive and offset-aware datetimes").
Fixpoint not_after (at_dt : bool * Z) (vs : list Version) : res (list Version) :=
  match vs with
  | [] => Ret []
  | v :: vs =>
      let? t := _parse_iso (ts v) in
      let? le := time_le t at_dt in
      let? rest := not_after at_dt vs in
      Ret (if le then v :: rest else rest)
  end.

(** [version], [proposal_id], [at] and [sha256], each given or not. *)
Record selector := {
  by_version : option Z; by_proposal : option pystr; by_at : option pystr; by_sha : option pystr }.
Definition given {A} (o : option A) : nat := match o with Some _ => 1 | None => 0 end.
Definition selected (s : selector) : nat :=
  given (by_version s) + given (by_proposal s) + given (by_at s) + given (by_sha s).

(** [versions[version - 1] if version > 0 else versions[version]] *)
Definition nth_version (vs : list Version) (version : Z) : option Version :=
  if (0 <? version)%Z then vs !! Z.to_nat (version - 1)
  else if (Z.of_nat (length vs) + version <? 0)%Z then None
  else vs !! Z.to_nat (Z.of_nat (length vs) + version).

Definition resolve_version (path : pystr) (s : selector) (st : Store) : res Version :=
  if negb (Nat.eqb (selected s) 1) then Raise _SelectorRequiredError
  else
    let? versions := history path st in
    match versions with
    | [] => Raise (_NoVersionsForPathError path)
    | _ =>
        match by_version s, by_proposal s, by_sha s, by_at s with
        | Some version, _, _, _ =>
            if (version =? 0)%Z then Raise (_VersionOutOfRangeError version path)
            else match nth_version versions version with
                 | Some v => Ret v
                 | None => Raise (_VersionOutOfRangeError version path)
                 end
        | None, Some proposal_id, _, _ =>
            match List.find (λ v, bool_decide (v_proposal_id v = proposal_id)) versions with
            | Some v => Ret v
            | None => Raise (_NoSuchProposalError proposal_id)
            end
        | None, None, Some sha256, _ =>
            match last (List.filter (λ v, bool_decide (v_sha256 v = sha256)) versions) with
            | Some v => Ret v
            | None => Raise (_NoVersionWithShaError sha256 path)
            end
        | None, None, None, Some at_ =>
            let? at_dt := _parse_iso at_ in
            let? candidates := not_after at_dt versions in
            match last candidates with
            | Some v => Ret v
            | None => Raise (_NoVersionAtTimeError at_ path)
            end
        | None, None, None, None => Raise _SelectorRequiredError
        end
    end.
Definition version_selector (z : Z) : selector :=
  {| by_version := Some z; by_proposal := None; by_at := None; by_sha := None |}.

(** ** Differences *)

(** One side: the bytes and their label.  A side is a position or a digest. *)
Definition _resolve_side (path : pystr) (sel : Z + pystr) (st : Store) : res (list N * pystr) :=
  let? v := match sel with
            | inl z => resolve_version path (version_selector z) st
            | inr sha =>
                let? vs := history path st in
                match last (List.filter (λ v, bool_decide (v_sha256 v = sha)) vs) with
                | Some v => Ret v
                | None => Raise (_NoVersionWithShaError sha path)
                end
            end in
  if evicted v then Raise (_ObjectEvictedError (v_sha256 v) path)
  else
    let? data := fetch_object (v_sha256 v) st in
    Ret (data, path ++ "@" ++ ts v).

(** UTF-8 where it decodes; else Latin-1, with universal newlines. *)
Definition _decode_for_diff (data : list N) : pystr :=
  match decode data with Some s => s | None => universal data end.

(** [str.splitlines(keepends=True)] *)
Definition line_break (c : N) : bool :=
  ((10 <=? c) && (c <=? 13) || (28 <=? c) && (c <=? 30) || (c =? 133) || (c =? 8232) || (c =? 8233))%N.
Fixpoint splitlines_keep (s : pystr) : list pystr :=
  match s with
  | [] => []
  | 13%N :: 10%N :: s => [13%N; 10%N] :: splitlines_keep s
  | c :: s =>
      if line_break c then [c] :: splitlines_keep s
      else match splitlines_keep s with
           | [] => [[c]]
           | l :: ls => (c :: l) :: ls
           end
  end.

(** [difflib.unified_diff(a, b, fromfile, tofile)] *)
Class Difflib := { unified_diff : list pystr → list pystr → pystr → pystr → list pystr }.
Context `{Difflib}.
(** [live] is what [Path(path).read_bytes()] gives: it follows links and asks
    no root. *)
Definition live_bytes (d : disk) (cwd : list pystr) (path : pystr) : out (list N) :=
  let p := path_of path in
  match name_error path with
  | Some e => Err (PyError e)
  | None =>
  match namei lookup_budget d (if startswith path [SL] then [] else cwd) (parts p) with
  | inl e => Err (OsError e (Name (path_str p)))
  | inr loc => match node_at d loc with
               | Some (File b) => Ok b
               | Some _ => Err (OsError EISDIR (Name (path_str p)))
               | None => Err (OsError ENOENT (Name (path_str p)))
               end
  end
  end.
Definition diff (d : disk) (cwd : list pystr) (path : pystr) (from_version : Z + pystr)
    (to_version : option (Z + pystr)) (st : Store) : res pystr :=
  let? (from_bytes, from_label) := _resolve_side path from_version st in
  let? (to_bytes, to_label) :=
    match to_version with
    | None =>
        match live_bytes d cwd path with
        | Ok b => Ret (b, path ++ ":current")
        | Err (OsError e names) => Raise (_LiveReadError path (oserror_str e names))
        | Err (PyError e) => Raise e
        | Err _ => Raise (Exn "RuntimeError" "not raised by a read")
        end
    | Some v => _resolve_side path v st
    end in
  Ret (concat (unified_diff (splitlines_keep (_decode_for_diff from_bytes))
                 (splitlines_keep (_decode_for_diff to_bytes)) from_label to_label)).

(** ** Opening a store *)

(** [meta] is the text of [meta.json], if there is one; the result is the text
    it has afterwards. *)
Definition _ensure_layout (cap_bytes : Z) (meta : option (list N)) : res (list N) :=
  match meta with
  | None =>
      Ret (encode_ascii_or_utf8
             (dumps_compact (JDict [("store_version", JInt _STORE_VERSION); ("cap_bytes", JInt cap_bytes)])))
  | Some bytes =>
      let? text := decode_utf8 bytes in
      match loads (universal text) with
      | Raise e => if bool_decide (e = JSONDecodeError) then Raise (_CorruptMetaError (exn_msg e))
                   else Raise e
      | Ret meta =>
          match meta with
          | JDict d => if py_eq_int (get_or_null "store_version" d) _STORE_VERSION then Ret bytes
                       else Raise (_UnsupportedStoreVersionError meta)
          | _ => Raise (_UnsupportedStoreVersionError meta)
          end
      end
  end.
End store.

(** ** Versions read back *)

Definition good_version (v : Version) : Prop :=
  scalars (ts v) ∧ scalars (v_proposal_id v) ∧ scalars (v_sha256 v) ∧ scalars (actor v) ∧
  op v ∈ ops ∧ (length (str_of_N (Z.abs_N (size v))) <= 4300)%nat ∧
  match prev_sha256 v with Some s => scalars s | None => True end.

Lemma ops_scalars o : o ∈ ops → scalars o.
Proof.
  intros Ho. apply scalars_spec. unfold ops in Ho.
  repeat (apply elem_of_cons in Ho as [->|Ho]; [by vm_compute|]). by apply elem_of_nil in Ho.
Qed.

Lemma payload_flat v : good_version v → flat (version_payload v).
Proof.
  intros (H1 & H2 & H3 & H4 & H5 & H6 & H7). unfold version_payload, flat.
  assert (Hk : ∀ k, forallb scalarb k = true → scalars k) by (intros; by apply scalars_spec).
  pose proof (ops_scalars _ H5).
  repeat apply Forall_app_2; repeat (constructor; [split; [by apply Hk|simpl; try done]|]); try done.
  - by destruct (prev_sha256 v).
  - destruct (evicted v); repeat constructor; by apply Hk.
Qed.
Lemma payload_keys v : NoDup (dkeys (version_payload v)).
Proof. unfold version_payload. destruct (evicted v); simpl; apply (bool_decide_unpack _); by vm_compute. Qed.

Section version_facts.
Context `{Unicode}.

(** Sorting moves the fields, not what they hold. *)
Lemma sorted_payload (a b c d e f g : json) (h : list (pystr * json)) :
  h = [] ∨ h = [("evicted"%py, JBool true)] →
  merge_sort key_le ([("ts"%py, a); ("proposal_id"%py, b); ("sha256"%py, c); ("size"%py, d); ("op"%py, e);
                      ("actor"%py, f); ("prev_sha256"%py, g)] ++ h) =
  [("actor"%py, f)] ++ h ++ [("op"%py, e); ("prev_sha256"%py, g); ("proposal_id"%py, b);
                             ("sha256"%py, c); ("size"%py, d); ("ts"%py, a)].
Proof. intros [-> | ->]; by vm_compute. Qed.

Lemma version_of_payload v : good_version v → version_of (merge_sort key_le (version_payload v)) = Ret v.
Proof.
  intros (_ & _ & _ & _ & Hop & _). destruct v as [t p s n o a pr ev]. simpl in Hop.
  unfold version_payload. cbn [ts v_proposal_id v_sha256 size op actor prev_sha256 evicted].
  rewrite sorted_payload by (destruct ev; auto).
  assert (Hv : _validate_op o = Ret o) by (unfold _validate_op; by rewrite bool_decide_eq_true_2).
  destruct ev, pr; cbn [app]; unfold version_of, field, get_or_null;
    repeat match goal with
    | |- context [dget ?k ?d] => let x := eval vm_compute in (dget k d) in
                                 replace (dget k d) with x by (vm_compute; reflexivity)
    end;
    cbn [rbind py_int py_str]; rewrite Hv; done.
Qed.

Lemma from_to_json v : good_version v → from_json (to_json v) = Ret v.
Proof.
  intros Hv. unfold from_json, to_json.
  rewrite loads_flat; [|done|by apply payload_flat|apply payload_keys].
  by rewrite version_of_payload.
Qed.
End version_facts.

(** ** Logs read back *)

Lemma decode_ascii s : Forall (λ c, (c < 128)%N) s → decode s = Some s.
Proof.
  intros Hs. apply decode_encode; [|by apply utf8_ascii].
  eapply Forall_impl; [exact Hs|]. intros c Hc. unfold valid_char. cbv beta in Hc. lia.
Qed.

Lemma to_json_visible v : good_version v → Forall visible (to_json v).
Proof. intros Hv. apply flat_visible, payload_flat, Hv. Qed.

(** The bytes of a log. *)
Definition log_of (vs : list Version) : list N := concat (map (λ v, to_json v ++ [NL]) vs).
Lemma log_of_app vs ws : log_of (vs ++ ws) = log_of vs ++ log_of ws.
Proof. unfold log_of. by rewrite map_app, concat_app. Qed.

Lemma log_ascii vs : Forall good_version vs → Forall (λ c, c < 128)%N (log_of vs).
Proof.
  intros H. unfold log_of. induction H as [|v vs Hv Hvs IH]; [constructor|]. cbn [map concat].
  apply Forall_app_2; [|done]. apply Forall_app_2; [|repeat constructor; lia].
  eapply Forall_impl; [by apply to_json_visible|]. unfold visible. simpl. intros. lia.
Qed.

Lemma universal_id s : Forall (λ c, c ≠ 13%N) s → universal s = s.
Proof.
  induction 1 as [|c s Hc Hs IH]; [done|]. simpl.
  rewrite IH. repeat case_match; try done; congruence.
Qed.

Lemma to_json_head v : ∃ t, to_json v = 123%N :: t.
Proof. unfold to_json. rewrite dumps_compact_dict. by eexists. Qed.
Lemma strip_visible c s : is_space c = false → strip (c :: s) ≠ [].
Proof.
  intros Hc. unfold strip. simpl. rewrite Hc. unfold rstrip. intros E.
  apply (f_equal (@rev N)) in E. rewrite rev_involutive in E. simpl in E.
  destruct (lstrip_suffix (rev (c :: s))) as (p & Hp & Hsp). simpl in *. rewrite E, app_nil_r in Hp.
  rewrite Forall_forall in Hsp. rewrite <- Hp in Hsp.
  specialize (Hsp c). rewrite Hsp in Hc; [done|]. set_solver.
Qed.

Lemma log_lines_of vs : Forall good_version vs → log_lines (log_of vs) = map to_json vs.
Proof.
  intros Hg. unfold log_lines. rewrite universal_id.
  2:{ unfold log_of. induction Hg as [|v vs Hv Hvs IH]; [constructor|]. cbn [map concat].
      apply Forall_app_2; [|done]. apply Forall_app_2; [|repeat constructor; lia].
      eapply Forall_impl; [by apply to_json_visible|]. unfold visible. intros. lia. }
  induction Hg as [|v vs Hv Hvs IH]; [done|].
  unfold log_of in *. cbn [map concat]. rewrite <- app_assoc. cbn [app]. rewrite split_on_app.
  - cbn [List.filter]. rewrite IH.
    destruct (to_json_head v) as [t E]. rewrite bool_decide_eq_false_2; [done|].
    rewrite E. by apply strip_visible.
  - intros Hin. pose proof (to_json_visible v Hv) as Hvis. rewrite Forall_forall in Hvis.
    specialize (Hvis _ Hin). unfold visible in Hvis. lia.
Qed.

Lemma parse_log `{Unicode} vs : Forall good_version vs → parse_lines (map to_json vs) = Ret vs.
Proof.
  induction 1 as [|v vs Hv Hvs IH]; [done|]. simpl. by rewrite from_to_json, IH.
Qed.

(** ** Distinct paths have distinct logs *)

Lemma upper_hex_inj a b : (a < 16)%N → (b < 16)%N → upper_hex a = upper_hex b → a = b.
Proof. unfold upper_hex. intros. destruct (N.ltb_spec a 10), (N.ltb_spec b 10); lia. Qed.
Lemma upper_hex_safe a : (a < 16)%N → always_safe (upper_hex a) = true.
Proof.
  intros Ha. assert (Hin : a ∈ map N.of_nat (seq 0 16)).
  { apply list_elem_of_fmap. exists (N.to_nat a). split; [lia|]. apply elem_of_seq. lia. }
  clear Ha. simpl in Hin. repeat (apply elem_of_cons in Hin as [->|Hin]; [by vm_compute|]).
  by apply elem_of_nil in Hin.
Qed.
Lemma quote_byte_inj a b x y :
  (a < 256)%N → (b < 256)%N → quote_byte a ++ x = quote_byte b ++ y → a = b ∧ x = y.
Proof.
  intros Ha Hb. unfold quote_byte.
  assert (Hs : always_safe 37 = false) by by vm_compute.
  assert (Hh : ∀ n, (n < 256)%N → (n / 16 < 16)%N) by (intros; apply N.Div0.div_lt_upper_bound; lia).
  assert (Hm : ∀ n, (n mod 16 < 16)%N) by (intros; by apply N.mod_lt).
  destruct (always_safe a) eqn:Ea, (always_safe b) eqn:Eb; cbn [app]; intros E.
  - by injection E as -> ->.
  - injection E as -> _. congruence.
  - injection E as <- _. congruence.
  - injection E as E1 E2 ->. apply upper_hex_inj in E1; [|by apply Hh..].
    apply upper_hex_inj in E2; [|by apply Hm..]. split; [|done].
    rewrite (N.div_mod a 16), (N.div_mod b 16) by done. congruence.
Qed.
Lemma quote_bytes_inj a b :
  Forall (λ c, c < 256)%N a → Forall (λ c, c < 256)%N b →
  concat (map quote_byte a) = concat (map quote_byte b) → a = b.
Proof.
  intros Ha. revert b. induction Ha as [|c a Hc Ha IH]; intros b Hb.
  - destruct Hb as [|d b Hd Hb]; [done|]. simpl. unfold quote_byte. by destruct (always_safe d).
  - destruct Hb as [|d b Hd Hb]; simpl.
    + unfold quote_byte. by destruct (always_safe c).
    + intros [-> E]%quote_byte_inj; [|done..]. f_equal. by apply IH.
Qed.
Lemma quote_no_slash bs : Forall (λ c, c < 256)%N bs → SL ∉ concat (map quote_byte bs).
Proof.
  induction 1 as [|c bs Hc Hbs IH]; [by apply not_elem_of_nil|]. cbn [map concat].
  rewrite not_elem_of_app. split; [|done].
  assert (Hs : always_safe SL = false) by by vm_compute.
  unfold quote_byte. destruct (always_safe c) eqn:E.
  - intros <-%list_elem_of_singleton. congruence.
  - assert (Hh : (c / 16 < 16)%N) by (apply N.Div0.div_lt_upper_bound; lia).
    pose proof (upper_hex_safe _ Hh) as E1.
    pose proof (upper_hex_safe _ (N.mod_lt c 16 ltac:(done))) as E2.
    intros [?|[Hi|Hi%list_elem_of_singleton]%elem_of_cons]%elem_of_cons; congruence.
Qed.
Lemma utf8_bytes s bs : scalars s → utf8 s = Some bs → Forall (λ c, c < 256)%N bs.
Proof.
  intros Hs. revert bs. induction Hs as [|c s [Hc Hsur] Hs IH]; intros bs; [by intros [= <-]|].
  intros (u & us & Hu & Hus & -> & _)%utf8_cons. apply Forall_app_2; [|by apply IH].
  unfold utf8_char in Hu. pose proof (N.mod_lt c 64 ltac:(done)).
  pose proof (N.mod_lt (c / 64) 64 ltac:(done)). pose proof (N.mod_lt (c / 4096) 64 ltac:(done)).
  destruct (N.ltb_spec c 128); [simplify_eq; repeat constructor; lia|].
  destruct (N.ltb_spec c 2048).
  { simplify_eq. assert (c / 64 < 32)%N by (apply N.Div0.div_lt_upper_bound; lia).
    repeat constructor; lia. }
  rewrite Hsur in Hu. destruct (N.ltb_spec c 65536); simplify_eq.
  - assert (c / 4096 < 16)%N by (apply N.Div0.div_lt_upper_bound; lia). repeat constructor; lia.
  - assert (c / 262144 < 8)%N by (apply N.Div0.div_lt_upper_bound; lia). repeat constructor; lia.
Qed.

Lemma utf8_scalars s bs : Forall valid_char s → utf8 s = Some bs → scalars s.
Proof.
  revert bs. induction s as [|c s IH]; intros bs Hv; [constructor|].
  apply Forall_cons in Hv as [Hc Hv].
  intros (u & us & Hu & Hus & _ & _)%utf8_cons. constructor; [|by eapply IH]. split; [done|].
  unfold utf8_char in Hu. unfold is_surrogate. apply andb_false_iff. rewrite !N.leb_gt.
  destruct (N.ltb_spec c 128); [lia|]. destruct (N.ltb_spec c 2048); [lia|].
  destruct (is_surrogate c) eqn:E; [done|]. unfold is_surrogate in E.
  apply andb_false_iff in E. rewrite !N.leb_gt in E. done.
Qed.
Lemma quote_inj s t e :
  Forall valid_char s → Forall valid_char t → quote s = Ret e → quote t = Ret e → s = t.
Proof.
  intros Hs Ht. unfold quote. destruct (utf8 s) as [a|] eqn:Ea; [|done].
  destruct (utf8 t) as [b|] eqn:Eb; [|done]. intros [= <-] [= E].
  apply quote_bytes_inj in E as ->.
  - by eapply utf8_inj.
  - eapply utf8_bytes; [|exact Eb]. by eapply utf8_scalars.
  - eapply utf8_bytes; [|exact Ea]. by eapply utf8_scalars.
Qed.
Lemma index_path_inj `{Unicode} s t n :
  Forall valid_char s → Forall valid_char t → _index_path s = Ret n → _index_path t = Ret n → s = t.
Proof.
  intros Hs Ht (e & He & [= <-])%rbind_Ret (e' & He' & [= E])%rbind_Ret.
  apply app_inv_tail in E as ->. unfold _encode_path in *.
  apply rbind_Ret in He as (x & Hx & He). apply rbind_Ret in He' as (y & Hy & He').
  destruct (_ <? length x)%nat; [done|]. destruct (_ <? length y)%nat; [done|]. simplify_eq.
  by eapply quote_inj.
Qed.

(** ** The invariant of a store *)

Definition recorded (st : Store) (v : Version) : Prop := is_Some (objects st !! v_sha256 v).
(** Every log reads back, its versions have their objects, and every object is
    under its digest. *)
Definition store_ok (st : Store) : Prop :=
  (∀ name b, index st !! name = Some b →
     ∃ vs, b = log_of vs ∧ Forall good_version vs ∧ Forall (recorded st) vs) ∧
  ∀ sha d, objects st !! sha = Some d → Sha.sha256_hex d = sha.

(** [path] has the log [vs]. *)
Definition logged `{Unicode} (st : Store) (path : pystr) (vs : list Version) : Prop :=
  ∃ name, _index_path path = Ret name ∧ default [] (index st !! name) = log_of vs ∧
          Forall good_version vs.

Lemma hex_scalars bs : scalars (Sha.hex bs).
Proof.
  unfold Sha.hex. induction bs as [|b bs IH]; [constructor|]. cbn [map concat].
  apply scalars_app; [|done]. eapply Forall_impl; [apply hex_pad_visible|].
  intros c Hc. unfold visible in Hc. split; [lia|]. unfold is_surrogate.
  apply andb_false_iff. rewrite !N.leb_gt. lia.
Qed.

Section store_facts.
Context `{Unicode, StoreIo}.

Lemma io_Ret {A} c name (r a : A) : io c name r = Ret a → a = r ∧ io_fault c = None.
Proof. unfold io. destruct (io_fault c); [done|]. by intros [= ->]. Qed.
Lemma io_named_Ret {A} c name (r a : A) :
  io_named c name r = Ret a → a = r ∧ (length name ≤ NAME_MAX)%nat.
Proof.
  unfold io_named. destruct (NAME_MAX <? length name)%nat eqn:E; [done|].
  apply Nat.ltb_ge in E. by intros [-> _]%io_Ret.
Qed.
Lemma io_Raise {A} c name (r : A) e : io c name r = Raise e → is_backup_error e = false.
Proof. unfold io. destruct (io_fault c); [|done]. by intros [= <-]. Qed.
Lemma io_named_Raise {A} c name (r : A) e : io_named c name r = Raise e → is_backup_error e = false.
Proof.
  unfold io_named. destruct (NAME_MAX <? length name)%nat; [by intros [= <-]|apply io_Raise].
Qed.

(** What a log that is read holds. *)
Lemma read_log st name vs :
  default [] (index st !! name) = log_of vs → Forall good_version vs →
  (if bool_decide (is_Some (index st !! name))
   then let? text := decode_utf8 (default [] (index st !! name)) in parse_lines (log_lines text)
   else Ret []) = Ret vs.
Proof.
  intros E Hg. case_bool_decide as Hs.
  - rewrite E. unfold decode_utf8. rewrite decode_ascii by by apply log_ascii. cbn [rbind].
    by rewrite log_lines_of, parse_log by done.
  - destruct (index st !! name) as [b|]; [by destruct Hs|]. simpl in E.
    destruct vs as [|v vs]; [done|]. by destruct (to_json_head v) as [t Et].
Qed.

(** Reading the history of a logged path gives its log, or fails in a call. *)
Lemma history_logged path st vs :
  logged st path vs →
  history path st = Ret vs ∨ ∃ e, history path st = Raise e ∧ is_backup_error e = false.
Proof.
  intros (name & Hn & Hl & Hg). unfold history. rewrite Hn. cbn [rbind].
  pose proof (read_log st name vs Hl Hg) as Hr. unfold index_exists, index_bytes.
  destruct (io_named (IoStat name) _ _) as [there|e] eqn:E1; cbn [rbind].
  2:{ right. exists e. split; [done|]. by eapply io_named_Raise. }
  apply io_named_Ret in E1 as [-> _]. case_bool_decide; [|by left].
  destruct (io_named (IoRead name) _ _) as [x|e] eqn:E2; cbn [rbind].
  - apply io_named_Ret in E2 as [-> _]. by left.
  - right. exists e. split; [done|]. by eapply io_named_Raise.
Qed.

Lemma io_named_calm {A} c name (r : A) :
  (∀ c, io_fault c = None) → (length name ≤ NAME_MAX)%nat → io_named c name r = Ret r.
Proof.
  intros Hf Hl. unfold io_named, io. rewrite Hf. by rewrite (proj2 (Nat.ltb_ge _ _) Hl).
Qed.
(** When no call fails, and the name is not too long, it gives the log. *)
Lemma history_calm path st name vs :
  (∀ c, io_fault c = None) → _index_path path = Ret name → (length name ≤ NAME_MAX)%nat →
  logged st path vs → history path st = Ret vs.
Proof.
  intros Hf Hn Hs (n & Hn' & Hl & Hg). assert (n = name) as -> by congruence. unfold history. rewrite Hn. cbn [rbind].
  unfold index_exists, index_bytes. rewrite io_named_calm by done. cbn [rbind].
  rewrite io_named_calm by done. cbn [rbind]. by apply read_log.
Qed.

Lemma last_sha_logged path st vs o :
  logged st path vs → _last_sha path st = Ret o → o = option_map v_sha256 (last vs).
Proof.
  intros Hl. unfold _last_sha. destruct (history_logged path st vs Hl) as [-> |(e & -> & ->)];
    [by intros [= <-]|done].
Qed.

Lemma put_object_spec sha data st st1 :
  put_object sha data st = Ret st1 →
  index st1 = index st ∧ objects st ⊆ objects st1 ∧
  ∃ d, objects st1 !! sha = Some d ∧ (objects st !! sha = Some d ∨ d = data) ∧
       objects st1 = <[sha := d]> (objects st).
Proof.
  unfold put_object. intros (there & Ht%io_Ret & Hp)%rbind_Ret. destruct Ht as [-> _].
  case_bool_decide as Hs.
  - injection Hp as <-. destruct Hs as [d Hd]. split_and!; [done..|]. exists d.
    split_and!; [done|by left|]. by rewrite insert_id.
  - apply io_Ret in Hp as [-> _]. simpl. split_and!; [done| |].
    + apply insert_subseteq. destruct (objects st !! sha) eqn:E; [|done]. exfalso. eauto.
    + exists data. rewrite lookup_insert_eq. eauto.
Qed.

Lemma store_ok_objects st st1 :
  store_ok st → index st1 = index st → objects st ⊆ objects st1 →
  (∀ sha d, objects st1 !! sha = Some d → Sha.sha256_hex d = sha) → store_ok st1.
Proof.
  intros [Hi Ho] E Hsub Hk. split; [|done]. intros name b Hb. rewrite E in Hb.
  destruct (Hi name b Hb) as (vs & -> & Hg & Hr). exists vs. split_and!; [done..|].
  eapply Forall_impl; [exact Hr|]. intros v [d Hd]. exists d. by eapply lookup_weaken.
Qed.

Lemma append_line_spec name line st r st' :
  _atomic_append_line name line st = (r, st') →
  match r with
  | Ret _ => st' = with_index st (<[name := default [] (index st !! name)
                                  ++ encode_ascii_or_utf8 (line ++ [NL])]> (index st)) ∧
             (length name ≤ NAME_MAX)%nat
  | Raise e => is_backup_error e = false ∧
      (st' = st ∨ st' = with_index st (<[name := default [] (index st !! name)
                                  ++ encode_ascii_or_utf8 (line ++ [NL])]> (index st)))
  end.
Proof.
  unfold _atomic_append_line. destruct (io_named _ _ _) as [[]|e] eqn:E; intros [= <- <-].
  - destruct (io _ _ _) as [|e] eqn:E'.
    + apply io_named_Ret in E as [_ ?]. done.
    + apply io_Raise in E'. split; [done|by right].
  - apply io_named_Raise in E. auto.
Qed.

Lemma encode_line v : good_version v → encode_ascii_or_utf8 (to_json v ++ [NL]) = to_json v ++ [NL].
Proof.
  intros Hv. unfold encode_ascii_or_utf8. rewrite utf8_ascii; [done|].
  apply Forall_app_2; [|repeat constructor; lia].
  eapply Forall_impl; [by apply to_json_visible|]. unfold visible. simpl. intros. lia.
Qed.

(** Appending a version: the log of the path is longer by it, the others are as
    they were. *)
Lemma append_version st name v :
  store_ok st → good_version v → recorded st v →
  let st' := with_index st (<[name := default [] (index st !! name) ++ to_json v ++ [NL]]> (index st)) in
  store_ok st' ∧
  ∀ p ws, logged st p ws →
    (_index_path p = Ret name → logged st' p (ws ++ [v])) ∧
    (_index_path p ≠ Ret name → logged st' p ws).
Proof.
  intros [Hi Ho] Hv Hr st'. split.
  - split; [|done]. intros n b. simpl. destruct (decide (name = n)) as [<-|Hne].
    + rewrite lookup_insert_eq. intros [= <-].
      assert (Hold : ∃ vs, default [] (index st !! name) = log_of vs ∧ Forall good_version vs ∧
                           Forall (recorded st) vs).
      { destruct (index st !! name) as [b|] eqn:E; [by apply Hi in E|]. exists []. by split_and!. }
      destruct Hold as (vs & -> & Hg & Hrs). exists (vs ++ [v]). split_and!.
      * rewrite log_of_app. unfold log_of at 3. cbn [map concat]. by rewrite app_nil_r.
      * apply Forall_app_2; [done|by constructor].
      * apply Forall_app_2; [done|by constructor].
    + rewrite lookup_insert_ne by done. apply Hi.
  - intros p ws (n & Hn & Hl & Hg). rewrite Hn. split.
    + intros [= ->]. exists name. split_and!; [done| |].
      * simpl. rewrite lookup_insert_eq. simpl. rewrite log_of_app, <- Hl. unfold log_of.
        cbn [map concat]. by rewrite app_nil_r.
      * apply Forall_app_2; [done|by constructor].
    + intros Hne. exists n. split_and!; try done. simpl. by rewrite lookup_insert_ne by congruence.
Qed.
End store_facts.

(** ** Properties *)

Definition small_file (data : list N) : Prop :=
  (length (str_of_N (N.of_nat (length data))) <= 4300)%nat.
Definition capturable (now proposal_id op_ actor_ : pystr) (data : list N) : Prop :=
  scalars now ∧ scalars proposal_id ∧ scalars actor_ ∧ op_ ∈ ops ∧ small_file data.

Section properties.
Context `{Unicode, StoreIo}.

(** A path with a capture has a name the system accepts. *)
Lemma capture_short now path prior pid o a st v st' :
  capture now path prior pid o a st = (Ret v, st') →
  ∃ name, _index_path path = Ret name ∧ (length name ≤ NAME_MAX)%nat.
Proof.
  unfold capture. destruct (put_object _ _ _) as [st1|]; [|done].
  destruct (_last_sha _ _); [|done]. destruct (_index_path path) as [name|]; [|done].
  destruct (_atomic_append_line _ _ _) as [w st2] eqn:E. apply append_line_spec in E.
  destruct w; [|done]. intros _. exists name. by destruct E.
Qed.

Lemma logged_objects st st' p vs : index st' = index st → logged st p vs → logged st' p vs.
Proof. intros E (n & Hn & Hl & Hg). exists n. by rewrite E. Qed.

Lemma logged_last_good st p vs : logged st p vs →
  match option_map v_sha256 (last vs) with Some s => scalars s | None => True end.
Proof.
  intros (n & _ & _ & Hg). destruct (last vs) as [v|] eqn:E; simpl; [|done].
  apply last_Some in E as [l ->]. apply Forall_app in Hg as [_ Hg]. apply Forall_cons in Hg as [Hg _].
  apply Hg.
Qed.

Lemma capture_spec now path prior pid o a st vs r st' :
  store_ok st → Forall valid_char path → logged st path vs →
  capturable now pid o a prior → capture now path prior pid o a st = (r, st') →
  store_ok st' ∧ objects st ⊆ objects st' ∧
  (∀ p ws, Forall valid_char p → p ≠ path → logged st p ws → logged st' p ws) ∧
  match r with
  | Ret v =>
      logged st' path (vs ++ [v]) ∧
      ts v = now ∧ v_proposal_id v = pid ∧ op v = o ∧ actor v = a ∧
      v_sha256 v = Sha.sha256_hex prior ∧ prev_sha256 v = option_map v_sha256 (last vs) ∧
      ∃ d, objects st' !! v_sha256 v = Some d ∧ (d = prior ∨ sha256_collision d prior)
  | Raise _ => logged st' path vs ∨ ∃ v, logged st' path (vs ++ [v])
  end.
Proof.
  intros Hok Hpath Hlog (Hnow & Hpid & Ha & Ho & Hsize). unfold capture.
  destruct (put_object _ prior st) as [st1|e] eqn:Ep; [|by intros [= <- <-]; auto].
  apply put_object_spec in Ep as (Ei & Hsub & d & Hd & Hd' & Eo).
  assert (Hdd : d = prior ∨ sha256_collision d prior).
  { destruct Hd' as [Hd'|]; [|by left]. destruct (decide (d = prior)); [by left|right].
    split; [done|]. by apply Hok in Hd'. }
  assert (Hok1 : store_ok st1).
  { eapply store_ok_objects; [exact Hok|done|done|]. intros s x. rewrite Eo.
    destruct (decide (Sha.sha256_hex prior = s)) as [<-|Hne].
    - rewrite lookup_insert_eq. intros [= <-]. destruct Hdd as [->|[_ ?]]; done.
    - rewrite lookup_insert_ne by done. apply Hok. }
  assert (Hlog1 : logged st1 path vs) by by eapply logged_objects.
  assert (Hother : ∀ p ws, logged st p ws → logged st1 p ws) by (intros; by eapply logged_objects).
  destruct (_last_sha path st1) as [prev|e] eqn:El; [|intros [= <- <-]; auto 10].
  apply (last_sha_logged path st1 vs) in El as ->; [|done].
  set (v := {| ts := now; v_proposal_id := pid; v_sha256 := _ |}).
  assert (Hv : good_version v).
  { unfold good_version. simpl. split_and!; try done; [apply hex_scalars| |by eapply logged_last_good].
    unfold small_file in Hsize.
    replace (Z.abs_N (Z.of_nat (length prior))) with (N.of_nat (length prior)) by lia. done. }
  destruct Hlog1 as (name & Hn & Hlog1'). rewrite Hn.
  assert (Hlog1 : logged st1 path vs) by by exists name.
  destruct (_atomic_append_line _ _ _) as [w st2] eqn:Ea. apply append_line_spec in Ea.
  rewrite encode_line in Ea by done.
  destruct (append_version st1 name v Hok1 Hv) as [Hok2 Hl2]; [by exists d|].
  set (st3 := with_index st1 _) in *.
  assert (Hgrown : logged st3 path (vs ++ [v])) by exact (proj1 (Hl2 path vs Hlog1) Hn).
  assert (Hothers : ∀ p ws, Forall valid_char p → p ≠ path → logged st p ws → logged st3 p ws).
  { intros p ws Hp Hne Hw. apply Hl2; [by apply Hother|]. intros E. apply Hne.
    by eapply index_path_inj. }
  destruct w as [[]|e]; intros [= <- <-].
  - destruct Ea as [-> _]. split_and!; eauto.
  - destruct Ea as [_ [-> | ->]]; split_and!; eauto 10.
Qed.

(** A captured version can be had back: right after a capture, with no call
    failing, the newest version of the path and the version of that digest are
    both the one captured, and its object is the bytes captured (or collides). *)
Theorem capture_then_fetch `{IsoFormat} now path prior pid o a st vs v st' :
  (∀ c, io_fault c = None) →
  store_ok st → Forall valid_char path → logged st path vs →
  capturable now pid o a prior → capture now path prior pid o a st = (Ret v, st') →
  history path st' = Ret (vs ++ [v]) ∧
  resolve_version path (version_selector (-1)) st' = Ret v ∧
  resolve_version path {| by_version := None; by_proposal := None; by_at := None;
                          by_sha := Some (v_sha256 v) |} st' = Ret v ∧
  ∃ d, fetch_object (v_sha256 v) st' = Ret d ∧ (d = prior ∨ sha256_collision d prior).
Proof.
  intros Hf Hok Hp Hl Hc Hcap.
  destruct (capture_spec _ _ _ _ _ _ _ _ _ _ Hok Hp Hl Hc Hcap)
    as (_ & _ & _ & Hl' & _ & _ & _ & _ & _ & _ & d & Hd & Hdd).
  assert (Hh : history path st' = Ret (vs ++ [v])).
  { destruct (capture_short _ _ _ _ _ _ _ _ _ Hcap) as (name & Hn & Hshort).
    by eapply history_calm. }
  split_and!; [done| | |].
  - unfold resolve_version. simpl. rewrite Hh. cbn [rbind].
    destruct (vs ++ [v]) as [|w ws] eqn:E; [by destruct vs|]. rewrite <- E.
    unfold nth_version. change (0 <? -1)%Z with false. cbv iota. rewrite length_app. simpl length.
    rewrite (proj2 (Z.ltb_ge _ 0)) by lia.
    replace (Z.to_nat _) with (length vs) by lia. by rewrite list_lookup_middle.
  - unfold resolve_version. simpl. rewrite Hh. cbn [rbind].
    destruct (vs ++ [v]) as [|w ws] eqn:E; [by destruct vs|]. rewrite <- E.
    rewrite List.filter_app. simpl. rewrite bool_decide_eq_true_2 by done.
    by rewrite last_snoc.
  - exists d. split; [|done]. unfold fetch_object, object_exists, io. rewrite !Hf. cbn [rbind].
    rewrite bool_decide_eq_true_2 by done. by rewrite Hd.
Qed.
(** What a capture leaves, on every branch: the store stays well-formed, objects
    are only added, the logs of other paths are untouched.  When it returns, the
    log of the path has grown by the version returned, which names its
    predecessor, and the object holds the bytes captured (or a file that
    collides with them).  When it raises, the log is as it was or has grown by
    one version. *)
Theorem capture_records now path prior pid o a st vs r st' :
  store_ok st → Forall valid_char path → logged st path vs →
  capturable now pid o a prior → capture now path prior pid o a st = (r, st') →
  store_ok st' ∧ objects st ⊆ objects st' ∧
  (∀ p ws, Forall valid_char p → p ≠ path → logged st p ws → logged st' p ws) ∧
  match r with
  | Ret v =>
      logged st' path (vs ++ [v]) ∧
      ts v = now ∧ v_proposal_id v = pid ∧ op v = o ∧ actor v = a ∧
      v_sha256 v = Sha.sha256_hex prior ∧ prev_sha256 v = option_map v_sha256 (last vs) ∧
      ∃ d, objects st' !! v_sha256 v = Some d ∧ (d = prior ∨ sha256_collision d prior)
  | Raise _ => logged st' path vs ∨ ∃ v, logged st' path (vs ++ [v])
  end.
Proof. apply capture_spec. Qed.


(** The versions of a log have their objects. *)
Lemma to_json_inj v w : good_version v → good_version w → to_json v = to_json w → v = w.
Proof.
  intros Hv Hw E. assert (H1 := from_to_json v Hv). rewrite E, from_to_json in H1 by done.
  by injection H1.
Qed.
Lemma log_of_inj vs ws :
  Forall good_version vs → Forall good_version ws → log_of vs = log_of ws → vs = ws.
Proof.
  intros Hv Hw E. assert (H1 := parse_log vs Hv).
  rewrite <- log_lines_of, E, log_lines_of, parse_log in H1 by done. by injection H1.
Qed.
Lemma logged_recorded st name vs :
  store_ok st → default [] (index st !! name) = log_of vs → Forall good_version vs →
  Forall (recorded st) vs.
Proof.
  intros [Hi _] Hl Hg. destruct (index st !! name) as [b|] eqn:E; simpl in Hl.
  - destruct (Hi name b E) as (ws & -> & Hgw & Hr). by apply log_of_inj in Hl as ->.
  - destruct vs as [|v vs]; [done|]. by destruct (to_json_head v) as [t Et].
Qed.

(** A line ends each log already. *)
Lemma end_line_log vs : end_line (log_of vs) = log_of vs.
Proof.
  unfold end_line. destruct vs as [|v vs _] using rev_ind; [done|].
  assert (Hl : endswith (log_of (vs ++ [v])) [NL] = true).
  { rewrite log_of_app. unfold log_of at 2. cbn [map concat]. rewrite app_nil_r.
    unfold endswith. rewrite !rev_app_distr, <- app_assoc. apply (startswith_app [NL]). }
  rewrite Hl. by destruct (log_of _).
Qed.

(** Moving a history keeps every version: the destination's log becomes the
    source's followed by its own, the source has none, the other paths and the
    objects are untouched, and the store stays well-formed. *)
Theorem rename_history_concatenates src dst st vs ws st' :
  store_ok st → Forall valid_char src → Forall valid_char dst → src ≠ dst →
  logged st src vs → logged st dst ws →
  rename_history src dst st = (Ret true, st') →
  store_ok st' ∧ objects st' = objects st ∧
  logged st' src [] ∧ logged st' dst (vs ++ ws) ∧
  ∀ p us, Forall valid_char p → p ≠ src → p ≠ dst → logged st p us → logged st' p us.
Proof.
  intros Hok Hs Hd Hne (sn & Hsn & Hsl & Hsg) (dn & Hdn & Hdl & Hdg) Hr.
  assert (Hnames : sn ≠ dn) by (intros ->; apply Hne; by eapply index_path_inj).
  assert (Hst : st' = with_index st (<[dn := log_of (vs ++ ws)]> (delete sn (index st))) ∧
                is_Some (index st !! sn)).
  { revert Hr. unfold rename_history, rename_plan. rewrite Hsn, Hdn. cbn [rbind].
    unfold index_exists, index_bytes.
    destruct (io_named (IoStat sn) _ _) as [x|] eqn:E1; [apply io_named_Ret in E1 as [-> _]|done].
    cbn [rbind]. case_bool_decide as Hss; [|done]. cbn [negb].
    destruct (io_named (IoRead sn) _ _) as [x|] eqn:E2; [apply io_named_Ret in E2 as [-> _]|done].
    cbn [rbind]. rewrite Hsl.
    destruct (io_named (IoStat dn) _ _) as [x|] eqn:E3; [apply io_named_Ret in E3 as [-> _]|done].
    cbn [rbind]. case_bool_decide as Hds.
    - destruct (io_named (IoRead dn) _ _) as [x|] eqn:E4; [apply io_named_Ret in E4 as [-> _]|done].
      cbn [rbind]. rewrite Hdl, !end_line_log, <- log_of_app.
      destruct (io_named (IoRename sn dn) _ _); [|done].
      destruct (io_named (IoUnlink sn) _ _); [|done]. intros [= <-]. split; [|done].
      by rewrite delete_insert_ne by done.
    - cbn [rbind]. destruct (io_named (IoRename sn dn) _ _); [|done]. intros [= <-]. split; [|done].
      assert (ws = []) as ->; [|by rewrite app_nil_r].
      destruct (index st !! dn) as [b|]; [by destruct Hds|]. destruct ws as [|w ws]; [done|].
      simpl in Hdl. by destruct (to_json_head w) as [t Et]. }
  destruct Hst as [-> [b Hb]]. clear Hr. split_and!.
  - pose proof (logged_recorded st sn vs Hok Hsl Hsg) as Hrv.
    pose proof (logged_recorded st dn ws Hok Hdl Hdg) as Hrw.
    destruct Hok as [Hi Ho]. split; [|done]. intros n x. simpl.
    destruct (decide (dn = n)) as [<-|Hn1].
    + rewrite lookup_insert_eq. intros [= <-]. exists (vs ++ ws). split; [done|].
      split; by apply Forall_app_2.
    + rewrite lookup_insert_ne by done. intros [_ Hx]%lookup_delete_Some. by apply Hi in Hx.
  - done.
  - exists sn. split_and!; [done| |done]. simpl.
    by rewrite lookup_insert_ne, lookup_delete_eq by done.
  - exists dn. split_and!; [done| |by apply Forall_app_2]. simpl. by rewrite lookup_insert_eq.
  - intros p us Hp H1 H2 (n & Hn & Hl & Hg). exists n. split_and!; [done| |done]. simpl.
    rewrite lookup_insert_ne, lookup_delete_ne; [done| |];
      intros ->; [apply H1|apply H2]; by eapply index_path_inj.
Qed.

(** The newest, and the oldest, element with a property. *)
Definition newest {A} (P : A → Prop) (l : list A) (x : A) : Prop :=
  ∃ a b, l = a ++ x :: b ∧ P x ∧ ∀ y, y ∈ b → ¬ P y.
Definition oldest {A} (P : A → Prop) (l : list A) (x : A) : Prop :=
  ∃ a b, l = a ++ x :: b ∧ P x ∧ ∀ y, y ∈ a → ¬ P y.

Lemma last_filter {A} (f : A → bool) l x :
  last (List.filter f l) = Some x → newest (λ y, f y = true) l x.
Proof.
  induction l as [|y l IH] using rev_ind; [done|]. rewrite List.filter_app. simpl.
  destruct (f y) eqn:E.
  - rewrite last_snoc. intros [= ->]. exists l, []. split_and!; [done..|]. by intros z ?%elem_of_nil.
  - rewrite app_nil_r. intros (a & b & -> & Hx & Hb)%IH. exists a, (b ++ [y]).
    rewrite <- app_assoc. split_and!; [done..|]. intros z [Hz| ->%list_elem_of_singleton]%elem_of_app;
      [by apply Hb|by rewrite E].
Qed.
Lemma find_oldest {A} (f : A → bool) l x : List.find f l = Some x → oldest (λ y, f y = true) l x.
Proof.
  induction l as [|y l IH]; [done|]. simpl. destruct (f y) eqn:E.
  - intros [= ->]. exists [], l. split_and!; [done..|]. by intros z ?%elem_of_nil.
  - intros (a & b & -> & Hx & Ha)%IH. exists (y :: a), b. split_and!; [done..|].
    intros z [->|Hz]%elem_of_cons; [by rewrite E|by apply Ha].
Qed.
Lemma newest_impl {A} (P Q : A → Prop) l x : (∀ y, P y ↔ Q y) → newest P l x → newest Q l x.
Proof.
  intros HPQ (a & b & -> & Hx & Hb). exists a, b. split_and!; [done|by apply HPQ|].
  intros y Hy HQ. by apply (Hb y Hy), HPQ.
Qed.

Context `{IsoFormat}.
(** [v] was captured at or before [t]. *)
Definition captured_by (t : bool * Z) (v : Version) : Prop :=
  ∃ u, _parse_iso (ts v) = Ret u ∧ time_le u t = Ret true.

Lemma not_after_newest t vs cs v :
  not_after t vs = Ret cs → last cs = Some v → newest (captured_by t) vs v.
Proof.
  revert cs v. induction vs as [|w vs IH]; intros cs v; simpl; [by intros [= <-]|].
  intros (u & Hu & (le & Hle & (rest & Hrest & [= <-])%rbind_Ret)%rbind_Ret)%rbind_Ret.
  assert (Hnone : rest = [] → ∀ y, y ∈ vs → ¬ captured_by t y).
  { intros ->. clear -Hrest. induction vs as [|y vs IH]; [by intros y ?%elem_of_nil|].
    simpl in Hrest.
    apply rbind_Ret in Hrest as (x & Hx & (l & Hl & (r & Hr & [= E])%rbind_Ret)%rbind_Ret).
    destruct l; [done|]. subst r. intros z [->|Hz]%elem_of_cons; [|by apply IH].
    intros (x' & Hx' & Hl'). congruence. }
  assert (Hrec : last rest = Some v → newest (captured_by t) (w :: vs) v).
  { intros Hv. destruct (IH rest v Hrest Hv) as (a & b & -> & Hx & Hb).
    by exists (w :: a), b. }
  destruct le; [|done]. destruct rest as [|r0 rest].
  - simpl. intros [= <-]. exists [], vs. split_and!; [done|by exists u|by apply Hnone].
  - intros Hv. apply Hrec. by rewrite <- Hv.
Qed.

(** What a selector selects: one selector must be given; a position counts from
    1, or from the end when negative; a proposal selects its first version, a
    digest its latest, and a time the latest version not after it. *)
Theorem resolve_version_selects path s st v :
  resolve_version path s st = Ret v →
  ∃ vs, history path st = Ret vs ∧ v ∈ vs ∧ selected s = 1%nat ∧
  (∀ z, by_version s = Some z →
     (0 < z ∧ vs !! Z.to_nat (z - 1) = Some v)%Z ∨
     (z < 0 ∧ 0 ≤ Z.of_nat (length vs) + z ∧ vs !! Z.to_nat (Z.of_nat (length vs) + z) = Some v)%Z) ∧
  (∀ p, by_proposal s = Some p → oldest (λ w, v_proposal_id w = p) vs v) ∧
  (∀ h, by_sha s = Some h → newest (λ w, v_sha256 w = h) vs v) ∧
  (∀ t, by_at s = Some t → ∃ u, _parse_iso t = Ret u ∧ newest (captured_by u) vs v).
Proof.
  unfold resolve_version. destruct (Nat.eqb (selected s) 1) eqn:Es; [|done]. cbn [negb].
  apply Nat.eqb_eq in Es. intros (vs & Hh & Hv)%rbind_Ret. exists vs.
  destruct vs as [|v0 vs0]; [done|]. set (vs := v0 :: vs0) in *.
  assert (Hnew : ∀ P, newest P vs v → v ∈ vs) by (intros P (a & b & -> & _); set_solver).
  destruct s as [[z|] [p|] [t|] [h|]]; cbn [by_version by_proposal by_at by_sha] in *; try done.
  - destruct (Z.eqb_spec z 0); [done|]. destruct (nth_version vs z) as [w|] eqn:En; [|done].
    injection Hv as ->. unfold nth_version in En.
    destruct (Z.ltb_spec 0 z).
    + split_and!; [done|by eapply list_elem_of_lookup_2|done| |done..].
      intros ? [= <-]. left. done.
    + destruct (Z.ltb_spec (Z.of_nat (length vs) + z) 0); [done|].
      split_and!; [done|by eapply list_elem_of_lookup_2|done| |done..].
      intros ? [= <-]. right. split_and!; [lia|done|done].
  - destruct (List.find _ _) as [w|] eqn:Ef; [|done]. injection Hv as ->.
    apply find_oldest in Ef as (a & b & E & Hp & Ha).
    split_and!; [done|rewrite E; set_solver|done|done| |done|done].
    intros ? [= <-]. exists a, b. split_and!; [done|by apply bool_decide_eq_true in Hp|].
    intros y Hy Hyp. apply (Ha y Hy). by apply bool_decide_eq_true.
  - apply rbind_Ret in Hv as (u & Hu & (cs & Hcs & Hv)%rbind_Ret).
    destruct (last cs) as [w|] eqn:El; [|done]. injection Hv as ->.
    pose proof (not_after_newest u vs cs v Hcs El) as Hn.
    split_and!; [done|by eapply Hnew|done..|]. intros ? [= <-]. by exists u.
  - destruct (last _) as [w|] eqn:El; [|done]. injection Hv as ->.
    apply last_filter in El. split_and!; [done|by eapply Hnew|done..| |done].
    intros ? [= <-]. eapply newest_impl; [|exact El]. intros y. by rewrite bool_decide_eq_true.
Qed.

(** A recorded version reads back from its line. *)
Theorem version_round_trip v : good_version v → from_json (to_json v) = Ret v.
Proof. apply from_to_json. Qed.

(** Distinct paths keep distinct logs: the name of an index file determines the
    path, and holds no slash. *)
Theorem index_path_injective s t name :
  Forall valid_char s → Forall valid_char t →
  _index_path s = Ret name → _index_path t = Ret name → s = t ∧ SL ∉ name.
Proof.
  intros Hs Ht E1 E2. split; [by eapply index_path_inj|].
  apply rbind_Ret in E1 as (e & He & [= <-]). unfold _encode_path in He.
  apply rbind_Ret in He as (x & Hx & He). destruct (_ <? length x)%nat; [done|]. injection He as ->.
  unfold quote in Hx. destruct (utf8 s) as [bs|] eqn:Eu; [|done]. injection Hx as <-.
  rewrite not_elem_of_app. split; [|by apply (bool_decide_unpack _); vm_compute].
  apply quote_no_slash. eapply utf8_bytes; [|exact Eu]. by eapply utf8_scalars.
Qed.
End properties.

(** ** Examples *)

#[local] Instance printable : Unicode := {| uni_printable := λ _, true; uni_decimal := λ _, None |}.
#[local] Instance calm_store : StoreIo := {| io_fault := λ _, None |}.
(** Times as texts of equal length in one format. *)
#[local] Instance by_text : IsoFormat :=
  {| fromisoformat := λ s, Ret (true, Z.of_N (fold_left (λ a c, a * 256 + c)%N s 0%N)) |}.
Lemma calm c : @io_fault calm_store c = None.
Proof. done. Qed.
Definition empty_store : Store := {| objects := ∅; index := ∅ |}.
Lemma empty_store_ok : store_ok empty_store.
Proof. split; intros ? ?; simpl; by rewrite lookup_empty. Qed.
Definition demo_path : pystr := "/share/x".
Lemma demo_logged : logged empty_store demo_path [].
Proof. by exists "%2Fshare%2Fx.jsonl"%py. Qed.
Lemma valid_literal s : forallb (λ c, c <? 1114112)%N s = true → Forall valid_char s.
Proof.
  rewrite forallb_true_forall, Forall_forall. intros H c Hc. specialize (H c Hc). by bprop.
Qed.
Definition demo_now : pystr := "2025-01-01T00:00:00Z".
Lemma demo_capturable data : small_file data → capturable demo_now "direct" "write" "agent" data.
Proof. intros Hd. split_and!; try done; try (apply scalars_spec; by vm_compute). by left. Qed.
Definition demo_capture := capture demo_now demo_path [104; 105]%N "direct" "write" "agent" empty_store.
Definition demo_version : Version :=
  {| ts := demo_now; v_proposal_id := "direct"; v_sha256 := Sha.sha256_hex [104; 105]%N; size := 2;
     op := "write"; actor := "agent"; prev_sha256 := None; evicted := false |}.
Lemma demo_small : small_file [104; 105]%N.
Proof. apply Nat.leb_le. by vm_compute. Qed.
Lemma demo_captured : demo_capture.1 = Ret demo_version.
Proof. by vm_compute. Qed.

Example capture_records_witness :
  store_ok demo_capture.2 ∧ logged demo_capture.2 demo_path [demo_version].
Proof.
  destruct demo_capture as [r st'] eqn:E.
  assert (Hr : r = Ret demo_version) by (change r with (fst (r, st')); rewrite <- E; apply demo_captured).
  subst r.
  destruct (capture_records _ _ _ _ _ _ _ _ _ _ empty_store_ok (valid_literal demo_path eq_refl)
              demo_logged (demo_capturable _ demo_small) E) as (Hok & _ & _ & Hl & _).
  exact (conj Hok Hl).
Defined.

Example capture_then_fetch_witness :
  ∃ d, fetch_object (v_sha256 demo_version) demo_capture.2 = Ret d.
Proof.
  destruct demo_capture as [r st'] eqn:E.
  assert (Hr : r = Ret demo_version) by (change r with (fst (r, st')); rewrite <- E; apply demo_captured).
  subst r.
  destruct (capture_then_fetch _ _ _ _ _ _ _ _ _ _ calm empty_store_ok
              (valid_literal demo_path eq_refl) demo_logged (demo_capturable _ demo_small) E)
    as (_ & _ & _ & d & Hd & _).
  exact (ex_intro _ d Hd).
Defined.

Lemma demo_version_good : good_version demo_version.
Proof.
  split_and!; try done; try (apply scalars_spec; by vm_compute); [by left|].
  apply Nat.leb_le. by vm_compute.
Qed.

Example version_round_trip_witness : from_json (to_json demo_version) = Ret demo_version.
Proof. apply (version_round_trip demo_version demo_version_good). Defined.

Lemma one_object (k : pystr) (x : list N) :
  k = Sha.sha256_hex x → ∀ sha d, ({[ k := x ]} : gmap pystr (list N)) !! sha = Some d → Sha.sha256_hex d = sha.
Proof. intros -> sha d [<- <-]%lookup_singleton_Some. reflexivity. Qed.
Definition two_logs : Store :=
  {| objects := {[ v_sha256 demo_version := [104; 105]%N ]};
     index := {[ "%2Fa.jsonl"%py := log_of [demo_version]; "%2Fb.jsonl"%py := log_of [demo_version] ]} |}.
Lemma two_logs_ok : store_ok two_logs.
Proof.
  split.
  - intros name b Hb. exists [demo_version]. split.
    + unfold two_logs in Hb. simpl in Hb.
      apply lookup_insert_Some in Hb as [[_ <-]|[_ [_ <-]%lookup_singleton_Some]]; done.
    + split; apply Forall_singleton; [apply demo_version_good|].
      exists [104; 105]%N. apply lookup_singleton_eq.
  - exact (one_object _ _ eq_refl).
Qed.

Example rename_history_concatenates_witness :
  logged (rename_history "/a" "/b" two_logs).2 "/b" [demo_version; demo_version] ∧
  logged (rename_history "/a" "/b" two_logs).2 "/a" [].
Proof.
  assert (Hl : logged two_logs "/a" [demo_version] ∧ logged two_logs "/b" [demo_version]).
  { split; eexists; (split; [reflexivity|]); (split; [by vm_compute|]);
      apply Forall_singleton, demo_version_good. }
  destruct (rename_history "/a" "/b" two_logs) as [r st'] eqn:E.
  assert (Hr : r = Ret true) by (change r with (fst (r, st')); rewrite <- E; by vm_compute).
  subst r.
  destruct (rename_history_concatenates "/a" "/b" two_logs [demo_version] [demo_version] st'
              two_logs_ok (valid_literal "/a" eq_refl) (valid_literal "/b" eq_refl)
              ltac:(discriminate) (proj1 Hl) (proj2 Hl) E) as (_ & _ & Ha & Hb & _).
  exact (conj Hb Ha).
Defined.

Example resolve_version_selects_witness :
  ∃ vs, history "/a" two_logs = Ret vs ∧ demo_version ∈ vs.
Proof.
  assert (E : resolve_version "/a" (version_selector (-1)) two_logs = Ret demo_version) by by vm_compute.
  destruct (resolve_version_selects "/a" (version_selector (-1)) two_logs demo_version E)
    as (vs & Hh & Hv & _).
  exact (ex_intro _ vs (conj Hh Hv)).
Defined.

Example index_path_injective_witness : SL ∉ "%2Fshare%2Fx.jsonl"%py.
Proof.
  destruct (index_path_injective demo_path demo_path "%2Fshare%2Fx.jsonl"
              (valid_literal demo_path eq_refl) (valid_literal demo_path eq_refl)
              eq_refl eq_refl) as [_ Hn].
  exact Hn.
Defined.

(** The cap on encoded names does not keep a log's name within what the file
    system allows: a path whose encoding has 250 characters passes the check,
    its log's name has 256, and a capture raises an [OSError], which no caller
    expects, after the object has been stored.  One character more is the
    [BackupStoreError] that callers turn into an answer. *)
Theorem longest_name_is_refused :
  let long n : pystr := SL :: replicate n 97%N in
  (∃ e, (capture demo_now (long 247) [104; 105]%N "direct" "write" "agent" empty_store).1 = Raise e ∧
        exn_type e = "OSError"%py ∧ is_backup_error e = false) ∧
  is_Some (objects (capture demo_now (long 247) [104; 105]%N "direct" "write" "agent" empty_store).2
           !! Sha.sha256_hex [104; 105]%N) ∧
  (∃ e, (capture demo_now (long 248) [104; 105]%N "direct" "write" "agent" empty_store).1 = Raise e ∧
        is_backup_error e = true).
Proof.
  split; [|split].
  - eexists. split; [vm_compute; reflexivity|by vm_compute].
  - apply (bool_decide_unpack _). by vm_compute.
  - eexists. split; [vm_compute; reflexivity|by vm_compute].
Qed.
