(* ===== verification/Handler.v ===== *)
(** What the file command handlers are written in: a monad over the disk, the
    backup store and the state of the approval checker, in which a handler may
    answer early or let an exception through. *)

From stdpp Require Import base list gmap.
From Stdlib Require Import NArith ZArith Lia.
From S2P Require Import Prelude PyStr PyFloat Json Authz Policy Canonical Mutation Params SafePath.
From S2P Require Import SafeFd BackupStore.

(** ** State and environment *)

(** What [approval_checker]'s closure holds: its first result, the parameters,
    the marker ids used so far. *)
Abbreviation checker := (option (option json) * dict * used_ids)%type.
Record hst := Hst { h_disk : disk; h_store : Store; h_check : checker }.

(** What a call takes from its surroundings: [os.environ], the working
    directory, whether [/data] is a writable directory, the text of the store's
    [meta.json], the clock (as an integer rounded up, and as the two texts made of it), the random
    part of a temporary name, the current caller. *)
Record env := {
  getenv : pystr → option pystr;
  cwd : list pystr;
  data_mount : bool;
  meta_json : option (list N);
  time_now : Z;
  utc_now : pystr;
  trash_stamp : pystr;
  token_hex : pystr;
  current_caller : option Caller }.

(** ** The monad *)

Inductive outcome (A : Type) := Go (a : A) | Answer (j : json) | Throw (e : exn).
Arguments Go {A} a.
Arguments Answer {A} j.
Arguments Throw {A} e.
Definition M (A : Type) : Type := hst → outcome A * hst.
Definition mgo {A} (a : A) : M A := λ s, (Go a, s).
Definition mbind_ {A B} (m : M A) (f : A → M B) : M B :=
  λ s, match m s with
       | (Go a, s') => f a s'
       | (Answer j, s') => (Answer j, s')
       | (Throw e, s') => (Throw e, s')
       end.
Notation "'let%' x ':=' m 'in' k" := (mbind_ m (λ x, k))
  (at level 10, x pattern, m at level 100, k at level 200) : res_scope.
Definition answer {A} (j : json) : M A := λ s, (Answer j, s).
Definition throw {A} (e : exn) : M A := λ s, (Throw e, s).
(** [if not b: return j] *)
Definition require (b : bool) (j : json) : M unit := if b then mgo tt else answer j.
(** An exception that is not caught. *)
Definition lift {A} (r : res A) : M A := λ s, (match r with Ret a => Go a | Raise e => Throw e end, s).
Definition disk_read {A} (f : disk → A) : M A := λ s, (Go (f (h_disk s)), s).
Definition store_read {A} (f : Store → A) : M A := λ s, (Go (f (h_store s)), s).
Definition disk_step {A} (f : disk → A * disk) : M A :=
  λ s, let '(a, d) := f (h_disk s) in (Go a, Hst d (h_store s) (h_check s)).
Definition store_step {A} (f : Store → A * Store) : M A :=
  λ s, let '(a, t) := f (h_store s) in (Go a, Hst (h_disk s) t (h_check s)).

(** The result of a handler, and the state after it. *)
Definition run (m : M json) (s : hst) : res json * hst :=
  match m s with
  | (Go j, s') | (Answer j, s') => (Ret j, s')
  | (Throw e, s') => (Raise e, s')
  end.

(** [strict_keys_error] at the start of a handler. *)
Definition strict (params : dict) (allowed nullable : gset pystr) : M unit :=
  match strict_keys_error params allowed nullable with
  | Some invalid => answer invalid
  | None => mgo tt
  end.
(** [approved()], of the checker of [command]; a denial is the answer. *)
Definition approved (e : env) (command : pystr) : M (option json) :=
  λ s, let '(r, c) := checker_call (current_caller e) (time_now e) command (h_check s) in
       (Go r, Hst (h_disk s) (h_store s) c).
Definition gate (e : env) (command : pystr) (needed : bool) : M unit :=
  if needed then
    let% denied := approved e command in
    match denied with Some d => answer d | None => mgo tt end
  else mgo tt.
(** The checker a handler makes: no result yet. *)
Definition fresh_checker (params : dict) (used : used_ids) : checker := (None, params, used).

(** ** Modes *)

Definition _is_addon_mode (e : env) : bool :=
  match getenv e "SUPERVISOR_TOKEN" with
  | Some (_ :: _) => true
  | _ => data_mount e
  end.
Definition allowed_roots_for_env (e : env) (d : disk) : res (list path) :=
  allowed_roots (getenv e) (links_of d) (cwd e) (_is_addon_mode e).

(** [_error] with extra fields. *)
Definition error_with (code message : pystr) (extra : dict) : json :=
  JDict (fold_left (λ d kv, dset kv.1 kv.2 d) extra
           [("ok", JBool false); ("error", JStr code); ("message", JStr message)]).

(** ** Facts *)

Lemma mbind_inv {A B} (m : M A) (f : A → M B) s o s' :
  mbind_ m f s = (o, s') →
  (∃ a s1, m s = (Go a, s1) ∧ f a s1 = (o, s')) ∨
  (∃ j, m s = (Answer j, s') ∧ o = Answer j) ∨ (∃ x, m s = (Throw x, s') ∧ o = Throw x).
Proof. unfold mbind_. destruct (m s) as [[a|j|x] s1]; naive_solver. Qed.

(** A step that leaves the disk and the store alone. *)
Definition still (s s' : hst) : Prop := h_disk s' = h_disk s ∧ h_store s' = h_store s.
#[global] Instance still_preorder : PreOrder still.
Proof. split; [done|]. intros a b c [? ?] [? ?]. split; congruence. Qed.
Definition quiet {A} (m : M A) : Prop := ∀ s, still s (m s).2.

Lemma quiet_go {A} (a : A) : quiet (mgo a). Proof. done. Qed.
Lemma quiet_answer {A} j : quiet (A := A) (answer j). Proof. done. Qed.
Lemma quiet_throw {A} x : quiet (A := A) (throw x). Proof. done. Qed.
Lemma quiet_lift {A} (r : res A) : quiet (lift r). Proof. done. Qed.
Lemma quiet_require b j : quiet (require b j). Proof. by destruct b. Qed.
Lemma quiet_disk_read {A} (f : disk → A) : quiet (disk_read f). Proof. done. Qed.
Lemma quiet_store_read {A} (f : Store → A) : quiet (store_read f). Proof. done. Qed.
Lemma quiet_strict p a n : quiet (strict p a n).
Proof. unfold strict. by destruct (strict_keys_error p a n). Qed.
Lemma quiet_approved e c : quiet (approved e c).
Proof. intros s. unfold approved. by destruct (checker_call _ _ _ _). Qed.
Lemma quiet_bind {A B} (m : M A) (f : A → M B) : quiet m → (∀ a, quiet (f a)) → quiet (mbind_ m f).
Proof.
  intros Hm Hf s. unfold mbind_. specialize (Hm s). destruct (m s) as [[a|j|x] s1]; [|done..].
  etrans; [exact Hm|apply Hf].
Qed.
Lemma quiet_gate e c b : quiet (gate e c b).
Proof.
  unfold gate. destruct b; [|done]. apply quiet_bind; [apply quiet_approved|]. by intros [?|].
Qed.
#[export] Hint Resolve quiet_go quiet_answer quiet_throw quiet_lift quiet_require quiet_disk_read
  quiet_store_read quiet_strict quiet_approved quiet_gate quiet_bind : py.

(** A quiet step at the head of a handler: it goes on, or nothing has changed. *)
Lemma quiet_inv {A B} (m : M A) (f : A → M B) s o s' :
  quiet m → mbind_ m f s = (o, s') →
  (∃ a s1, m s = (Go a, s1) ∧ still s s1 ∧ f a s1 = (o, s')) ∨ (still s s' ∧ ∀ b, o ≠ Go b).
Proof.
  intros Hq [(a & s1 & Hm & Hf)|[(j & Hm & ->)|(x & Hm & ->)]]%mbind_inv;
    specialize (Hq s); rewrite Hm in Hq; [left; eauto|by right..].
Qed.
Lemma still_trans a b c : still a b → still b c → still a c.
Proof. apply transitivity. Qed.
Ltac still_chain := solve [reflexivity | eauto 12 using still_trans].
(** [qstep H a s Hm Hs] goes past such a step; where the handler has ended, the
    goal's first half says that nothing has changed. *)
Ltac qstep H a s Hm Hs :=
  apply quiet_inv in H as [(a & s & Hm & Hs & H)|H];
  [|left; destruct H; split; [still_chain|assumption]|solve [auto 10 with py]].
