(* ===== verification/Sha1.v ===== *)
(** SHA-1 (FIPS 180-4), as [hashlib.sha1] computes it: the slug that names a
    trash entry. *)

From stdpp Require Import base list.
From Stdlib Require Import NArith ZArith Lia.
From S2P Require Import Prelude PyStr Sha256.

Module Sha1.
#[local] Open Scope N_scope.

Definition rotl (n x : N) : N := N.lor (Sha.w32 (N.shiftl x n)) (N.shiftr x (32 - n)).
Definition parity (x y z : N) : N := N.lxor (N.lxor x y) z.
(** The function and the constant of step [t]. *)
Definition step_fk (t : nat) (b c d : N) : N * N :=
  if (t <? 20)%nat then (Sha.ch b c d, 1518500249)
  else if (t <? 40)%nat then (parity b c d, 1859775393)
  else if (t <? 60)%nat then (Sha.maj b c d, 2400959708)
  else (parity b c d, 3395469782).
(** The schedule, newest word first. *)
Fixpoint expand (n : nat) (w : list N) : list N :=
  match n with
  | O => w
  | S n => let at_ i := nth i w 0 in
           expand n (rotl 1 (N.lxor (N.lxor (at_ 2%nat) (at_ 7%nat)) (N.lxor (at_ 13%nat) (at_ 15%nat))) :: w)
  end.
Fixpoint rounds (t : nat) (ws st : list N) : list N :=
  match ws, st with
  | w :: ws, [a; b; c; d; e] =>
      let '(f, k) := step_fk t b c d in
      rounds (S t) ws [Sha.add32 (Sha.add32 (Sha.add32 (rotl 5 a) f) (Sha.add32 e k)) w; a; rotl 30 b; c; d]
  | _, _ => st
  end.
Definition compress (st block : list N) : list N :=
  zip_with Sha.add32 st (rounds 0 (rev (expand 64 (rev block))) st).
Fixpoint blocks (fuel : nat) (ws st : list N) : list N :=
  match fuel with
  | O => st
  | S f => match ws with
           | [] => st
           | _ => blocks f (drop 16 ws) (compress st (take 16 ws))
           end
  end.
Definition iv : list N := [1732584193; 4023233417; 2562383102; 271733878; 3285377520].
(** [hashlib.sha1(m).hexdigest()] *)
Definition sha1_hex (m : list N) : pystr :=
  let p := Sha.pad m in
  let ws := Sha.words (length p) p in
  Sha.hex (concat (map (λ w, Sha.be_bytes 4 w []) (blocks (length ws) ws iv))).

Example sha1_abc : sha1_hex "abc" = "a9993e364706816aba3e25717850c26c9cd0d89d".
Proof. vm_compute. reflexivity. Qed.
Example sha1_empty : sha1_hex [] = "da39a3ee5e6b4b0d3255bfef95601890afd80709".
Proof. vm_compute. reflexivity. Qed.
End Sha1.
