(* ===== verification/Trash.v ===== *)
(** The trash helpers of [commands/fs_move_delete.py]. *)

From stdpp Require Import base list gmap.
From Stdlib Require Import NArith ZArith Lia.
From S2P Require Import Prelude PyStr Sha1 SafePath SafeFd BackupStore Handler.

Definition _trash_dir (e : env) : path :=
  path_of (default "/share/openclaw-trash" (getenv e "OPENCLAW_TRASH_DIR")).

(** [os.path.basename] and [os.path.abspath] of a path. *)
Definition basename (p : pystr) : pystr := List.last (split_on SL p) [].
Fixpoint norm_parts (anchored : bool) (ws acc : list pystr) : list pystr :=
  match ws with
  | [] => rev acc
  | w :: ws =>
      if negb (real_part w) then norm_parts anchored ws acc
      else if bool_decide (w = ".."%py) then
        match acc with
        | [] => norm_parts anchored ws (if anchored then [] else [w])
        | a :: acc' => norm_parts anchored ws (if bool_decide (a = ".."%py) then w :: acc else acc')
        end
      else norm_parts anchored ws (w :: acc)
  end.
(** The working directory is absolute, so the path joined to it is. *)
Definition abspath (cwd : list pystr) (p : pystr) : pystr :=
  let s := if startswith p [SL] then p else path_str (abs_path cwd) ++ [SL] ++ p in
  path_str (Path (root (path_of s)) (norm_parts true (split_on SL s) [])).

Definition _path_slug (e : env) (p : pystr) : res pystr :=
  match utf8 (abspath (cwd e) p) with
  | Some bs => Ret (take 12 (Sha1.sha1_hex bs))
  | None => Raise (Exn "UnicodeEncodeError" "surrogates not allowed")
  end.

(** Where a path leads, links followed. *)
Definition follow (e : env) (d : disk) (p : path) : errno + list pystr :=
  namei lookup_budget d (if bool_decide (root p = []) then cwd e else []) (parts p).
(** [path.exists()] *)
Definition path_exists (e : env) (d : disk) (p : path) : bool :=
  match follow e d p with
  | inr loc => bool_decide (is_Some (node_at d loc))
  | inl _ => false
  end.

(** The names in a directory. *)
Definition children (d : disk) (loc : list pystr) : list pystr :=
  omap (λ kv : list pystr * node, match below loc kv.1 with Some [n] => Some n | _ => None end)
    (map_to_list d).
(** [shutil.rmtree] *)
Definition remove_tree (d : disk) (loc : list pystr) : disk :=
  filter (λ kv : list pystr * node, below loc kv.1 = None) d.
Definition remove_entry `{Os} (d : disk) (loc : list pystr) : out disk :=
  sys (SysUnlink loc) NoName
    match node_at d loc with
    | Some Dir => inr (remove_tree d loc)
    | Some _ => inr (delete loc d)
    | None => inl ENOENT
    end.
(** An entry that cannot be removed is skipped. *)
Fixpoint purge_entries `{Os} (d : disk) (loc : list pystr) (marker : pystr) (names : list pystr)
    : Z * disk :=
  match names with
  | [] => (0%Z, d)
  | n :: names =>
      if startswith n marker then
        match remove_entry d (loc ++ [n]) with
        | Ok d' => let '(k, d'') := purge_entries d' loc marker names in ((1 + k)%Z, d'')
        | Err _ => purge_entries d loc marker names
        end
      else purge_entries d loc marker names
  end.
Definition purge_trash_entries_for `{Os} (e : env) (p : pystr) (d : disk) : res Z * disk :=
  match basename p with
  | [] => (Ret 0%Z, d)
  | name =>
      match follow e d (_trash_dir e) with
      | inl _ => (Ret 0%Z, d)
      | inr loc =>
          match node_at d loc with
          | None => (Ret 0%Z, d)
          | Some Dir =>
              match _path_slug e p with
              | Raise x => (Raise x, d)
              | Ret slug =>
                  let marker := name ++ "." ++ slug ++ "." in
                  let '(k, d') := purge_entries d loc marker (children d loc) in (Ret k, d')
              end
          | Some _ => (match _path_slug e p with
                       | Raise x => Raise x
                       | Ret _ => Raise (Exn "NotADirectoryError" (strerror ENOTDIR))
                       end, d)
          end
      end
  end.

(** ** Moving a file to the trash *)

(** [send2trash] is not part of the node: when it is installed, what it does to
    the disk. *)
Class Trash := { send2trash : option (disk → path → errno + disk) }.

(** [shutil.move] of a file to a new name: renamed, or copied and removed. *)
Definition shutil_move `{Os} (d : disk) (src dst : list pystr) : out unit * disk :=
  match sys (SysReplace src dst) NoName (sys_rename d src dst) with
  | Ok d' => (Ok tt, d')
  | Err _ =>
      match node_at d src with
      | Some (File b) =>
          match sys (SysCreate dst) NoName (sys_create d dst) with
          | Err x => (Err x, d)
          | Ok d1 =>
              let d2 := <[dst := File b]> d1 in
              match sys (SysUnlink src) NoName (sys_unlink d2 src) with
              | Err x => (Err x, d2)
              | Ok d3 => (Ok tt, d3)
              end
          end
      | _ => (Err (OsError EINVAL NoName), d)
      end
  end.

(** The file of the resolved path [p]; the description of where it went. *)
Definition _trash_file `{Os, Trash} (e : env) (p : path) (d : disk) : out pystr * disk :=
  match send2trash with
  | Some move => match move d p with
                 | inl x => (Err (OsError x NoName), d)
                 | inr d' => (Ok "system trash", d')
                 end
  | None =>
      let trash := _trash_dir e in
      match mkdirs d (if bool_decide (root trash = []) then cwd e else []) (parts trash) with
      | (Err x, d1) => (Err x, d1)
      | (Ok loc, d1) =>
          match _path_slug e (path_str p) with
          | Raise x => (Err (PyError x), d1)
          | Ret slug =>
              let name := path_name p ++ "." ++ slug ++ "." ++ trash_stamp e in
              let dest := path_str (Path (root trash) (parts trash ++ [name])) in
              match shutil_move d1 (parts p) (loc ++ [name]) with
              | (Ok _, d2) => (Ok dest, d2)
              | (Err x, d2) => (Err x, d2)
              end
          end
      end
  end.
