(* ===== verification/FsWrite.v ===== *)
(** The gated file commands of [commands/fs_write.py]: [fs.write],
    [fs.restore], and the read-only [fs.history] and [fs.diff]. *)

From stdpp Require Import base list gmap.
From Stdlib Require Import NArith ZArith Lia.
From S2P Require Import Prelude PyStr PyFloat Json JsonParse PyInt Base64 Sha256 Authz Policy.
From S2P Require Import Canonical Mutation Params SafePath SafeFd BackupStore Handler Trash.

(** ** The targets of a write *)

Definition _PROTECTED_ROOTS : list pystr := ["/config"; "/addons"; "/ssl"].
Definition MAX_WRITE_BYTES : N := 8 * 1024 * 1024.
Definition _DEFAULT_CAP_BYTES : Z := 500 * 1024 * 1024.

Definition _is_protected (p : pystr) : bool :=
  let norm := if endswith p [SL] then p else p ++ [SL] in
  existsb (λ r, startswith norm (r ++ [SL]) || bool_decide (p = r)) _PROTECTED_ROOTS.
Definition _is_storage (p : pystr) : bool :=
  contains p "/config/.storage/" || endswith p "/config/.storage".
Definition storage_readonly : json :=
  error_dict "STORAGE_READONLY" "Writes to .storage/ are refused; use the HA REST config API instead".

(** The root of the store, and the store itself, opened at its first use. *)
Definition _backup_root (home : pystr) (e : env) : path :=
  match getenv e "SUPERVISOR_TOKEN" with
  | Some (_ :: _) => path_of "/share/openclaw-backups"
  | _ => path_of (default (home ++ "/.openclaw/hass-node/backups") (getenv e "OPENCLAW_BACKUP_ROOT"))
  end.

Section handlers.
Context `{Unicode, Os, StoreIo, IsoFormat, Difflib}.

Definition _get_store (e : env) : M unit :=
  lift (let? _ := _ensure_layout _DEFAULT_CAP_BYTES (meta_json e) in Ret tt).

Definition path_not_allowed (p : pystr) : json :=
  error_dict "PATH_NOT_ALLOWED" ("Path is outside the allowed roots: " ++ repr_str p).

(** The resolved path, or the error that is returned for it. *)
Definition _resolve_write_target (e : env) (p : pystr) : M path :=
  let% d := disk_read id in
  let% roots := lift (allowed_roots_for_env e d) in
  match resolve_safe (links_of d) (cwd e) p roots with
  | Ret q => mgo q
  | Raise x =>
      if bool_decide (x = NoAllowedRootsError)
      then answer (error_dict "NO_ALLOWED_ROOTS" "No filesystem roots configured")
      else if bool_decide (x = OutOfBoundsError) then answer (path_not_allowed p)
      else throw x
  end.
Definition current_roots (e : env) : M (list path) :=
  let% d := disk_read id in lift (allowed_roots_for_env e d).

Definition _decode_content (content encoding : pystr) : M (list N) :=
  if bool_decide (encoding = "base64"%py) then
    match b64decode content with
    | Ret b => mgo b
    | Raise x => answer (error_dict "INVALID_CONTENT" ("base64 decode failed: " ++ exn_msg x))
    end
  else if bool_decide (encoding = "utf-8"%py) then
    match utf8 content with
    | Some b => mgo b
    | None => throw (Exn "UnicodeEncodeError" "surrogates not allowed")
    end
  else answer (error_dict "INVALID_ENCODING"
                 ("Unknown encoding: " ++ repr_str encoding ++ "; use utf-8 or base64")).

(** An exception of [safe_fd] that a handler does not catch. *)
Definition uncaught (x : fserr) : exn :=
  match x with
  | NoRoots => NoAllowedRootsError
  | Bounds => OutOfBoundsError
  | OsError e names => Exn "OSError" (oserror_str e names)
  | PyError e => e
  end.
(** The handlers of [OutOfBoundsError] and [OSError] around a file operation. *)
Definition fd_error {A} (bounds : json) (code prefix : pystr) (x : fserr) : M A :=
  match x with
  | Bounds => answer bounds
  | OsError e names => answer (error_dict code (prefix ++ oserror_str e names))
  | _ => throw (uncaught x)
  end.
Definition read_file (p : pystr) (roots : list path) (missing_ok : bool) (code prefix : pystr)
    : M (list N) :=
  let% r := disk_read (λ d, read_bytes_safe d p roots missing_ok) in
  match r with
  | Ok b => mgo b
  | Err x => fd_error (path_not_allowed p) code prefix x
  end.
(** The prior bytes of a file about to be written, [None] when there is none. *)
Definition prior_of (p : pystr) (roots : list path) : M (option (list N)) :=
  let% r := disk_read (λ d, read_bytes_safe d p roots false) in
  match r with
  | Ok b => mgo (Some b)
  | Err (OsError ENOENT _) => mgo None
  | Err x => fd_error (path_not_allowed p) "READ_ERROR" "Cannot read prior bytes: " x
  end.
(** [store.capture(...)], whose [BackupStoreError] is the answer [refusal]. *)
Definition capture_or (e : env) (p : pystr) (data : list N) (proposal_id op_ actor_ refusal : pystr)
    : M Version :=
  let% r := store_step (capture (utc_now e) p data proposal_id op_ actor_) in
  match r with
  | Ret v => mgo v
  | Raise x => if is_backup_error x then answer (error_dict "BACKUP_ERROR" refusal) else throw x
  end.
Definition write_file (e : env) (p : pystr) (roots : list path) (data : list N) (code prefix : pystr)
    : M unit :=
  let% r := disk_step (λ d, atomic_write_safe d p roots data (token_hex e)) in
  match r with
  | Ok _ => mgo tt
  | Err x => fd_error (path_not_allowed p) code prefix x
  end.

(** The prior bytes, if there are any, are captured before the file is written. *)
Definition commit (e : env) (p : pystr) (roots : list path) (prior : option (list N))
    (proposal_id op_ actor_ refusal : pystr) (data : list N) (code prefix : pystr) : M unit :=
  let% _ :=
    match prior with
    | Some b => let% _ := capture_or e p b proposal_id op_ actor_ refusal in mgo tt
    | None => mgo tt
    end in
  write_file e p roots data code prefix.

(** [bool(params.get(k, False))] *)
Definition flag (k : pystr) (params : dict) : bool :=
  match dget k params with Some j => truthy j | None => false end.
Definition missing (what : pystr) : json := error_dict "MISSING_PARAM" (what ++ " is required").

(** [params.get(k)], which must not be [None]. *)
Definition required (k : pystr) (params : dict) : M json :=
  match get_or_null k params with JNull => answer (missing k) | j => mgo j end.

(** ** [fs.write] *)

Definition _WRITE_KEYS : gset pystr :=
  list_to_set ["path"; "content"; "encoding"; "actor"; "agent_bridge"; "proposal_id"; APPROVAL_PARAM].
Definition _RESTORE_KEYS : gset pystr :=
  list_to_set ["path"; "version_id"; "version"; "at"; "actor"; "agent_bridge"; "proposal_id";
               APPROVAL_PARAM].

(** The gates every write passes: no [.storage/], approval for a protected path
    as given, the roots, approval for a protected path as resolved. *)
Definition write_gates (e : env) (command p : pystr) (agent_bridge : bool) : M path :=
  let% _ := require (negb (_is_storage p)) storage_readonly in
  let% _ := gate e command (_is_protected p || agent_bridge) in
  let% resolved := _resolve_write_target e p in
  let% _ := gate e command (_is_protected (path_str resolved)) in
  mgo resolved.

Definition handle_fs_write (e : env) (params : dict) : M json :=
  let% _ := strict params _WRITE_KEYS ∅ in
  let p := str_get "path" [] params in
  let% _ := require (negb (bool_decide (p = []))) (missing "path") in
  let% content_raw := required "content" params in
  let encoding := str_get "encoding" "utf-8" params in
  let proposal_id := str_get "proposal_id" "direct" params in
  let actor := str_get "actor" "agent" params in
  let% _ := write_gates e "fs.write" p (flag "agent_bridge" params) in
  let% content_bytes := _decode_content (py_str content_raw) encoding in
  let n := N.of_nat (length content_bytes) in
  let% _ := require (n <=? MAX_WRITE_BYTES)%N
    (error_with "REQUEST_TOO_LARGE"
       ("content is " ++ str_of_N n ++ " bytes; limit is " ++ str_of_N MAX_WRITE_BYTES)
       [("limit"%py, JInt (Z.of_N MAX_WRITE_BYTES))]) in
  let% roots := current_roots e in
  let% prior := prior_of p roots in
  let% _ := _get_store e in
  let% _ := commit e p roots prior proposal_id "write" actor "Backup capture failed; write aborted"
              content_bytes "WRITE_ERROR" "Write failed: " in
  mgo (JDict [("ok", JBool true); ("path", JStr p); ("size", JInt (Z.of_N n));
              ("sha256", JStr (Sha.sha256_hex content_bytes)); ("proposal_id", JStr proposal_id)]).

(** ** [fs.restore] *)

Definition selector_required : json :=
  error_dict "INVALID_PARAM" "Exactly one of version_id, version, proposal_id, or at is required".
(** The selector among the parameters. *)
Definition restore_selector (params : dict) : M selector :=
  let% version :=
    match get_or_null "version" params with
    | JNull => mgo None
    | j => match py_int j with
           | Ret z => mgo (Some z)
           | Raise x => if is_value_error x || bool_decide (exn_type x = "TypeError"%py)
                        then answer (error_dict "INVALID_PARAM" "version must be an integer")
                        else throw x
           end
    end in
  let text k := match get_or_null k params with JNull => None | j => Some (py_str j) end in
  let s := {| by_version := version; by_proposal := text "proposal_id"; by_at := text "at";
              by_sha := text "version_id" |} in
  let% _ := require (Nat.eqb (selected s) 1) selector_required in mgo s.

Definition handle_fs_restore (e : env) (params : dict) : M json :=
  let% _ := strict params _RESTORE_KEYS ∅ in
  let p := str_get "path" [] params in
  let% _ := require (negb (bool_decide (p = []))) (missing "path") in
  let actor := str_get "actor" "agent" params in
  let% _ := write_gates e "fs.restore" p (flag "agent_bridge" params) in
  let% _ := _get_store e in
  let% s := restore_selector params in
  let% r := store_read (resolve_version p s) in
  let% stored_version :=
    match r with
    | Ret v => mgo v
    | Raise x => if is_backup_error x || is_value_error x
                 then answer (error_dict "VERSION_NOT_FOUND" (exn_msg x)) else throw x
    end in
  let% r := store_read (fetch_object (v_sha256 stored_version)) in
  let% restore_bytes :=
    match r with
    | Ret b => mgo b
    | Raise x => if is_backup_error x then answer (error_dict "OBJECT_MISSING" (exn_msg x)) else throw x
    end in
  let% roots := current_roots e in
  let% prior_bytes := read_file p roots true "READ_ERROR" "Cannot read prior bytes: " in
  let% _ := commit e p roots (Some prior_bytes) ("restore-from-" ++ v_proposal_id stored_version)
              "restore" actor "Pre-restore capture failed; restore aborted"
              restore_bytes "WRITE_ERROR" "Restore write failed: " in
  let% r := disk_step (purge_trash_entries_for e p) in
  let% purged := lift r in
  mgo (JDict [("ok", JBool true); ("path", JStr p); ("size", JInt (Z.of_nat (length restore_bytes)));
              ("sha256", JStr (v_sha256 stored_version));
              ("restored_from_proposal", JStr (v_proposal_id stored_version));
              ("trash_purged", JInt purged)]).

(** ** [fs.history] and [fs.diff] *)

Definition version_entry (v : Version) : json :=
  JDict [("version_id", JStr (v_sha256 v)); ("ts", JStr (ts v)); ("proposal_id", JStr (v_proposal_id v));
         ("sha256", JStr (v_sha256 v)); ("size", JInt (size v)); ("op", JStr (op v));
         ("actor", JStr (actor v));
         ("prev_sha256", match prev_sha256 v with Some s => JStr s | None => JNull end);
         ("evicted", JBool (evicted v))].
Definition _HISTORY_KEYS : gset pystr := {["path"%py]}.
Definition handle_fs_history (e : env) (params : dict) : M json :=
  let% _ := strict params _HISTORY_KEYS ∅ in
  let p := str_get "path" [] params in
  let% _ := require (negb (bool_decide (p = []))) (missing "path") in
  let% _ := _get_store e in
  let% r := store_read (history p) in
  match r with
  | Ret versions => mgo (JDict [("ok", JBool true); ("path", JStr p);
                                ("versions", JList (map version_entry versions))])
  | Raise x => if is_backup_error x then answer (error_dict "STORE_ERROR" (exn_msg x)) else throw x
  end.

Definition _DIFF_KEYS : gset pystr := list_to_set ["path"; "from_version"; "to_version"].
Definition _DIFF_NULLABLE : gset pystr := {["to_version"%py]}.
(** No character outside ASCII becomes a hexadecimal digit in lower case. *)
Definition is_digest (s : pystr) : bool :=
  Nat.eqb (length s) 64 && forallb (λ c, match hex_value c with Some _ => true | None => false end) s.
Definition _coerce (v : json) : res (Z + pystr) :=
  match v with
  | JInt z => Ret (inl z)
  | JBool b => Ret (inl (if b then 1 else 0)%Z)
  | _ =>
      let s := py_str v in
      if is_digest s then Ret (inr s)
      else match int_of_str s with
           | Ret z => Ret (inl z)
           | Raise x => if is_value_error x then Ret (inr s) else Raise x
           end
  end.
Definition handle_fs_diff (e : env) (params : dict) : M json :=
  let% _ := strict params _DIFF_KEYS _DIFF_NULLABLE in
  let p := str_get "path" [] params in
  let% _ := require (negb (bool_decide (p = []))) (missing "path") in
  let% from_raw := required "from_version" params in
  let% from_version := lift (_coerce from_raw) in
  let% to_version :=
    match get_or_null "to_version" params with
    | JNull => mgo None
    | j => let% v := lift (_coerce j) in mgo (Some v)
    end in
  let% _ := _get_store e in
  let% d := disk_read id in
  let% r := store_read (diff d (cwd e) p from_version to_version) in
  match r with
  | Ret text => mgo (JDict [("ok", JBool true); ("path", JStr p); ("diff", JStr text)])
  | Raise x => if is_backup_error x then answer (error_dict "DIFF_ERROR" (exn_msg x)) else throw x
  end.
End handlers.

(** ** What is protected *)

Definition protected_names : list pystr := ["config"; "addons"; "ssl"].
(** A location below a protected root, or such a root. *)
Definition protected (loc : list pystr) : Prop :=
  match loc with n :: _ => n ∈ protected_names | [] => False end.

Lemma path_str_abs ps : path_str (abs_path ps) = SL :: join [SL] ps.
Proof. by destruct ps. Qed.
Lemma join_cons_app w ws : join [SL] (w :: ws) = w ++ match ws with [] => [] | _ => SL :: join [SL] ws end.
Proof. destruct ws; simpl; [by rewrite app_nil_r|done]. Qed.

(** The text of a location tells whether it is protected. *)
Lemma is_protected_spec loc : clean loc → protected loc → _is_protected (path_str (abs_path loc)) = true.
Proof.
  intros Hc Hp. destruct loc as [|n ps]; [done|]. unfold _is_protected.
  apply existsb_true_exists. exists (SL :: n). split.
  - unfold protected, protected_names in Hp.
    repeat (apply elem_of_cons in Hp as [->|Hp]; [set_solver|]). by apply elem_of_nil in Hp.
  - rewrite path_str_abs, join_cons_app. apply orb_true_iff. destruct ps as [|m ps].
    + right. apply bool_decide_eq_true. by rewrite app_nil_r.
    + left. apply startswith_spec.
      destruct (endswith _ _); [exists (join [SL] (m :: ps))|exists (join [SL] (m :: ps) ++ [SL])];
        simpl; by rewrite <- !app_assoc.
Qed.

(** ** What the parts of a handler do *)

Section parts_of_handlers.
Context `{Unicode, Os, StoreIo}.

(** The approval a command has: the first answer of its checker. *)
Definition granted (e : env) (command : pystr) (c : checker) : Prop :=
  (checker_call (current_caller e) (time_now e) command c).1 = None.

Lemma checker_again e command c :
  let '(r, c') := checker_call (current_caller e) (time_now e) command c in
  (checker_call (current_caller e) (time_now e) command c').1 = r.
Proof.
  unfold checker_call. destruct c as [[[r|] params] used]; [done|].
  by destruct (consume_approval_marker _ _ _ _ _ _) as [[? ?] ?].
Qed.

Lemma gate_inv e command needed s s' :
  gate e command needed s = (Go tt, s') →
  still s s' ∧ (needed = true → granted e command (h_check s)) ∧
  (granted e command (h_check s') → granted e command (h_check s)).
Proof.
  intros Hg. split; [pose proof (quiet_gate e command needed s) as Hq; by rewrite Hg in Hq|].
  revert Hg. unfold gate. destruct needed; [|by intros [= <-]].
  unfold mbind_, approved. pose proof (checker_again e command (h_check s)) as Ha.
  unfold granted. destruct (checker_call _ _ _ (h_check s)) as [[d|] c']; [done|]. by intros [= <-].
Qed.

Lemma target_inv e p q s s' :
  _resolve_write_target e p s = (Go q, s') →
  s' = s ∧ ∃ roots, allowed_roots_for_env e (h_disk s) = Ret roots ∧
    resolve_safe (links_of (h_disk s)) (cwd e) p roots = Ret q.
Proof.
  unfold _resolve_write_target, mbind_, disk_read, lift. simpl.
  destruct (allowed_roots_for_env e (h_disk s)) as [roots|x]; [|done].
  destruct (resolve_safe _ _ _ _) as [q'|x] eqn:E; [intros [= -> <-]; eauto|].
  repeat case_bool_decide; done.
Qed.

(** The gates leave the disk and the store alone, and let a call through only if
    the path and its resolved form are unprotected, or approval was granted. *)
Lemma write_gates_inv e command p ab q s s' :
  write_gates e command p ab s = (Go q, s') →
  still s s' ∧ _is_storage p = false ∧
  (∃ roots, allowed_roots_for_env e (h_disk s) = Ret roots ∧
     resolve_safe (links_of (h_disk s)) (cwd e) p roots = Ret q) ∧
  (_is_protected (path_str q) = true ∨ _is_protected p = true ∨ ab = true →
   granted e command (h_check s)).
Proof.
  unfold write_gates. intros [([] & s1 & E1 & Hr)|[(? & ? & ?)|(? & ? & ?)]]%mbind_inv; [|done..].
  destruct (_is_storage p); [done|]. injection E1 as <-.
  apply mbind_inv in Hr as [([] & s2 & Hg1 & Hr)|[(? & ? & ?)|(? & ? & ?)]]; [|done..].
  apply mbind_inv in Hr as [(q' & s3 & Ht & Hr)|[(? & ? & ?)|(? & ? & ?)]]; [|done..].
  apply mbind_inv in Hr as [([] & s4 & Hg2 & Hr)|[(? & ? & ?)|(? & ? & ?)]]; [|done..].
  injection Hr as -> <-. apply gate_inv in Hg1 as (Hs1 & Hn1 & Hb1).
  apply target_inv in Ht as (-> & Hroots). apply gate_inv in Hg2 as (Hs2 & Hn2 & _).
  split; [by etrans|]. split; [done|]. destruct Hs1 as [Ed _]. rewrite <- Ed.
  split; [done|]. intros [Hp|Hp]; [by apply Hb1, Hn2|]. apply Hn1.
  apply orb_true_iff. tauto.
Qed.

Lemma capture_or_inv e p data pid o a refusal out s s' :
  capture_or e p data pid o a refusal s = (out, s') →
  h_disk s' = h_disk s ∧ h_check s' = h_check s ∧
  ∃ r, capture (utc_now e) p data pid o a (h_store s) = (r, h_store s') ∧
       ∀ v, out = Go v → r = Ret v.
Proof.
  unfold capture_or, mbind_, store_step.
  destruct (capture _ _ _ _ _ _ _) as [r st']. destruct r as [v|x]; intros E.
  - injection E as <- <-. split_and!; [done..|]. eexists. split; [done|]. by intros ? [= ->].
  - simpl in E. destruct (is_backup_error x); injection E as <- <-; split_and!; try done;
      (eexists; split; [done|by intros v [=]]).
Qed.

Lemma fd_error_inv {A} bounds code prefix x s (out : outcome A) s' :
  fd_error bounds code prefix x s = (out, s') → s' = s ∧ ∀ a, out ≠ Go a.
Proof. by destruct x; intros [= <- <-]. Qed.

Lemma write_file_inv e p roots data code prefix out s s' :
  write_file e p roots data code prefix s = (out, s') →
  h_store s' = h_store s ∧ h_check s' = h_check s ∧
  ∃ r, atomic_write_safe (h_disk s) p roots data (token_hex e) = (r, h_disk s') ∧
       (out = Go tt ↔ r = Ok tt).
Proof.
  unfold write_file, mbind_, disk_step. destruct (atomic_write_safe _ _ _ _ _) as [r d'].
  destruct r as [[]|x]; intros E.
  { injection E as <- <-. split_and!; [done..|]. by eexists. }
  apply fd_error_inv in E as [-> Hn]. split_and!; [done..|]. eexists. split; [done|].
  split; [intros Ho; by destruct (Hn tt)|done].
Qed.

Lemma commit_inv e p roots prior pid o a refusal data code prefix out s s' :
  commit e p roots prior pid o a refusal data code prefix s = (out, s') →
  h_check s' = h_check s ∧
  match prior with
  | None => h_store s' = h_store s
  | Some b => ∃ r, capture (utc_now e) p b pid o a (h_store s) = (r, h_store s') ∧
                   (h_disk s' ≠ h_disk s ∨ out = Go tt → ∃ v, r = Ret v)
  end ∧
  ((h_disk s' = h_disk s ∧ out ≠ Go tt) ∨
   ∃ r, atomic_write_safe (h_disk s) p roots data (token_hex e) = (r, h_disk s') ∧
        (out = Go tt ↔ r = Ok tt)).
Proof.
  unfold commit. intros [(u & s1 & E1 & E2)|Hc]%mbind_inv.
  - assert (Hfst : h_disk s1 = h_disk s ∧ h_check s1 = h_check s ∧
                 match prior with
                 | None => h_store s1 = h_store s
                 | Some b => ∃ v, capture (utc_now e) p b pid o a (h_store s) = (Ret v, h_store s1)
                 end).
    { destruct prior as [b|]; [|injection E1 as _ <-; by split_and!].
      apply mbind_inv in E1 as [(v & s2 & Ec & [= _ <-])|[(? & ? & ?)|(? & ? & ?)]]; [|done..].
      apply capture_or_inv in Ec as (? & ? & r & Hr & Hv). rewrite (Hv v eq_refl) in Hr. eauto. }
    destruct Hfst as (Hd & Hk & Hp). apply write_file_inv in E2 as (Hs & Hk2 & r & Hr & Ho).
    rewrite Hd in Hr. split; [congruence|]. split; [|right; eauto].
    destruct prior as [b|]; [|congruence]. destruct Hp as [v Hv]. rewrite Hs. eauto.
  - assert (Hc' : ∃ x, match prior with
        | Some b => let% _ := capture_or e p b pid o a refusal in mgo tt
        | None => mgo tt end s = (x, s') ∧ x ≠ Go tt ∧ out ≠ Go tt).
    { destruct Hc as [(j & Ej & ->)|(x & Ex & ->)]; eauto. }
    destruct Hc' as (x & Ex & Hx & Ho). destruct prior as [b|]; [|by injection Ex as <-].
    apply mbind_inv in Ex as [(v & s2 & _ & [= <- _])|Hx']; [done|].
    assert (Hc2 : ∃ y, capture_or e p b pid o a refusal s = (y, s') ∧ ∀ v, y ≠ Go v).
    { destruct Hx' as [(j & Ej & ->)|(y & Ey & ->)]; eauto. }
    destruct Hc2 as (y & Ey & Hy). apply capture_or_inv in Ey as (Hd & Hk & r & Hr & _).
    split_and!; [done| |by left]. exists r. split; [done|]. by intros [?|?].
Qed.

Lemma prior_inv p roots o s s' :
  prior_of p roots s = (Go o, s') →
  s' = s ∧ match o with
           | Some b => read_bytes_safe (h_disk s) p roots false = Ok b
           | None => ∃ nm, read_bytes_safe (h_disk s) p roots false = Err (OsError ENOENT nm)
           end.
Proof.
  unfold prior_of, mbind_, disk_read. simpl. destruct (read_bytes_safe _ _ _ _) as [b|x] eqn:E.
  - by intros [= <- <-].
  - destruct x as [[] nm| | |]; try done. intros [= <- <-]. eauto.
Qed.
Lemma read_file_inv p roots missing_ok code prefix b s s' :
  read_file p roots missing_ok code prefix s = (Go b, s') →
  s' = s ∧ read_bytes_safe (h_disk s) p roots missing_ok = Ok b.
Proof.
  unfold read_file, mbind_, disk_read. simpl. destruct (read_bytes_safe _ _ _ _) as [b'|x] eqn:E.
  - by intros [= -> <-].
  - intros [_ Hn]%fd_error_inv. by specialize (Hn b).
Qed.

(** A read that succeeds, or finds nothing, was not of a link. *)
Definition read_through (d : disk) (p : pystr) (roots : list path) : Prop :=
  (∃ fd, open_safe_fd d p roots false = Ok fd) ∨
  ∃ nm, open_safe_fd d p roots false = Err (OsError ENOENT nm).
Lemma read_opened d p roots b :
  read_bytes_safe d p roots false = Ok b →
  ∃ fd, open_safe_fd d p roots false = Ok fd ∧ node_at d fd = Some (File b).
Proof.
  unfold read_bytes_safe. destruct (open_safe_fd d p roots false) as [fd|x]; [|by destruct x as [[]| | |]].
  destruct (node_at d fd) as [[b'| |]|] eqn:En; try done. intros [= ->]%sys_Ok. eauto.
Qed.
Lemma read_missing d p roots nm :
  read_bytes_safe d p roots false = Err (OsError ENOENT nm) →
  open_safe_fd d p roots false = Err (OsError ENOENT nm).
Proof.
  unfold read_bytes_safe. destruct (open_safe_fd d p roots false) as [fd|x].
  - destruct (node_at d fd) as [[b'| |]|]; try done. by intros ?%sys_enoent.
  - destruct x as [[] ?| | |]; try done; intros; by simplify_eq.
Qed.
Lemma read_missing_ok d p roots b :
  read_bytes_safe d p roots true = Ok b →
  (∃ fd, open_safe_fd d p roots false = Ok fd ∧ node_at d fd = Some (File b)) ∨
  ∃ nm, open_safe_fd d p roots false = Err (OsError ENOENT nm) ∧ b = [].
Proof.
  unfold read_bytes_safe. destruct (open_safe_fd d p roots false) as [fd|x].
  - destruct (node_at d fd) as [[b'| |]|] eqn:En; try done. intros [= ->]%sys_Ok. eauto.
  - destruct x as [[] ?| | |]; try done; intros; simplify_eq. eauto.
Qed.

(** Where a write lands: in the directory and under the name of the path, which
    is what it resolves to. *)
Lemma landing d cwd0 p roots q data token r d' :
  disk_wf d → Forall (good_root d) roots → read_through d p roots →
  resolve_safe (links_of d) cwd0 p roots = Ret q →
  atomic_write_safe d p roots data token = (r, d') →
  let target := parts (path_of p) in
  (r = Ok tt → q = abs_path target ∧ d' = <[target := File data]> d ∧ node_at d target ≠ Some Dir) ∧
  (r ≠ Ok tt → d' = d ∨ ∃ junk, d !! (removelast target ++ [tmp_name token]) = None ∧
                        d' = <[removelast target ++ [tmp_name token] := File junk]> d) ∧
  disk_wf d' ∧
  ∀ loc, d' !! loc ≠ d !! loc → protected loc → _is_protected (path_str q) = true.
Proof.
  intros Hw Hg Hread (Hs & Hq & _)%resolve_safe_Ret Ha target.
  assert (Hland : ∀ dir name, open_safe_parent_dir d p roots = Ok (dir, name) →
    target = dir ++ [name] ∧ q = abs_path target ∧ clean target ∧ node_at d dir = Some Dir).
  { intros dir name Hp. pose proof (open_parent_plain d p roots dir name Hg Hp)
      as (Ht & Hname & Hd & _ & Hdd & Hl). fold target in Ht.
    assert (Hnode : ∀ x, node_at d target = Some x → link_target x = None).
    { rewrite Ht. destruct Hread as [[fd Hfd]|[nm Hnm]].
      - apply open_safe_fd_opened, opened_plain in Hfd as (Hloc & _ & _ & Hlf & _); [|done].
        fold target in Hloc. rewrite Ht in Hloc. subst fd. apply links_of_none; [by destruct dir|].
        by apply (Hlf dir name []).
      - pose proof (missing_target d p roots dir name nm Hw Hg Hnm Hp) as Hn. congruence. }
    assert (Hlink : link_free (links_of d) target).
    { rewrite Ht in Hnode |- *. apply link_free_snoc; [done|]. apply links_of_none; [by destruct dir|done]. }
    assert (Hqt : q = abs_path target).
    { eapply resolve_plain; [done| |exact Hlink|exact Hq]. fold target. rewrite Ht. set_solver. }
    split_and!; [done|done| |done].
    destruct (resolve_Ret _ _ _ _ Hs Hq) as (w & _ & Hqw & _ & Hc & _). rewrite Hqt in Hqw.
    by injection Hqw as ->. }
  apply atomic_write_steps in Ha as
    [(-> & dir & name & Hp & -> & Hn)|(x & -> & [->|(dir & name & junk & Hp & Hn & ->)])];
    [|by split_and!; auto|].
  - destruct (Hland dir name Hp) as (Ht & Hqt & Hc & Hd). rewrite <- Ht in *. split_and!; [by intros _|done| |].
    + rewrite Ht. by apply disk_wf_insert; rewrite <- ?Ht.
    + intros loc Hne Hprot. destruct (decide (loc = target)) as [->|Hne'].
      * rewrite Hqt. by apply is_protected_spec.
      * by rewrite lookup_insert_ne in Hne.
  - destruct (Hland dir name Hp) as (Ht & Hqt & Hc & Hd). rewrite Ht, removelast_last. split_and!; [done| | |].
    + intros _. right. eauto.
    + apply disk_wf_insert; [done..|]. by apply disk_wf_not_dir.
    + intros loc Hne Hprot. destruct (decide (loc = dir ++ [tmp_name token])) as [->|Hne'].
      * rewrite Hqt. apply is_protected_spec; [done|]. rewrite Ht. destruct dir as [|m dir]; [|done].
        exfalso. simpl in Hprot. unfold protected_names, tmp_name in Hprot.
        repeat (apply elem_of_cons in Hprot as [Hx|Hprot]; [by injection Hx|]).
        by apply elem_of_nil in Hprot.
      * by rewrite lookup_insert_ne in Hne.
Qed.
End parts_of_handlers.

(** ** The handlers *)

Section handler_facts.
Context `{Unicode, Os, StoreIo, IsoFormat, Difflib}.

Lemma quiet_target e p : quiet (_resolve_write_target e p).
Proof.
  unfold _resolve_write_target. apply quiet_bind; [auto with py|]. intros d.
  apply quiet_bind; [auto with py|]. intros roots.
  destruct (resolve_safe _ _ _ _); [auto with py|]. repeat case_bool_decide; auto with py.
Qed.
Lemma quiet_write_gates e command p ab : quiet (write_gates e command p ab).
Proof.
  unfold write_gates. apply quiet_bind; [auto with py|]. intros _.
  apply quiet_bind; [auto with py|]. intros _. apply quiet_bind; [apply quiet_target|]. intros q.
  apply quiet_bind; [auto with py|]. auto with py.
Qed.
Lemma quiet_decode c enc : quiet (_decode_content c enc).
Proof. unfold _decode_content. repeat case_bool_decide; dm; auto with py. Qed.
Lemma quiet_fd_error {A} b code prefix x : quiet (fd_error (A := A) b code prefix x).
Proof. by destruct x. Qed.
Lemma quiet_prior p roots : quiet (prior_of p roots).
Proof.
  unfold prior_of. apply quiet_bind; [auto with py|].
  intros [b|[[] ?| | |]]; try (by auto with py); apply quiet_fd_error.
Qed.
Lemma quiet_read_file p roots mo code prefix : quiet (read_file p roots mo code prefix).
Proof.
  unfold read_file. apply quiet_bind; [auto with py|].
  intros [b|x]; [auto with py|apply quiet_fd_error].
Qed.
Lemma quiet_roots e : quiet (current_roots e).
Proof. unfold current_roots. apply quiet_bind; auto with py. Qed.
Lemma quiet_get_store e : quiet (_get_store e).
Proof. unfold _get_store. auto with py. Qed.
#[local] Hint Resolve quiet_target quiet_write_gates quiet_decode quiet_fd_error quiet_prior
  quiet_read_file quiet_roots quiet_get_store : py.

Lemma roots_inv e roots s s' :
  current_roots e s = (Go roots, s') → allowed_roots_for_env e (h_disk s) = Ret roots.
Proof.
  unfold current_roots, mbind_, disk_read, lift. simpl.
  destruct (allowed_roots_for_env e (h_disk s)); intros; by simplify_eq.
Qed.

(** What holds of the state [s] once the gates of a command have let it through. *)
Definition past_gates (e : env) (command p : pystr) (ab : bool) (s : hst) (q : path) : Prop :=
  _is_storage p = false ∧
  (∃ rs, allowed_roots_for_env e (h_disk s) = Ret rs ∧
     resolve_safe (links_of (h_disk s)) (cwd e) p rs = Ret q) ∧
  (_is_protected (path_str q) = true ∨ _is_protected p = true ∨ ab = true →
   granted e command (h_check s)).

Lemma strict_inv params a n u s s' : strict params a n s = (Go u, s') → s' = s.
Proof. unfold strict. destruct (strict_keys_error params a n); [done|]. by intros [= _ <-]. Qed.
Lemma required_inv k params j s s' :
  required k params s = (Go j, s') → s' = s ∧ j = get_or_null k params ∧ j ≠ JNull.
Proof. unfold required. destruct (get_or_null k params); by intros [= <- <-]. Qed.
Lemma quiet_required k params : quiet (required k params).
Proof. unfold required. destruct (get_or_null k params); auto with py. Qed.
#[local] Hint Resolve quiet_required : py.
Lemma require_inv b j u s s' : require b j s = (Go u, s') → s' = s ∧ b = true.
Proof. destruct b; [|done]. by intros [= _ <-]. Qed.

(** What [fs.write] does: nothing, or, past its gates, a commit of the decoded
    content to the path. *)
Definition param_path (params : dict) : pystr := str_get "path" [] params.
Definition decoded (params : dict) (content : list N) : Prop :=
  ∃ s s', get_or_null "content" params ≠ JNull ∧
    _decode_content (py_str (get_or_null "content" params)) (str_get "encoding" "utf-8" params) s
      = (Go content, s').
Definition prior_read (d : disk) (p : pystr) (roots : list path) (prior : option (list N)) : Prop :=
  match prior with
  | Some b => read_bytes_safe d p roots false = Ok b
  | None => ∃ nm, read_bytes_safe d p roots false = Err (OsError ENOENT nm)
  end.
Definition write_commit (e : env) (params : dict) (roots : list path) (prior : option (list N))
    (content : list N) : M unit :=
  commit e (param_path params) roots prior (str_get "proposal_id" "direct" params) "write"
    (str_get "actor" "agent" params) "Backup capture failed; write aborted"
    content "WRITE_ERROR" "Write failed: ".
Lemma fs_write_inv e params s o s' :
  handle_fs_write e params s = (o, s') →
  (still s s' ∧ ∀ j, o ≠ Go j) ∨
  ∃ q content roots prior s1 o2,
    still s s1 ∧ past_gates e "fs.write" (param_path params) (flag "agent_bridge" params) s q ∧
    decoded params content ∧ (N.of_nat (length content) <= MAX_WRITE_BYTES)%N ∧
    allowed_roots_for_env e (h_disk s) = Ret roots ∧
    prior_read (h_disk s) (param_path params) roots prior ∧
    write_commit e params roots prior content s1 = (o2, s') ∧ ((∃ j, o = Go j) ↔ o2 = Go tt).
Proof.
  unfold handle_fs_write. intros Hh.
  qstep Hh u s1 Hm Hs. apply strict_inv in Hm as ->.
  qstep Hh u2 s2 Hm Hs2. apply require_inv in Hm as [-> _].
  qstep Hh raw s3 Hm Hs3. apply required_inv in Hm as (-> & -> & Hnull).
  qstep Hh q s4 Hg Hs4.
  qstep Hh content s5 Hc Hs5.
  qstep Hh u6 s6 Hm Hs6. apply require_inv in Hm as [-> Hmax].
  qstep Hh roots s7 Hr Hs7.
  qstep Hh prior s8 Hp Hs8.
  qstep Hh u9 s9 Hm Hs9. right.
  clear Hs Hs2 Hs3 Hs6. apply write_gates_inv in Hg as (_ & Hst & Hres & Hgr).
  pose proof (roots_inv _ _ _ _ Hr) as Hroots. apply prior_inv in Hp as [_ Hp].
  assert (H5 : still s s5) by (by etrans). assert (H7 : still s s7) by (by etrans).
  assert (H9 : still s s9) by (by etrans; [|exact Hs9]; etrans).
  rewrite (proj1 H5) in Hroots. rewrite (proj1 H7) in Hp.
  apply mbind_inv in Hh as Hcases.
  assert (Hcom : ∃ o2, write_commit e params roots prior content s9 = (o2, s') ∧
                       ((∃ j, o = Go j) ↔ o2 = Go tt)).
  { destruct Hcases as [([] & s10 & Hcm & [= <- <-])|[(j & Hcm & ->)|(x & Hcm & ->)]];
      eexists; (split; [exact Hcm|]); naive_solver. }
  destruct Hcom as (o2 & Hcm & Ho). exists q, content, roots, prior, s9, o2.
  split_and!; try done; [by exists s4, s5|by apply N.leb_le].
Qed.

(** What [fs.restore] does: nothing, or, past its gates, a commit of the object
    of the version selected, and then the purge of the path's trash entries. *)
Definition restore_commit (e : env) (params : dict) (roots : list path) (v : Version)
    (prior data : list N) : M unit :=
  commit e (param_path params) roots (Some prior) ("restore-from-" ++ v_proposal_id v) "restore"
    (str_get "actor" "agent" params) "Pre-restore capture failed; restore aborted"
    data "WRITE_ERROR" "Restore write failed: ".
Definition selects (params : dict) (sel : selector) : Prop :=
  ∃ s s', restore_selector params s = (Go sel, s').

Lemma quiet_restore_selector params : quiet (restore_selector params).
Proof.
  unfold restore_selector. apply quiet_bind.
  - destruct (get_or_null "version" params); try (by auto with py); destruct (py_int _);
      try (by auto with py); destruct (_ || _); auto with py.
  - intros v. apply quiet_bind; auto with py.
Qed.
#[local] Hint Resolve quiet_restore_selector : py.
Lemma selects_fun params s1 s2 : selects params s1 → selects params s2 → s1 = s2.
Proof.
  intros (a & a' & H1') (b & b' & H2'). unfold restore_selector in *.
  apply mbind_inv in H1' as [(v & c & Hv & H1')|[(? & ? & ?)|(? & ? & ?)]]; [|done..].
  apply mbind_inv in H2' as [(w & c' & Hw & H2')|[(? & ? & ?)|(? & ? & ?)]]; [|done..].
  assert (v = w) as ->.
  { destruct (get_or_null "version" params); try (injection Hv; injection Hw; congruence);
      destruct (py_int _); try (injection Hv; injection Hw; congruence);
      destruct (_ || _); done. }
  apply mbind_inv in H1' as [([] & d & _ & [= <- _])|[(? & ? & ?)|(? & ? & ?)]]; [|done..].
  apply mbind_inv in H2' as [([] & d' & _ & [= <- _])|[(? & ? & ?)|(? & ? & ?)]]; done.
Qed.

Lemma fs_restore_inv e params s o s' :
  handle_fs_restore e params s = (o, s') →
  (still s s' ∧ ∀ j, o ≠ Go j) ∨
  ∃ q sel v data roots prior s1 o2 s2,
    still s s1 ∧ past_gates e "fs.restore" (param_path params) (flag "agent_bridge" params) s q ∧
    selects params sel ∧ resolve_version (param_path params) sel (h_store s) = Ret v ∧
    fetch_object (v_sha256 v) (h_store s) = Ret data ∧
    allowed_roots_for_env e (h_disk s) = Ret roots ∧
    read_bytes_safe (h_disk s) (param_path params) roots true = Ok prior ∧
    restore_commit e params roots v prior data s1 = (o2, s2) ∧
    h_store s' = h_store s2 ∧ ((∃ j, o = Go j) → o2 = Go tt) ∧
    h_disk s' = match o2 with
                | Go _ => (purge_trash_entries_for e (param_path params) (h_disk s2)).2
                | _ => h_disk s2
                end.
Proof.
  unfold handle_fs_restore. intros Hh.
  qstep Hh u s1 Hm Hs. apply strict_inv in Hm as ->.
  qstep Hh u2 s2 Hm Hs2. apply require_inv in Hm as [-> _].
  qstep Hh q s4 Hg Hs4.
  qstep Hh u5 s5 Hgs Hs5.
  qstep Hh sel s6 Hsel Hs6.
  qstep Hh r s7 Hm Hs7. injection Hm as Hr <-.
  apply quiet_inv in Hh as [(v & s8 & Hm & Hs8 & Hh)|Hh];
    [|left; destruct Hh; split; [still_chain|done]|destruct r; [|destruct (_ || _)]; auto with py].
  destruct r as [v'|x]; [injection Hm as -> <-|destruct (_ || _); done].
  qstep Hh r s9 Hm Hs9. injection Hm as Hf <-.
  apply quiet_inv in Hh as [(data & s10 & Hm & Hs10 & Hh)|Hh];
    [|left; destruct Hh; split; [still_chain|done]|destruct r as [|x]; [|destruct (is_backup_error x)]; auto with py].
  destruct r as [b'|x]; [injection Hm as -> <-|destruct (is_backup_error x); done].
  qstep Hh roots s11 Hro Hs11.
  qstep Hh prior s12 Hp Hs12. right.
  apply write_gates_inv in Hg as (_ & Hst & Hres & Hgr).
  pose proof (roots_inv _ _ _ _ Hro) as Hroots. apply read_file_inv in Hp as [_ Hp].
  assert (H6 : still s s6) by still_chain. assert (H11 : still s s11) by still_chain.
  assert (H12 : still s s12) by still_chain.
  rewrite (proj1 H6) in Hroots. rewrite (proj1 H11) in Hp. rewrite (proj2 H6) in Hr, Hf.
  assert (Hcom : ∃ o2 s2, restore_commit e params roots v prior data s12 = (o2, s2) ∧
    h_store s' = h_store s2 ∧ ((∃ j, o = Go j) → o2 = Go tt) ∧
    h_disk s' = match o2 with
                | Go _ => (purge_trash_entries_for e (param_path params) (h_disk s2)).2
                | _ => h_disk s2
                end).
  { apply mbind_inv in Hh as [([] & s13 & Hcm & Hh)|[(j & Hcm & ->)|(x & Hcm & ->)]];
      eexists _, _; (split; [exact Hcm|]); [|by split_and!; [|intros [??]|]..].
    revert Hh. unfold mbind_, disk_step, lift. fold (param_path params).
    destruct (purge_trash_entries_for e (param_path params) (h_disk s13)) as [[k|x] d'];
      intros [= <- <-]; split_and!; done. }
  destruct Hcom as (o2 & sc & Hcm & Ho). exists q, sel, v, data, roots, prior, s12, o2, sc.
  split_and!; try done; try apply Ho. by exists s5, s6.
Qed.

(** ** What the purge of the trash leaves alone *)

Lemma below_app p r : below p (p ++ r) = Some r.
Proof. induction p as [|a p IH]; simpl; [done|]. by rewrite bool_decide_eq_true_2. Qed.
Lemma below_Some p q r : below p q = Some r → q = p ++ r.
Proof.
  revert q. induction p as [|a p IH]; intros [|b q]; simpl; try done; try by intros [= ->].
  case_bool_decide as E; [|done]. subst b. by intros ->%IH.
Qed.
Lemma below_None_snoc p n q : below p q = None → below (p ++ [n]) q = None.
Proof.
  destruct (below (p ++ [n]) q) as [r|] eqn:E; [|done]. apply below_Some in E as ->.
  by rewrite <- app_assoc, below_app.
Qed.
Lemma remove_entry_keeps d l d' loc :
  remove_entry d l = Ok d' → below l loc = None → d' !! loc = d !! loc.
Proof.
  intros Hr%sys_Ok Hb.
  assert (Hne : l ≠ loc).
  { intros ->. pose proof (below_app loc []) as Ha. rewrite app_nil_r in Ha. congruence. }
  destruct (node_at d l) as [[]|]; simplify_eq.
  - by rewrite lookup_delete_ne.
  - unfold remove_tree. apply option_eq. intros x. rewrite map_lookup_filter_Some. simpl. naive_solver.
  - by rewrite lookup_delete_ne.
Qed.
Lemma purge_keeps d l marker ns k d' loc :
  purge_entries d l marker ns = (k, d') → below l loc = None → d' !! loc = d !! loc.
Proof.
  revert d k. induction ns as [|n ns IH]; intros d k; simpl; [by intros [= _ <-]|].
  intros Hp Hb. destruct (startswith n marker); [|by eapply IH].
  destruct (remove_entry d (l ++ [n])) as [d1|] eqn:E; [|by eapply IH].
  destruct (purge_entries d1 l marker ns) as [k2 d2] eqn:E2. injection Hp as _ <-.
  rewrite (IH _ _ E2 Hb). eapply remove_entry_keeps; [exact E|by apply below_None_snoc].
Qed.
(** It changes nothing outside the trash directory. *)
Lemma purge_outside e p d r d' loc :
  purge_trash_entries_for e p d = (r, d') → d' !! loc ≠ d !! loc →
  ∃ l, follow e d (_trash_dir e) = inr l ∧ is_Some (below l loc).
Proof.
  unfold purge_trash_entries_for. intros Hp Hne.
  destruct (basename p) as [|c name]; [by injection Hp as _ <-|].
  destruct (follow e d (_trash_dir e)) as [|l]; [by injection Hp as _ <-|].
  exists l. split; [done|].
  destruct (node_at d l) as [[]|]; try (by injection Hp as _ <-).
  destruct (_path_slug e p) as [slug|]; [|by injection Hp as _ <-].
  destruct (purge_entries _ _ _ _) as [k d2] eqn:E. injection Hp as _ <-.
  destruct (below l loc) eqn:Eb; [by eexists|]. by apply (purge_keeps _ _ _ _ _ _ loc) in E.
Qed.

(** ** The commit of a handler on the disk *)

Definition sound_roots (e : env) (d : disk) : Prop :=
  ∀ rs, allowed_roots_for_env e d = Ret rs → Forall (good_root d) rs.

Lemma commit_disk e p roots prior pid o a refusal data code prefix q s s0 out s' :
  still s s0 → disk_wf (h_disk s) → Forall (good_root (h_disk s)) roots →
  read_through (h_disk s) p roots →
  resolve_safe (links_of (h_disk s)) (cwd e) p roots = Ret q →
  commit e p roots prior pid o a refusal data code prefix s0 = (out, s') →
  let target := parts (path_of p) in
  (out = Go tt → q = abs_path target ∧ h_disk s' = <[target := File data]> (h_disk s) ∧
                 node_at (h_disk s) target ≠ Some Dir) ∧
  (out ≠ Go tt → h_disk s' = h_disk s ∨
     ∃ junk, h_disk s !! (removelast target ++ [tmp_name (token_hex e)]) = None ∧
       h_disk s' = <[removelast target ++ [tmp_name (token_hex e)] := File junk]> (h_disk s)) ∧
  disk_wf (h_disk s') ∧
  ∀ loc, h_disk s' !! loc ≠ h_disk s !! loc → protected loc → _is_protected (path_str q) = true.
Proof.
  intros [Hd _] Hw Hg Hread Hq Hc target. apply commit_inv in Hc as (_ & _ & Hc).
  rewrite Hd in Hc. destruct Hc as [[-> Ho]|(r & Hr & Ho)]; [by split_and!; auto|].
  pose proof (landing _ _ _ _ _ _ _ _ _ Hw Hg Hread Hq Hr) as (H1' & H2' & H3' & H4').
  fold target in H1', H2'. split_and!; [|..]; try done; [by intros E; apply H1', Ho|].
  intros Hne. apply H2'. intros E. by apply Hne, Ho.
Qed.

Lemma prior_read_through d p roots prior : prior_read d p roots prior → read_through d p roots.
Proof.
  destruct prior as [b|]; simpl.
  - intros (fd & Hfd & _)%read_opened. left. eauto.
  - intros (nm & Hnm%read_missing). right. eauto.
Qed.
Lemma missing_ok_through d p roots b : read_bytes_safe d p roots true = Ok b → read_through d p roots.
Proof. intros [(fd & Hfd & _)|(nm & Hnm & _)]%read_missing_ok; [left|right]; eauto. Qed.
(** The prior bytes are those of the file at the path. *)
Lemma prior_at d p roots prior :
  Forall (good_root d) roots → prior_read d p roots prior →
  match prior with Some b => node_at d (parts (path_of p)) = Some (File b) | None => True end.
Proof.
  intros Hg. destruct prior as [b|]; [|done]. intros (fd & Hfd & Hn)%read_opened.
  by apply open_safe_fd_opened, opened_plain in Hfd as (<- & _); [|exact Hg].
Qed.

Lemma absent_target d p roots nm x :
  disk_wf d → Forall (good_root d) roots → open_safe_fd d p roots false = Err (OsError ENOENT nm) →
  node_at d (parts (path_of p)) ≠ Some x.
Proof.
  intros Hw Hg (q & r & E & _ & Hn)%open_safe_fd_enoent Hx; [|done]. simpl in Hn. rewrite E in Hx.
  destruct (disk_wf_ancestors d q r Hw); [by rewrite Hx|]. congruence.
Qed.

(** ** Properties *)

(** C25. Nothing below a protected root changes without approval: if a run of
    [fs.write] changes a location under [/config], [/addons] or [/ssl], whatever
    path it was called with and however the run ended, then the approval checker
    of the call was asked and authorized it. *)
Theorem write_protected_needs_approval e params used d st o s' loc :
  disk_wf d → sound_roots e d →
  handle_fs_write e params (Hst d st (fresh_checker params used)) = (o, s') →
  h_disk s' !! loc ≠ d !! loc → protected loc →
  (consume_approval_marker (current_caller e) (time_now e) "fs.write" [] params used).1.1 = None.
Proof.
  intros Hw Hsr Hrun Hne Hprot.
  apply fs_write_inv in Hrun as [[[Hd _] _]|(q & content & roots & prior & s1 & o2 & Hst1 & Hgates & _ & _ & Hroots & Hp & Hc & _)];
    [by rewrite Hd in Hne|].
  destruct Hgates as (_ & (rs & Hrs & Hq) & Hgr). simpl in *.
  assert (roots = rs) as -> by congruence.
  pose proof (commit_disk _ _ _ _ _ _ _ _ _ _ _ _ _ _ _ _ Hst1 Hw (Hsr _ Hrs)
                (prior_read_through _ _ _ _ Hp) Hq Hc) as (_ & _ & _ & Hloc).
  specialize (Hgr (or_introl (Hloc loc Hne Hprot))). unfold granted, checker_call in Hgr. simpl in Hgr.
  by destruct (consume_approval_marker _ _ _ _ _ _) as [[r ps] u].
Qed.

Lemma write_leaves e params s o s' :
  disk_wf (h_disk s) → sound_roots e (h_disk s) → handle_fs_write e params s = (o, s') →
  let p := param_path params in
  let target := parts (path_of p) in
  disk_wf (h_disk s') ∧
  match o with
  | Go _ =>
      ∃ content, decoded params content ∧ (N.of_nat (length content) <= MAX_WRITE_BYTES)%N ∧
        h_disk s' = <[target := File content]> (h_disk s) ∧
        ((h_store s' = h_store s ∧ ∀ b, node_at (h_disk s) target ≠ Some (File b)) ∨
         ∃ b v, node_at (h_disk s) target = Some (File b) ∧
           capture (utc_now e) p b (str_get "proposal_id" "direct" params) "write"
             (str_get "actor" "agent" params) (h_store s) = (Ret v, h_store s'))
  | _ =>
      (h_disk s' = h_disk s ∨
       ∃ junk, h_disk s !! (removelast target ++ [tmp_name (token_hex e)]) = None ∧
         h_disk s' = <[removelast target ++ [tmp_name (token_hex e)] := File junk]> (h_disk s)) ∧
      (h_store s' = h_store s ∨
       ∃ b r, node_at (h_disk s) target = Some (File b) ∧
         capture (utc_now e) p b (str_get "proposal_id" "direct" params) "write"
           (str_get "actor" "agent" params) (h_store s) = (r, h_store s'))
  end.
Proof.
  intros Hw Hsr Hrun p target.
  apply fs_write_inv in Hrun as [[[Hd Hs] Ho]|(q & content & roots & prior & s1 & o2 & Hst1 & Hgates & Hdec & Hmax & Hroots & Hp & Hc & Ho)].
  { rewrite Hd. split; [done|]. destruct o; [by destruct (Ho a)|split; [by left|left; congruence]..]. }
  destruct Hgates as (_ & (rs & Hrs & Hq) & _). assert (roots = rs) as -> by congruence.
  pose proof (commit_disk _ _ _ _ _ _ _ _ _ _ _ _ _ _ _ _ Hst1 Hw (Hsr _ Hrs)
                (prior_read_through _ _ _ _ Hp) Hq Hc) as (Hok & Hko & Hw' & _).
  apply commit_inv in Hc as (_ & Hst & _).
  pose proof (prior_at _ _ _ _ (Hsr _ Hrs) Hp) as Hat. destruct Hst1 as [Hd1 Hs1].
  assert (Hstore : h_store s' = h_store s ∨
    ∃ b r, node_at (h_disk s) target = Some (File b) ∧
      capture (utc_now e) p b (str_get "proposal_id" "direct" params) "write"
        (str_get "actor" "agent" params) (h_store s) = (r, h_store s')).
  { destruct prior as [b|]; [right|left; congruence]. destruct Hst as (r & Hr & _).
    rewrite Hs1 in Hr. eauto. }
  split; [done|]. destruct o as [j|j|x];
    [|split; [apply Hko; intros E; by destruct (proj2 Ho E)|done]..].
  assert (E : o2 = Go tt) by (apply Ho; eauto). destruct (Hok E) as (_ & Hd & _).
  exists content. split_and!; [done..|].
  destruct prior as [b|].
  - right. destruct Hst as (r & Hr & Hv). destruct (Hv (or_intror E)) as [v ->].
    rewrite Hs1 in Hr. eauto.
  - left. split; [congruence|]. intros b Hb. destruct Hp as [nm Hnm%read_missing].
    by eapply (absent_target _ _ _ _ _ Hw (Hsr _ Hrs) Hnm).
Qed.

(** C8. What a run of [fs.write] leaves.  When it reaches its end, the named file
    holds the decoded content, of at most the allowed size, nothing else on the
    disk has changed, and the bytes the file held before, if there was one, have
    been captured first.  When it is refused or fails, the disk is as it was, or
    holds one more temporary file; the store is as it was, or as the capture of
    the file's own bytes left it. *)
Theorem write_outcome e params s o s' :
  disk_wf (h_disk s) → sound_roots e (h_disk s) → handle_fs_write e params s = (o, s') →
  let p := param_path params in
  let target := parts (path_of p) in
  disk_wf (h_disk s') ∧
  match o with
  | Go _ =>
      ∃ content, decoded params content ∧ (N.of_nat (length content) <= MAX_WRITE_BYTES)%N ∧
        h_disk s' = <[target := File content]> (h_disk s) ∧
        ((h_store s' = h_store s ∧ ∀ b, node_at (h_disk s) target ≠ Some (File b)) ∨
         ∃ b v, node_at (h_disk s) target = Some (File b) ∧
           capture (utc_now e) p b (str_get "proposal_id" "direct" params) "write"
             (str_get "actor" "agent" params) (h_store s) = (Ret v, h_store s'))
  | _ =>
      (h_disk s' = h_disk s ∨
       ∃ junk, h_disk s !! (removelast target ++ [tmp_name (token_hex e)]) = None ∧
         h_disk s' = <[removelast target ++ [tmp_name (token_hex e)] := File junk]> (h_disk s)) ∧
      (h_store s' = h_store s ∨
       ∃ b r, node_at (h_disk s) target = Some (File b) ∧
         capture (utc_now e) p b (str_get "proposal_id" "direct" params) "write"
           (str_get "actor" "agent" params) (h_store s) = (r, h_store s'))
  end.
Proof. apply write_leaves. Qed.

(** The same for [fs.restore], outside the trash directory, whose entries for
    the path it removes. *)
Theorem restore_protected_needs_approval e params used d st o s' loc :
  disk_wf d → sound_roots e d →
  handle_fs_restore e params (Hst d st (fresh_checker params used)) = (o, s') →
  h_disk s' !! loc ≠ d !! loc → protected loc →
  (consume_approval_marker (current_caller e) (time_now e) "fs.restore" [] params used).1.1 = None ∨
  ∃ d' l, follow e d' (_trash_dir e) = inr l ∧ is_Some (below l loc) ∧ d' !! loc = d !! loc ∧
          h_disk s' = (purge_trash_entries_for e (param_path params) d').2.
Proof.
  intros Hw Hsr Hrun Hne Hprot.
  apply fs_restore_inv in Hrun as [[[Hd _] _]|(q & sel & v & data & roots & prior & s1 & o2 & s2 & Hst1 & Hgates & _ & _ & _ & Hroots & Hp & Hc & _ & _ & Hd2)];
    [by rewrite Hd in Hne|].
  destruct Hgates as (_ & (rs & Hrs & Hq) & Hgr). simpl in *.
  assert (roots = rs) as -> by congruence.
  unfold restore_commit in Hc.
  pose proof (commit_disk _ _ _ _ _ _ _ _ _ _ _ _ _ _ _ _ Hst1 Hw (Hsr _ Hrs)
                (missing_ok_through _ _ _ _ Hp) Hq Hc) as (_ & _ & _ & Hloc).
  destruct (decide (h_disk s2 !! loc = d !! loc)) as [He|He].
  - right. destruct o2 as [u|j|x]; [|congruence..].
    destruct (purge_trash_entries_for e (param_path params) (h_disk s2)) as [r d'] eqn:Ep.
    simpl in Hd2. destruct (purge_outside e (param_path params) (h_disk s2) r d' loc Ep) as (l & Hl & Hb);
      [congruence|]. exists (h_disk s2), l. rewrite Ep. done.
  - left. specialize (Hgr (or_introl (Hloc loc He Hprot))). unfold granted, checker_call in Hgr.
    simpl in Hgr. by destruct (consume_approval_marker _ _ _ _ _ _) as [[r ps] u].
Qed.

Lemma resolve_last p st vs v v' :
  logged st p (vs ++ [v]) → resolve_version p (version_selector (-1)) st = Ret v' → v' = v.
Proof.
  intros Hl. unfold resolve_version. simpl.
  destruct (history_logged p st _ Hl) as [-> |(x & -> & _)]; [|done]. cbn [rbind].
  destruct (vs ++ [v]) as [|w ws] eqn:E; [by destruct vs|]. rewrite <- E.
  unfold nth_version. change (0 <? -1)%Z with false. cbv iota. rewrite length_app. simpl length.
  rewrite (proj2 (Z.ltb_ge _ 0)) by lia.
  replace (Z.to_nat _) with (length vs) by lia. rewrite list_lookup_middle by done. by intros [= ->].
Qed.

(** C37. A write can be undone.  When [fs.write] has replaced the bytes of a file
    that is neither inside the store's own directory nor inside the trash
    directory, then, from the disk and the store it left, a run of [fs.restore]
    of the newest version of the path that reaches its end puts those bytes
    back where they were (or other bytes with the same SHA-256 digest). *)
Theorem write_then_restore home e1 params1 s j1 s1 e2 params2 s2 j2 s3 b vs :
  disk_wf (h_disk s) → sound_roots e1 (h_disk s) → sound_roots e2 (h_disk s1) →
  handle_fs_write e1 params1 s = (Go j1, s1) → handle_fs_restore e2 params2 s2 = (Go j2, s3) →
  h_disk s2 = h_disk s1 → h_store s2 = h_store s1 →
  let p := param_path params1 in
  let target := parts (path_of p) in
  param_path params2 = p → selects params2 (version_selector (-1)) →
  store_ok (h_store s) → Forall valid_char p → logged (h_store s) p vs →
  capturable (utc_now e1) (str_get "proposal_id" "direct" params1) "write"
    (str_get "actor" "agent" params1) b →
  node_at (h_disk s) target = Some (File b) →
  below (parts (_backup_root home e1)) target = None → below (parts (_backup_root home e2)) target = None →
  (∀ c l, follow e2 (<[target := File c]> (h_disk s1)) (_trash_dir e2) = inr l → below l target = None) →
  ∃ c, (c = b ∨ sha256_collision c b) ∧ h_disk s3 !! target = Some (File c).
Proof.
  intros Hw Hsr1 Hsr2 Hrun1 Hrun2 Ed Es p target Ep Hsel Hok Hvalid Hlog Hcap Hnode _ _ Htrash.
  pose proof (write_leaves e1 params1 s (Go j1) s1 Hw Hsr1 Hrun1) as [Hw1 (content & _ & _ & _ & Hst)].
  destruct Hst as [[_ Hno]|(b' & v & Hb' & Hcapture)]; [by destruct (Hno b)|].
  fold p target in Hb', Hcapture. assert (b' = b) as -> by congruence.
  destruct (capture_spec _ _ _ _ _ _ _ _ _ _ Hok Hvalid Hlog Hcap Hcapture)
    as (_ & _ & _ & Hlog1 & _ & _ & _ & _ & _ & _ & c & Hobj & Hcol).
  apply fs_restore_inv in Hrun2 as [[_ Ho]|(q & sel & v' & data & roots & prior & s4 & o2 & s5 & Hst4 & Hgates & Hsel' & Hres & Hfetch & Hroots & Hp & Hc & _ & Ho & Hd3)];
    [by destruct (Ho j2)|].
  assert (sel = version_selector (-1)) as -> by by eapply selects_fun.
  rewrite Ep, Es in *. pose proof (resolve_last _ _ _ _ _ Hlog1 Hres) as ->.
  unfold fetch_object in Hfetch. apply rbind_Ret in Hfetch as (there & _ & Hfetch).
  destruct there; [|done]. apply io_Ret in Hfetch as [-> _]. rewrite Hobj in Hc. simpl in Hc.
  assert (Ho2 : o2 = Go tt) by (apply Ho; eauto). subst o2.
  destruct Hgates as (_ & (rs & Hrs & Hq) & _). assert (roots = rs) as -> by congruence.
  unfold restore_commit in Hc.
  rewrite Ed, Ep in *.
  pose proof (commit_disk _ _ _ _ _ _ _ _ _ _ _ _ _ _ _ _ Hst4 ltac:(by rewrite Ed)
    ltac:(rewrite Ed; by apply Hsr2) ltac:(rewrite Ed; by eapply missing_ok_through)
    ltac:(by rewrite Ed) Hc) as (Hgo & _).
  destruct (Hgo eq_refl) as (_ & Hd5 & _). fold target in Hd5. rewrite Ed in Hd5.
  exists c. split; [done|].
  destruct (purge_trash_entries_for e2 p (h_disk s5)) as [r d'] eqn:Epur. simpl in Hd3.
  destruct (decide (h_disk s3 !! target = h_disk s5 !! target)) as [E|E].
  - rewrite E, Hd5. apply lookup_insert_eq.
  - rewrite Hd3 in E. destruct (purge_outside e2 p (h_disk s5) r d' target Epur E) as (l & Hl & Hb).
    rewrite Hd5 in Hl. rewrite (Htrash _ _ Hl) in Hb. by destruct Hb.
Qed.
End handler_facts.

(** ** Examples *)

#[local] Instance all_printable : Unicode := {| uni_printable := λ _, true; uni_decimal := λ _, None |}.
#[local] Instance no_fault : Os :=
  {| os_fault := λ _, None; os_openat2 := true; os_partial := 0; os_fd := 7 |}.
#[local] Instance no_store_fault : StoreIo := {| io_fault := λ _, None |}.
#[local] Instance fixed_time : IsoFormat := {| fromisoformat := λ _, Ret (true, 0%Z) |}.
#[local] Instance no_diff : Difflib := {| unified_diff := λ _ _ _ _, [] |}.
Definition addon_env : env :=
  {| getenv := λ _, None; cwd := []; data_mount := true; meta_json := None; time_now := 10;
     utc_now := "2025-01-01T00:00:00Z"; trash_stamp := "20250101T000000000000";
     token_hex := "00112233"; current_caller := None |}.
Lemma addon_sound d :
  forallb (good_rootb d) (map path_of ADDON_ALLOWED_ROOTS) = true → sound_roots addon_env d.
Proof. intros Hg rs [= <-]. by apply good_roots_spec. Qed.
Lemma demo_sound : sound_roots addon_env demo_disk.
Proof. apply addon_sound. by vm_compute. Qed.
Definition demo_world (params : dict) : hst := Hst demo_disk empty_store (fresh_checker params []).

Definition approved_params : dict :=
  let ps := [("path"%py, JStr "/config/a.yaml"); ("content"%py, JStr "b")] in
  ps ++ [(APPROVAL_PARAM, marker_of "fs.write" ps "m1" 20)].
Definition demo_loc : list pystr := ["config"%py; "a.yaml"%py].

Example write_protected_needs_approval_witness :
  (consume_approval_marker None 10 "fs.write" [] approved_params []).1.1 = None.
Proof.
  destruct (handle_fs_write addon_env approved_params (demo_world approved_params)) as [o s'] eqn:E.
  assert (Hb : bool_decide (h_disk (handle_fs_write addon_env approved_params
                 (demo_world approved_params)).2 !! demo_loc = demo_disk !! demo_loc) = false)
    by (vm_compute; reflexivity).
  rewrite E in Hb. apply bool_decide_eq_false in Hb.
  apply (write_protected_needs_approval addon_env approved_params [] demo_disk empty_store o s'
           demo_loc demo_disk_wf demo_sound E Hb).
  by left.
Defined.

Definition share_params (content : pystr) : dict :=
  [("path"%py, JStr "/share/n"); ("content"%py, JStr content)].
(** A disk where the file to be overwritten, and then restored, is. *)
Definition full_disk : disk := <[["share"%py; "n"%py] := File [104; 105]%N]> demo_disk.
Definition full_world (params : dict) : hst := Hst full_disk empty_store (fresh_checker params []).
Definition restore_params : dict := [("path"%py, JStr "/share/n"); ("version"%py, JInt (-1))].

Lemma full_disk_wf : disk_wf full_disk.
Proof. apply disk_wfb_spec. by vm_compute. Qed.
Lemma full_sound : sound_roots addon_env full_disk.
Proof. apply addon_sound. by vm_compute. Qed.

Example write_outcome_witness :
  let run := handle_fs_write addon_env (share_params "new") (full_world (share_params "new")) in
  let target := ["share"%py; "n"%py] in
  (∃ content, decoded (share_params "new") content ∧ h_disk run.2 = <[target := File content]> full_disk) ∧
  ∃ b v, node_at full_disk target = Some (File b) ∧
    capture (utc_now addon_env) "/share/n" b "direct" "write" "agent" empty_store = (Ret v, h_store run.2).
Proof.
  intros run target.
  assert (Hgo : match run.1 with Go _ => true | _ => false end = true) by (vm_compute; reflexivity).
  subst run. destruct (handle_fs_write addon_env (share_params "new") (full_world (share_params "new")))
    as [o s'] eqn:E. cbn [fst snd] in *.
  assert (Hp : param_path (share_params "new") = "/share/n") by (vm_compute; reflexivity).
  assert (Ht : parts (path_of "/share/n") = target) by (vm_compute; reflexivity).
  destruct (write_outcome addon_env (share_params "new") (full_world (share_params "new")) o s'
              full_disk_wf full_sound E) as [_ H].
  destruct o as [j| |]; [|discriminate Hgo..].
  cbv zeta in H. rewrite Hp, Ht in H. destruct H as (content & Hd & _ & Hdisk & Hst).
  split; [exists content; split; [exact Hd|exact Hdisk]|].
  destruct Hst as [[_ Hno]|Hst]; [|exact Hst].
  exfalso. refine (Hno [104; 105]%N _). vm_compute. reflexivity.
Defined.

Example restore_protected_needs_approval_witness :
  let ps := [("path"%py, JStr "/config/a.yaml"); ("version"%py, JInt (-1))] in
  let params := ps ++ [(APPROVAL_PARAM, marker_of "fs.restore" ps "m1" 20)] in
  let st := (capture "t" "/config/a.yaml" [98]%N "direct" "write" "agent" empty_store).2 in
  let s' := (handle_fs_restore addon_env params (Hst demo_disk st (fresh_checker params []))).2 in
  (consume_approval_marker None 10 "fs.restore" [] params []).1.1 = None ∨
  ∃ d' l, follow addon_env d' (_trash_dir addon_env) = inr l ∧ is_Some (below l demo_loc) ∧
    d' !! demo_loc = demo_disk !! demo_loc ∧
    h_disk s' = (purge_trash_entries_for addon_env (param_path params) d').2.
Proof.
  intros ps params st s'. subst s'.
  destruct (handle_fs_restore addon_env params (Hst demo_disk st (fresh_checker params []))) as [o s'] eqn:E.
  assert (Hb : bool_decide (h_disk (handle_fs_restore addon_env params
                 (Hst demo_disk st (fresh_checker params []))).2 !! demo_loc = demo_disk !! demo_loc) = false)
    by (vm_compute; reflexivity).
  rewrite E in Hb. apply bool_decide_eq_false in Hb.
  apply (restore_protected_needs_approval addon_env params [] demo_disk st o s'
           demo_loc demo_disk_wf demo_sound E Hb).
  by left.
Defined.

Example write_then_restore_witness :
  let w := handle_fs_write addon_env (share_params "new") (full_world (share_params "new")) in
  let r := handle_fs_restore addon_env restore_params
             (Hst (h_disk w.2) (h_store w.2) (fresh_checker restore_params [])) in
  ∃ c, (c = [104; 105]%N ∨ sha256_collision c [104; 105]%N) ∧
    h_disk r.2 !! parts (path_of "/share/n") = Some (File c).
Proof.
  intros w r. subst w.
  set (s0 := full_world (share_params "new")) in *.
  assert (Hgo : match (handle_fs_write addon_env (share_params "new") s0).1 with Go _ => true | _ => false end = true)
    by (vm_compute; reflexivity).
  assert (Hgo2 : match r.1 with Go _ => true | _ => false end = true) by (vm_compute; reflexivity).
  subst r.
  assert (Hsound : forallb (good_rootb (h_disk (handle_fs_write addon_env (share_params "new") s0).2))
                     (map path_of ADDON_ALLOWED_ROOTS) = true) by (vm_compute; reflexivity).
  assert (Htrash : ∀ c, follow addon_env
            (<[parts (path_of "/share/n") := File c]> (h_disk (handle_fs_write addon_env (share_params "new") s0).2))
            (_trash_dir addon_env) = inl ENOENT) by (intros c; vm_compute; reflexivity).
  destruct (handle_fs_write addon_env (share_params "new") s0) as [o1 s1] eqn:E1.
  cbn [fst snd] in *.
  destruct o1 as [j1| |]; [|discriminate Hgo..].
  destruct (handle_fs_restore addon_env restore_params
              (Hst (h_disk s1) (h_store s1) (fresh_checker restore_params []))) as [o2 s3] eqn:E2.
  cbn [fst snd] in Hgo2. destruct o2 as [j2| |]; [|discriminate Hgo2..]. cbn [fst snd].
  apply (write_then_restore [] addon_env (share_params "new") s0 j1 s1 addon_env restore_params
           (Hst (h_disk s1) (h_store s1) (fresh_checker restore_params [])) j2 s3 [104; 105]%N []).
  - apply disk_wfb_spec. vm_compute. reflexivity.
  - apply addon_sound. vm_compute. reflexivity.
  - apply addon_sound. exact Hsound.
  - exact E1.
  - exact E2.
  - reflexivity.
  - reflexivity.
  - reflexivity.
  - exists s0, s0. reflexivity.
  - apply empty_store_ok.
  - apply valid_literal. vm_compute. reflexivity.
  - eexists. split; [reflexivity|]. by split.
  - split; [apply JsonFlat.scalars_spec; vm_compute; reflexivity|].
    split; [apply JsonFlat.scalars_spec; vm_compute; reflexivity|].
    split; [apply JsonFlat.scalars_spec; vm_compute; reflexivity|].
    split; [by left|apply demo_small].
  - vm_compute. reflexivity.
  - vm_compute. reflexivity.
  - vm_compute. reflexivity.
  - intros c l Hl. change (<[_ := _]> _) with (<[parts (path_of "/share/n") := File c]> (h_disk s1)) in Hl.
    rewrite (Htrash c) in Hl. discriminate.
Defined.

(** Only the text of the path as given is asked for [.storage]: with an approval
    for it, a spelling of the same location with an extra slash is written. *)
Theorem storage_spelling_is_written :
  let storage p := [("path"%py, JStr p); ("content"%py, JStr "x")] in
  let params p := storage p ++ [(APPROVAL_PARAM, marker_of "fs.write" (storage p) "m1" 20)] in
  let d := <[["config"%py; ".storage"%py] := Dir]> demo_disk in
  let run p := handle_fs_write addon_env (params p) (Hst d empty_store (fresh_checker (params p) [])) in
  let loc := ["config"%py; ".storage"%py; "auth"%py] in
  (run "/config/.storage/auth").1 = Answer storage_readonly ∧
  h_disk (run "/config//.storage/auth").2 !! loc = Some (File "x").
Proof. split; vm_compute; reflexivity. Qed.

(** The store's own directory is an unprotected part of an allowed root: without
    any approval a log of the store can be overwritten. *)
Theorem store_is_not_protected :
  let d := <[["share"%py; "openclaw-backups"%py] := Dir]>
             (<[["share"%py; "openclaw-backups"%py; "index"%py] := Dir]> demo_disk) in
  let params := [("path"%py, JStr "/share/openclaw-backups/index/%2Fconfig%2Fa.yaml.jsonl");
                 ("content"%py, JStr [])] in
  h_disk (handle_fs_write addon_env params (Hst d empty_store (fresh_checker params []))).2
    !! ["share"%py; "openclaw-backups"%py; "index"%py; "%2Fconfig%2Fa.yaml.jsonl"%py] = Some (File []).
Proof. vm_compute. reflexivity. Qed.
