(* ===== verification/FsPatch.v ===== *)
(** [fs.patch] ([commands/fs_patch.py]): the handler around the unified-diff
    applier. *)

From stdpp Require Import base list gmap.
From Stdlib Require Import NArith ZArith Lia.
From S2P Require Import Prelude PyStr PyFloat Json Sha256 Authz Policy Canonical Mutation Params.
From S2P Require Import SafePath SafeFd BackupStore UnifiedDiff Handler Trash FsWrite.

Definition MAX_PATCH_BYTES : N := 1024 * 1024.
Definition _PATCH_KEYS : gset pystr :=
  list_to_set ["path"; "patch"; "dry_run"; "actor"; "agent_bridge"; "proposal_id"; APPROVAL_PARAM].

Section patch.
Context `{Unicode, Os, StoreIo, IsoFormat, Difflib}.

Definition encode_utf8 (s : pystr) : M (list N) :=
  match utf8 s with
  | Some b => mgo b
  | None => throw (Exn "UnicodeEncodeError" "surrogates not allowed")
  end.
(** The bytes of a file that must be there. *)
Definition original_of (p : pystr) (roots : list path) : M (list N) :=
  let% r := disk_read (λ d, read_bytes_safe d p roots false) in
  match r with
  | Ok b => mgo b
  | Err (OsError ENOENT _) => answer (error_dict "NOT_FOUND" ("Path does not exist: " ++ repr_str p))
  | Err x => fd_error (path_not_allowed p) "READ_ERROR" "Cannot read file: " x
  end.
Definition patched_of (original : list N) (patch_text : pystr) : M (list N * nat) :=
  match _run_patch original patch_text false with
  | Ret r => mgo r
  | Raise x => if bool_decide (exn_type x = "PatchApplyError"%py)
               then answer (error_dict "PATCH_FAILED" ("Patch did not apply cleanly: " ++ exn_msg x))
               else throw x
  end.
Definition too_large (code what : pystr) (n limit : N) : json :=
  error_with code (what ++ str_of_N n ++ " bytes; limit is " ++ str_of_N limit)
    [("limit"%py, JInt (Z.of_N limit))].

Definition handle_fs_patch (e : env) (params : dict) : M json :=
  let% _ := strict params _PATCH_KEYS ∅ in
  let p := str_get "path" [] params in
  let patch_text := str_get "patch" [] params in
  let% _ := require (negb (bool_decide (p = []))) (missing "path") in
  let% _ := require (negb (bool_decide (patch_text = []))) (missing "patch") in
  let% encoded := encode_utf8 patch_text in
  let patch_size := N.of_nat (length encoded) in
  let% _ := require (patch_size <=? MAX_PATCH_BYTES)%N
              (too_large "REQUEST_TOO_LARGE" "patch is " patch_size MAX_PATCH_BYTES) in
  let proposal_id := str_get "proposal_id" "direct" params in
  let actor := str_get "actor" "agent" params in
  let% _ := write_gates e "fs.patch" p (flag "agent_bridge" params) in
  let% roots := current_roots e in
  let% original_bytes := original_of p roots in
  let% (patched_bytes, hunks) := patched_of original_bytes patch_text in
  let n := N.of_nat (length patched_bytes) in
  let% _ := require (n <=? MAX_WRITE_BYTES)%N
              (too_large "RESULT_TOO_LARGE" "patched file would be " n MAX_WRITE_BYTES) in
  if flag "dry_run" params then
    mgo (JDict [("ok", JBool true); ("path", JStr p); ("dry_run", JBool true);
                ("hunks_applicable", JInt (Z.of_nat hunks))])
  else
    let% _ := _get_store e in
    let% _ := commit e p roots (Some original_bytes) proposal_id "patch" actor
                "Backup capture failed; patch aborted" patched_bytes "WRITE_ERROR" "Atomic write failed: " in
    mgo (JDict [("ok", JBool true); ("path", JStr p); ("sha256", JStr (Sha.sha256_hex patched_bytes));
                ("size", JInt (Z.of_N n)); ("hunks_applied", JInt (Z.of_nat hunks))]).

(** ** What it does *)

Lemma quiet_encode s : quiet (encode_utf8 s).
Proof. unfold encode_utf8. destruct (utf8 s); auto with py. Qed.
Lemma quiet_original p roots : quiet (original_of p roots).
Proof.
  unfold original_of. apply quiet_bind; [auto with py|].
  intros [b|[[] ?| | |]]; try (by auto with py); apply quiet_fd_error.
Qed.
Lemma quiet_patched b t : quiet (patched_of b t).
Proof. unfold patched_of. destruct (_run_patch _ _ _); [|case_bool_decide]; auto with py. Qed.
#[local] Hint Resolve quiet_encode quiet_original quiet_patched quiet_write_gates quiet_roots
  quiet_get_store : py.

Lemma original_inv p roots b s s' :
  original_of p roots s = (Go b, s') → s' = s ∧ read_bytes_safe (h_disk s) p roots false = Ok b.
Proof.
  unfold original_of, mbind_, disk_read. simpl. destruct (read_bytes_safe _ _ _ _) as [b'|x] eqn:E.
  - by intros [= -> <-].
  - destruct x as [[] nm| | |]; try done.
Qed.
Lemma patched_inv b t r s s' : patched_of b t s = (Go r, s') → s' = s ∧ _run_patch b t false = Ret r.
Proof.
  unfold patched_of. destruct (_run_patch b t false); [by intros [= -> <-]|].
  case_bool_decide; done.
Qed.

Definition patch_commit (e : env) (params : dict) (roots : list path) (original patched : list N) : M unit :=
  commit e (param_path params) roots (Some original) (str_get "proposal_id" "direct" params) "patch"
    (str_get "actor" "agent" params) "Backup capture failed; patch aborted"
    patched "WRITE_ERROR" "Atomic write failed: ".
Lemma encode_inv t b s s' : encode_utf8 t s = (Go b, s') → s' = s.
Proof. unfold encode_utf8. destruct (utf8 t); [by intros [= _ <-]|done]. Qed.

(** [qstep], where a dry run may also end well. *)
Ltac pstep H a s Hm Hs :=
  apply quiet_inv in H as [(a & s & Hm & Hs & H)|H];
  [|left; destruct H; split; [still_chain|intros _; assumption]|solve [auto 10 with py]].
(** Nothing, or, past the gates and unless it is a dry run, a commit of what the
    applier makes of the file. *)
Lemma fs_patch_inv e params s o s' :
  handle_fs_patch e params s = (o, s') →
  (still s s' ∧ (flag "dry_run" params = false → ∀ j, o ≠ Go j)) ∨
  ∃ q original patched hunks roots s1 o2,
    still s s1 ∧ past_gates e "fs.patch" (param_path params) (flag "agent_bridge" params) s q ∧
    flag "dry_run" params = false ∧ (N.of_nat (length patched) <= MAX_WRITE_BYTES)%N ∧
    allowed_roots_for_env e (h_disk s) = Ret roots ∧
    read_bytes_safe (h_disk s) (param_path params) roots false = Ok original ∧
    _run_patch original (str_get "patch" [] params) false = Ret (patched, hunks) ∧
    patch_commit e params roots original patched s1 = (o2, s') ∧ ((∃ j, o = Go j) ↔ o2 = Go tt).
Proof.
  unfold handle_fs_patch. intros Hh.
  pstep Hh u1 s1 Hm Hs1. apply strict_inv in Hm as ->.
  pstep Hh u2 s2 Hm Hs2. apply require_inv in Hm as [-> _].
  pstep Hh u3 s3 Hm Hs3. apply require_inv in Hm as [-> _].
  pstep Hh enc s4 Hm Hs4. apply encode_inv in Hm as ->.
  pstep Hh u5 s5 Hm Hs5. apply require_inv in Hm as [-> _].
  pstep Hh q s6 Hg Hs6. apply write_gates_inv in Hg as (_ & Hst & Hres & Hgr).
  pstep Hh roots s7 Hr Hs7. pose proof (roots_inv _ _ _ _ Hr) as Hroots.
  pstep Hh original s8 Hm Hs8. apply original_inv in Hm as [-> Horig].
  pstep Hh r s9 Hm Hs9. apply patched_inv in Hm as [-> Hpatch]. destruct r as [patched hunks].
  pstep Hh u10 s10 Hm Hs10. apply require_inv in Hm as [-> Hmax].
  clear Hs1 Hs2 Hs3 Hs4 Hs5 Hs8 Hs9 Hs10.
  assert (H7 : still s s7) by (by etrans).
  rewrite (proj1 Hs6) in Hroots. rewrite (proj1 H7) in Horig.
  destruct (flag "dry_run" params) eqn:Edry.
  { left. injection Hh as <- <-. by split. }
  pstep Hh u11 s11 Hm Hs11. right. assert (H11 : still s s11) by (by etrans).
  assert (Hcom : ∃ o2, patch_commit e params roots original patched s11 = (o2, s') ∧
                       ((∃ j, o = Go j) ↔ o2 = Go tt)).
  { apply mbind_inv in Hh as [([] & s12 & Hcm & [= <- <-])|[(j & Hcm & ->)|(x & Hcm & ->)]];
      eexists; (split; [exact Hcm|]); naive_solver. }
  destruct Hcom as (o2 & Hcm & Ho). exists q, original, patched, hunks, roots, s11, o2.
  split_and!; try done. by apply N.leb_le.
Qed.

(** ** Properties *)

(** What a run of [fs.patch] leaves.  A dry run changes nothing.  When another
    run reaches its end, the named file holds what the applier makes of the
    bytes it held, of at most the allowed size; those bytes have been captured
    first, and nothing else on the disk has changed.  When it is refused or
    fails, the disk is as it was, or holds one more temporary file.  However it
    ends, a protected location has changed only with approval. *)
Theorem patch_outcome e params used d st o s' :
  disk_wf d → sound_roots e d →
  handle_fs_patch e params (Hst d st (fresh_checker params used)) = (o, s') →
  let p := param_path params in
  let target := parts (path_of p) in
  disk_wf (h_disk s') ∧
  match o with
  | Go _ =>
      if flag "dry_run" params then h_disk s' = d ∧ h_store s' = st else
      ∃ original patched hunks v,
        node_at d target = Some (File original) ∧
        _run_patch original (str_get "patch" [] params) false = Ret (patched, hunks) ∧
        (N.of_nat (length patched) <= MAX_WRITE_BYTES)%N ∧
        h_disk s' = <[target := File patched]> d ∧
        capture (utc_now e) p original (str_get "proposal_id" "direct" params) "patch"
          (str_get "actor" "agent" params) st = (Ret v, h_store s')
  | _ => h_disk s' = d ∨
         ∃ junk, d !! (removelast target ++ [tmp_name (token_hex e)]) = None ∧
           h_disk s' = <[removelast target ++ [tmp_name (token_hex e)] := File junk]> d
  end ∧
  ∀ loc, h_disk s' !! loc ≠ d !! loc → protected loc →
    (consume_approval_marker (current_caller e) (time_now e) "fs.patch" [] params used).1.1 = None.
Proof.
  intros Hw Hsr Hrun p target.
  apply fs_patch_inv in Hrun as [[[Hd Hst] Ho]|(q & original & patched & hunks & roots & s1 & o2 & Hst1 & Hgates & Hdry & Hmax & Hroots & Hp & Hpatch & Hc & Ho)].
  { simpl in Hd, Hst. rewrite Hd. split_and!; [done| |by intros loc []].
    destruct o; [|by left..]. destruct (flag "dry_run" params); [done|by destruct (Ho eq_refl a)]. }
  destruct Hgates as (_ & (rs & Hrs & Hq) & Hgr). simpl in *. assert (roots = rs) as -> by congruence.
  unfold patch_commit in Hc.
  pose proof (commit_disk _ _ _ _ _ _ _ _ _ _ _ _ _ _ _ _ Hst1 Hw (Hsr _ Hrs)
                (prior_read_through _ _ _ (Some original) Hp) Hq Hc) as (Hok & Hko & Hw' & Hloc).
  split_and!; [done| |].
  - rewrite Hdry. destruct o as [j|j|x]; [|apply Hko; intros E; by destruct (proj2 Ho E)..].
    assert (E : o2 = Go tt) by (apply Ho; eauto). destruct (Hok E) as (_ & Hd & _).
    apply commit_inv in Hc as (_ & (r & Hr & Hv) & _). destruct (Hv (or_intror E)) as [v ->].
    destruct Hst1 as [_ Hs1]. simpl in Hs1. rewrite Hs1 in Hr.
    exists original, patched, hunks, v. split_and!; try done.
    exact (prior_at _ _ _ (Some original) (Hsr _ Hrs) Hp).
  - intros loc Hne Hprot. specialize (Hgr (or_introl (Hloc loc Hne Hprot))).
    unfold granted, checker_call in Hgr. simpl in Hgr.
    by destruct (consume_approval_marker _ _ _ _ _ _) as [[r ps] u].
Qed.
End patch.

(** ** Example *)

#[local] Instance all_printable : Unicode := {| uni_printable := λ _, true; uni_decimal := λ _, None |}.
#[local] Instance no_fault : Os :=
  {| os_fault := λ _, None; os_openat2 := true; os_partial := 0; os_fd := 7 |}.
#[local] Instance no_store_fault : StoreIo := {| io_fault := λ _, None |}.
#[local] Instance no_diff : Difflib := {| unified_diff := λ _ _ _ _, [] |}.

Definition no_newline : pystr := "\ No newline at end of file".
Definition approved_patch : dict :=
  let ps := [("path"%py, JStr "/config/a.yaml");
             ("patch"%py, JStr ("@@ -1 +1 @@" ++ [NL] ++ "-a" ++ [NL] ++ no_newline ++ [NL]
                                ++ "+b" ++ [NL] ++ no_newline ++ [NL]))] in
  ps ++ [(APPROVAL_PARAM, marker_of "fs.patch" ps "m1" 20)].

(** The file [/config/a.yaml] goes from [a] to [b], with approval. *)
Example patch_outcome_witness :
  (consume_approval_marker None 10 "fs.patch" [] approved_patch []).1.1 = None ∧
  h_disk (handle_fs_patch addon_env approved_patch (demo_world approved_patch)).2
    = <[demo_loc := File [98%N]]> demo_disk.
Proof.
  destruct (handle_fs_patch addon_env approved_patch (demo_world approved_patch)) as [o s'] eqn:E.
  assert (Hb : bool_decide (h_disk (handle_fs_patch addon_env approved_patch
                 (demo_world approved_patch)).2 = <[demo_loc := File [98%N]]> demo_disk) = true)
    by (vm_compute; reflexivity).
  rewrite E in Hb. apply bool_decide_eq_true in Hb.
  destruct (patch_outcome addon_env approved_patch [] demo_disk empty_store o s'
           demo_disk_wf demo_sound E) as (_ & _ & Hloc).
  split; [|exact Hb]. apply (Hloc demo_loc); [|by left].
  cbn [snd] in Hb. rewrite Hb. intros Heq.
  assert (Hd : bool_decide ((<[demo_loc := File [98%N]]> demo_disk : disk) !! demo_loc = demo_disk !! demo_loc) = false)
    by (vm_compute; reflexivity).
  apply bool_decide_eq_false in Hd. by apply Hd.
Defined.
