(* ===== verification/FsMoveDelete.v ===== *)
(** [fs.move] and [fs.delete] ([commands/fs_move_delete.py]). *)

From stdpp Require Import base list gmap.
From Stdlib Require Import NArith ZArith Lia.
From S2P Require Import Prelude PyStr PyFloat Json Authz Policy Canonical Mutation Params SafePath.
From S2P Require Import SafeFd BackupStore Handler Trash FsWrite.

Definition _MOVE_KEYS : gset pystr :=
  list_to_set ["src"; "dst"; "actor"; "agent_bridge"; "proposal_id"; APPROVAL_PARAM].
Definition _DELETE_KEYS : gset pystr :=
  list_to_set ["path"; "actor"; "agent_bridge"; "proposal_id"; APPROVAL_PARAM].

Section handlers.
Context `{Unicode, Os, StoreIo, Trash}.

(** The checks of a path as given, and of what it resolves to. *)
Definition _write_preflight (e : env) (command p : pystr) (agent_bridge : bool) : M unit :=
  let% _ := require (negb (_is_storage p)) storage_readonly in
  gate e command (_is_protected p || agent_bridge).
Definition _post_resolution_check (e : env) (command : pystr) (resolved : path) : M unit :=
  gate e command (_is_protected (path_str resolved)).

Definition move_gates (e : env) (src_raw dst_raw : pystr) (agent_bridge : bool) : M (path * path) :=
  let% _ := _write_preflight e "fs.move" src_raw agent_bridge in
  let% _ := _write_preflight e "fs.move" dst_raw agent_bridge in
  let% src := _resolve_write_target e src_raw in
  let% _ := _post_resolution_check e "fs.move" src in
  let% dst := _resolve_write_target e dst_raw in
  let% _ := _post_resolution_check e "fs.move" dst in
  mgo (src, dst).

(** [bool(params.get("agent_bridge", ...))] *)
Definition move_bridge (params : dict) (src_raw dst_raw : pystr) : bool :=
  match dget "agent_bridge" params with
  | Some j => truthy j
  | None => _is_protected src_raw || _is_protected dst_raw
  end.

(** What is at the destination is captured, then the source. *)
Definition capture_dst (e : env) (dst_raw : pystr) (dst : path) (roots : list path)
    (proposal_id actor : pystr) : M unit :=
  let% there := disk_read (λ d, path_exists e d dst) in
  if there then
    let% dst_prior := read_file dst_raw roots true "READ_ERROR" "Cannot read destination prior bytes: " in
    let% _ := capture_or e dst_raw dst_prior ("pre-move-" ++ proposal_id) "move-dst" actor
                "Backup capture of destination failed; move aborted" in
    mgo tt
  else mgo tt.
Definition capture_src (e : env) (src_raw : pystr) (roots : list path) (proposal_id actor : pystr)
    : M (list N) :=
  let% src_bytes := read_file src_raw roots false "READ_ERROR" "Cannot read source: " in
  let% _ := capture_or e src_raw src_bytes proposal_id "move-src" actor
              "Backup capture of source failed; move aborted" in
  mgo src_bytes.
Definition move_file (src_raw dst_raw : pystr) (roots : list path) : M unit :=
  let% r := disk_step (λ d, replace_safe d src_raw dst_raw roots) in
  match r with
  | Ok _ => mgo tt
  | Err (OsError (EFault EXDEV) _) =>
      answer (error_dict "CROSS_DEVICE"
                "Cross-device moves are not supported; use fs.write + fs.delete instead")
  | Err x => fd_error (error_dict "PATH_NOT_ALLOWED" "Source or destination escapes the allowed roots")
               "MOVE_ERROR" "Move failed: " x
  end.
(** A history that cannot be carried over does not fail the move, if the store
    says so with an error of its own. *)
Definition carry_history (src_raw dst_raw : pystr) : M bool :=
  let% r := store_step (rename_history src_raw dst_raw) in
  match r with
  | Ret b => mgo b
  | Raise x => if is_backup_error x then mgo false else throw x
  end.

Definition handle_fs_move (e : env) (params : dict) : M json :=
  let% _ := strict params _MOVE_KEYS ∅ in
  let src_raw := str_get "src" [] params in
  let dst_raw := str_get "dst" [] params in
  let% _ := require (negb (bool_decide (src_raw = []))) (missing "src") in
  let% _ := require (negb (bool_decide (dst_raw = []))) (missing "dst") in
  let proposal_id := str_get "proposal_id" "direct" params in
  let actor := str_get "actor" "agent" params in
  let% (src, dst) := move_gates e src_raw dst_raw (move_bridge params src_raw dst_raw) in
  let% there := disk_read (λ d, path_exists e d src) in
  let% _ := require there
              (error_dict "NOT_FOUND" ("Source path does not exist: " ++ repr_str src_raw)) in
  let% _ := require (negb (bool_decide (src = dst)))
              (error_dict "INVALID_PARAM" "src and dst must differ") in
  let% _ := _get_store e in
  let% roots := current_roots e in
  let% _ := capture_dst e dst_raw dst roots proposal_id actor in
  let% src_bytes := capture_src e src_raw roots proposal_id actor in
  let% _ := move_file src_raw dst_raw roots in
  let% history_moved := carry_history src_raw dst_raw in
  mgo (JDict [("ok", JBool true); ("src", JStr src_raw); ("dst", JStr dst_raw);
              ("size", JInt (Z.of_nat (length src_bytes))); ("history_moved", JBool history_moved)]).

Definition trash_file (e : env) (resolved : path) : M pystr :=
  let% r := disk_step (_trash_file e resolved) in
  match r with
  | Ok to => mgo to
  | Err (OsError x names) =>
      answer (error_dict "TRASH_ERROR" ("Trash operation failed: " ++ oserror_str x names))
  | Err x => throw (uncaught x)
  end.

Definition handle_fs_delete (e : env) (params : dict) : M json :=
  let% _ := strict params _DELETE_KEYS ∅ in
  let p := str_get "path" [] params in
  let% _ := require (negb (bool_decide (p = []))) (missing "path") in
  let proposal_id := str_get "proposal_id" "direct" params in
  let actor := str_get "actor" "agent" params in
  let agent_bridge := flag "agent_bridge" params in
  let% _ := _write_preflight e "fs.delete" p agent_bridge in
  let% resolved := _resolve_write_target e p in
  let% _ := _post_resolution_check e "fs.delete" resolved in
  let% there := disk_read (λ d, path_exists e d resolved) in
  let% _ := require there (error_dict "NOT_FOUND" ("Path does not exist: " ++ repr_str p)) in
  let% roots := current_roots e in
  let% prior_bytes := read_file p roots false "READ_ERROR" "Cannot read file: " in
  let% _ := _get_store e in
  let% version := capture_or e p prior_bytes proposal_id "delete" actor
                    "Backup capture failed; delete aborted" in
  let% trashed_to := trash_file e resolved in
  mgo (JDict [("ok", JBool true); ("path", JStr p); ("sha256", JStr (v_sha256 version));
              ("trashed_to", JStr trashed_to)]).
End handlers.

(** ** Where a resolved path is *)

Section locations.
Context `{Unicode, Os}.

(** A file that was read is the one its path resolves to. *)
Lemma read_resolved d cwd0 p roots q fd :
  Forall (good_root d) roots → resolve_safe (links_of d) cwd0 p roots = Ret q →
  open_safe_fd d p roots false = Ok fd →
  fd = parts (path_of p) ∧ q = abs_path fd ∧ clean fd ∧ link_free (links_of d) fd.
Proof.
  intros Hg (Hs & Hq & _)%resolve_safe_Ret Ho.
  apply open_safe_fd_opened, opened_plain in Ho as (-> & Hr & Hdd & Hl & _); [|done].
  assert (q = abs_path (parts (path_of p))) as -> by (by eapply resolve_plain).
  destruct (resolve_Ret _ _ _ _ Hs Hq) as (w & _ & Hqw & _ & Hc & _). injection Hqw as Hqw.
  by rewrite <- Hqw in Hc.
Qed.

(** [path.exists()] of a plain location. *)
Lemma path_exists_plain e d ps :
  disk_wf d → clean ps → link_free (links_of d) ps → is_Some (node_at d ps) →
  path_exists e d (abs_path ps) = true.
Proof.
  intros Hw Hc Hl Hx. unfold path_exists.
  assert (follow e d (abs_path ps) = inr ps) as ->; [|by apply bool_decide_eq_true].
  unfold follow. rewrite bool_decide_eq_false_2 by done. by apply (namei_reaches _ _ []).
Qed.

(** What a rename between two checked paths does. *)
Lemma replace_safe_spec d src dst roots r d' b :
  disk_wf d → Forall (good_root d) roots → node_at d (parts (path_of src)) = Some (File b) →
  replace_safe d src dst roots = (r, d') →
  let s := parts (path_of src) in
  let t := parts (path_of dst) in
  (r = Ok tt → d' = <[t := File b]> (delete s d) ∧ node_at d t ≠ Some Dir ∧ disk_wf d' ∧
     ∃ dir n, t = dir ++ [n] ∧ ".."%py ∉ t ∧ link_free (links_of d) dir ∧ node_at d dir = Some Dir) ∧
  (r ≠ Ok tt → d' = d).
Proof.
  intros Hw Hg Hb. unfold replace_safe. cbv zeta.
  destruct (open_safe_parent_dir d src roots) as [[sd sn]|x] eqn:Es; [|by intros [= <- <-]].
  destruct (open_safe_parent_dir d dst roots) as [[td tn]|x] eqn:Et; [|by intros [= <- <-]].
  apply open_parent_plain in Es as (Hs & _); [|done].
  apply open_parent_plain in Et as (Ht & Htn & Htd & _ & Hdd & Hl); [|done].
  rewrite Ht. rewrite Hs in Hb |- *.
  destruct (replace_at _ _ _ _ _) as [d2|x] eqn:Er; intros [= <- <-]; [|done].
  split; [|done]. intros _. apply named_Ok, named_Ok, sys_Ok in Er. unfold sys_rename in Er. rewrite Hb in Er.
  assert (Hd : d2 = <[td ++ [tn] := File b]> (delete (sd ++ [sn]) d) ∧ node_at d (td ++ [tn]) ≠ Some Dir)
    by (destruct (node_at d (td ++ [tn])) as [[]|]; by simplify_eq).
  destruct Hd as [-> Hnd]. split_and!; [done..| |exists td, tn; split_and!; [done|set_solver|done|done]].
  assert (Hne : ∀ q, node_at d q = Some Dir → sd ++ [sn] ≠ q) by (intros q Hq <-; congruence).
  apply disk_wf_insert; [apply disk_wf_delete; [done|congruence]|by rewrite node_at_delete; auto|].
  destruct (decide (sd ++ [sn] = td ++ [tn])) as [<-|]; [|by rewrite node_at_delete].
  destruct (sd ++ [sn]) eqn:E; [by destruct sd|]. simpl. by rewrite lookup_delete_eq.
Qed.
End locations.

(** ** What the parts of the handlers do *)

(** A step that leaves the disk alone. *)
Definition disk_quiet {A} (m : M A) : Prop := ∀ s, h_disk (m s).2 = h_disk s.
Lemma quiet_disk_quiet {A} (m : M A) : quiet m → disk_quiet m.
Proof. intros Hq s. apply Hq. Qed.
Lemma disk_quiet_bind {A B} (m : M A) (f : A → M B) :
  disk_quiet m → (∀ a, disk_quiet (f a)) → disk_quiet (mbind_ m f).
Proof.
  intros Hm Hf s. unfold mbind_. specialize (Hm s). destruct (m s) as [[a|j|x] s1]; [|done..].
  rewrite Hf. exact Hm.
Qed.
Lemma disk_quiet_inv {A B} (m : M A) (f : A → M B) s o s' :
  disk_quiet m → mbind_ m f s = (o, s') →
  (∃ a s1, m s = (Go a, s1) ∧ h_disk s1 = h_disk s ∧ f a s1 = (o, s')) ∨
  (h_disk s' = h_disk s ∧ ∀ b, o ≠ Go b).
Proof.
  intros Hq [(a & s1 & Hm & Hf)|[(j & Hm & ->)|(x & Hm & ->)]]%mbind_inv;
    specialize (Hq s); rewrite Hm in Hq; [left; eauto|by right..].
Qed.
(** [dstep H a s Hm Hs] goes past such a step. *)
Ltac dstep H a s Hm Hs :=
  apply disk_quiet_inv in H as [(a & s & Hm & Hs & H)|H];
  [|left; destruct H; split; [congruence|assumption]|solve [auto 10 using quiet_disk_quiet with py]].

Section parts.
Context `{Unicode, Os, StoreIo}.

Lemma quiet_preflight e c p ab : quiet (_write_preflight e c p ab).
Proof. unfold _write_preflight. auto with py. Qed.
Lemma quiet_post e c q : quiet (_post_resolution_check e c q).
Proof. unfold _post_resolution_check. auto with py. Qed.
Lemma preflight_inv e c p ab u s s' :
  _write_preflight e c p ab s = (Go u, s') →
  still s s' ∧ (_is_protected p = true ∨ ab = true → granted e c (h_check s)) ∧
  (granted e c (h_check s') → granted e c (h_check s)).
Proof.
  unfold _write_preflight.
  intros [([] & s1 & [-> _]%require_inv & Hg)|[(? & ? & ?)|(? & ? & ?)]]%mbind_inv; [|done..].
  destruct u. apply gate_inv in Hg as (Hs & Hn & Hb). split_and!; [done| |done].
  intros Hp. apply Hn, orb_true_iff. tauto.
Qed.

(** A path past the gates of a command. *)
Definition resolves (e : env) (d : disk) (p : pystr) (q : path) : Prop :=
  ∃ rs, allowed_roots_for_env e d = Ret rs ∧ resolve_safe (links_of d) (cwd e) p rs = Ret q.

Lemma move_gates_inv e src dst ab q r s s' :
  move_gates e src dst ab s = (Go (q, r), s') →
  still s s' ∧ resolves e (h_disk s) src q ∧ resolves e (h_disk s) dst r ∧
  (_is_protected (path_str q) = true ∨ _is_protected (path_str r) = true ∨
   _is_protected src = true ∨ _is_protected dst = true → granted e "fs.move" (h_check s)).
Proof.
  unfold move_gates, _post_resolution_check.
  intros [(u1 & s1 & E1 & Hr)|[(? & ? & ?)|(? & ? & ?)]]%mbind_inv; [|done..].
  apply mbind_inv in Hr as [(u2 & s2 & E2 & Hr)|[(? & ? & ?)|(? & ? & ?)]]; [|done..].
  apply mbind_inv in Hr as [(q' & s3 & E3 & Hr)|[(? & ? & ?)|(? & ? & ?)]]; [|done..].
  apply mbind_inv in Hr as [([] & s4 & E4 & Hr)|[(? & ? & ?)|(? & ? & ?)]]; [|done..].
  apply mbind_inv in Hr as [(r' & s5 & E5 & Hr)|[(? & ? & ?)|(? & ? & ?)]]; [|done..].
  apply mbind_inv in Hr as [([] & s6 & E6 & Hr)|[(? & ? & ?)|(? & ? & ?)]]; [|done..].
  injection Hr as -> -> <-.
  apply preflight_inv in E1 as (H1' & Hn1 & Hb1). apply preflight_inv in E2 as (H2' & Hn2 & Hb2).
  apply target_inv in E3 as (-> & Hq). apply gate_inv in E4 as (H4' & Hn4 & Hb4).
  apply target_inv in E5 as (-> & Hr'). apply gate_inv in E6 as (H6' & Hn6 & _).
  assert (Hs2 : still s s2) by (by etrans). assert (Hs4 : still s s4) by (by etrans).
  rewrite (proj1 Hs2) in Hq. rewrite (proj1 Hs4) in Hr'. split_and!; [by etrans|done..|tauto].
Qed.

(** A capture leaves the disk alone and appends a version. *)
Lemma disk_quiet_capture e p data pid o a refusal : disk_quiet (capture_or e p data pid o a refusal).
Proof.
  intros s. destruct (capture_or e p data pid o a refusal s) as [out s'] eqn:E.
  apply capture_or_inv in E as [Hd _]. exact Hd.
Qed.
Lemma disk_quiet_history src dst : disk_quiet (carry_history src dst).
Proof.
  intros s. unfold carry_history, mbind_, store_step. destruct (rename_history _ _ _) as [[b|x] st]; [done|].
  by destruct (is_backup_error x).
Qed.
Lemma history_inv src dst o s s' :
  carry_history src dst s = (o, s') →
  h_disk s' = h_disk s ∧ h_store s' = (rename_history src dst (h_store s)).2 ∧
  (∀ j, o ≠ Answer j) ∧
  (∀ x, o = Throw x → (rename_history src dst (h_store s)).1 = Raise x).
Proof.
  unfold carry_history, mbind_, store_step. destruct (rename_history _ _ _) as [[b|x] st].
  - by intros [= <- <-].
  - simpl. destruct (is_backup_error x); intros [= <- <-]; split_and!; try done. by intros y [= ->].
Qed.

Lemma capture_src_inv e src roots pid a b s s' :
  capture_src e src roots pid a s = (Go b, s') →
  h_disk s' = h_disk s ∧ read_bytes_safe (h_disk s) src roots false = Ok b ∧
  ∃ v, capture (utc_now e) src b pid "move-src" a (h_store s) = (Ret v, h_store s').
Proof.
  unfold capture_src. intros [(b' & s1 & [-> Hr]%read_file_inv & Hc)|[(? & ? & ?)|(? & ? & ?)]]%mbind_inv; [|done..].
  apply mbind_inv in Hc as [(v & s2 & Hc & [= -> <-])|[(? & ? & ?)|(? & ? & ?)]]; [|done..].
  apply capture_or_inv in Hc as (Hd & _ & r & Hcap & Hv). rewrite (Hv v eq_refl) in Hcap. eauto.
Qed.
Lemma capture_dst_inv e dst q roots pid a u s s' :
  capture_dst e dst q roots pid a s = (Go u, s') →
  h_disk s' = h_disk s ∧
  if path_exists e (h_disk s) q then
    ∃ b v, read_bytes_safe (h_disk s) dst roots true = Ok b ∧
      capture (utc_now e) dst b ("pre-move-" ++ pid) "move-dst" a (h_store s) = (Ret v, h_store s')
  else h_store s' = h_store s.
Proof.
  unfold capture_dst. intros [(x & s1 & Hx & Hc)|[(? & ? & ?)|(? & ? & ?)]]%mbind_inv; [|done..].
  unfold disk_read in Hx. injection Hx as <- <-.
  destruct (path_exists e (h_disk s) q); [|by injection Hc as _ <-].
  apply mbind_inv in Hc as [(b & s2 & [-> Hr]%read_file_inv & Hc)|[(? & ? & ?)|(? & ? & ?)]]; [|done..].
  apply mbind_inv in Hc as [(v & s2 & Hc & [= _ <-])|[(? & ? & ?)|(? & ? & ?)]]; [|done..].
  apply capture_or_inv in Hc as (Hd & _ & r & Hcap & Hv). rewrite (Hv v eq_refl) in Hcap. eauto 10.
Qed.
Lemma move_file_inv src dst roots o s s' :
  move_file src dst roots s = (o, s') →
  h_store s' = h_store s ∧ ∃ r, replace_safe (h_disk s) src dst roots = (r, h_disk s') ∧ (o = Go tt ↔ r = Ok tt).
Proof.
  unfold move_file, mbind_, disk_step. destruct (replace_safe _ _ _ _) as [r d'].
  destruct r as [[]|x]; intros E.
  { injection E as <- <-. split; [done|]. by eexists. }
  assert (Hn : (∀ a, o ≠ Go a) ∧ s' = Hst d' (h_store s) (h_check s)).
  { destruct x as [[| | | | | | |[]] nm| | |]; (apply fd_error_inv in E as [-> ?] || injection E as <- <-); done. }
  destruct Hn as [Hn ->]. split; [done|]. eexists. split; [done|]. split; [intros Ho; by destruct (Hn tt)|done].
Qed.
Lemma disk_quiet_src e src roots pid a : disk_quiet (capture_src e src roots pid a).
Proof.
  unfold capture_src. apply disk_quiet_bind; [apply quiet_disk_quiet, quiet_read_file|]. intros b.
  apply disk_quiet_bind; [apply disk_quiet_capture|done].
Qed.
Lemma disk_quiet_dst e dst q roots pid a : disk_quiet (capture_dst e dst q roots pid a).
Proof.
  unfold capture_dst. apply disk_quiet_bind; [done|]. intros []; [|done].
  apply disk_quiet_bind; [apply quiet_disk_quiet, quiet_read_file|]. intros b.
  apply disk_quiet_bind; [apply disk_quiet_capture|done].
Qed.
Lemma quiet_move_gates e src dst ab : quiet (move_gates e src dst ab).
Proof.
  unfold move_gates. repeat (apply quiet_bind; [auto using quiet_preflight, quiet_post, quiet_target|intros ?]).
  auto with py.
Qed.
End parts.

(** ** [fs.move] *)

Section move.
Context `{Unicode, Os, StoreIo}.
#[local] Hint Resolve quiet_move_gates quiet_get_store quiet_roots quiet_disk_quiet disk_quiet_src
  disk_quiet_dst : py.

Definition proposal_of (params : dict) : pystr := str_get "proposal_id" "direct" params.
Definition actor_of (params : dict) : pystr := str_get "actor" "agent" params.
(** What the store holds when the file is about to be moved: the bytes of the
    destination, if it is there, and those of the source have been captured. *)
Definition move_captured (e : env) (params : dict) (there : bool) (d : disk) (roots : list path)
    (b : list N) (st st' : Store) : Prop :=
  ∃ st1 v,
    (if there then ∃ prior w, read_bytes_safe d (str_get "dst" [] params) roots true = Ok prior ∧
       capture (utc_now e) (str_get "dst" [] params) prior ("pre-move-" ++ proposal_of params) "move-dst"
         (actor_of params) st = (Ret w, st1)
     else st1 = st) ∧
    capture (utc_now e) (str_get "src" [] params) b (proposal_of params) "move-src" (actor_of params) st1
      = (Ret v, st').

(** Nothing moves, or, past the gates and the captures, the file does and its
    history is carried over. *)
Lemma fs_move_inv e params s o s' :
  let src := str_get "src" [] params in
  let dst := str_get "dst" [] params in
  handle_fs_move e params s = (o, s') →
  (h_disk s' = h_disk s ∧ ∀ j, o ≠ Go j) ∨
  ∃ q r roots b st,
    resolves e (h_disk s) src q ∧ resolves e (h_disk s) dst r ∧ q ≠ r ∧
    (_is_protected (path_str q) = true ∨ _is_protected (path_str r) = true ∨
     _is_protected src = true ∨ _is_protected dst = true → granted e "fs.move" (h_check s)) ∧
    allowed_roots_for_env e (h_disk s) = Ret roots ∧
    read_bytes_safe (h_disk s) src roots false = Ok b ∧
    move_captured e params (path_exists e (h_disk s) r) (h_disk s) roots b (h_store s) st ∧
    ∃ res, replace_safe (h_disk s) src dst roots = (res, h_disk s') ∧
      ((∀ j, o ≠ Go j) ∧ res ≠ Ok tt ∨
       res = Ok tt ∧ h_store s' = (rename_history src dst st).2 ∧ (∀ j, o ≠ Answer j) ∧
       ∀ x, o = Throw x → (rename_history src dst st).1 = Raise x).
Proof.
  intros src dst. unfold handle_fs_move. fold src dst. intros Hh.
  dstep Hh u1 s1 Hm Hs1. apply strict_inv in Hm as ->. clear Hs1.
  dstep Hh u2 s2 Hm Hs2. apply require_inv in Hm as [-> _]. clear Hs2.
  dstep Hh u3 s3 Hm Hs3. apply require_inv in Hm as [-> _]. clear Hs3.
  dstep Hh qr s4 Hm Hs4. destruct qr as [q r].
  apply move_gates_inv in Hm as ([_ Hst4] & Hq & Hr & Hgr).
  dstep Hh there s5 Hm Hs5. unfold disk_read in Hm. injection Hm as _ <-. clear Hs5.
  dstep Hh u6 s6 Hm Hs6. apply require_inv in Hm as [-> _]. clear Hs6.
  dstep Hh u7 s7 Hm Hs7. apply require_inv in Hm as [-> Hqr]. clear Hs7.
  bprop.
  dstep Hh u8 s8 Hm Hs8. pose proof (quiet_get_store e s4) as [_ Hst8]. rewrite Hm in Hst8. clear Hm.
  dstep Hh roots s9 Hm Hs9. pose proof (roots_inv _ _ _ _ Hm) as Hroots.
  pose proof (quiet_roots e s8) as [_ Hst9]. rewrite Hm in Hst9. clear Hm.
  dstep Hh u10 s10 Hm Hs10. apply capture_dst_inv in Hm as [_ Hdst].
  dstep Hh b s11 Hm Hs11. apply capture_src_inv in Hm as (_ & Hread & v & Hsrc).
  cbn [snd] in *. right. exists q, r, roots, b, (h_store s11).
  assert (E9 : h_disk s9 = h_disk s) by congruence. assert (E11 : h_disk s11 = h_disk s) by congruence.
  assert (E10 : h_disk s10 = h_disk s) by congruence. assert (E8 : h_disk s8 = h_disk s) by congruence.
  rewrite E9 in Hdst. rewrite E10 in Hread. rewrite E8 in Hroots.
  assert (Es : h_store s9 = h_store s) by congruence. rewrite Es in Hdst.
  split_and!; try done.
  { exists (h_store s10), v. done. }
  apply mbind_inv in Hh as [(u12 & s12 & Hmv & Hh)|Hh].
  - destruct u12. apply move_file_inv in Hmv as (Hst12 & res & Hres & Ho). rewrite E11 in Hres.
    rewrite (proj1 Ho eq_refl) in Hres.
    assert (Hc : ∃ o2, carry_history src dst s12 = (o2, s') ∧ (∀ j, o = Answer j → o2 = Answer j) ∧
                       ∀ x, o = Throw x → o2 = Throw x).
    { apply mbind_inv in Hh as [(m & s13 & Hc & [= <- <-])|[(j & Hc & ->)|(x & Hc & ->)]];
        eexists; (split; [exact Hc|]); naive_solver. }
    destruct Hc as (o2 & Hc & Ha & Hx). apply history_inv in Hc as (Hd & Hst & Hna & Hthrow).
    rewrite Hst12 in Hst, Hthrow. exists (Ok tt). rewrite Hd. split; [done|]. right.
    split_and!; [done..| |]; [intros j Hj; by apply (Hna j), Ha|intros x Hxx; by apply Hthrow, Hx].
  - assert (Hf : ∃ o2, move_file src dst roots s11 = (o2, s') ∧ o2 ≠ Go tt ∧ ∀ j, o ≠ Go j).
    { destruct Hh as [(j & Hc & ->)|(x & Hc & ->)]; eexists; (split; [exact Hc|]); naive_solver. }
    destruct Hf as (o2 & Hf & Hn & Hgo). apply move_file_inv in Hf as (_ & res & Hres & Ho).
    rewrite E11 in Hres. exists res. split; [done|]. left. split; [done|]. intros Hok. by apply Hn, Ho.
Qed.

(** A destination that is not a link is what its path resolves to. *)
Lemma destination_resolved e d dst r dir n :
  parts (path_of dst) = dir ++ [n] → ".."%py ∉ dir ++ [n] → link_free (links_of d) dir →
  (∀ l, node_at d (dir ++ [n]) ≠ Some (Link l)) → resolves e d dst r →
  r = abs_path (dir ++ [n]) ∧ clean (dir ++ [n]) ∧ link_free (links_of d) (dir ++ [n]).
Proof.
  intros Ht Hdd Hl Hn (rs & _ & (Hs & Hr & _)%resolve_safe_Ret).
  assert (Hlf : link_free (links_of d) (dir ++ [n])).
  { apply link_free_snoc; [done|]. apply links_of_none; [by destruct dir|]. intros [| |l] Hx; try done.
    by destruct (Hn l). }
  assert (Hra : r = abs_path (parts (path_of dst))) by (eapply resolve_plain; rewrite ?Ht; done).
  rewrite Ht in Hra. split_and!; [done| |done].
  destruct (resolve_Ret _ _ _ _ Hs Hr) as (w & _ & Hw & _ & Hc & _). rewrite Hra in Hw. by injection Hw as ->.
Qed.

(** What is captured of the destination is the file that is there. *)
Lemma captured_at e params d roots b r st st' dir n :
  disk_wf d → Forall (good_root d) roots →
  let dst := str_get "dst" [] params in
  parts (path_of dst) = dir ++ [n] → ".."%py ∉ dir ++ [n] → link_free (links_of d) dir →
  node_at d dir = Some Dir → resolves e d dst r → node_at d (dir ++ [n]) ≠ Some Dir →
  move_captured e params (path_exists e d r) d roots b st st' →
  ∃ st1 v,
    match node_at d (dir ++ [n]) with
    | Some (File prior) =>
        ∃ w, capture (utc_now e) dst prior ("pre-move-" ++ proposal_of params) "move-dst"
               (actor_of params) st = (Ret w, st1)
    | _ => st1 = st
    end ∧
    capture (utc_now e) (str_get "src" [] params) b (proposal_of params) "move-src" (actor_of params) st1
      = (Ret v, st').
Proof.
  intros Hw Hg dst Ht Hdd Hl Hdir Hr Hnd (st1 & v & Hfirst & Hsrc). exists st1, v. split; [|done].
  assert (Hdr := destination_resolved e d dst r dir n Ht Hdd Hl).
  destruct (node_at d (dir ++ [n])) as [[prior| |l]|] eqn:En.
  - destruct Hdr as (-> & Hc & Hlf); [done..|]. rewrite path_exists_plain in Hfirst by eauto.
    destruct Hfirst as (prior' & w & Hread & Hcap). fold dst in Hread, Hcap.
    apply read_missing_ok in Hread as [(fd & Ho & Hat)|(nm & Ho & _)].
    + apply open_safe_fd_opened, opened_plain in Ho as (-> & _); [|done]. rewrite Ht, En in Hat.
      injection Hat as ->. eauto.
    + by destruct (absent_target _ _ _ _ (File prior) Hw Hg Ho); rewrite Ht.
  - by destruct Hnd.
  - destruct (path_exists e d r); [|done]. destruct Hfirst as (prior' & w & Hread & _). exfalso.
    fold dst in Hread. apply read_missing_ok in Hread as [(fd & Ho & Hat)|(nm & Ho & _)].
    + apply open_safe_fd_opened, opened_plain in Ho as (-> & _); [|done]. rewrite Ht, En in Hat. done.
    + by destruct (absent_target _ _ _ _ (Link l) Hw Hg Ho); rewrite Ht.
  - destruct Hdr as (-> & Hc & Hlf); [done..|]. destruct (path_exists _ _ _) eqn:Ep; [|done]. exfalso.
    unfold path_exists, follow in Ep. rewrite bool_decide_eq_false_2 in Ep by done. cbn [parts abs_path] in Ep.
    destruct (namei _ d [] _) as [x|loc] eqn:Ei; [done|]. apply namei_plain in Ei; [|done..]. subst loc.
    apply bool_decide_eq_true in Ep as [x Hx]. simpl in Hx. congruence.
Qed.

(** C26. What [fs.move] does.  It moves nothing, or the file at the source, and only
    it, is at the destination afterwards, whose directory was there; then what
    was at the destination and the source have been captured, in this order, and
    the history of the source has been carried over to the destination.  A move
    that has been made is never answered with an error, and ends in an exception
    only when carrying over the history raised it.  A protected location changes
    only with approval, unless it is a symbolic link at the destination. *)
Theorem move_outcome e params used d st o s' :
  disk_wf d → sound_roots e d →
  handle_fs_move e params (Hst d st (fresh_checker params used)) = (o, s') →
  let src := str_get "src" [] params in
  let dst := str_get "dst" [] params in
  let s := parts (path_of src) in
  let t := parts (path_of dst) in
  (h_disk s' = d ∧ ∀ j, o ≠ Go j) ∨
  ∃ b st1 st2 v,
    node_at d s = Some (File b) ∧ s ≠ t ∧ node_at d t ≠ Some Dir ∧
    h_disk s' = <[t := File b]> (delete s d) ∧ disk_wf (h_disk s') ∧
    match node_at d t with
    | Some (File prior) =>
        ∃ w, capture (utc_now e) dst prior ("pre-move-" ++ proposal_of params) "move-dst"
               (actor_of params) st = (Ret w, st1)
    | _ => st1 = st
    end ∧
    capture (utc_now e) src b (proposal_of params) "move-src" (actor_of params) st1 = (Ret v, st2) ∧
    h_store s' = (rename_history src dst st2).2 ∧
    (∀ j, o ≠ Answer j) ∧ (∀ x, o = Throw x → (rename_history src dst st2).1 = Raise x) ∧
    ∀ loc, h_disk s' !! loc ≠ d !! loc → protected loc →
      (consume_approval_marker (current_caller e) (time_now e) "fs.move" [] params used).1.1 = None ∨
      (loc = t ∧ ∃ l, d !! t = Some (Link l)).
Proof.
  intros Hw Hsr Hrun src dst s t.
  apply fs_move_inv in Hrun as [?|(q & r & roots & b & st2 & Hq & Hr & Hqr & Hgr & Hroots & Hread & Hcap & res & Hres & Ho)];
    [by left|].
  cbn [h_disk h_store h_check] in *. fold src dst in Hq, Hr, Hgr, Hread, Hres, Ho.
  pose proof (Hsr _ Hroots) as Hg.
  apply read_opened in Hread as (fd & Hfd & Hb).
  destruct Hq as (rs & Hrs & Hq). assert (rs = roots) as -> by congruence.
  destruct (read_resolved _ _ _ _ _ _ Hg Hq Hfd) as (-> & -> & Hc & Hls). fold s in Hb, Hc, Hls, Hfd, Hqr, Hgr.
  pose proof (replace_safe_spec d src dst roots res (h_disk s') b Hw Hg Hb Hres) as [Hok Hko]. fold s t in Hok.
  destruct Ho as [[Hn Hne]|(-> & Hst & Hans & Hthrow)]; [by left; split; [apply Hko|]|right].
  destruct (Hok eq_refl) as (Hd & Hnd & Hw' & dir & n & Ht & Hdd & Hl & Hdir).
  rewrite Ht in Hdd. pose proof Hnd as Hnd'. rewrite Ht in Hnd'.
  destruct (captured_at e params d roots b r st st2 dir n Hw Hg) as (st1 & v & Hc1 & Hc2); try done.
  rewrite <- Ht in Hc1.
  pose proof (destination_resolved e d dst r dir n Ht Hdd Hl) as Hdr. rewrite <- Ht in Hdr.
  assert (Hnt : node_at d t = d !! t) by (rewrite Ht; by destruct dir).
  exists b, st1, st2, v. split_and!; try done.
  - intros Est. destruct Hdr as (-> & _); [intros l; rewrite <- Est; congruence|done|]. by rewrite Est in Hqr.
  - intros loc Hne Hp. rewrite Hd in Hne.
    assert (Hgo : granted e "fs.move" (fresh_checker params used) →
              (consume_approval_marker (current_caller e) (time_now e) "fs.move" [] params used).1.1 = None).
    { unfold granted, checker_call. simpl. by destruct (consume_approval_marker _ _ _ _ _ _) as [[r' ps] u]. }
    destruct (decide (loc = t)) as [->|Hlt].
    + destruct (d !! t) as [[|  |l]|] eqn:Et; [..|by right; eauto|]; left; apply Hgo, Hgr; right; left;
        (destruct Hdr as (-> & Hct & _); [intros l; congruence|done|by apply is_protected_spec]).
    + rewrite lookup_insert_ne in Hne by done. destruct (decide (loc = s)) as [->|Hls']; [|by rewrite lookup_delete_ne in Hne].
      left. apply Hgo, Hgr. left. by apply is_protected_spec.
Qed.
End move.

(** ** [fs.delete] *)

Section delete.
Context `{Unicode, Os, StoreIo, Trash}.

Lemma shutil_move_spec d src dst b r d' :
  d !! src = Some (File b) → src ≠ dst → src ≠ [] → dst ≠ [] → shutil_move d src dst = (r, d') →
  (r = Ok tt ∧ d' !! src = None ∧ d' !! dst = Some (File b) ∧ keeps [src; dst] d d') ∨
  (r ≠ Ok tt ∧ keeps [] d d').
Proof.
  intros Hs Hne Hsn Hdn. unfold shutil_move.
  assert (Hat : ∀ x l, l ≠ [] → node_at x l = x !! l) by (by intros x []).
  assert (Hmoved : ∀ d1, d1 = <[dst := File b]> (delete src d) →
            d1 !! src = None ∧ d1 !! dst = Some (File b) ∧ keeps [src; dst] d d1).
  { intros d1 ->. split_and!; [by rewrite lookup_insert_ne, lookup_delete_eq|by rewrite lookup_insert_eq|].
    intros l x Hl Hx. rewrite lookup_insert_ne, lookup_delete_ne by set_solver. done. }
  destruct (sys (SysReplace _ _) _ _) as [d1|x] eqn:Er.
  - intros [= <- <-]. left. split; [done|]. apply Hmoved. apply sys_Ok in Er. unfold sys_rename in Er.
    rewrite !Hat, Hs in Er by done. by destruct (d !! dst) as [[]|]; simplify_eq.
  - rewrite Hat, Hs by done.
    destruct (sys (SysCreate dst) _ _) as [d1|y] eqn:Ec; [|intros [= <- <-]; right; split; [done|apply keeps_refl]].
    apply sys_Ok in Ec. unfold sys_create in Ec. rewrite Hat in Ec by done.
    destruct (d !! dst) eqn:Ed; [done|]. injection Ec as <-. rewrite insert_insert_eq.
    destruct (sys (SysUnlink src) _ _) as [d3|y] eqn:Eu; intros [= <- <-].
    + left. split; [done|]. apply Hmoved. apply sys_Ok in Eu. unfold sys_unlink in Eu.
      rewrite Hat, lookup_insert_ne, Hs in Eu by done. injection Eu as <-. by rewrite delete_insert_ne.
    + right. split; [done|]. intros l z _ Hz. rewrite lookup_insert_ne; [done|]. by intros <-; rewrite Ed in Hz.
Qed.

Definition is_ok {A} (r : out A) : Prop := ∃ a, r = Ok a.
(** Where the file went. *)
Definition trashed (e : env) (q : path) (loc : list pystr) : Prop :=
  ∃ dir slug, _path_slug e (path_str q) = Ret slug ∧
    loc = dir ++ [path_name q ++ "." ++ slug ++ "." ++ trash_stamp e].
Lemma trash_file_spec e t b d r d' :
  send2trash = None → t ≠ [] → d !! t = Some (File b) → _trash_file e (abs_path t) d = (r, d') →
  (is_ok r ∧ ∃ loc, trashed e (abs_path t) loc ∧ loc ≠ t ∧ d' !! t = None ∧ d' !! loc = Some (File b) ∧
     keeps [t; loc] d d') ∨
  (¬ is_ok r ∧ keeps [] d d').
Proof.
  intros Hno Ht Hb. unfold _trash_file. rewrite Hno. cbv zeta.
  destruct (mkdirs _ _ _) as [[loc|x] d1] eqn:Em; apply mkdirs_keeps in Em;
    [|intros [= <- <-]; right; split; [by intros []|done]].
  destruct (_path_slug _ _) as [slug|x] eqn:Es; [|intros [= <- <-]; right; by split; [intros []|]].
  set (name := path_name (abs_path t) ++ _).
  assert (Hne : t ≠ loc ++ [name]).
  { intros E. pose proof (f_equal (λ l, length (default [] (last l))) E) as El. cbv beta in El.
    rewrite last_snoc in El. unfold name, path_name, abs_path in El. cbn [parts from_option] in El; unfold id in El.
    rewrite !length_app in El. simpl in El. lia. }
  destruct (shutil_move _ _ _) as [r2 d2] eqn:Emv. cbn [parts abs_path] in Emv.
  apply (shutil_move_spec _ _ _ b) in Emv; [|by apply Em; [set_solver|]|done|done|by destruct loc].
  destruct Emv as [(-> & Hsrc & Hdst & Hk)|[Hr Hk]].
  - intros [= <- <-]. left. split; [by eexists|]. exists (loc ++ [name]). split_and!; try done.
    + by exists loc, slug.
    + eapply keeps_trans; [by apply keeps_weaken|done].
  - destruct r2 as [[]|x]; [done|]. intros [= <- <-]. right. split; [by intros []|by eapply keeps_trans].
Qed.

#[local] Hint Resolve quiet_preflight quiet_post quiet_target quiet_get_store quiet_roots quiet_read_file
  disk_quiet_capture : py.

Lemma trash_step e q o s s' :
  trash_file e q s = (o, s') →
  h_store s' = h_store s ∧
  ∃ r, _trash_file e q (h_disk s) = (r, h_disk s') ∧ ((∃ a, o = Go a) ↔ is_ok r).
Proof.
  unfold trash_file, mbind_, disk_step. destruct (_trash_file e q (h_disk s)) as [r d'].
  assert (Hko : ∀ x, (∃ a : pystr, Throw x = Go a) ↔ False) by (split; [by intros [? [=]]|done]).
  assert (Hka : ∀ j, (∃ a : pystr, Answer j = Go a) ↔ False) by (split; [by intros [? [=]]|done]).
  assert (Hke : ∀ x, is_ok (Err (A := pystr) x) ↔ False) by (split; [by intros [? [=]]|done]).
  destruct r as [a|[]]; intros [= <- <-]; (split; [done|]); eexists; (split; [done|]);
    rewrite ?Hko, ?Hka, ?Hke; try done. by split; eexists.
Qed.

(** Nothing is deleted, or, past the gates and the capture, the file is trashed. *)
Lemma fs_delete_inv e params s o s' :
  let p := param_path params in
  handle_fs_delete e params s = (o, s') →
  (h_disk s' = h_disk s ∧ ∀ j, o ≠ Go j) ∨
  ∃ q roots b v r,
    resolves e (h_disk s) p q ∧
    (_is_protected (path_str q) = true ∨ _is_protected p = true ∨ flag "agent_bridge" params = true →
     granted e "fs.delete" (h_check s)) ∧
    allowed_roots_for_env e (h_disk s) = Ret roots ∧
    read_bytes_safe (h_disk s) p roots false = Ok b ∧
    capture (utc_now e) p b (proposal_of params) "delete" (actor_of params) (h_store s) = (Ret v, h_store s') ∧
    _trash_file e q (h_disk s) = (r, h_disk s') ∧ ((∃ j, o = Go j) ↔ is_ok r).
Proof.
  intros p. unfold handle_fs_delete, _post_resolution_check. fold (param_path params). fold p. intros Hh.
  dstep Hh u1 s1 Hm Hs1. apply strict_inv in Hm as ->. clear Hs1.
  dstep Hh u2 s2 Hm Hs2. apply require_inv in Hm as [-> _]. clear Hs2.
  dstep Hh u3 s3 Hm Hs3. apply preflight_inv in Hm as ([_ Hst3] & Hn3 & Hb3).
  dstep Hh q s4 Hm Hs4. apply target_inv in Hm as (-> & Hq). clear Hs4.
  dstep Hh u5 s5 Hm Hs5. destruct u5. apply gate_inv in Hm as ([_ Hst5] & Hn5 & _).
  dstep Hh there s6 Hm Hs6. unfold disk_read in Hm. injection Hm as _ <-. clear Hs6.
  dstep Hh u7 s7 Hm Hs7. apply require_inv in Hm as [-> _]. clear Hs7.
  dstep Hh roots s8 Hm Hs8. pose proof (roots_inv _ _ _ _ Hm) as Hroots.
  pose proof (quiet_roots e s5) as [_ Hst8]. rewrite Hm in Hst8. clear Hm.
  dstep Hh b s9 Hm Hs9. apply read_file_inv in Hm as [-> Hread]. clear Hs9.
  dstep Hh u10 s10 Hm Hs10. pose proof (quiet_get_store e s8) as [_ Hst10]. rewrite Hm in Hst10. clear Hm.
  dstep Hh v s11 Hm Hs11. apply capture_or_inv in Hm as (_ & _ & r & Hcap & Hv).
  rewrite (Hv v eq_refl) in Hcap. clear Hv r. cbn [snd] in *.
  assert (E3 : h_disk s3 = h_disk s) by done. assert (E5 : h_disk s5 = h_disk s) by congruence.
  assert (E8 : h_disk s8 = h_disk s) by congruence. assert (E11 : h_disk s11 = h_disk s) by congruence.
  assert (Es : h_store s10 = h_store s) by congruence.
  rewrite E3 in Hq. rewrite E5 in Hroots. rewrite E8 in Hread. rewrite Es in Hcap.
  right. exists q, roots, b, v.
  assert (Ht : ∃ o2, trash_file e q s11 = (o2, s') ∧ ((∃ j, o = Go j) ↔ ∃ a, o2 = Go a)).
  { apply mbind_inv in Hh as [(a & s12 & Ht & [= <- <-])|[(j & Ht & ->)|(x & Ht & ->)]];
      eexists; (split; [exact Ht|]); naive_solver. }
  destruct Ht as (o2 & Ht & Ho). apply trash_step in Ht as (Hst & r & Hr & Ho2).
  rewrite E11 in Hr. exists r. split_and!; try done; [|by rewrite Hst|by rewrite Ho].
  intros [Hp|Hp]; [by apply Hb3, Hn5|by apply Hn3].
Qed.

(** What [fs.delete] does, with the node's own trash.  When it does not succeed
    every file is still there and unchanged.  When it does, the bytes of the file
    were captured first, the file is gone, its bytes are in the trash under a
    name made of its own and of its path, and no other file is affected; a
    protected file has been deleted only with approval. *)
Theorem delete_outcome e params used d st o s' :
  disk_wf d → sound_roots e d → send2trash = None →
  handle_fs_delete e params (Hst d st (fresh_checker params used)) = (o, s') →
  let p := param_path params in
  let t := parts (path_of p) in
  (keeps [] d (h_disk s') ∧ ∀ j, o ≠ Go j) ∨
  ∃ b v loc, (∃ j, o = Go j) ∧
    d !! t = Some (File b) ∧
    capture (utc_now e) p b (proposal_of params) "delete" (actor_of params) st = (Ret v, h_store s') ∧
    h_disk s' !! t = None ∧ trashed e (abs_path t) loc ∧ h_disk s' !! loc = Some (File b) ∧
    keeps [t; loc] d (h_disk s') ∧
    (protected t →
     (consume_approval_marker (current_caller e) (time_now e) "fs.delete" [] params used).1.1 = None).
Proof.
  intros Hw Hsr Hno Hrun p t.
  apply fs_delete_inv in Hrun as [[Hd Ho]|(q & roots & b & v & r & Hq & Hgr & Hroots & Hread & Hcap & Htr & Ho)].
  { left. simpl in Hd. rewrite Hd. split; [apply keeps_refl|done]. }
  cbn [h_disk h_store h_check] in *. fold p in Hq, Hgr, Hread, Hcap.
  pose proof (Hsr _ Hroots) as Hg.
  apply read_opened in Hread as (fd & Hfd & Hb).
  destruct Hq as (rs & Hrs & Hq). assert (rs = roots) as -> by congruence.
  destruct (read_resolved _ _ _ _ _ _ Hg Hq Hfd) as (-> & -> & Hc & Hls). fold t in Hb, Hc, Hls, Hfd, Hgr, Htr.
  assert (Htn : t ≠ []) by (by intros E; rewrite E in Hb).
  assert (Hb' : d !! t = Some (File b)) by (by destruct t).
  apply (trash_file_spec e t b) in Htr as [[Hok (loc & Htd & Hne & Hgone & Hloc & Hk)]|[Hko Hk]]; try done.
  - right. exists b, v, loc. split_and!; try done; [by apply Ho|]. intros Hp.
    specialize (Hgr (or_introl (is_protected_spec t Hc Hp))). unfold granted, checker_call in Hgr. simpl in Hgr.
    by destruct (consume_approval_marker _ _ _ _ _ _) as [[r' ps] u].
  - left. split; [done|]. intros j ->. by apply Hko, Ho; eexists.
Qed.
End delete.

(** ** Examples *)

#[local] Instance all_printable : Unicode := {| uni_printable := λ _, true; uni_decimal := λ _, None |}.
#[local] Instance no_fault : Os :=
  {| os_fault := λ _, None; os_openat2 := true; os_partial := 0; os_fd := 7 |}.
#[local] Instance no_store_fault : StoreIo := {| io_fault := λ _, None |}.
#[local] Instance own_trash : Trash := {| send2trash := None |}.

Definition approved_move : dict :=
  let ps := [("src"%py, JStr "/config/a.yaml"); ("dst"%py, JStr "/share/b")] in
  ps ++ [(APPROVAL_PARAM, marker_of "fs.move" ps "m1" 20)].
Definition moved_disk : disk := <[["share"%py; "b"%py] := File [97%N]]> (delete demo_loc demo_disk).
Example move_outcome_witness :
  h_disk (handle_fs_move addon_env approved_move (demo_world approved_move)).2 = moved_disk ∧
  (consume_approval_marker None 10 "fs.move" [] approved_move []).1.1 = None.
Proof.
  destruct (handle_fs_move addon_env approved_move (demo_world approved_move)) as [o s'] eqn:E.
  assert (Hb : bool_decide (h_disk (handle_fs_move addon_env approved_move
                 (demo_world approved_move)).2 = moved_disk) = true) by (vm_compute; reflexivity).
  rewrite E in Hb. apply bool_decide_eq_true in Hb. cbn [snd] in Hb.
  assert (Hd : bool_decide (moved_disk !! demo_loc = demo_disk !! demo_loc) = false)
    by (vm_compute; reflexivity).
  apply bool_decide_eq_false in Hd. split; [exact Hb|].
  destruct (move_outcome addon_env approved_move [] demo_disk empty_store o s' demo_disk_wf demo_sound E)
    as [[Hsame _]|(b & st1 & st2 & v & _ & _ & _ & _ & _ & _ & _ & _ & _ & _ & Hloc)].
  - exfalso. rewrite <- Hb, Hsame in Hd. by apply Hd.
  - destruct (Hloc demo_loc) as [Hgo|[Ht _]]; [by rewrite Hb|by left|exact Hgo|].
    exfalso. vm_compute in Ht. discriminate Ht.
Defined.

Definition approved_delete : dict :=
  let ps := [("path"%py, JStr "/config/a.yaml")] in
  ps ++ [(APPROVAL_PARAM, marker_of "fs.delete" ps "m1" 20)].
Example delete_outcome_witness :
  h_disk (handle_fs_delete addon_env approved_delete (demo_world approved_delete)).2 !! demo_loc = None ∧
  (consume_approval_marker None 10 "fs.delete" [] approved_delete []).1.1 = None.
Proof.
  destruct (handle_fs_delete addon_env approved_delete (demo_world approved_delete)) as [o s'] eqn:E.
  assert (Hb : bool_decide (h_disk (handle_fs_delete addon_env approved_delete
                 (demo_world approved_delete)).2 !! demo_loc = None) = true) by (vm_compute; reflexivity).
  rewrite E in Hb. apply bool_decide_eq_true in Hb. cbn [snd] in Hb. split; [exact Hb|].
  destruct (delete_outcome addon_env approved_delete [] demo_disk empty_store o s' demo_disk_wf
              demo_sound (eq_refl : @send2trash own_trash = None) E)
    as [[Hk _]|(b & v & loc & _ & _ & _ & _ & _ & _ & _ & Hgo)].
  - exfalso. assert (Hat : demo_disk !! demo_loc = Some (File [97%N])) by (vm_compute; reflexivity).
    assert (Hn : demo_loc ∉ []) by apply not_elem_of_nil.
    rewrite (Hk demo_loc _ Hn Hat) in Hb. discriminate Hb.
  - apply Hgo. by left.
Defined.

(** A link in a protected directory that leads to a free name elsewhere, spelled
    so that it does not look protected, is replaced without any approval. *)
Definition linked_disk : disk :=
  <[["config"%py; "l"%py] := Link "/share/none"]> (<[["share"%py; "n"%py] := File [104%N]]> demo_disk).
Definition unapproved_move : dict := [("src"%py, JStr "/share/n"); ("dst"%py, JStr "/./config/l")].
Theorem move_replaces_protected_link :
  let s' := (handle_fs_move addon_env unapproved_move
               (Hst linked_disk empty_store (fresh_checker unapproved_move []))).2 in
  h_disk s' !! ["config"%py; "l"%py] = Some (File [104%N]) ∧
  (consume_approval_marker None 10 "fs.move" [] unapproved_move []).1.1 ≠ None.
Proof. split; [by vm_compute|]. by vm_compute. Qed.
