(* ===== verification/FsRead.v ===== *)
(** The read-only file commands ([commands/fs.py]): [fs.read], [fs.list],
    [fs.stat] and [fs.glob].

    What a call tells of a file beyond its bytes (times, owner, mode, the size of
    a directory), the order in which a directory is listed, how much one [pread]
    returns, and the text encodings other than UTF-8 are the surroundings'. *)

From stdpp Require Import base list gmap sorting.
From Stdlib Require Import NArith ZArith Lia.
From S2P Require Import Prelude PyStr PyFloat Json JsonParse Base64 Sha256 Fnmatch Authz Policy.
From S2P Require Import Mutation Params SafePath SafeFd BackupStore Handler Trash FsWrite Printing FsMoveDelete.

Definition _DEFAULT_READ_MAX_BYTES : Z := 1 * 1024 * 1024.
Definition _HARD_READ_MAX_BYTES : Z := 16 * 1024 * 1024.
Definition _DEFAULT_LIST_MAX_ENTRIES : Z := 1000.
Definition _HARD_LIST_MAX_ENTRIES : Z := 5000.
Definition _DEFAULT_GLOB_MAX_MATCHES : Z := 1000.
Definition _HARD_GLOB_MAX_MATCHES : Z := 5000.

Definition _clamp (value default hard_cap : Z) : Z :=
  if (value <=? 0)%Z then default else Z.min value hard_cap.

(** A directory is listed in an order of its own. *)
Class Listing := {
  scan_order : list pystr → list pystr → list pystr;
  scan_order_perm loc names : Permutation (scan_order loc names) names }.
(** One [pread] at a position returns at most so many bytes, and at least one
    before the end of the file. *)
Class Pread := { pread_limit : list pystr → N → N }.
Class FileMeta := {
  dir_size : list pystr → Z;
  st_mtime : list pystr → pyfloat;
  st_ctime : list pystr → pyfloat;
  st_mode : list pystr → Z;
  st_uid : list pystr → Z;
  st_gid : list pystr → Z }.
(** [bytes.decode] for another encoding, and the text of a [UnicodeDecodeError]
    of UTF-8. *)
Class Codecs := {
  codec_decode : pystr → list N → res pystr;
  utf8_failure : list N → pystr }.

Section handlers.
Context `{Unicode, Os, Listing, Pread, FileMeta, Codecs}.

(** ** Opening *)

Definition _open (e : env) (p : pystr) (dir_fd_only : bool) : M (out (list pystr)) :=
  let% d := disk_read id in
  let% roots := lift (allowed_roots_for_env e d) in
  mgo (open_safe_fd d p roots dir_fd_only).
(** The answers to the errors of [_open]; [not_dir] where [NotADirectoryError]
    is caught. *)
Definition opened_or (r : out (list pystr)) (bounds not_found : json) (not_dir : option json)
    : M (list pystr) :=
  match r with
  | Ok fd => mgo fd
  | Err NoRoots => answer (error_dict "NO_ALLOWED_ROOTS" (exn_msg NoAllowedRootsError))
  | Err Bounds => answer bounds
  | Err (OsError ENOENT _) => answer not_found
  | Err (OsError ENOTDIR names) =>
      match not_dir with Some j => answer j | None => throw (uncaught (OsError ENOTDIR names)) end
  | Err x => throw (uncaught x)
  end.
Definition outside (key p : pystr) : json :=
  error_with "OUT_OF_BOUNDS" "Path is outside the allowed roots" [(key, JStr p)].
(** [params.get(key)], which must be a non-empty string. *)
Definition text_param (key : pystr) (err : json) (params : dict) : M pystr :=
  match dget key params with
  | Some (JStr (c :: s)) => mgo (c :: s)
  | _ => answer err
  end.
Definition path_required : json := error_dict "PATH_REQUIRED" "Missing required 'path' parameter".

Definition _kind (n : node) : pystr :=
  match n with Link _ => "symlink" | Dir => "dir" | File _ => "file" end.
Definition st_size (loc : list pystr) (n : node) : Z :=
  match n with
  | File b => Z.of_nat (length b)
  | Link t => Z.of_nat (length (default [] (utf8 t)))
  | Dir => dir_size loc
  end.
(** [stat] of a location, links not followed. *)
Definition stat (d : disk) (loc : list pystr) (names : os_names) : out node :=
  sys (SysStat loc) names (match node_at d loc with Some n => inr n | None => inl ENOENT end).
Definition lift_os {A} (r : out A) : M A :=
  match r with Ok a => mgo a | Err x => throw (uncaught x) end.
Definition stat_or_throw (loc : list pystr) : M node :=
  let% r := disk_read (λ d, stat d loc NoName) in lift_os r.

(** ** [fs.read] *)

(** The integer a parameter is, and not a boolean. *)
Definition plain_int (j : json) : option Z := match j with JInt z => Some z | _ => None end.
(** An integer, where a boolean counts as one. *)
Definition int_param (key : pystr) (params : dict) : option Z :=
  match dget key params with
  | Some (JInt z) => Some z
  | Some (JBool b) => Some (if b then 1 else 0)%Z
  | _ => None
  end.

Definition takeN {A} (n : N) (l : list A) : list A := take (N.to_nat (N.min n (N.of_nat (length l)))) l.
Definition dropN {A} (n : N) (l : list A) : list A := drop (N.to_nat (N.min n (N.of_nat (length l)))) l.
Definition pread (fd : list pystr) (data : list N) (n pos : N) : list N :=
  takeN (N.min n (N.max 1 (pread_limit fd pos))) (dropN pos data).
Fixpoint read_loop (fuel : nat) (fd : list pystr) (data : list N) (remaining pos : N) : list N :=
  match fuel with
  | O => []
  | S fuel =>
      if (remaining =? 0)%N then []
      else match pread fd data remaining pos with
           | [] => []
           | chunk =>
               let n := N.of_nat (length chunk) in
               chunk ++ read_loop fuel fd data (remaining - n) (pos + n)
           end
  end.
(** Every turn reads at least one byte of the file. *)
Definition _read_range (fd : list pystr) (data : list N) (offset cap : N) (probe_overflow : bool)
    : list N :=
  read_loop (S (length data)) fd data (cap + (if probe_overflow then 1 else 0)) offset.

Definition _READ_KEYS : gset pystr := list_to_set ["path"; "encoding"; "max_bytes"; "offset"; "length"].

Definition bad_offset (raw_path : pystr) (extra : dict) : json :=
  error_with "BAD_OFFSET" "'offset' must be a non-negative integer" ([("path"%py, JStr raw_path)] ++ extra).
Definition read_offset (raw_path : pystr) (params : dict) : M Z :=
  match plain_int (default (JInt 0) (dget "offset" params)) with
  | None => answer (bad_offset raw_path [])
  | Some offset =>
      if (offset <? 0)%Z then answer (bad_offset raw_path [("offset"%py, JInt offset)]) else mgo offset
  end.
Definition read_length (raw_path : pystr) (max_bytes : Z) (params : dict) : M (option Z) :=
  match dget "length" params with
  | None => mgo None
  | Some raw =>
      match plain_int raw with
      | Some n =>
          if (n <=? 0)%Z then
            answer (error_with "BAD_LENGTH" "'length' must be a positive integer when supplied"
                      [("path"%py, JStr raw_path)])
          else if (max_bytes <? n)%Z then
            answer (error_with "TOO_LARGE"
                      ("Requested length " ++ str_of_Z n ++ " exceeds max_bytes " ++ str_of_Z max_bytes)
                      [("path"%py, JStr raw_path); ("length"%py, JInt n);
                       ("max_bytes"%py, JInt max_bytes)])
          else mgo (Some n)
      | None => answer (error_with "BAD_LENGTH" "'length' must be a positive integer when supplied"
                          [("path"%py, JStr raw_path)])
      end
  end.
(** [data.decode(encoding)] *)
Definition decode_as (encoding : pystr) (data : list N) : res pystr :=
  if bool_decide (encoding = "utf-8"%py) then
    match decode data with
    | Some s => Ret s
    | None => Raise (Exn "UnicodeDecodeError" (utf8_failure data))
    end
  else codec_decode encoding data.
Definition read_content (raw_path encoding : pystr) (offset : Z) (data : list N) : M pystr :=
  if bool_decide (encoding = "binary"%py) then mgo (b64encode data)
  else match decode_as encoding data with
       | Ret s => mgo s
       | Raise x =>
           if bool_decide (exn_type x ∈ ["UnicodeDecodeError"%py; "LookupError"%py]) then
             answer (error_with "DECODE_ERROR"
                       ("Cannot decode file as " ++ encoding ++ ": " ++ exn_msg x)
                       [("path"%py, JStr raw_path); ("encoding"%py, JStr encoding);
                        ("offset"%py, JInt offset); ("length"%py, JInt (Z.of_nat (length data)))])
           else throw x
       end.

Definition handle_fs_read (e : env) (params : dict) : M json :=
  let% _ := strict params _READ_KEYS ∅ in
  let% raw_path := text_param "path" path_required params in
  let encoding := str_get "encoding" "utf-8" params in
  let max_bytes :=
    _clamp (default _DEFAULT_READ_MAX_BYTES (dget "max_bytes" params ≫= plain_int))
      _DEFAULT_READ_MAX_BYTES _HARD_READ_MAX_BYTES in
  let% offset := read_offset raw_path params in
  let% length_ := read_length raw_path max_bytes params in
  let% r := _open e raw_path false in
  let% fd := opened_or r (outside "path" raw_path)
               (error_with "PATH_NOT_FOUND" ("No such file: " ++ raw_path) [("path"%py, JStr raw_path)]) None in
  let% n := stat_or_throw fd in
  match n with
  | File bytes =>
      let file_size := Z.of_nat (length bytes) in
      let% _ := require (offset <=? file_size)%Z
        (error_with "OFFSET_BEYOND_EOF"
           ("offset " ++ str_of_Z offset ++ " is past end of file (size " ++ str_of_Z file_size ++ ")")
           [("path"%py, JStr raw_path); ("offset"%py, JInt offset); ("file_size"%py, JInt file_size)]) in
      let cap := default max_bytes length_ in
      let% data := lift_os (sys (SysRead fd) NoName
                     (inr (_read_range fd bytes (Z.to_N offset) (Z.to_N cap) (bool_decide (length_ = None))))) in
      let size := Z.of_nat (length data) in
      let% _ := require (size <=? cap)%Z
        (error_with "TOO_LARGE" ("File slice exceeds limit of " ++ str_of_Z max_bytes ++ " bytes")
           [("path"%py, JStr raw_path); ("size"%py, JInt size); ("max_bytes"%py, JInt max_bytes);
            ("offset"%py, JInt offset); ("file_size"%py, JInt file_size)]) in
      let% content := read_content raw_path encoding offset data in
      mgo (JDict [("ok", JBool true); ("path", JStr raw_path); ("size", JInt size);
                  ("file_size", JInt file_size); ("offset", JInt offset); ("length", JInt size);
                  ("eof", JBool (file_size <=? offset + size)%Z); ("encoding", JStr encoding);
                  ("content", JStr content); ("sha256", JStr (Sha.sha256_hex data))])
  | _ => answer (error_with "IS_DIRECTORY" ("Path is a directory: " ++ raw_path) [("path"%py, JStr raw_path)])
  end.

(** ** [fs.list] *)

(** An entry whose [stat] fails is listed all the same. *)
Definition _entry (d : disk) (loc : list pystr) (name : pystr) : json :=
  match stat d (loc ++ [name]) (Name name) with
  | Err _ => JDict [("name", JStr name); ("kind", JStr "other"); ("size", JInt 0);
                    ("mtime", JFloat (FFin false 0 (-1074)))]
  | Ok n => JDict [("name", JStr name); ("kind", JStr (_kind n)); ("size", JInt (st_size (loc ++ [name]) n));
                   ("mtime", JFloat (st_mtime (loc ++ [name])))]
  end.
Definition is_hidden (hidden : bool) (name : pystr) : bool := negb hidden && startswith name ".".
(** [os.scandir] of a directory. *)
Definition scandir (d : disk) (loc : list pystr) : out (list pystr) :=
  sys (SysScan loc) NoName (inr (scan_order loc (children d loc))).
(** The entries up to one more than the limit, and whether there was one more;
    [room] is what is left of the limit. *)
Fixpoint list_scan (hidden : bool) (room : Z) (names : list pystr) : list pystr * bool :=
  match names with
  | [] => ([], false)
  | n :: names =>
      if is_hidden hidden n then list_scan hidden room names
      else if (room <=? 0)%Z then ([n], true)
      else let '(rest, truncated) := list_scan hidden (room - 1) names in (n :: rest, truncated)
  end.

Definition _LIST_KEYS : gset pystr := list_to_set ["path"; "hidden"; "max_entries"].
Definition handle_fs_list (e : env) (params : dict) : M json :=
  let% _ := strict params _LIST_KEYS ∅ in
  let% raw_path := text_param "path" path_required params in
  let hidden := flag "hidden" params in
  let max_entries :=
    _clamp (default _DEFAULT_LIST_MAX_ENTRIES (int_param "max_entries" params)) _DEFAULT_LIST_MAX_ENTRIES _HARD_LIST_MAX_ENTRIES in
  let% r := _open e raw_path true in
  let% fd := opened_or r (outside "path" raw_path)
               (error_with "PATH_NOT_FOUND" ("No such path: " ++ raw_path) [("path"%py, JStr raw_path)])
               (Some (error_with "NOT_A_DIRECTORY" ("Path is not a directory: " ++ raw_path)
                        [("path"%py, JStr raw_path)])) in
  let% d := disk_read id in
  let% names := lift_os (scandir d fd) in
  let '(found, truncated) := list_scan hidden max_entries names in
  let entries := merge_sort key_le (map (λ n, (n, _entry d fd n)) found) in
  let entries := if truncated then takeN (Z.to_N max_entries) entries else entries in
  mgo (JDict [("ok", JBool true); ("path", JStr raw_path); ("entries", JList (map snd entries));
              ("truncated", JBool truncated)]).

(** ** [fs.stat] *)

Definition _STAT_KEYS : gset pystr := {["path"%py]}.
Definition handle_fs_stat (e : env) (params : dict) : M json :=
  let% _ := strict params _STAT_KEYS ∅ in
  let% raw_path := text_param "path" path_required params in
  let% r := _open e raw_path false in
  let% fd := opened_or r (outside "path" raw_path)
               (JDict [("ok", JBool true); ("path", JStr raw_path); ("exists", JBool false)]) None in
  let% n := stat_or_throw fd in
  mgo (JDict [("ok", JBool true); ("path", JStr raw_path); ("exists", JBool true); ("kind", JStr (_kind n));
              ("size", JInt (st_size fd n)); ("mtime", JFloat (st_mtime fd)); ("ctime", JFloat (st_ctime fd));
              ("mode", JInt (Z.land (st_mode fd) 4095)); ("owner_uid", JInt (st_uid fd));
              ("group_gid", JInt (st_gid fd)); ("is_symlink", JBool false); ("link_target", JNull)]).

(** ** [fs.glob] *)

Definition _valid_glob_pattern (pattern : pystr) : bool :=
  negb (startswith pattern [SL] || bool_decide (0%N ∈ pattern)) &&
  negb (bool_decide (".."%py ∈ parts (path_of pattern))).

(** The recursion drops three characters of the pattern. *)
Fixpoint glob_matches (fuel : nat) (rel_path pattern : pystr) : bool :=
  match fuel with
  | O => false
  | S fuel =>
      (startswith pattern "**/" && glob_matches fuel rel_path (drop 3 pattern)) ||
      if negb (bool_decide (SL ∈ pattern))
      then negb (bool_decide (SL ∈ rel_path)) && fnmatchcase rel_path pattern
      else fnmatchcase rel_path pattern
  end.
Definition _glob_matches (rel_path pattern : pystr) : bool :=
  glob_matches (S (length pattern)) rel_path pattern.

(** The entries of one directory: the matches, up to one more than the limit,
    and the directories opened on the way, the last one on top. *)
Definition rel_of (prefix name : pystr) : pystr :=
  match prefix with [] => name | _ => prefix ++ [SL] ++ name end.
Fixpoint glob_dir (d : disk) (pattern : pystr) (hidden : bool) (max_matches : Z) (loc : list pystr)
    (prefix : pystr) (names : list pystr) (matches : list pystr) (stack : list (list pystr * pystr))
    : list pystr * list (list pystr * pystr) :=
  match names with
  | [] => (matches, stack)
  | n :: names =>
      if is_hidden hidden n then glob_dir d pattern hidden max_matches loc prefix names matches stack
      else
        let rel_path := rel_of prefix n in
        let matches := if _glob_matches rel_path pattern then matches ++ [rel_path] else matches in
        if (max_matches <? Z.of_nat (length matches))%Z then (matches, stack)
        else
          let stack :=
            match node_at d (loc ++ [n]) with
            | Some Dir => match sys (SysOpenat (loc ++ [n])) (Name n) (inr tt) with
                          | Ok _ => (loc ++ [n], rel_path) :: stack
                          | Err _ => stack
                          end
            | _ => stack
            end in
          glob_dir d pattern hidden max_matches loc prefix names matches stack
  end.
(** Every turn lists one more directory. *)
Fixpoint glob_walk (fuel : nat) (d : disk) (pattern : pystr) (hidden : bool) (max_matches : Z)
    (stack : list (list pystr * pystr)) (matches : list pystr) : option (out (list pystr)) :=
  match stack with
  | [] => Some (Ok matches)
  | (loc, prefix) :: stack =>
      if (max_matches <? Z.of_nat (length matches))%Z then Some (Ok matches)
      else
        match fuel with
        | O => None
        | S fuel =>
            match scandir d loc with
            | Err x => Some (Err x)
            | Ok names =>
                let '(matches, stack) :=
                  glob_dir d pattern hidden max_matches loc prefix names matches stack in
                glob_walk fuel d pattern hidden max_matches stack matches
            end
        end
  end.
Definition _iter_matches (d : disk) (root_fd : list pystr) (pattern : pystr) (hidden : bool)
    (max_matches : Z) : option (out (list pystr * bool)) :=
  match glob_walk (S (base.size d)) d pattern hidden max_matches [(root_fd, [])] [] with
  | None => None
  | Some (Err x) => Some (Err x)
  | Some (Ok matches) =>
      let truncated := (max_matches <? Z.of_nat (length matches))%Z in
      Some (Ok (sorted_strs (if truncated then takeN (Z.to_N max_matches) matches else matches), truncated))
  end.

Definition _GLOB_KEYS : gset pystr := list_to_set ["root"; "pattern"; "hidden"; "max_matches"].
Definition handle_fs_glob (e : env) (params : dict) : M json :=
  let% _ := strict params _GLOB_KEYS ∅ in
  let% raw_root := text_param "root" (error_dict "ROOT_REQUIRED" "Missing required 'root' parameter") params in
  let% pattern := text_param "pattern"
                    (error_dict "PATTERN_REQUIRED" "Missing required 'pattern' parameter") params in
  let% _ := require (_valid_glob_pattern pattern)
              (error_dict "BAD_PATTERN" "Glob pattern must be relative and stay beneath root") in
  let hidden := flag "hidden" params in
  let max_matches :=
    _clamp (default _DEFAULT_GLOB_MAX_MATCHES (int_param "max_matches" params)) _DEFAULT_GLOB_MAX_MATCHES _HARD_GLOB_MAX_MATCHES in
  let not_a_directory :=
    error_with "NOT_A_DIRECTORY" ("Root is not a directory: " ++ raw_root) [("root"%py, JStr raw_root)] in
  let% r := _open e raw_root true in
  let% fd := opened_or r (outside "root" raw_root) not_a_directory (Some not_a_directory) in
  let% d := disk_read id in
  match _iter_matches d fd pattern hidden max_matches with
  | Some (Ok (matches, truncated)) =>
      mgo (JDict [("ok", JBool true); ("root", JStr raw_root); ("pattern", JStr pattern);
                  ("matches", JList (map JStr matches)); ("truncated", JBool truncated)])
  | Some (Err (OsError _ _)) => answer (error_dict "INTERNAL" "Internal command error")
  | Some (Err x) => throw (uncaught x)
  | None => throw (Exn "NonTermination" [])
  end.
End handlers.

(** ** Reading a range *)

Section range.
Context `{Pread}.

Lemma takeN_take {A} n (l : list A) : takeN n l = take (N.to_nat n) l.
Proof.
  unfold takeN. destruct (N.le_gt_cases n (N.of_nat (length l))).
  - by rewrite N.min_l.
  - rewrite N.min_r by lia. rewrite !take_ge by lia. done.
Qed.
Lemma dropN_drop {A} n (l : list A) : dropN n l = drop (N.to_nat n) l.
Proof.
  unfold dropN. destruct (N.le_gt_cases n (N.of_nat (length l))).
  - by rewrite N.min_l.
  - rewrite N.min_r by lia. rewrite !drop_ge by lia. done.
Qed.

(** However the file system splits the reads, the loop returns the range. *)
Lemma read_loop_slice fuel fd data remaining pos :
  length data - N.to_nat pos < fuel →
  read_loop fuel fd data remaining pos = take (N.to_nat remaining) (drop (N.to_nat pos) data).
Proof.
  revert remaining pos. induction fuel as [|fuel IH]; intros remaining pos Hf; [lia|]. cbn [read_loop].
  destruct (N.eqb_spec remaining 0) as [->|Hr]; [done|].
  unfold pread. rewrite takeN_take, dropN_drop.
  set (l := drop (N.to_nat pos) data). set (k := N.min remaining _).
  assert (Hk : (1 <= k <= remaining)%N) by lia.
  assert (Hl : length l = length data - N.to_nat pos) by (unfold l; apply length_drop).
  destruct (take (N.to_nat k) l) as [|x c] eqn:E.
  { apply (f_equal length) in E. rewrite length_take in E. simpl in E.
    assert (length l = 0) as ->%nil_length_inv by lia. by rewrite take_nil. }
  rewrite <- E. rewrite IH by (rewrite length_take; destruct l; [by rewrite take_nil in E|simpl in *; lia]).
  rewrite length_take, N2Nat.inj_add, N2Nat.inj_sub, Nat2N.id, <- drop_drop. fold l.
  destruct (le_lt_dec (N.to_nat k) (length l)) as [Hle|Hgt].
  - rewrite Nat.min_l by lia. rewrite (take_take_drop l (N.to_nat k) (N.to_nat remaining - N.to_nat k)).
    f_equal. lia.
  - rewrite Nat.min_r by lia. rewrite drop_ge, take_nil, app_nil_r by lia. rewrite !take_ge by lia. done.
Qed.
Lemma read_range_slice fd data offset cap probe :
  _read_range fd data offset cap probe =
  take (N.to_nat (cap + if probe then 1 else 0)) (drop (N.to_nat offset) data).
Proof. apply read_loop_slice. lia. Qed.
End range.

(** ** Handlers that change nothing *)

Definition silent {A} (m : M A) : Prop := ∀ s, (m s).2 = s.
Lemma silent_bind {A B} (m : M A) (f : A → M B) : silent m → (∀ a, silent (f a)) → silent (mbind_ m f).
Proof.
  intros Hm Hf s. unfold mbind_. specialize (Hm s). destruct (m s) as [[a|j|x] s1]; simpl in *; subst; [apply Hf|done..].
Qed.
(** A step of a silent handler that ended well. *)
Lemma silent_Go {A B} (m : M A) (f : A → M B) s b s' :
  silent m → mbind_ m f s = (Go b, s') → ∃ a, m s = (Go a, s) ∧ f a s = (Go b, s').
Proof.
  intros Hm [(a & s1 & Ha & Hf)|[(? & ? & ?)|(? & ? & ?)]]%mbind_inv; [|done..].
  specialize (Hm s). rewrite Ha in Hm. simpl in Hm. subst s1. eauto.
Qed.
Ltac sstep H a Hm := apply silent_Go in H as (a & Hm & H); [|solve [auto with silent]].
Create HintDb silent.

Section silent.
Context `{Unicode, Os, Listing, Pread, FileMeta, Codecs}.

Lemma silent_go {A} (a : A) : silent (mgo a). Proof. done. Qed.
Lemma silent_answer {A} j : silent (A := A) (answer j). Proof. done. Qed.
Lemma silent_throw {A} x : silent (A := A) (throw x). Proof. done. Qed.
Lemma silent_lift {A} (r : res A) : silent (lift r). Proof. done. Qed.
Lemma silent_require b j : silent (require b j). Proof. by destruct b. Qed.
Lemma silent_disk_read {A} (f : disk → A) : silent (disk_read f). Proof. done. Qed.
Lemma silent_strict p a n : silent (strict p a n).
Proof. unfold strict. by destruct (strict_keys_error p a n). Qed.
Lemma silent_lift_os {A} (r : out A) : silent (lift_os r). Proof. by destruct r. Qed.
Lemma silent_stat loc : silent (stat_or_throw loc).
Proof. apply silent_bind; [done|]. intros r. apply silent_lift_os. Qed.
Lemma silent_text key err params : silent (text_param key err params).
Proof. unfold text_param. by destruct (dget key params) as [[]|]; repeat case_match. Qed.
Lemma silent_open e p dir : silent (_open e p dir).
Proof. apply silent_bind; [done|]. intros d. by apply silent_bind. Qed.
Lemma silent_opened r a b c : silent (opened_or r a b c).
Proof. unfold opened_or. by destruct r as [fd|[[]| | |]]; try destruct c. Qed.
Lemma silent_offset p params : silent (read_offset p params).
Proof. unfold read_offset. destruct (plain_int _); [by case_match|done]. Qed.
Lemma silent_length p k params : silent (read_length p k params).
Proof. unfold read_length. destruct (dget _ _) as [j|]; [|done]. destruct (plain_int j); repeat case_match; done. Qed.
Lemma silent_content p enc off data : silent (read_content p enc off data).
Proof. unfold read_content. case_bool_decide; [done|]. destruct (decode_as _ _); [done|]. by case_bool_decide. Qed.
#[local] Hint Resolve silent_go silent_answer silent_throw silent_lift silent_require silent_disk_read
  silent_strict silent_lift_os silent_stat silent_text silent_open silent_opened silent_offset
  silent_length silent_content : silent.

(** The read-only commands change nothing, whatever they are asked. *)
Lemma silent_fs_read e params : silent (handle_fs_read e params).
Proof.
  unfold handle_fs_read. repeat (apply silent_bind; [auto with silent|intros ?]).
  match goal with x : node |- _ => destruct x end; [|auto with silent..].
  repeat (apply silent_bind; [auto with silent|intros ?]). auto with silent.
Qed.
Lemma silent_fs_list e params : silent (handle_fs_list e params).
Proof.
  unfold handle_fs_list. repeat (apply silent_bind; [auto with silent|intros ?]).
  destruct (list_scan _ _ _). auto with silent.
Qed.
Lemma silent_fs_stat e params : silent (handle_fs_stat e params).
Proof. unfold handle_fs_stat. repeat (apply silent_bind; [auto with silent|intros ?]). auto with silent. Qed.
Lemma silent_fs_glob e params : silent (handle_fs_glob e params).
Proof.
  unfold handle_fs_glob. repeat (apply silent_bind; [auto with silent|intros ?]).
  destruct (_iter_matches _ _ _ _ _) as [[[m t]|[]]|]; auto with silent.
Qed.

(** *** What the steps found *)

Lemma text_Go key err params p s s' :
  text_param key err params s = (Go p, s') → dget key params = Some (JStr p) ∧ p ≠ [].
Proof.
  unfold text_param. destruct (dget key params) as [[| | | |[|c t]| |]|]; try done. by intros [= <- _].
Qed.
Lemma require_Go b j u s s' : require b j s = (Go u, s') → b = true.
Proof. by destruct b. Qed.
Lemma lift_os_Go {A} (r : out A) a s s' : lift_os r s = (Go a, s') → r = Ok a.
Proof. destruct r; [|done]. by intros [= -> _]. Qed.
Lemma opened_Go r a b c fd s s' : opened_or r a b c s = (Go fd, s') → r = Ok fd.
Proof. unfold opened_or. destruct r as [l|[[]| | |]]; [by intros [= -> _]|..]; try destruct c; done. Qed.
Lemma open_Go e p dir r s s' :
  _open e p dir s = (Go r, s') → ∃ roots, allowed_roots_for_env e (h_disk s) = Ret roots ∧
    r = open_safe_fd (h_disk s) p roots dir.
Proof.
  unfold _open, mbind_, disk_read, lift, id. simpl.
  destruct (allowed_roots_for_env e (h_disk s)) as [roots|]; [|done]. intros [= <- _]. eauto.
Qed.
Lemma stat_Go loc n s s' : stat_or_throw loc s = (Go n, s') → node_at (h_disk s) loc = Some n.
Proof.
  unfold stat_or_throw, mbind_, disk_read. simpl. intros Hs%lift_os_Go%sys_Ok.
  destruct (node_at _ loc); [by injection Hs as ->|done].
Qed.
(** What is opened under sound roots is the path itself, no link on the way. *)
Lemma opened_at e d p dir roots fd :
  sound_roots e d → allowed_roots_for_env e d = Ret roots → open_safe_fd d p roots dir = Ok fd →
  fd = parts (path_of p) ∧ link_free (links_of d) fd ∧ (dir = true → node_at d fd = Some Dir).
Proof.
  intros Hsr Hr Ho. apply open_safe_fd_opened, opened_plain in Ho as (-> & _ & _ & Hl & Hd); [|by apply Hsr].
  done.
Qed.
Lemma offset_Go p params z s s' :
  read_offset p params s = (Go z, s') → default (JInt 0) (dget "offset" params) = JInt z ∧ (0 <= z)%Z.
Proof.
  unfold read_offset. destruct (default _ _) as [| |w| | | |]; try done. simpl.
  destruct (Z.ltb_spec w 0); [done|]. by intros [= <- _].
Qed.
Lemma length_Go p k params r s s' :
  read_length p k params s = (Go r, s') →
  dget "length" params = JInt <$> r ∧ (∀ n, r = Some n → 0 < n <= k)%Z.
Proof.
  unfold read_length. destruct (dget "length" params) as [[| |w| | | |]|]; try done.
  - simpl. destruct (Z.leb_spec w 0); [done|]. destruct (Z.ltb_spec k w); [done|].
    intros [= <- _]. split; [done|]. intros n [= <-]. lia.
  - by intros [= <- _].
Qed.
Lemma content_Go p enc off data c s s' :
  read_content p enc off data s = (Go c, s') →
  if bool_decide (enc = "binary"%py) then c = b64encode data else decode_as enc data = Ret c.
Proof.
  unfold read_content. case_bool_decide; [by intros [= <- _]|].
  destruct (decode_as enc data); [by intros [= <- _]|]. by case_bool_decide.
Qed.
Lemma clamp_bounds v d h : (0 < d <= h)%Z → (0 < _clamp v d h <= h)%Z.
Proof. unfold _clamp. destruct (Z.leb_spec v 0); lia. Qed.
End silent.

(** ** [fs.read] *)

Section read.
Context `{Unicode, Os, Listing, Pread, FileMeta, Codecs}.
#[local] Hint Resolve silent_go silent_answer silent_throw silent_lift silent_require silent_disk_read
  silent_strict silent_lift_os silent_stat silent_text silent_open silent_opened silent_offset
  silent_length silent_content : silent.

Definition read_limit (params : dict) : Z :=
  _clamp (default _DEFAULT_READ_MAX_BYTES (dget "max_bytes" params ≫= plain_int))
    _DEFAULT_READ_MAX_BYTES _HARD_READ_MAX_BYTES.

(** What a read answers with.  [fs.read] changes nothing.  When it succeeds, the
    path, on which no link lies, is a file, and the answer holds exactly the
    bytes of the file from the offset on: as many as were asked for, or all of
    them up to the limit when no length was given, and then none is left out;
    never more than 16 MiB.  The size, the end-of-file mark and the digest are
    those of the bytes returned, which the content encodes. *)
Theorem read_outcome e params s o s' :
  sound_roots e (h_disk s) → handle_fs_read e params s = (o, s') →
  s' = s ∧
  ∀ j, o = Go j → ∃ p bytes (offset : nat) data content,
    dget "path" params = Some (JStr p) ∧
    node_at (h_disk s) (parts (path_of p)) = Some (File bytes) ∧
    link_free (links_of (h_disk s)) (parts (path_of p)) ∧
    default (JInt 0) (dget "offset" params) = JInt (Z.of_nat offset) ∧ offset <= length bytes ∧
    match dget "length" params with
    | Some n => ∃ k, n = JInt (Z.of_nat k) ∧ data = take k (drop offset bytes)
    | None => data = drop offset bytes
    end ∧
    (Z.of_nat (length data) <= read_limit params <= _HARD_READ_MAX_BYTES)%Z ∧
    (let encoding := str_get "encoding" "utf-8" params in
     (if bool_decide (encoding = "binary"%py) then content = b64encode data
      else decode_as encoding data = Ret content) ∧
     j = JDict [("ok"%py, JBool true); ("path"%py, JStr p); ("size"%py, JInt (Z.of_nat (length data)));
                ("file_size"%py, JInt (Z.of_nat (length bytes)));
                ("offset"%py, JInt (Z.of_nat offset)); ("length"%py, JInt (Z.of_nat (length data)));
                ("eof"%py, JBool (bool_decide (offset + length data = length bytes)));
                ("encoding"%py, JStr encoding); ("content"%py, JStr content);
                ("sha256"%py, JStr (Sha.sha256_hex data))]).
Proof.
  intros Hsr Hrun. split; [pose proof (silent_fs_read e params s) as Hq; by rewrite Hrun in Hq|].
  intros j ->. unfold handle_fs_read in Hrun. fold (read_limit params) in Hrun.
  sstep Hrun u1 Hm. clear Hm. sstep Hrun p Hm. apply text_Go in Hm as [Hp _].
  sstep Hrun offset Hm. apply offset_Go in Hm as [Hoff Hpos].
  sstep Hrun len Hm. apply length_Go in Hm as [Hlen Hbound].
  sstep Hrun r Hm. apply open_Go in Hm as (roots & Hroots & ->).
  sstep Hrun fd Hm. apply opened_Go, (opened_at e) in Hm as (-> & Hl & _); [|done..].
  sstep Hrun n Hm. apply stat_Go in Hm. destruct n as [bytes| |]; [|done..].
  sstep Hrun u2 Hr. apply require_Go, Z.leb_le in Hr.
  sstep Hrun data Hd. apply lift_os_Go, sys_Ok in Hd. injection Hd as Hd. rewrite read_range_slice in Hd.
  sstep Hrun u3 Hs. apply require_Go, Z.leb_le in Hs.
  sstep Hrun content Hc. apply content_Go in Hc. injection Hrun as Hj.
  assert (Hlim : (0 < read_limit params <= _HARD_READ_MAX_BYTES)%Z) by (by apply clamp_bounds).
  exists p, bytes, (Z.to_nat offset), data, content. rewrite Z2Nat.id by done.
  rewrite Z_N_nat in Hd.
  assert (Hbody : match dget "length" params with
    | Some n => ∃ k, n = JInt (Z.of_nat k) ∧ data = take k (drop (Z.to_nat offset) bytes)
    | None => data = drop (Z.to_nat offset) bytes end ∧ (Z.of_nat (length data) <= read_limit params)%Z).
  { rewrite Hlen. destruct len as [k|]; simpl in *.
    - specialize (Hbound k eq_refl). split; [|lia]. exists (Z.to_nat k). rewrite Z2Nat.id by lia.
      split; [done|]. rewrite <- Hd. f_equal. lia.
    - split; [|done]. rewrite <- Hd in Hs |- *. rewrite length_take in Hs. apply take_ge. lia. }
  destruct Hbody as [Hbody Hmax]. split_and!; try done; [lia|lia|].
  cbv zeta. split; [exact Hc|]. rewrite <- Hj. repeat f_equal.
  assert (Hdl : length data <= length bytes - Z.to_nat offset).
  { rewrite <- Hd, length_take, length_drop. lia. }
  destruct (Z.leb_spec (Z.of_nat (length bytes)) (offset + Z.of_nat (length data))); symmetry;
    [apply bool_decide_eq_true|apply bool_decide_eq_false]; lia.
Qed.
End read.

(** ** [fs.list] *)

Lemma children_spec d loc n : n ∈ children d loc ↔ is_Some (d !! (loc ++ [n])).
Proof.
  unfold children. rewrite list_elem_of_omap. split.
  - intros ([l x] & Hl & Hb). apply elem_of_map_to_list in Hl. simpl in Hb.
    destruct (below loc l) as [[|m [|]]|] eqn:E; simplify_eq. apply below_Some in E as ->. eauto.
  - intros [x Hx]. exists (loc ++ [n], x). split; [by apply elem_of_map_to_list|]. simpl.
    by rewrite below_app.
Qed.
Lemma NoDup_omap_inj {A B} (f : A → option B) l :
  NoDup l → (∀ x y b, x ∈ l → y ∈ l → f x = Some b → f y = Some b → x = y) → NoDup (omap f l).
Proof.
  induction 1 as [|x l Hx Hl IH]; intros Hi; simpl; [constructor|].
  assert (NoDup (omap f l)) by (apply IH; intros; eapply Hi; set_solver).
  destruct (f x) as [b|] eqn:E; [|done]. constructor; [|done].
  rewrite list_elem_of_omap. intros (y & Hy & Ey). apply Hx.
  by rewrite (Hi x y b) by set_solver.
Qed.
Lemma children_NoDup d loc : NoDup (children d loc).
Proof.
  apply NoDup_omap_inj; [apply NoDup_map_to_list|]. intros [l x] [k y] n Hl Hk E1 E2. simpl in *.
  destruct (below loc l) as [[|? [|]]|] eqn:B1; simplify_eq.
  destruct (below loc k) as [[|? [|]]|] eqn:B2; simplify_eq.
  apply below_Some in B1 as ->. apply below_Some in B2 as ->.
  apply elem_of_map_to_list in Hl, Hk. congruence.
Qed.

Definition shown (hidden : bool) (names : list pystr) : list pystr :=
  List.filter (λ n, negb (is_hidden hidden n)) names.
Lemma list_scan_spec hidden room names found truncated :
  (0 <= room)%Z → list_scan hidden room names = (found, truncated) →
  if truncated then found = take (S (Z.to_nat room)) (shown hidden names) ∧ length found = S (Z.to_nat room)
  else found = shown hidden names ∧ length found <= Z.to_nat room.
Proof.
  revert room found truncated. induction names as [|n names IH]; intros room found truncated Hr; simpl.
  { intros [= <- <-]. simpl. split; [done|lia]. }
  destruct (is_hidden hidden n); simpl; [by apply IH|].
  destruct (Z.leb_spec room 0).
  - intros [= <- <-]. assert (room = 0%Z) as -> by lia. done.
  - destruct (list_scan hidden (room - 1) names) as [rest t] eqn:E. intros [= <- <-].
    apply IH in E; [|lia]. assert (Hz : Z.to_nat room = S (Z.to_nat (room - 1))) by lia.
    destruct t, E as [E El]; (split; [|simpl; lia]); rewrite E; [|done]. simpl. by rewrite Hz.
Qed.

Section list.
Context `{Unicode, Os, Listing, Pread, FileMeta, Codecs}.
#[local] Hint Resolve silent_go silent_answer silent_throw silent_lift silent_require silent_disk_read
  silent_strict silent_lift_os silent_stat silent_text silent_open silent_opened silent_offset
  silent_length silent_content : silent.

Lemma scandir_names d loc names : scandir d loc = Ok names → Permutation names (children d loc).
Proof. intros Hs%sys_Ok. injection Hs as <-. apply scan_order_perm. Qed.

(** The listing of at most [limit] names of a directory. *)
Definition listed (d : disk) (loc : list pystr) (hidden : bool) (limit : Z) (names : list pystr)
    (truncated : bool) : Prop :=
  Sorted str_le names ∧ NoDup names ∧ (Z.of_nat (length names) <= limit)%Z ∧
  (∀ n, n ∈ names → is_Some (d !! (loc ++ [n])) ∧ is_hidden hidden n = false) ∧
  if truncated then Z.of_nat (length names) = limit
  else ∀ n, is_Some (d !! (loc ++ [n])) → is_hidden hidden n = false → n ∈ names.

Lemma sorted_take (l : list pystr) k : Sorted str_le l → Sorted str_le (take k l).
Proof.
  intros Hs. apply StronglySorted_Sorted. apply Sorted_StronglySorted in Hs; [|apply str_le_trans].
  revert k. induction Hs as [|x l Hs IH Hx]; intros [|k]; simpl; constructor; [done|].
  apply Forall_take, Hx.
Qed.

Lemma listed_scan d loc hidden limit names found truncated :
  (0 < limit)%Z → scandir d loc = Ok names → list_scan hidden limit names = (found, truncated) →
  listed d loc hidden limit
    (if truncated then takeN (Z.to_N limit) (sorted_strs found) else sorted_strs found) truncated.
Proof.
  intros Hl Hs Hf. apply list_scan_spec in Hf; [|lia].
  pose proof (scandir_names _ _ _ Hs) as Hp.
  assert (Hperm : Permutation (sorted_strs found) found) by apply merge_sort_Permutation.
  assert (Hin : ∀ n, n ∈ shown hidden names ↔ is_Some (d !! (loc ++ [n])) ∧ is_hidden hidden n = false).
  { intros n. unfold shown. rewrite list_elem_of_In, filter_In, <- list_elem_of_In, Hp, children_spec, negb_true_iff.
    done. }
  assert (Hnd : NoDup (shown hidden names)).
  { apply NoDup_ListNoDup, List.NoDup_filter, NoDup_ListNoDup. rewrite Hp. apply children_NoDup. }
  assert (Hsort : Sorted str_le (sorted_strs found)) by (apply Sorted_merge_sort, _).
  destruct truncated, Hf as [Hf Hlen].
  - rewrite takeN_take, Z_N_nat. set (k := Z.to_nat limit) in *.
    assert (Hlen' : length (take k (sorted_strs found)) = k).
    { rewrite length_take, (Permutation_length Hperm). lia. }
    assert (Hsub : ∀ n, n ∈ take k (sorted_strs found) → n ∈ shown hidden names).
    { intros n Hn. assert (Hn2 : n ∈ found) by (rewrite <- Hperm; by apply subseteq_take in Hn).
      rewrite Hf in Hn2. by apply subseteq_take in Hn2. }
    split_and!; [by apply sorted_take| |lia| |lia].
    + eapply sublist_NoDup; [|apply sublist_take]. rewrite Hperm, Hf.
      by eapply sublist_NoDup; [|apply sublist_take].
    + intros n Hn. by apply Hin, Hsub.
  - subst found. split_and!; [done|by rewrite Hperm|rewrite (Permutation_length Hperm); lia| |].
    + intros n Hn. apply Hin. by rewrite <- Hperm.
    + intros n Hx Hh. rewrite Hperm. by apply Hin.
Qed.

Definition list_limit (params : dict) : Z :=
  _clamp (default _DEFAULT_LIST_MAX_ENTRIES (int_param "max_entries" params))
    _DEFAULT_LIST_MAX_ENTRIES _HARD_LIST_MAX_ENTRIES.

(** What a listing answers with.  [fs.list] changes nothing.  When it succeeds,
    the path, on which no link lies, is a directory, and the answer lists names
    of it in order, each once and each with the entry of that name, hidden names
    only if they were asked for: all of them, or, when it says so, as many as the
    limit allows. *)
Theorem list_outcome e params s o s' :
  sound_roots e (h_disk s) → handle_fs_list e params s = (o, s') →
  s' = s ∧
  ∀ j, o = Go j → ∃ p names truncated,
    let loc := parts (path_of p) in
    dget "path" params = Some (JStr p) ∧ node_at (h_disk s) loc = Some Dir ∧
    link_free (links_of (h_disk s)) loc ∧
    listed (h_disk s) loc (flag "hidden" params) (list_limit params) names truncated ∧
    (0 < list_limit params <= _HARD_LIST_MAX_ENTRIES)%Z ∧
    j = JDict [("ok"%py, JBool true); ("path"%py, JStr p);
               ("entries"%py, JList (map (_entry (h_disk s) loc) names)); ("truncated"%py, JBool truncated)].
Proof.
  intros Hsr Hrun. split; [pose proof (silent_fs_list e params s) as Hq; by rewrite Hrun in Hq|].
  intros j ->. unfold handle_fs_list in Hrun. fold (list_limit params) in Hrun.
  sstep Hrun u1 Hm. clear Hm. sstep Hrun p Hm. apply text_Go in Hm as [Hp _].
  sstep Hrun r Hm. apply open_Go in Hm as (roots & Hroots & ->).
  sstep Hrun fd Hm. apply opened_Go, (opened_at e) in Hm as (-> & Hl & Hd); [|done..].
  sstep Hrun d Hm. injection Hm as <-. sstep Hrun names Hn. apply lift_os_Go in Hn.
  set (loc := parts (path_of p)) in *. unfold id in *.
  destruct (list_scan _ _ _) as [found truncated] eqn:Es. injection Hrun as Hj.
  assert (Hlim : (0 < list_limit params <= _HARD_LIST_MAX_ENTRIES)%Z) by (by apply clamp_bounds).
  pose proof (listed_scan _ _ _ _ _ _ _ (proj1 Hlim) Hn Es) as Hlisted.
  eexists p, _, truncated. split_and!; [done|by apply Hd|done|exact Hlisted|lia..|].
  rewrite <- Hj. do 2 f_equal. f_equal. f_equal.
  assert (Hm : merge_sort key_le (map (λ n, (n, _entry (h_disk s) loc n)) found)
             = map (λ n, (n, _entry (h_disk s) loc n)) (sorted_strs found)).
  { symmetry. by apply merge_sort_map. }
  rewrite Hm. destruct truncated; rewrite ?takeN_take, ?firstn_map, map_map; done.
Qed.
End list.

(** ** [fs.glob] *)

Section glob.
Context `{Unicode, Os, Listing, Pread, FileMeta, Codecs}.
Context (d : disk) (base : list pystr) (pattern : pystr) (hidden : bool) (max_matches : Z).

Definition rel_text (ps : list pystr) : pystr := fold_left rel_of ps [].
Definition all_shown (ps : list pystr) : Prop := Forall (λ n, is_hidden hidden n = false) ps.
(** An entry below the root that the pattern selects. *)
Definition globbed (ps : list pystr) : Prop :=
  ps ≠ [] ∧ is_Some (node_at d (base ++ ps)) ∧ all_shown ps ∧ _glob_matches (rel_text ps) pattern = true.
Definition selected (rel : pystr) : Prop := ∃ ps, globbed ps ∧ rel = rel_text ps.

(** What listing one directory adds. *)
Lemma rel_text_snoc ps n : rel_text (ps ++ [n]) = rel_of (rel_text ps) n.
Proof. unfold rel_text. by rewrite fold_left_app. Qed.
Lemma glob_dir_spec ps names ms stack ms' stack' :
  (∀ n, n ∈ names → is_Some (d !! (base ++ ps ++ [n]))) → NoDup names → all_shown ps →
  glob_dir d pattern hidden max_matches (base ++ ps) (rel_text ps) names ms stack = (ms', stack') →
  ∃ new pushed,
    ms' = ms ++ new ∧ stack' = map (λ n, (base ++ ps ++ [n], rel_text (ps ++ [n]))) pushed ++ stack ∧
    Forall selected new ∧ NoDup pushed ∧
    (∀ n, n ∈ pushed → n ∈ names ∧ is_hidden hidden n = false ∧ node_at d (base ++ ps ++ [n]) = Some Dir) ∧
    ((Z.of_nat (length ms') <= max_matches)%Z → ∀ n, n ∈ names → is_hidden hidden n = false →
       (_glob_matches (rel_text (ps ++ [n])) pattern = true → rel_text (ps ++ [n]) ∈ new) ∧
       (node_at d (base ++ ps ++ [n]) = Some Dir → os_fault (SysOpenat (base ++ ps ++ [n])) = None →
        n ∈ pushed)).
Proof.
  revert ms stack. induction names as [|n names IH]; intros ms stack Hin Hnd Hsh; cbn [glob_dir].
  { intros [= <- <-]. exists [], []. rewrite app_nil_r. split_and!; try done; try constructor; set_solver. }
  assert (Hin' : ∀ m, m ∈ names → is_Some (d !! (base ++ ps ++ [m]))) by (intros; apply Hin; set_solver).
  apply NoDup_cons in Hnd as [Hn Hnd].
  destruct (is_hidden hidden n) eqn:Hh.
  { intros (new & pushed & -> & -> & Hsel & Hpd & Hp & Hc)%IH; [|done..]. exists new, pushed.
    split_and!; try done; [set_solver|]. intros Hle m [->|Hm]%elem_of_cons Hmh; [congruence|by apply Hc]. }
  rewrite <- rel_text_snoc, <- app_assoc.
  set (rel := rel_text (ps ++ [n])). set (hit := _glob_matches rel pattern).
  set (one := if hit then [rel] else []).
  assert (Hms : (if hit then ms ++ [rel] else ms) = ms ++ one) by (unfold one; destruct hit; by rewrite ?app_nil_r).
  rewrite Hms. clear Hms.
  assert (Hone : Forall selected one).
  { unfold one. destruct hit eqn:E; [|constructor]. apply Forall_singleton. exists (ps ++ [n]). split; [|done].
    split_and!; [by destruct ps| |by apply Forall_app; split; [|apply Forall_singleton]|done].
    rewrite app_assoc, node_at_snoc, <- app_assoc. apply Hin. set_solver. }
  destruct (Z.ltb_spec max_matches (Z.of_nat (length (ms ++ one)))) as [Hlt|Hge].
  { intros [= <- <-]. exists one, []. split_and!; try done; try constructor; try lia; set_solver. }
  set (top := match node_at d (base ++ ps ++ [n]) with
              | Some Dir => match sys (SysOpenat (base ++ ps ++ [n])) (Name n) (inr tt) with
                            | Ok _ => [n] | Err _ => [] end
              | _ => [] end).
  assert (Htop : match node_at d (base ++ ps ++ [n]) with
     | Some Dir => match sys (SysOpenat (base ++ ps ++ [n])) (Name n) (inr tt) with
                   | Ok _ => (base ++ ps ++ [n], rel) :: stack | Err _ => stack end
     | _ => stack end = map (λ n, (base ++ ps ++ [n], rel_text (ps ++ [n]))) top ++ stack).
  { unfold top, rel. destruct (node_at d (base ++ ps ++ [n])) as [[]|]; try done. by destruct (sys _ _ _). }
  rewrite Htop. intros (new & pushed & -> & -> & Hsel & Hpd & Hp & Hc)%IH; [|done..].
  assert (Htopn : ∀ m, m ∈ top → m = n ∧ node_at d (base ++ ps ++ [n]) = Some Dir).
  { unfold top. intros m. destruct (node_at d _) as [[]|]; [set_solver| |set_solver..].
    destruct (sys _ _ _); [|set_solver]. set_solver. }
  exists (one ++ new), (pushed ++ top). rewrite map_app, <- !app_assoc.
  split_and!; [done|done|by apply Forall_app| | |].
  - apply NoDup_app. split_and!; [done| |].
    + intros m Hm [-> _]%Htopn. by apply Hp in Hm as [? _].
    + unfold top. destruct (node_at d _) as [[]|]; try constructor. destruct (sys _ _ _); [apply NoDup_singleton|constructor].
  - intros m [Hm|Hm]%elem_of_app; [apply Hp in Hm; set_solver|]. apply Htopn in Hm as [-> ?]. set_solver.
  - rewrite app_assoc. intros Hle m [->|Hm]%elem_of_cons Hmh; [split|].
    + fold rel. intros Hit. apply elem_of_app. left. unfold one. fold hit in Hit. rewrite Hit. set_solver.
    + intros Hdir Hnf. apply elem_of_app. right. unfold top, sys. rewrite Hdir, Hnf. set_solver.
    + destruct (Hc Hle m Hm Hmh) as [Hc1 Hc2]. split; [intros Hx; specialize (Hc1 Hx)|intros Hx Hy; specialize (Hc2 Hx Hy)]; set_solver.
Qed.
Definition no_open_fault : Prop := ∀ l, os_fault (SysOpenat l) = None.
(** The state of the walk: the directories done and those on the stack are
    distinct, each but the root in one that is done, and every entry has been
    looked at or lies below the stack. *)
Record walk_ok (done : list (list pystr)) (stack : list (list pystr * pystr)) (ms : list pystr) : Prop := {
  wo_NoDup : NoDup (done ++ map fst stack);
  wo_dir x : x ∈ done ++ map fst stack → node_at d x = Some Dir;
  wo_parent x : x ∈ done ++ map fst stack → x = base ∨ ∃ y n, x = y ++ [n] ∧ y ∈ done;
  wo_prefix loc prefix : (loc, prefix) ∈ stack → ∃ ps, loc = base ++ ps ∧ prefix = rel_text ps ∧ all_shown ps;
  wo_selected : Forall selected ms;
  wo_covered : no_open_fault → ∀ ps, globbed ps →
    rel_text ps ∈ ms ∨ ∃ qs rs, ps = qs ++ rs ∧ rs ≠ [] ∧ base ++ qs ∈ map fst stack }.

(** One more directory is listed. *)
Lemma walk_ok_step done loc prefix stack ms names ms' stack' :
  disk_wf d → walk_ok done ((loc, prefix) :: stack) ms → scandir d loc = Ok names →
  glob_dir d pattern hidden max_matches loc prefix names ms stack = (ms', stack') →
  (Z.of_nat (length ms') <= max_matches)%Z ∧ walk_ok (loc :: done) stack' ms' ∨
  (max_matches < Z.of_nat (length ms'))%Z ∧ Forall selected ms'.
Proof.
  intros Hwf [Hnd Hdir Hpar Hpre Hsel Hcov] Hscan Hg.
  destruct (Hpre loc prefix) as (ps & -> & -> & Hsh); [set_solver|].
  pose proof (scandir_names _ _ _ Hscan) as Hp.
  apply glob_dir_spec in Hg as (new & pushed & -> & -> & Hnew & Hpd & Hin & Hc); [|..|done];
    [|intros n; rewrite Hp, children_spec, <- app_assoc; done|rewrite Hp; apply children_NoDup].
  assert (Hall : Forall selected (ms ++ new)) by (by apply Forall_app).
  destruct (Z.le_gt_cases (Z.of_nat (length (ms ++ new))) max_matches) as [Hle|Hgt]; [left|right; split; [lia|done]].
  split; [done|]. specialize (Hc Hle). cbn [map fst] in *.
  set (fresh := map fst (map (λ n, (base ++ ps ++ [n], rel_text (ps ++ [n]))) pushed)).
  assert (Hfresh : ∀ x, x ∈ fresh ↔ ∃ n, x = base ++ ps ++ [n] ∧ n ∈ pushed).
  { intros x. unfold fresh. rewrite map_map. simpl. rewrite list_elem_of_fmap. naive_solver. }
  assert (Hold : (base ++ ps) ∉ done).
  { apply NoDup_app in Hnd as (_ & Hd & _). intros Hx. apply (Hd _ Hx). set_solver. }
  assert (HP : ∀ x, x ∈ (base ++ ps) :: done ++ map fst stack ↔ x ∈ done ++ (base ++ ps) :: map fst stack)
    by (intros x; by rewrite Permutation_middle).
  assert (Hapart : ∀ x, x ∈ fresh → x ∉ (base ++ ps) :: done ++ map fst stack).
  { intros x (n & -> & _)%Hfresh Hx.
    apply HP, Hpar in Hx as [E|(y & m & E & Hy)].
    - apply (f_equal length) in E. rewrite !length_app in E. simpl in E. lia.
    - rewrite app_assoc in E. by apply app_inj_tail in E as [<- _]. }
  assert (Hsplit : ∀ x, x ∈ ((base ++ ps) :: done) ++ fresh ++ map fst stack →
            x ∈ fresh ∨ x ∈ done ++ (base ++ ps) :: map fst stack).
  { intros x. rewrite <- HP, !elem_of_app, !elem_of_cons, elem_of_app. tauto. }
  constructor.
  - rewrite map_app. fold fresh.
    assert (Hperm : Permutation ((base ++ ps) :: done ++ fresh ++ map fst stack)
                      (fresh ++ done ++ (base ++ ps) :: map fst stack)) by solve_Permutation.
    cbn [app]. rewrite Hperm. apply NoDup_app. split_and!; [|intros x Hx%Hapart; by rewrite <- HP|done].
    unfold fresh. rewrite map_map. simpl. apply NoDup_fmap_2; [|done].
    intros n m E. rewrite !app_assoc in E. by apply app_inj_tail in E as [_ ->].
  - rewrite map_app. fold fresh. intros x Hx.
    apply Hsplit in Hx as [(n & -> & Hn)%Hfresh|Hx']; [by apply Hin|by apply Hdir].
  - rewrite map_app. fold fresh. intros x Hx. apply Hsplit in Hx as [(n & -> & Hn)%Hfresh|Hx'].
    + right. exists (base ++ ps), n. rewrite <- app_assoc. split; [done|apply list_elem_of_here].
    + apply Hpar in Hx' as [->|(y & m & -> & Hy)]; [by left|right]. exists y, m.
      split; [done|by apply list_elem_of_further].
  - intros l p [Hx|Hx]%elem_of_app; [|apply Hpre; set_solver].
    apply list_elem_of_fmap in Hx as (n & [= -> ->] & Hn). exists (ps ++ [n]).
    split_and!; [done..|]. apply Forall_app. split; [done|]. apply Forall_singleton. by apply Hin.
  - done.
  - intros Hnf qs Hq. rewrite map_app. fold fresh.
    destruct (Hcov Hnf qs Hq) as [Hx|(us & rs & -> & Hrs & Hu)]; [left; apply elem_of_app; by left|].
    apply elem_of_cons in Hu as [Hu|Hu];
      [|right; exists us, rs; split_and!; [done..|]; apply elem_of_app; by right].
    apply app_inv_head in Hu as ->. destruct rs as [|n rs]; [done|]. destruct Hq as (_ & Hx & Hsq & Hm).
    assert (Hn : n ∈ names ∧ is_hidden hidden n = false).
    { split.
      - rewrite Hp, children_spec, <- node_at_snoc. rewrite cons_middle, !app_assoc in Hx.
        by eapply disk_wf_ancestors.
      - apply Forall_app in Hsq as [_ Hsq]. by apply Forall_cons in Hsq as [? _]. }
    destruct (Hc n) as [Hc1 Hc2]; [apply Hn..|]. destruct rs as [|m rs].
    + left. apply elem_of_app. right. by apply Hc1.
    + right. exists (ps ++ [n]), (m :: rs). rewrite <- app_assoc. split_and!; [done..|].
      apply elem_of_app. left. apply Hfresh. exists n. split; [done|]. apply Hc2; [|apply Hnf].
      apply (ancestor_dir d _ m rs Hwf). by rewrite <- !app_assoc.
Qed.

Lemma walk_ok_done done ms :
  walk_ok done [] ms →
  ∃ r : out (list pystr), Some (Ok ms) = Some r ∧
    match r with
    | Err x => ∃ loc, scandir d loc = Err x
    | Ok found => Forall selected found ∧
        ((Z.of_nat (length found) <= max_matches)%Z → no_open_fault → ∀ ps, globbed ps → rel_text ps ∈ found)
    end.
Proof.
  intros [_ _ _ _ Hs Hc]. eexists. split; [done|]. split; [done|]. intros _ Hnf ps Hq.
  destruct (Hc Hnf ps Hq) as [?|(? & ? & _ & _ & Hx)]; [done|by apply elem_of_nil in Hx].
Qed.
(** The walk ends, with what it should have found. *)
Lemma glob_walk_spec fuel done stack ms :
  disk_wf d → walk_ok done stack ms → length done + fuel = S (base.size d) →
  ∃ r, glob_walk fuel d pattern hidden max_matches stack ms = Some r ∧
    match r with
    | Err x => ∃ loc, scandir d loc = Err x
    | Ok found => Forall selected found ∧
        ((Z.of_nat (length found) <= max_matches)%Z → no_open_fault → ∀ ps, globbed ps → rel_text ps ∈ found)
    end.
Proof.
  intros Hwf. revert done stack ms. induction fuel as [|fuel IH]; intros done stack ms Hok Hlen.
  all: destruct stack as [|[loc prefix] stack]; cbn [glob_walk]; [by apply (walk_ok_done _ _ Hok)|].
  all: destruct (Z.ltb_spec max_matches (Z.of_nat (length ms)));
    [eexists; split; [done|]; split; [apply Hok|lia]|].
  - exfalso. pose proof (wo_NoDup _ _ _ Hok) as Hnd. pose proof (wo_dir _ _ _ Hok) as Hdir. cbn [map fst] in *.
    assert (Hsub : done ++ loc :: map fst stack ⊆ [] :: map fst (map_to_list d)).
    { intros x Hx%Hdir. destruct x as [|a x]; [set_solver|]. apply elem_of_cons. right.
      apply list_elem_of_fmap. exists (a :: x, Dir). split; [done|]. by apply elem_of_map_to_list. }
    apply (NoDup_submseteq _ _ Hnd), submseteq_length in Hsub. cbn [length] in Hsub.
    rewrite length_app, !length_map, length_map_to_list in Hsub. cbn [length] in Hsub. lia.
  - destruct (scandir d loc) as [names|x] eqn:Es; [|eexists; split; [done|]; simpl; eauto].
    destruct (glob_dir _ _ _ _ _ _ _ _ _) as [ms' stack'] eqn:Eg.
    destruct (walk_ok_step _ _ _ _ _ _ _ _ Hwf Hok Es Eg) as [[_ Hok']|[Hgt Hsel]].
    + apply (IH (loc :: done)); [done|simpl; lia].
    + destruct fuel, stack' as [|[l p] st]; cbn [glob_walk];
        try (rewrite (proj2 (Z.ltb_lt _ _)) by done); (eexists; split; [done|]; split; [done|lia]).
Qed.
End glob.

Section glob_handler.
Context `{Unicode, Os, Listing, Pread, FileMeta, Codecs}.
#[local] Hint Resolve silent_go silent_answer silent_throw silent_lift silent_require silent_disk_read
  silent_strict silent_lift_os silent_stat silent_text silent_open silent_opened silent_offset
  silent_length silent_content : silent.

Lemma iter_matches_spec d loc pattern hidden limit :
  disk_wf d → node_at d loc = Some Dir → (0 < limit)%Z →
  ∃ r, _iter_matches d loc pattern hidden limit = Some r ∧
    match r with
    | Err x => ∃ l, scandir d l = Err x
    | Ok (ms, truncated) =>
        Sorted str_le ms ∧ (Z.of_nat (length ms) <= limit)%Z ∧ Forall (selected d loc pattern hidden) ms ∧
        if truncated then Z.of_nat (length ms) = limit
        else no_open_fault → ∀ ps, globbed d loc pattern hidden ps → rel_text ps ∈ ms
    end.
Proof.
  intros Hwf Hdir Hlim.
  assert (Hok : walk_ok d loc pattern hidden [] [(loc, [])] []).
  { constructor; cbn [app map fst].
    - apply NoDup_singleton.
    - by intros x ->%list_elem_of_singleton.
    - intros x ->%list_elem_of_singleton. by left.
    - intros l p [= -> ->]%list_elem_of_singleton. exists []. rewrite app_nil_r. split_and!; [done..|constructor].
    - constructor.
    - intros _ ps Hps. right. exists [], ps. split_and!; [done|by destruct Hps|].
      rewrite app_nil_r. by apply list_elem_of_singleton. }
  destruct (glob_walk_spec d loc pattern hidden limit (S (base.size d)) [] _ _ Hwf Hok eq_refl)
    as (r & Hr & Hspec).
  unfold _iter_matches. rewrite Hr. destruct r as [found|x]; [|by eexists].
  destruct Hspec as [Hsel Hall]. eexists. split; [done|]. simpl.
  set (kept := if (limit <? Z.of_nat (length found))%Z then takeN (Z.to_N limit) found else found).
  assert (Hperm : Permutation (sorted_strs kept) kept) by apply merge_sort_Permutation.
  assert (Hlen : length (sorted_strs kept) = length kept) by apply (Permutation_length Hperm).
  assert (Hk : (limit < Z.of_nat (length found))%Z ∧ Z.of_nat (length kept) = limit ∨
               (Z.of_nat (length found) <= limit)%Z ∧ kept = found).
  { unfold kept. destruct (Z.ltb_spec limit (Z.of_nat (length found))); [left|right; done].
    rewrite takeN_take, length_take, Z_N_nat. split; lia. }
  assert (Hsub : Forall (selected d loc pattern hidden) kept).
  { unfold kept. destruct (Z.ltb_spec limit (Z.of_nat (length found))); [|done].
    rewrite takeN_take. by apply Forall_take. }
  split_and!; [apply Sorted_merge_sort, _|rewrite Hlen; destruct Hk as [[_ ?]|[? ->]]; lia|by rewrite Hperm|].
  destruct (Z.ltb_spec limit (Z.of_nat (length found))); rewrite ?Hlen.
  - destruct Hk as [[_ ?]|[? _]]; lia.
  - destruct Hk as [[? _]|[_ Hkf]]; [lia|]. intros Hnf ps Hps. rewrite Hperm, Hkf. by apply Hall.
Qed.

Definition glob_limit (params : dict) : Z :=
  _clamp (default _DEFAULT_GLOB_MAX_MATCHES (int_param "max_matches" params))
    _DEFAULT_GLOB_MAX_MATCHES _HARD_GLOB_MAX_MATCHES.

(** A glob always comes to an end: the walk of [_iter_matches] lists each
    directory once. *)
Theorem glob_terminates d root_fd pattern hidden max_matches :
  disk_wf d → node_at d root_fd = Some Dir → (0 < max_matches)%Z →
  ∃ r, _iter_matches d root_fd pattern hidden max_matches = Some r.
Proof. intros Hw Hd Hm. destruct (iter_matches_spec d root_fd pattern hidden _ Hw Hd Hm) as (r & -> & _). eauto. Qed.

(** C27. What a glob answers with.  [fs.glob] changes nothing.  When it succeeds, the
    root, on which no link lies, is a directory, and the answer lists, in order,
    paths of entries below it that the pattern selects, none through a link and
    no hidden ones unless asked for: all of them, if every directory could be
    opened, or, when it says so, as many as the limit allows. *)
Theorem glob_outcome e params s o s' :
  disk_wf (h_disk s) → sound_roots e (h_disk s) → handle_fs_glob e params s = (o, s') →
  s' = s ∧
  ∀ j, o = Go j → ∃ p pattern ms (truncated : bool),
    let loc := parts (path_of p) in
    let hidden := flag "hidden" params in
    dget "root" params = Some (JStr p) ∧ dget "pattern" params = Some (JStr pattern) ∧
    _valid_glob_pattern pattern = true ∧
    node_at (h_disk s) loc = Some Dir ∧ link_free (links_of (h_disk s)) loc ∧
    Sorted str_le ms ∧ (Z.of_nat (length ms) <= glob_limit params <= _HARD_GLOB_MAX_MATCHES)%Z ∧
    Forall (selected (h_disk s) loc pattern hidden) ms ∧
    (if truncated then Z.of_nat (length ms) = glob_limit params
     else no_open_fault → ∀ ps, globbed (h_disk s) loc pattern hidden ps → rel_text ps ∈ ms) ∧
    j = JDict [("ok"%py, JBool true); ("root"%py, JStr p); ("pattern"%py, JStr pattern);
               ("matches"%py, JList (map JStr ms)); ("truncated"%py, JBool truncated)].
Proof.
  intros Hwf Hsr Hrun. split; [pose proof (silent_fs_glob e params s) as Hq; by rewrite Hrun in Hq|].
  intros j ->. unfold handle_fs_glob in Hrun. fold (glob_limit params) in Hrun.
  sstep Hrun u1 Hm. clear Hm. sstep Hrun p Hm. apply text_Go in Hm as [Hp _].
  sstep Hrun pattern Hm. apply text_Go in Hm as [Hpat _].
  sstep Hrun u2 Hm. apply require_Go in Hm.
  sstep Hrun r Ho. apply open_Go in Ho as (roots & Hroots & ->).
  sstep Hrun fd Ho. apply opened_Go, (opened_at e) in Ho as (-> & Hl & Hd); [|done..].
  sstep Hrun d Hx. injection Hx as <-. unfold id in Hrun.
  assert (Hlim : (0 < glob_limit params <= _HARD_GLOB_MAX_MATCHES)%Z) by (by apply clamp_bounds).
  destruct (iter_matches_spec (h_disk s) _ pattern (flag "hidden" params) _ Hwf (Hd eq_refl) (proj1 Hlim))
    as (r & Hr & Hspec).
  rewrite Hr in Hrun. destruct r as [[ms truncated]|[]]; [|done..].
  destruct Hspec as (Hs & Hle & Hsel & Hall). injection Hrun as <-.
  exists p, pattern, ms, truncated. split_and!; try done; [by apply Hd|lia].
Qed.
End glob_handler.

(** ** Examples *)

#[local] Instance all_printable : Unicode := {| uni_printable := λ _, true; uni_decimal := λ _, None |}.
#[local] Instance no_fault : Os :=
  {| os_fault := λ _, None; os_openat2 := true; os_partial := 0; os_fd := 7 |}.
#[local] Instance listing : Listing :=
  {| scan_order := λ _ ns, rev ns; scan_order_perm := λ _ ns, Permutation_sym (Permutation_rev ns) |}.
#[local] Instance short_reads : Pread := {| pread_limit := λ _ _, 2%N |}.
#[local] Instance no_meta : FileMeta :=
  {| dir_size := λ _, 4096%Z; st_mtime := λ _, FNan; st_ctime := λ _, FNan; st_mode := λ _, 420%Z;
     st_uid := λ _, 0%Z; st_gid := λ _, 0%Z |}.
#[local] Instance no_codec : Codecs :=
  {| codec_decode := λ _ _, Raise (Exn "LookupError" "unknown encoding"); utf8_failure := λ _, [] |}.

Definition tree_disk : disk :=
  <[["share"%py; "d"%py] := Dir]> (<[["share"%py; "d"%py; "x.yaml"%py] := File [104; 105; 33]%N]>
  (<[["share"%py; "d"%py; "l"%py] := Link "/etc"]> (<[["share"%py; "d"%py; "e"%py] := Dir]>
  (<[["share"%py; "d"%py; "e"%py; "y.yaml"%py] := File []]> demo_disk)))).
Lemma tree_wf : disk_wf tree_disk.
Proof. apply disk_wfb_spec. by vm_compute. Qed.
Lemma tree_sound : sound_roots addon_env tree_disk.
Proof. apply addon_sound. by vm_compute. Qed.
Definition tree_world (params : dict) : hst := Hst tree_disk empty_store (fresh_checker params []).

(** Bytes one to two of a file that is read two bytes at a time. *)
Definition range_params : dict :=
  [("path"%py, JStr "/share/d/x.yaml"); ("offset"%py, JInt 1); ("length"%py, JInt 2)].
Example read_outcome_witness :
  (handle_fs_read addon_env range_params (tree_world range_params)).2 = tree_world range_params ∧
  (match (handle_fs_read addon_env range_params (tree_world range_params)).1 with
   | Go (JDict r) => dget "content" r | _ => None end) = Some (JStr "i!").
Proof.
  destruct (handle_fs_read addon_env range_params (tree_world range_params)) as [o s'] eqn:E.
  destruct (read_outcome addon_env range_params (tree_world range_params) o s' tree_sound E) as [Hs _].
  split; [exact Hs|].
  assert (Ho : (match (handle_fs_read addon_env range_params (tree_world range_params)).1 with
    | Go (JDict r) => dget "content" r | _ => None end) = Some (JStr "i!")) by (vm_compute; reflexivity).
  rewrite E in Ho. exact Ho.
Defined.

Definition dir_params : dict := [("path"%py, JStr "/share/d")].
Example list_outcome_witness :
  (handle_fs_list addon_env dir_params (tree_world dir_params)).2 = tree_world dir_params.
Proof.
  destruct (handle_fs_list addon_env dir_params (tree_world dir_params)) as [o s'] eqn:E.
  destruct (list_outcome addon_env dir_params (tree_world dir_params) o s' tree_sound E) as [Hs _].
  exact Hs.
Defined.

Definition yaml_params : dict := [("root"%py, JStr "/share/d"); ("pattern"%py, JStr "**/*.yaml")].
Example glob_outcome_witness :
  (match (handle_fs_glob addon_env yaml_params (tree_world yaml_params)).1 with
   | Go (JDict r) => dget "matches" r | _ => None end) = Some (JList [JStr "e/y.yaml"; JStr "x.yaml"]) ∧
  (handle_fs_glob addon_env yaml_params (tree_world yaml_params)).2 = tree_world yaml_params.
Proof.
  destruct (handle_fs_glob addon_env yaml_params (tree_world yaml_params)) as [o s'] eqn:E.
  destruct (glob_outcome addon_env yaml_params (tree_world yaml_params) o s' tree_wf tree_sound E) as [Hs _].
  split; [|exact Hs].
  assert (Ho : (match (handle_fs_glob addon_env yaml_params (tree_world yaml_params)).1 with
   | Go (JDict r) => dget "matches" r | _ => None end) = Some (JList [JStr "e/y.yaml"; JStr "x.yaml"]))
    by (vm_compute; reflexivity).
  rewrite E in Ho. exact Ho.
Defined.

Example glob_terminates_witness :
  ∃ r, _iter_matches tree_disk ["share"%py; "d"%py] "*" true 5 = Some r.
Proof. apply glob_terminates; [exact tree_wf|by vm_compute|lia]. Defined.
