(* ===== verification/RelayText.v ===== *)
(** The text side of the Assist relay ([chat_relay.py]): session keys, the
    message of a turn, the reply text of a gateway message, the agents a gateway
    lists, and the status lines of a turn. *)

From stdpp Require Import base list gmap sorting.
From Stdlib Require Import NArith ZArith Lia.
From S2P Require Import Prelude PyStr PyFloat Json Config Authz Policy Turn.

(** ** Constants *)

Definition _TOOL_BLOCK_TYPES : list pystr :=
  ["toolCall"; "toolUse"; "functionCall"; "tool_call"; "tool_use"; "function_call";
   "toolResult"; "tool_result"; "tool_result_error"; "function_call_output"].
Definition _SESSION_KEY_PREFIX : pystr := "ha-assist:".
Definition _MCP_PREFIX : pystr := "mcp__openclaw__".
Definition _PENDING_RUN_ID : pystr := "__pending_chat_send_ack__".
Definition _STREAM_PROGRESS_DELTA : pystr := "Working on it...".
(** The dash of this text is U+2014. *)
Definition _HA_ASSIST_CONTEXT : pystr :=
  "[OpenClaw HA Assist session " ++ [8212%N] ++ " do not echo or reference this block. "
  ++ "This is a real-time user request from Home Assistant Assist. "
  ++ "This is NOT a heartbeat poll; do not reply HEARTBEAT_OK.]".
Definition _APPROVAL_WAITING_LINE : pystr :=
  [NL; 9208%N] ++ " Approval required, waiting on you (Discord / Control UI)".
Definition _APPROVAL_DECISION_PREFIX : pystr := NL :: "Approval decision: ".
Definition _APPROVAL_OPT_IN_REFUSALS : list pystr := ["FORBIDDEN"; "UNAVAILABLE"; "INVALID_REQUEST"].
(** The signs in front of a tool name (a wrench), behind a tool that ended and
    behind one that failed. *)
Definition calling : pystr := 128295%N :: " Calling ".
Definition tool_done : pystr := [32%N; 10003%N].
Definition tool_failed : pystr := [32%N; 10007%N; 32%N].

(** ** Keys and messages *)

Definition removeprefix (s p : pystr) : pystr := if startswith s p then drop (length p) s else s.
Definition or_else (a b : pystr) : pystr := match a with [] => b | _ => a end.
Definition _strip_mcp_prefix (name : pystr) : pystr := or_else (removeprefix name _MCP_PREFIX) name.

Definition _session_key (conversation_id : pystr) (agent_id : option pystr) : pystr :=
  let base := _SESSION_KEY_PREFIX ++ conversation_id in
  match agent_id with
  | Some ((_ :: _) as a) => "agent:" ++ a ++ ":" ++ base
  | _ => base
  end.

Definition _build_ha_assist_message (text : pystr) (authz : option TurnAuthz) : pystr :=
  let body := match authz with Some a => apply_turn_authz text a | None => text end in
  _HA_ASSIST_CONTEXT ++ [NL; NL] ++ body.

Definition _approval_terminal_line (approval : dict) : pystr :=
  let status := get_or_null "status" approval in
  let decision := get_or_null "decision" approval in
  let outcome : pystr :=
    match status, decision with
    | JStr s, _ =>
        if bool_decide (s = "allowed"%py)
           && match decision with JStr d => elem d ["allow-once"; "allow-always"] | _ => false end
        then "approved (" ++ match decision with JStr d => d | _ => [] end ++ ")"
        else if bool_decide (s = "denied"%py) then "denied (deny)"
        else if bool_decide (s = "expired"%py) then "timed out"
        else "approval ended"
    | _, _ => "approval ended"
    end in
  _APPROVAL_DECISION_PREFIX ++ outcome.

Definition _is_plain_text_status_chunk (text : pystr) : bool :=
  elem text [_STREAM_PROGRESS_DELTA; _APPROVAL_WAITING_LINE]
  || startswith text _APPROVAL_DECISION_PREFIX
  || startswith text (NL :: calling)
  || startswith text calling
  || startswith text " (x"
  || bool_decide (text = tool_done)
  || startswith text tool_failed.

(** ** The reply text of a message *)

Section text.
Context `{Unicode}.

Definition unhashable : exn := Exn "TypeError" "unhashable type".
(** [x in s] for a set of strings: [x] is hashed first. *)
Definition in_str_set (x : json) (s : list pystr) : res bool :=
  match x with
  | JStr t => Ret (elem t s)
  | JList _ | JDict _ => Raise unhashable
  | _ => Ret false
  end.

(** [a or b or c] of the fields of a message, [""] for an absent one. *)
Definition first_field (d : dict) (ks : list pystr) : json :=
  default (JStr []) (List.find truthy (map (λ k, default (JStr []) (dget k d)) ks)).

(** One block of a content array, [parts] being the texts so far. *)
Definition content_block (parts : list pystr) (block : json) : res (list pystr) :=
  match block with
  | JDict d =>
      let type := get_or_null "type" d in
      if bool_decide (type = JStr "text"%py) then Ret (parts ++ [str_get "text" [] d])
      else
        let? is_tool := in_str_set type _TOOL_BLOCK_TYPES in
        Ret (if is_tool then [] else parts)
  | JStr s => Ret (parts ++ [s])
  | _ => Ret parts
  end.
Fixpoint content_blocks (parts : list pystr) (blocks : list json) : res (list pystr) :=
  match blocks with
  | [] => Ret parts
  | b :: blocks => let? parts := content_block parts b in content_blocks parts blocks
  end.

(** The text of the field a nested message is read from, given the text of
    every field. *)
Definition pick_field (fields : list (pystr * (bool * res pystr))) : res pystr :=
  let text k := match dget k fields with Some (true, t) => Some t | _ => None end in
  match text "content"%py with
  | Some t => t
  | None => match text "text"%py with
            | Some t => t
            | None => default (Ret []) (text "message"%py)
            end
  end.
Fixpoint _extract_text (content : json) : res pystr :=
  match content with
  | JStr s => Ret s
  | JList blocks => let? parts := content_blocks [] blocks in Ret (concat parts)
  | JDict d => pick_field (map (λ kv, (kv.1, (truthy kv.2, _extract_text kv.2))) d)
  | _ => Ret (if truthy content then py_str content else [])
  end.

(** ** The agents of a gateway *)

Definition list_at (k : pystr) (d : dict) : option (list json) :=
  match dget k d with Some (JList l) => Some l | _ => None end.
Definition agent_id_of (raw : json) : option pystr :=
  match raw with
  | JStr ((_ :: _) as s) => Some s
  | JDict d =>
      match get_or_null "id" d, get_or_null "agentId" d with
      | JStr ((_ :: _) as s), _ => Some s
      | _, JStr ((_ :: _) as s) => Some s
      | _, _ => None
      end
  | _ => None
  end.
Definition _extract_agent_ids (response : dict) : list pystr :=
  let raw_agents :=
    match list_at "agents" response, list_at "items" response, get_or_null "data" response with
    | Some l, _, _ => l
    | None, Some l, _ => l
    | None, None, JDict data => default [] (list_at "agents" data)
    | None, None, _ => []
    end in
  sorted_set (list_to_set (omap agent_id_of raw_agents)).
End text.

(** ** What a reply text is made of *)

Section properties.
Context `{Unicode}.

Definition is_tool_block (b : json) : bool :=
  match b with
  | JDict d => match get_or_null "type" d with JStr t => elem t _TOOL_BLOCK_TYPES | _ => false end
  | _ => false
  end.
(** The text of a block: of a text block, or of a bare string. *)
Definition block_text (b : json) : option pystr :=
  match b with
  | JStr s => Some s
  | JDict d => if bool_decide (get_or_null "type" d = JStr "text"%py)
               then Some (str_get "text" [] d) else None
  | _ => None
  end.

Lemma content_block_spec parts b parts' :
  content_block parts b = Ret parts' →
  parts' = if is_tool_block b then [] else parts ++ option_list (block_text b).
Proof.
  unfold content_block, is_tool_block, block_text.
  destruct b as [| | | |s|l|d]; try (intros [= <-]; by rewrite ?app_nil_r).
  case_bool_decide as E; [rewrite E; simpl; by intros [= <-]|].
  destruct (get_or_null "type" d) as [| | | |s|l|d']; simpl; intros H'; try discriminate H';
    injection H' as <-; try (by rewrite app_nil_r).
Qed.
Lemma content_blocks_spec blocks : ∀ parts parts',
  content_blocks parts blocks = Ret parts' →
  ∃ pre post, blocks = pre ++ post ∧ Forall (λ b, is_tool_block b = false) post ∧
    ((pre = [] ∧ parts' = parts ++ omap block_text post) ∨
     (∃ pre' tool, pre = pre' ++ [tool] ∧ is_tool_block tool = true ∧ parts' = omap block_text post)).
Proof.
  induction blocks as [|b blocks IH]; intros parts parts' Hc; simpl in Hc.
  { injection Hc as <-. exists [], []. split_and!; [done..|]. left. by rewrite app_nil_r. }
  destruct (content_block parts b) as [p1|] eqn:Hb; [|discriminate Hc].
  apply content_block_spec in Hb. simpl in Hc.
  destruct (IH _ _ Hc) as (pre & post & -> & Hf & [[-> ->]|(pre' & tool & -> & Ht & ->)]).
  - destruct (is_tool_block b) eqn:Eb; subst p1.
    + exists [b], post. split_and!; [done..|]. right. by exists [], b.
    + exists [], (b :: post). split_and!; [done|by constructor|]. left. split; [done|].
      simpl. by destruct (block_text b); simpl; rewrite <- ?app_assoc, ?app_nil_r.
  - exists (b :: pre' ++ [tool]), post. split_and!; [done..|]. right. by exists (b :: pre'), tool.
Qed.

(** The reply text of a block array is the text of the blocks behind the last
    tool block: nothing that was written before a tool call is part of it. *)
Theorem reply_text_after_tools blocks t :
  _extract_text (JList blocks) = Ret t →
  ∃ pre post, blocks = pre ++ post ∧ t = concat (omap block_text post) ∧
    Forall (λ b, is_tool_block b = false) post ∧
    (pre = [] ∨ ∃ pre' tool, pre = pre' ++ [tool] ∧ is_tool_block tool = true).
Proof.
  simpl. destruct (content_blocks [] blocks) as [parts|] eqn:Hc; [|discriminate].
  intros [= <-].
  destruct (content_blocks_spec _ _ _ Hc) as (pre & post & -> & Hf & [[-> ->]|(pre' & tool & -> & Ht & ->)]).
  - exists [], post. split_and!; [done..|]. by left.
  - exists (pre' ++ [tool]), post. split_and!; [done..|]. right. by exists pre', tool.
Qed.
End properties.

#[local] Instance every_char_prints : Unicode := {| uni_printable := λ _, true; uni_decimal := λ _, None |}.
Definition thought_then_answer : list json :=
  [JDict [("type"%py, JStr "text"); ("text"%py, JStr "Let me look.")];
   JDict [("type"%py, JStr "tool_use"); ("name"%py, JStr "ha.state")];
   JDict [("type"%py, JStr "text"); ("text"%py, JStr "It is ")]; JStr "on."].
Example reply_text_after_tools_witness :
  ∃ pre post, thought_then_answer = pre ++ post ∧ "It is on."%py = concat (omap block_text post) ∧
    Forall (λ b, is_tool_block b = false) post ∧
    (pre = [] ∨ ∃ pre' tool, pre = pre' ++ [tool] ∧ is_tool_block tool = true).
Proof. apply (reply_text_after_tools thought_then_answer). vm_compute. reflexivity. Defined.
