(* ===== verification/PyCase.v ===== *)
(** [str.lower], [str.upper] and [str.casefold].  The tables of Unicode are
    parameters; on ASCII text the three are the usual mappings. *)

From stdpp Require Import base list.
From Stdlib Require Import NArith Lia.
From S2P Require Import Prelude PyStr.

Definition ascii_lower_char (c : N) : N := if ((65 <=? c) && (c <=? 90))%N then (c + 32)%N else c.
Definition ascii_upper_char (c : N) : N := if is_lower c then (c - 32)%N else c.
Definition ascii_lower : pystr → pystr := map ascii_lower_char.
Definition ascii_upper : pystr → pystr := map ascii_upper_char.

Class Casing := {
  py_lower : pystr → pystr;
  py_upper : pystr → pystr;
  py_casefold : pystr → pystr;
  py_lower_ascii s : forallb is_ascii s = true → py_lower s = ascii_lower s;
  py_upper_ascii s : forallb is_ascii s = true → py_upper s = ascii_upper s;
  py_casefold_ascii s : forallb is_ascii s = true → py_casefold s = ascii_lower s;
}.

(** The casing that changes ASCII letters only. *)
Definition ascii_casing : Casing :=
  {| py_lower := ascii_lower; py_upper := ascii_upper; py_casefold := ascii_lower;
     py_lower_ascii := λ _ _, eq_refl; py_upper_ascii := λ _ _, eq_refl; py_casefold_ascii := λ _ _, eq_refl |}.

Lemma ascii_lower_idem s : ascii_lower (ascii_lower s) = ascii_lower s.
Proof.
  unfold ascii_lower. rewrite map_map. apply map_ext. intros c. unfold ascii_lower_char.
  destruct ((65 <=? c) && (c <=? 90))%N eqn:E; [|by rewrite E].
  apply andb_true_iff in E as [?%N.leb_le ?%N.leb_le].
  replace (c + 32 <=? 90)%N with false by (symmetry; apply N.leb_gt; lia). by rewrite andb_false_r.
Qed.
