(* ===== verification/Relay.v ===== *)
(** The state of the Assist relay ([ChatRelay] of [chat_relay.py]) and the
    three calls the connection makes on it: a response, an event, the loss of
    the connection.

    The dictionaries keyed by canonical session key are kept together: [sess r k]
    holds what each of them has for [k], [None] being an absent key.  Futures,
    queues and events are shared objects, so they live in a heap and the
    dictionaries hold their addresses: a turn keeps its queue when the
    dictionary forgets it. *)

From stdpp Require Import base list gmap sorting.
From Stdlib Require Import NArith ZArith Lia.
From S2P Require Import Prelude PyStr PyFloat Json Config Authz Policy Turn RelayText.

Record ChatRelayError := { relay_code : pystr; relay_message : pystr; relay_remedy : option pystr }.
Definition relay_error (code message : pystr) : ChatRelayError :=
  {| relay_code := code; relay_message := message; relay_remedy := None |}.
Definition DISCONNECTED : ChatRelayError := relay_error "DISCONNECTED" "Gateway connection lost".

Inductive tool_phase := phase_start | phase_end.
Record ToolProgressFrame := { frame_phase : tool_phase; frame_name : pystr; frame_id : pystr; frame_seq : Z }.

(** What a stream queue carries: text, the end of the turn, a failure, a frame. *)
Inductive item :=
| QText (s : pystr)
| QClose
| QError (e : ChatRelayError)
| QFrame (f : ToolProgressFrame).

Record Sess := {
  last_assistant_text : option pystr;
  terminal_assistant_text : option pystr;
  reply_event : option N;
  delta_queue : option N;
  active_run_id : option pystr;
  seen_same_run_event : option bool;
  active_tool : option pystr;
  tool_progress_seq : option Z;
  active_tool_id : option pystr;
  active_tool_seq : option Z;
  use_tool_frames : option bool;
  text_tool_name : option pystr;
  text_tool_count : option Z;
  started_tool_ids : option (gset pystr);
  text_has_visible_output : option bool;
  text_status_open : option bool;
  replay_pending : option (gset pystr);
}.
Definition no_sess : Sess := Build_Sess None None None None None None None None None None None None None None None None None.
Definition set_last_assistant_text (v : option pystr) (s : Sess) : Sess :=
  Build_Sess v (terminal_assistant_text s) (reply_event s) (delta_queue s) (active_run_id s)
    (seen_same_run_event s) (active_tool s) (tool_progress_seq s) (active_tool_id s)
    (active_tool_seq s) (use_tool_frames s) (text_tool_name s) (text_tool_count s)
    (started_tool_ids s) (text_has_visible_output s) (text_status_open s) (replay_pending s).
Definition set_terminal_assistant_text (v : option pystr) (s : Sess) : Sess :=
  Build_Sess (last_assistant_text s) v (reply_event s) (delta_queue s) (active_run_id s)
    (seen_same_run_event s) (active_tool s) (tool_progress_seq s) (active_tool_id s)
    (active_tool_seq s) (use_tool_frames s) (text_tool_name s) (text_tool_count s)
    (started_tool_ids s) (text_has_visible_output s) (text_status_open s) (replay_pending s).
Definition set_reply_event (v : option N) (s : Sess) : Sess :=
  Build_Sess (last_assistant_text s) (terminal_assistant_text s) v (delta_queue s)
    (active_run_id s) (seen_same_run_event s) (active_tool s) (tool_progress_seq s)
    (active_tool_id s) (active_tool_seq s) (use_tool_frames s) (text_tool_name s)
    (text_tool_count s) (started_tool_ids s) (text_has_visible_output s) (text_status_open s)
    (replay_pending s).
Definition set_delta_queue (v : option N) (s : Sess) : Sess :=
  Build_Sess (last_assistant_text s) (terminal_assistant_text s) (reply_event s) v
    (active_run_id s) (seen_same_run_event s) (active_tool s) (tool_progress_seq s)
    (active_tool_id s) (active_tool_seq s) (use_tool_frames s) (text_tool_name s)
    (text_tool_count s) (started_tool_ids s) (text_has_visible_output s) (text_status_open s)
    (replay_pending s).
Definition set_active_run_id (v : option pystr) (s : Sess) : Sess :=
  Build_Sess (last_assistant_text s) (terminal_assistant_text s) (reply_event s) (delta_queue s) v
    (seen_same_run_event s) (active_tool s) (tool_progress_seq s) (active_tool_id s)
    (active_tool_seq s) (use_tool_frames s) (text_tool_name s) (text_tool_count s)
    (started_tool_ids s) (text_has_visible_output s) (text_status_open s) (replay_pending s).
Definition set_seen_same_run_event (v : option bool) (s : Sess) : Sess :=
  Build_Sess (last_assistant_text s) (terminal_assistant_text s) (reply_event s) (delta_queue s)
    (active_run_id s) v (active_tool s) (tool_progress_seq s) (active_tool_id s)
    (active_tool_seq s) (use_tool_frames s) (text_tool_name s) (text_tool_count s)
    (started_tool_ids s) (text_has_visible_output s) (text_status_open s) (replay_pending s).
Definition set_active_tool (v : option pystr) (s : Sess) : Sess :=
  Build_Sess (last_assistant_text s) (terminal_assistant_text s) (reply_event s) (delta_queue s)
    (active_run_id s) (seen_same_run_event s) v (tool_progress_seq s) (active_tool_id s)
    (active_tool_seq s) (use_tool_frames s) (text_tool_name s) (text_tool_count s)
    (started_tool_ids s) (text_has_visible_output s) (text_status_open s) (replay_pending s).
Definition set_tool_progress_seq (v : option Z) (s : Sess) : Sess :=
  Build_Sess (last_assistant_text s) (terminal_assistant_text s) (reply_event s) (delta_queue s)
    (active_run_id s) (seen_same_run_event s) (active_tool s) v (active_tool_id s)
    (active_tool_seq s) (use_tool_frames s) (text_tool_name s) (text_tool_count s)
    (started_tool_ids s) (text_has_visible_output s) (text_status_open s) (replay_pending s).
Definition set_active_tool_id (v : option pystr) (s : Sess) : Sess :=
  Build_Sess (last_assistant_text s) (terminal_assistant_text s) (reply_event s) (delta_queue s)
    (active_run_id s) (seen_same_run_event s) (active_tool s) (tool_progress_seq s) v
    (active_tool_seq s) (use_tool_frames s) (text_tool_name s) (text_tool_count s)
    (started_tool_ids s) (text_has_visible_output s) (text_status_open s) (replay_pending s).
Definition set_active_tool_seq (v : option Z) (s : Sess) : Sess :=
  Build_Sess (last_assistant_text s) (terminal_assistant_text s) (reply_event s) (delta_queue s)
    (active_run_id s) (seen_same_run_event s) (active_tool s) (tool_progress_seq s)
    (active_tool_id s) v (use_tool_frames s) (text_tool_name s) (text_tool_count s)
    (started_tool_ids s) (text_has_visible_output s) (text_status_open s) (replay_pending s).
Definition set_use_tool_frames (v : option bool) (s : Sess) : Sess :=
  Build_Sess (last_assistant_text s) (terminal_assistant_text s) (reply_event s) (delta_queue s)
    (active_run_id s) (seen_same_run_event s) (active_tool s) (tool_progress_seq s)
    (active_tool_id s) (active_tool_seq s) v (text_tool_name s) (text_tool_count s)
    (started_tool_ids s) (text_has_visible_output s) (text_status_open s) (replay_pending s).
Definition set_text_tool_name (v : option pystr) (s : Sess) : Sess :=
  Build_Sess (last_assistant_text s) (terminal_assistant_text s) (reply_event s) (delta_queue s)
    (active_run_id s) (seen_same_run_event s) (active_tool s) (tool_progress_seq s)
    (active_tool_id s) (active_tool_seq s) (use_tool_frames s) v (text_tool_count s)
    (started_tool_ids s) (text_has_visible_output s) (text_status_open s) (replay_pending s).
Definition set_text_tool_count (v : option Z) (s : Sess) : Sess :=
  Build_Sess (last_assistant_text s) (terminal_assistant_text s) (reply_event s) (delta_queue s)
    (active_run_id s) (seen_same_run_event s) (active_tool s) (tool_progress_seq s)
    (active_tool_id s) (active_tool_seq s) (use_tool_frames s) (text_tool_name s) v
    (started_tool_ids s) (text_has_visible_output s) (text_status_open s) (replay_pending s).
Definition set_started_tool_ids (v : option (gset pystr)) (s : Sess) : Sess :=
  Build_Sess (last_assistant_text s) (terminal_assistant_text s) (reply_event s) (delta_queue s)
    (active_run_id s) (seen_same_run_event s) (active_tool s) (tool_progress_seq s)
    (active_tool_id s) (active_tool_seq s) (use_tool_frames s) (text_tool_name s)
    (text_tool_count s) v (text_has_visible_output s) (text_status_open s) (replay_pending s).
Definition set_text_has_visible_output (v : option bool) (s : Sess) : Sess :=
  Build_Sess (last_assistant_text s) (terminal_assistant_text s) (reply_event s) (delta_queue s)
    (active_run_id s) (seen_same_run_event s) (active_tool s) (tool_progress_seq s)
    (active_tool_id s) (active_tool_seq s) (use_tool_frames s) (text_tool_name s)
    (text_tool_count s) (started_tool_ids s) v (text_status_open s) (replay_pending s).
Definition set_text_status_open (v : option bool) (s : Sess) : Sess :=
  Build_Sess (last_assistant_text s) (terminal_assistant_text s) (reply_event s) (delta_queue s)
    (active_run_id s) (seen_same_run_event s) (active_tool s) (tool_progress_seq s)
    (active_tool_id s) (active_tool_seq s) (use_tool_frames s) (text_tool_name s)
    (text_tool_count s) (started_tool_ids s) (text_has_visible_output s) v (replay_pending s).
Definition set_replay_pending (v : option (gset pystr)) (s : Sess) : Sess :=
  Build_Sess (last_assistant_text s) (terminal_assistant_text s) (reply_event s) (delta_queue s)
    (active_run_id s) (seen_same_run_event s) (active_tool s) (tool_progress_seq s)
    (active_tool_id s) (active_tool_seq s) (use_tool_frames s) (text_tool_name s)
    (text_tool_count s) (started_tool_ids s) (text_has_visible_output s) (text_status_open s) v.

(** A future is pending, or done with a payload or an error. *)
Record Relay := {
  pending : gmap pystr N;
  chat_send_canonical : gmap pystr pystr;
  canonical_by_raw : gmap pystr pystr;
  active_turns : gmap pystr Caller;
  ended_turns : list (pystr * Z);
  gateway_agents : option (list pystr);
  subscribed : gset pystr;
  sessions : gmap pystr Sess;
  turn_locks : gmap pystr N;
  futures : gmap N (option (json + ChatRelayError));
  queues : gmap N (list item);
  events : gmap N bool;
  next_ref : N;
}.
Definition set_pending (v : gmap pystr N) (r : Relay) : Relay :=
  Build_Relay v (chat_send_canonical r) (canonical_by_raw r) (active_turns r) (ended_turns r)
    (gateway_agents r) (subscribed r) (sessions r) (turn_locks r) (futures r) (queues r)
    (events r) (next_ref r).
Definition set_chat_send_canonical (v : gmap pystr pystr) (r : Relay) : Relay :=
  Build_Relay (pending r) v (canonical_by_raw r) (active_turns r) (ended_turns r)
    (gateway_agents r) (subscribed r) (sessions r) (turn_locks r) (futures r) (queues r)
    (events r) (next_ref r).
Definition set_canonical_by_raw (v : gmap pystr pystr) (r : Relay) : Relay :=
  Build_Relay (pending r) (chat_send_canonical r) v (active_turns r) (ended_turns r)
    (gateway_agents r) (subscribed r) (sessions r) (turn_locks r) (futures r) (queues r)
    (events r) (next_ref r).
Definition set_active_turns (v : gmap pystr Caller) (r : Relay) : Relay :=
  Build_Relay (pending r) (chat_send_canonical r) (canonical_by_raw r) v (ended_turns r)
    (gateway_agents r) (subscribed r) (sessions r) (turn_locks r) (futures r) (queues r)
    (events r) (next_ref r).
Definition set_ended_turns (v : list (pystr * Z)) (r : Relay) : Relay :=
  Build_Relay (pending r) (chat_send_canonical r) (canonical_by_raw r) (active_turns r) v
    (gateway_agents r) (subscribed r) (sessions r) (turn_locks r) (futures r) (queues r)
    (events r) (next_ref r).
Definition set_gateway_agents (v : option (list pystr)) (r : Relay) : Relay :=
  Build_Relay (pending r) (chat_send_canonical r) (canonical_by_raw r) (active_turns r)
    (ended_turns r) v (subscribed r) (sessions r) (turn_locks r) (futures r) (queues r) (events r)
    (next_ref r).
Definition set_subscribed (v : gset pystr) (r : Relay) : Relay :=
  Build_Relay (pending r) (chat_send_canonical r) (canonical_by_raw r) (active_turns r)
    (ended_turns r) (gateway_agents r) v (sessions r) (turn_locks r) (futures r) (queues r)
    (events r) (next_ref r).
Definition set_sessions (v : gmap pystr Sess) (r : Relay) : Relay :=
  Build_Relay (pending r) (chat_send_canonical r) (canonical_by_raw r) (active_turns r)
    (ended_turns r) (gateway_agents r) (subscribed r) v (turn_locks r) (futures r) (queues r)
    (events r) (next_ref r).
Definition set_turn_locks (v : gmap pystr N) (r : Relay) : Relay :=
  Build_Relay (pending r) (chat_send_canonical r) (canonical_by_raw r) (active_turns r)
    (ended_turns r) (gateway_agents r) (subscribed r) (sessions r) v (futures r) (queues r)
    (events r) (next_ref r).
Definition set_futures (v : gmap N (option (json + ChatRelayError))) (r : Relay) : Relay :=
  Build_Relay (pending r) (chat_send_canonical r) (canonical_by_raw r) (active_turns r)
    (ended_turns r) (gateway_agents r) (subscribed r) (sessions r) (turn_locks r) v (queues r)
    (events r) (next_ref r).
Definition set_queues (v : gmap N (list item)) (r : Relay) : Relay :=
  Build_Relay (pending r) (chat_send_canonical r) (canonical_by_raw r) (active_turns r)
    (ended_turns r) (gateway_agents r) (subscribed r) (sessions r) (turn_locks r) (futures r) v
    (events r) (next_ref r).
Definition set_events (v : gmap N bool) (r : Relay) : Relay :=
  Build_Relay (pending r) (chat_send_canonical r) (canonical_by_raw r) (active_turns r)
    (ended_turns r) (gateway_agents r) (subscribed r) (sessions r) (turn_locks r) (futures r)
    (queues r) v (next_ref r).
Definition set_next_ref (v : N) (r : Relay) : Relay :=
  Build_Relay (pending r) (chat_send_canonical r) (canonical_by_raw r) (active_turns r)
    (ended_turns r) (gateway_agents r) (subscribed r) (sessions r) (turn_locks r) (futures r)
    (queues r) (events r) v.
(** [ChatRelay.__init__] *)
Definition new_relay : Relay := Build_Relay ∅ ∅ ∅ ∅ [] None ∅ ∅ ∅ ∅ ∅ ∅ 0.

Definition sess (r : Relay) (k : pystr) : Sess := default no_sess (sessions r !! k).
Definition upd (k : pystr) (f : Sess → Sess) (r : Relay) : Relay :=
  set_sessions (<[k := f (sess r k)]> (sessions r)) r.

(** A fresh address. *)
Definition alloc (r : Relay) : N * Relay := (next_ref r, set_next_ref (next_ref r + 1)%N r).

(** [queue.put_nowait] on the queue at an address, and on the queue of a session. *)
Definition put_at (q : N) (i : item) (r : Relay) : Relay :=
  set_queues (<[q := default [] (queues r !! q) ++ [i]]> (queues r)) r.
Definition put (k : pystr) (i : item) (r : Relay) : Relay :=
  match delta_queue (sess r k) with Some q => put_at q i r | None => r end.

(** ** Responses *)

Section relay.
Context `{Unicode}.

(** [str(d.get("runId", "") or "")] *)
Definition run_id_of (d : dict) : pystr :=
  let v := get_or_null "runId" d in if truthy v then py_str v else [].

Definition resolve (f : N) (v : json + ChatRelayError) (r : Relay) : Relay :=
  set_futures (<[f := Some v]> (futures r)) r.

(** The run id of a [chat.send] acknowledgement replaces the sentinel. *)
Definition apply_run_id (req_id : pystr) (payload : json) (r : Relay) : Relay :=
  match chat_send_canonical r !! req_id, payload with
  | Some key, JDict d =>
      match run_id_of d with
      | [] => if bool_decide (active_run_id (sess r key) = Some _PENDING_RUN_ID)
              then upd key (set_active_run_id None) r else r
      | new_run_id => upd key (set_active_run_id (Some new_run_id)) r
      end
  | _, _ => r
  end.
Definition error_of_response (msg : dict) : ChatRelayError :=
  match default (JDict []) (dget "error" msg) with
  | JDict e => relay_error (str_get "code" "UNKNOWN" e) (str_get "message" [] e)
  | raw => let code := if truthy raw then py_str raw else "UNKNOWN" in relay_error code code
  end.
Definition handle_response (msg : dict) (r : Relay) : Relay * bool :=
  match get_or_null "id" msg with
  | JStr req_id =>
      match pending r !! req_id with
      | Some f =>
          match futures r !! f with
          | Some None =>
              if truthy (get_or_null "ok" msg)
              then
                let payload := get_or_null "payload" msg in
                let payload := if truthy payload then payload else JDict [] in
                (resolve f (inl payload) (apply_run_id req_id payload r), true)
              else (resolve f (inr (error_of_response msg)) r, true)
          | _ => (r, false)
          end
      | None => (r, false)
      end
  | _ => (r, false)
  end.

(** ** Approval events *)

Definition _push_approval_line (key line : pystr) (r : Relay) : Relay :=
  match delta_queue (sess r key) with
  | Some _ =>
      if default false (use_tool_frames (sess r key)) then r
      else upd key (set_text_status_open (Some true))
             (upd key (set_text_has_visible_output (Some true)) (put key (QText line) r))
  | None => r
  end.

(** The canonical form of a key an event carries. *)
Definition canonical_of (raw_key : pystr) (r : Relay) : pystr :=
  or_else (default [] (canonical_by_raw r !! raw_key)) raw_key.

Definition discard_replay (key id : pystr) (r : Relay) : Relay :=
  match replay_pending (sess r key) with
  | Some replayed =>
      let replayed := replayed ∖ {[id]} in
      upd key (set_replay_pending (if decide (replayed = ∅) then None else Some replayed)) r
  | None => r
  end.
Definition _handle_approval_event (payload : dict) (r : Relay) : Relay :=
  let key := canonical_of (str_get "sessionKey" [] payload) r in
  match get_or_null "approval" payload with
  | JDict approval =>
      let phase := get_or_null "phase" payload in
      if bool_decide (phase = JStr "pending"%py) then _push_approval_line key _APPROVAL_WAITING_LINE r
      else if bool_decide (phase = JStr "terminal"%py) then
        _push_approval_line key (_approval_terminal_line approval)
          (discard_replay key (py_str (get_or_null "id" approval)) r)
      else r
  | _ => r
  end.

(** ** Tool events *)

(** [d.get(a) or d.get(b) or …] *)
Definition first_of (d : dict) (ks : list pystr) : json :=
  default JNull (List.find truthy (map (λ k, get_or_null k d) ks)).
(** [str(x or "")] *)
Definition text_or_empty (j : json) : pystr := if truthy j then py_str j else [].

(** A tool event of another run, or one that may be. *)
Definition stale_tool (key tool_run_id : pystr) (r : Relay) : bool :=
  match active_run_id (sess r key) with
  | Some ((_ :: _) as active_run) =>
      bool_decide (active_run = _PENDING_RUN_ID)
      || match tool_run_id with
         | [] => negb (default false (seen_same_run_event (sess r key)))
         | _ => negb (bool_decide (tool_run_id = active_run))
         end
  | _ => false
  end.

Definition frame_start (key name id : pystr) (r : Relay) : Relay :=
  let seq := (default 0 (tool_progress_seq (sess r key)) + 1)%Z in
  let r := upd key (set_tool_progress_seq (Some seq)) r in
  let r := upd key (set_active_tool_id (Some id)) r in
  let r := upd key (set_active_tool_seq (Some seq)) r in
  put key (QFrame {| frame_phase := phase_start; frame_name := name; frame_id := id; frame_seq := seq |}) r.
Definition text_start (key name : pystr) (r : Relay) : Relay :=
  match delta_queue (sess r key) with
  | None => r
  | Some _ =>
      if bool_decide (default [] (text_tool_name (sess r key)) = name) then
        let count := (default 1 (text_tool_count (sess r key)) + 1)%Z in
        put key (QText (" (x" ++ str_of_Z count ++ ")...")) (upd key (set_text_tool_count (Some count)) r)
      else
        let r := upd key (set_text_tool_name (Some name)) r in
        let r := upd key (set_text_tool_count (Some 1%Z)) r in
        let prefix := if default false (text_has_visible_output (sess r key)) then [NL] else [] in
        let r := put key (QText (prefix ++ calling ++ name ++ "...")) r in
        upd key (set_text_status_open (Some true)) (upd key (set_text_has_visible_output (Some true)) r)
  end.
Definition tool_start (key name id dedup_id : pystr) (r : Relay) : Relay :=
  let started := default ∅ (started_tool_ids (sess r key)) in
  let known := negb (bool_decide (dedup_id = [])) && bool_decide (dedup_id ∈ started) in
  if known then r
  else
    let r := match dedup_id with
             | [] => r
             | _ => upd key (set_started_tool_ids (Some ({[dedup_id]} ∪ started))) r
             end in
    let r := upd key (set_active_tool (Some name)) r in
    if default false (use_tool_frames (sess r key)) then frame_start key name id r
    else text_start key name r.

Definition frame_end (key : pystr) (name : option pystr) (id : pystr) (r : Relay) : Relay :=
  let s := sess r key in
  let active_seq := default 0%Z (active_tool_seq s) in
  let active_id := default [] (active_tool_id s) in
  let active_name := default [] (active_tool s) in
  let end_seq := default 0%Z (tool_progress_seq s) in
  let id_match := negb (bool_decide (id = [])) && bool_decide (id = active_id) in
  let both_idless_name_match :=
    bool_decide (id = []) && bool_decide (active_id = [])
    && match name with Some ((_ :: _) as n) => bool_decide (n = active_name) | _ => true end in
  if (id_match || both_idless_name_match) && (active_seq <=? end_seq)%Z then
    let r := put key (QFrame {| frame_phase := phase_end;
                                frame_name := or_else active_name (default [] name);
                                frame_id := active_id; frame_seq := active_seq |}) r in
    upd key (set_active_tool_seq None) (upd key (set_active_tool_id None) (upd key (set_active_tool None) r))
  else r.
(** A mark behind the last tool line of the plain-text stream. *)
Definition text_end (key mark : pystr) (r : Relay) : Relay :=
  let r := match delta_queue (sess r key) with
           | Some _ => upd key (set_text_status_open (Some true))
                         (upd key (set_text_has_visible_output (Some true)) (put key (QText mark) r))
           | None => r
           end in
  upd key (set_active_tool None) r.

Definition handle_tool_event (stream : pystr) (payload : dict) (r : Relay) : Relay :=
  let key := canonical_of (str_get "sessionKey" [] payload) r in
  let item := bool_decide (stream = "item"%py) in
  match get_or_null "data" payload with
  | JDict data =>
      if bool_decide (key = []) then r
      else if item && negb (bool_decide (get_or_null "kind" data = JStr "tool"%py))
                && negb (truthy (get_or_null "toolCallId" data)) then r
      else if stale_tool key (run_id_of payload) r then r
      else
        let phase := get_or_null "phase" data in
        let name := match first_of data (if item then ["name"; "title"] else ["name"])%py with
                    | JStr n => Some (_strip_mcp_prefix n) | _ => None end in
        let id := text_or_empty (first_of data ["id"; "toolCallId"; "itemId"]) in
        let use_frames := default false (use_tool_frames (sess r key)) in
        if bool_decide (phase = JStr "start"%py) then
          match name with
          | Some ((_ :: _) as name) =>
              tool_start key name id
                (removeprefix (text_or_empty (first_of data ["toolCallId"; "id"; "itemId"])) "tool:") r
          | _ => r
          end
        else if bool_decide (phase = JStr "end"%py) then
          if use_frames then frame_end key name id r else text_end key tool_done r
        else if bool_decide (phase = JStr "error"%py) then
          if use_frames then r
          else
            let error := get_or_null "error" data in
            text_end key (tool_failed ++ (if truthy error then py_str error else "failed")) r
        else r
  | _ => r
  end.

(** ** Reply events *)

(** The role and the text a message event carries. *)
Definition message_text (payload : dict) : res (pystr * pystr) :=
  let role := str_get "role" [] payload in
  match default (JStr []) (dget "message" payload) with
  | JDict m =>
      let? t := _extract_text (first_field m ["content"; "text"; "message"]) in
      Ret (or_else role (str_get "role" [] m), t)
  | j => let? t := _extract_text j in Ret (role, t)
  end.
Definition session_message (payload : dict) : res (pystr * pystr) :=
  let? (role, text) := message_text payload in
  match text with
  | [] => let? t := _extract_text (first_field payload ["text"; "content"]) in Ret (role, t)
  | _ => Ret (role, text)
  end.
Definition chat_message (payload : dict) : res (pystr * pystr) :=
  match default (JStr []) (dget "message" payload) with
  | JDict _ => message_text payload
  | j => let? t := _extract_text (if truthy j then j else default (JStr []) (dget "text" payload)) in
         Ret (str_get "role" [] payload, t)
  end.

Definition is_chat_family (event : json) : bool :=
  match event with JStr e => startswith e "chat" | _ => false end.
Definition is_session_msg (event : json) : bool := bool_decide (event = JStr "session.message"%py).

(** A reply event of another run, or one that may be. *)
Definition stale_reply (event : json) (key event_run_id : pystr) (r : Relay) : bool :=
  let s := sess r key in
  match active_run_id s with
  | Some ((_ :: _) as active_run) =>
      let no_run := bool_decide (event_run_id = []) in
      let pending_run := bool_decide (active_run = _PENDING_RUN_ID) in
      negb no_run && negb (bool_decide (event_run_id = active_run))
      || is_chat_family event && no_run
      || pending_run && no_run
      || is_session_msg event && no_run && bool_decide (default [] (terminal_assistant_text s) ≠ [])
      || is_session_msg event && no_run && negb pending_run
         && bool_decide (is_Some (delta_queue s)) && negb (default false (seen_same_run_event s))
  | _ => false
  end.
Definition mark_seen (key event_run_id : pystr) (r : Relay) : Relay :=
  match active_run_id (sess r key) with
  | Some ((_ :: _) as active_run) =>
      if negb (bool_decide (event_run_id = [])) && bool_decide (event_run_id = active_run)
         && negb (bool_decide (active_run = _PENDING_RUN_ID))
      then upd key (set_seen_same_run_event (Some true)) r else r
  | _ => r
  end.

(** The text of an accepted reply event: it is recorded, and on a terminal
    event it is delivered to whoever waits. *)
Definition deliver (key text : pystr) (r : Relay) : Relay :=
  let r := put key QClose (put key (QText text) r) in
  let r := upd key (set_terminal_assistant_text (Some text)) r in
  match reply_event (sess r key) with
  | Some e => set_events (<[e := true]> (events r)) r
  | None => r
  end.
Definition is_terminal (event : json) (payload : dict) : bool :=
  is_session_msg event ||
  match get_or_null "state" payload with JNull => true | JStr s => bool_decide (s = "final"%py) | _ => false end.
Definition capture_reply (event : json) (payload : dict) (role text : pystr) (r : Relay) : Relay :=
  let key := str_get "sessionKey" [] payload in
  let event_run_id := run_id_of payload in
  if negb (bool_decide (role = "assistant"%py)) || bool_decide (key = []) || bool_decide (text = []) then r
  else
    match reply_event (sess r key), delta_queue (sess r key) with
    | None, None => r
    | _, _ =>
        if stale_reply event key event_run_id r then r
        else
          let r := upd key (set_last_assistant_text (Some text)) (mark_seen key event_run_id r) in
          if is_terminal event payload then deliver key text r else r
    end.

Definition handle_event (msg : dict) (r : Relay) : res Relay :=
  let event := default (JStr []) (dget "event" msg) in
  match default (JDict []) (dget "payload" msg) with
  | JDict payload =>
      let stream := get_or_null "stream" payload in
      let tool_event :=
        match event, stream with
        | JStr e, JStr s => if elem e ["agent"; "session.tool"] && elem s ["tool"; "item"] then Some s else None
        | _, _ => None
        end in
      if bool_decide (event = JStr "session.approval"%py) then Ret (_handle_approval_event payload r)
      else
        match tool_event with
        | Some s => Ret (handle_tool_event s payload r)
        | None =>
            if is_session_msg event then
              let? (role, text) := session_message payload in Ret (capture_reply event payload role text r)
            else if is_chat_family event then
              let? (role, text) := chat_message payload in Ret (capture_reply event payload role text r)
            else Ret r
        end
  | _ => Ret r
  end.
End relay.

(** ** Loss of the connection *)

Definition fail_pending (r : Relay) : Relay :=
  set_futures (map_fold (λ _ f fs, match fs !! f with
                                   | Some None => <[f := Some (inr DISCONNECTED)]> fs
                                   | _ => fs end) (futures r) (pending r)) r.
Definition close_queues (r : Relay) : Relay :=
  map_fold (λ _ s r, match delta_queue s with Some q => put_at q (QError DISCONNECTED) r | None => r end)
    r (sessions r).
Definition wake_waiters (r : Relay) : Relay :=
  set_events (map_fold (λ _ s es, match reply_event s with Some e => <[e := true]> es | None => es end)
                (events r) (sessions r)) r.
(** [reset] clears every dictionary but the principals of the turns in flight,
    the turns that ended and the agents of the gateway. *)
Definition reset (r : Relay) : Relay :=
  let r := wake_waiters (close_queues (fail_pending r)) in
  Build_Relay ∅ ∅ ∅ (active_turns r) (ended_turns r) (gateway_agents r) ∅ ∅ ∅
    (futures r) (queues r) (events r) (next_ref r).
