(* ===== verification/RelayTurn.v ===== *)
(** The turns of the Assist relay ([chat_relay.py]): the registry of the
    principals in flight, the session of a conversation, and the two ways a turn
    runs, [stream_turn] and [relay_turn].

    A turn is cut at its awaits: each definition is the code between two of
    them, as a function of the relay, and what the await delivered is an
    argument.  Times are in microseconds of the monotonic clock. *)

From stdpp Require Import base list gmap sorting.
From Stdlib Require Import NArith ZArith Lia.
From S2P Require Import Prelude PyStr PyCase PyFloat Json Config Authz Policy Turn RelayText Relay.

#[local] Open Scope Z_scope.

(** ** Constants *)

Definition _TURN_TIMEOUT_S : Z := 30 * 1000000.
Definition _STREAM_TURN_TIMEOUT_S : Z := 180 * 1000000.
Definition _ENDED_TURN_TTL_S : Z := 300 * 1000000.
Definition _ENDED_TURN_MAX : nat := 256.
Definition _STREAM_FIRST_KEEPALIVE_S : Z := 8 * 1000000.
Definition _STREAM_KEEPALIVE_INTERVAL_S : Z := 15 * 1000000.
Definition _CAP_TOOL_PROGRESS_FRAMES : pystr := "tool-progress-frames".

(** ** The principals in flight *)

Section registry.
Context `{Casing}.

Definition _prune_ended (now : Z) (ended : list (pystr * Z)) : list (pystr * Z) :=
  let kept := List.filter (λ kt, negb (_ENDED_TURN_TTL_S <? now - kt.2)) ended in
  drop (length kept - _ENDED_TURN_MAX) kept.
Definition _record_ended (now : Z) (session_key : pystr) (r : Relay) : Relay :=
  let canonical := default session_key (canonical_by_raw r !! session_key) in
  set_ended_turns
    (_prune_ended now (dset (py_lower canonical) now (dset (py_lower session_key) now (ended_turns r)))) r.
(** [_active_turn]: what is done on entry, and on every exit. *)
Definition enter_turn (session_key : pystr) (authz : option TurnAuthz) (r : Relay) : Relay :=
  let caller := match authz with Some a => Caller_from_turn a | None => UNTRUSTED end in
  set_active_turns (<[session_key := caller]> (active_turns r)) r.
Definition exit_turn (now : Z) (session_key : pystr) (r : Relay) : Relay :=
  _record_ended now session_key (set_active_turns (delete session_key (active_turns r)) r).

Definition recently_ended (now : Z) (hint : pystr) (r : Relay) : bool * Relay :=
  let ended := _prune_ended now (ended_turns r) in
  (dmem (py_lower (strip hint)) ended, set_ended_turns ended r).

(** The keys a turn answers to. *)
Definition answers_to (r : Relay) (raw hint : pystr) : bool :=
  bool_decide (hint = py_lower raw)
  || bool_decide (hint = py_lower (default raw (canonical_by_raw r !! raw))).
Definition active_caller (hint : pystr) (r : Relay) : option Caller :=
  let hint := py_lower (strip hint) in
  match List.filter (λ kc, answers_to r kc.1 hint) (map_to_list (active_turns r)) with
  | [(_, caller)] => Some caller
  | _ => None
  end.
End registry.

(** ** Calls to the gateway

    A coroutine that makes several calls: it answers, fails, or makes a call and
    goes on with its reply. *)

Inductive calls (A : Type) : Type :=
| Answered (a : A)
| Failed (e : ChatRelayError)
| Call (method : pystr) (params : dict) (k : json + ChatRelayError → calls A).
Arguments Answered {A} a.
Arguments Failed {A} e.
Arguments Call {A} method params k.

(** A call that passes its failure on. *)
Definition _rpc (method : pystr) (params : dict) : calls json :=
  Call method params (λ reply, match reply with inl payload => Answered payload | inr e => Failed e end).

(** What [_rpc] and a [chat.send] leave behind: the request is registered before
    it is sent, and forgotten when its reply is there or its time is up. *)
Definition register (req_id : pystr) (r : Relay) : N * Relay :=
  let '(f, r) := alloc r in
  (f, set_pending (<[req_id := f]> (pending r)) (set_futures (<[f := None]> (futures r)) r)).
Definition unregister (req_id : pystr) (r : Relay) : Relay :=
  set_chat_send_canonical (delete req_id (chat_send_canonical r)) (set_pending (delete req_id (pending r)) r).
Definition timed_out (what : pystr) : ChatRelayError := relay_error "TIMEOUT" what.
(** The value of a future, or the error of a wait that ended before it was done. *)
Definition awaited (what : pystr) (f : N) (r : Relay) : json + ChatRelayError :=
  match futures r !! f with Some (Some v) => v | _ => inr (timed_out what) end.

Section session.
Context `{Unicode} `{Casing}.

(** [_ensure_session] up to the subscription's response. *)
Definition subscribe (session_key : pystr) : calls json :=
  Call "sessions.messages.subscribe" [("key"%py, JStr session_key); ("includeApprovals"%py, JBool true)]
    (λ reply,
       match reply with
       | inl payload => Answered payload
       | inr e =>
           if elem (py_upper (relay_code e)) _APPROVAL_OPT_IN_REFUSALS
           then _rpc "sessions.messages.subscribe" [("key"%py, JStr session_key)]
           else Failed e
       end).
Definition _ensure_session (session_key conversation_id : pystr) : calls json :=
  Call "sessions.create"
    [("key"%py, JStr session_key);
     ("label"%py, JStr ("HA Assist (" ++ take 8 conversation_id ++ ")"))]
    (λ reply,
       match reply with
       | inr e => if contains (py_upper (relay_code e)) "ALREADY_EXISTS" then subscribe session_key else Failed e
       | inl _ => subscribe session_key
       end).
(** What the response says: the canonical key and the approvals that wait. *)
Definition canonical_in (session_key : pystr) (response : json) : pystr :=
  match response with
  | JDict d => match get_or_null "key" d with JStr ((_ :: _) as k) => k | _ => session_key end
  | _ => session_key
  end.
Definition approval_ids (approvals : list json) : list pystr :=
  omap (λ a, match a with
             | JDict d => match get_or_null "id" d with JNull => None | id => Some (py_str id) end
             | _ => None end) approvals.
Definition replayed_in (response : json) : gset pystr :=
  match response with
  | JDict d =>
      match get_or_null "approvalReplay" d with
      | JDict replay => match get_or_null "approvals" replay with
                        | JList approvals => list_to_set (approval_ids approvals)
                        | _ => ∅ end
      | _ => ∅
      end
  | _ => ∅
  end.
Definition adopt_session (session_key : pystr) (response : json) (r : Relay) : Relay :=
  let key := canonical_in session_key response in
  let r := if decide (replayed_in response = ∅) then r
           else upd key (set_replay_pending (Some (replayed_in response))) r in
  set_subscribed ({[key]} ∪ subscribed r)
    (set_canonical_by_raw (<[session_key := key]> (canonical_by_raw r)) r).
(** The canonical key a turn already knows. *)
Definition known_session (session_key : pystr) (r : Relay) : option pystr :=
  match canonical_by_raw r !! session_key with
  | Some key => if bool_decide (key ∈ subscribed r) then Some key else None
  | None => None
  end.

(** ** The agents *)

(** [_ensure_agent_inventory], with the reply of [agents.list]. *)
Definition agents_known (reply : json + ChatRelayError) (r : Relay) : res Relay :=
  match gateway_agents r, reply with
  | Some _, _ | None, inr _ => Ret r
  | None, inl (JDict response) => Ret (set_gateway_agents (Some (_extract_agent_ids response)) r)
  | None, inl _ => Raise (Exn "AttributeError" "object has no attribute 'get'")
  end.
Definition no_owner_remedy : pystr :=
  "No agent is configured to answer. An administrator needs to set "
  ++ "identity.default_agent_id in the OpenClaw add-on configuration.".
Definition _require_resolvable_owner (agent_id : pystr) (r : Relay) : option ChatRelayError :=
  match agent_id, gateway_agents r with
  | [], Some ((_ :: _ :: _) as agents) =>
      Some {| relay_code := "INVALID_REQUEST";
              relay_message :=
                "No agent owns this Assist turn: the gateway has " ++ str_of_nat (length agents)
                ++ " agents and identity.default_agent_id is unset, and this turn is from an "
                ++ "anonymous or unmapped user. Set identity.default_agent_id in the add-on "
                ++ "configuration to one of: " ++ join ", " agents;
              relay_remedy := Some no_owner_remedy |}
  | _, _ => None
  end.
Definition agent_of (authz : option TurnAuthz) : pystr :=
  match authz with Some a => turn_agent_id a | None => [] end.

Definition describe_image_params (image_base64 mime prompt agent_id : pystr) (plugin_timeout_ms : Z)
    (model : pystr) : dict :=
  [("image_base64"%py, JStr image_base64); ("mime"%py, JStr mime); ("prompt"%py, JStr prompt);
   ("timeout_ms"%py, JInt plugin_timeout_ms)]
  ++ match agent_id with [] => [] | _ => [("agent_id"%py, JStr agent_id)] end
  ++ match model with [] => [] | _ => [("model"%py, JStr model)] end.
Definition describe_image (image_base64 mime prompt agent_id : pystr) (plugin_timeout_ms : Z)
    (model : pystr) : calls json :=
  _rpc "hass-node.describe_image" (describe_image_params image_base64 mime prompt agent_id plugin_timeout_ms model).

(** ** What a turn puts in place before its message is sent *)

Definition clear_texts (s : Sess) : Sess :=
  set_active_tool None
    (set_seen_same_run_event (Some false)
       (set_active_run_id (Some _PENDING_RUN_ID)
          (set_terminal_assistant_text None (set_last_assistant_text None s)))).
Definition stream_sess (use_tool_frames : bool) (queue : N) (s : Sess) : Sess :=
  let s := set_active_tool_seq None (set_active_tool_id None (set_tool_progress_seq (Some 0) (clear_texts s))) in
  let s := set_text_tool_count None (set_text_tool_name None (set_use_tool_frames (Some use_tool_frames) s)) in
  let s := set_text_status_open (Some false)
             (set_text_has_visible_output (Some false) (set_started_tool_ids None s)) in
  set_delta_queue (Some queue) s.
Definition show_replayed (key : pystr) (r : Relay) : Relay :=
  match replay_pending (sess r key) with
  | Some ids =>
      let r := upd key (set_replay_pending None) r in
      if decide (ids = ∅) then r else _push_approval_line key _APPROVAL_WAITING_LINE r
  | None => r
  end.
Definition install_stream (key : pystr) (use_tool_frames : bool) (r : Relay) : N * Relay :=
  let '(queue, r) := alloc r in
  let r := upd key (stream_sess use_tool_frames queue) (set_queues (<[queue := []]> (queues r)) r) in
  (queue, show_replayed key r).
Definition install_reply (key : pystr) (r : Relay) : N * Relay :=
  let '(event, r) := alloc r in
  (event, upd key (λ s, set_reply_event (Some event) (clear_texts s))
            (set_events (<[event := false]> (events r)) r)).

(** The [chat.send] frame, registered with the session its answer concerns. *)
Definition chat_send_params (session_key text idempotency_key : pystr) (authz : option TurnAuthz) : dict :=
  [("sessionKey"%py, JStr session_key); ("message"%py, JStr (_build_ha_assist_message text authz));
   ("idempotencyKey"%py, JStr idempotency_key)]
  ++ match agent_of authz with [] => [] | a => [("agentId"%py, JStr a)] end.
Definition request_frame (req_id method : pystr) (params : dict) : dict :=
  [("type"%py, JStr "req"); ("id"%py, JStr req_id); ("method"%py, JStr method); ("params"%py, JDict params)].
Definition register_chat_send (req_id key : pystr) (r : Relay) : N * Relay :=
  let '(f, r) := register req_id r in
  (f, set_chat_send_canonical (<[req_id := key]> (chat_send_canonical r)) r).

Definition _cleanup_pending_turn (key : pystr) (stream : bool) (r : Relay) : Relay :=
  let r := upd key (if stream then set_delta_queue None else set_reply_event None) r in
  let r := if bool_decide (active_run_id (sess r key) = Some _PENDING_RUN_ID)
           then upd key (set_active_run_id None) r else r in
  upd key (set_seen_same_run_event None) r.

(** The end of the wait for the acknowledgement: its payload, or the failure of
    the turn (of the send, of the wait, or what the gateway answered). *)
Definition acknowledged (key req_id : pystr) (stream : bool) (ack : json + ChatRelayError) (r : Relay)
    : option ChatRelayError * Relay :=
  let r := unregister req_id r in
  match ack with
  | inr e => (Some e, _cleanup_pending_turn key stream r)
  | inl payload =>
      let run_id := match payload with JDict d => run_id_of d | _ => [] end in
      (None, upd key (set_active_run_id (match run_id with [] => None | _ => Some run_id end)) r)
  end.

(** ** The loop of a streaming turn *)

Inductive out := OText (s : pystr) | OKeepalive | OFrame (f : ToolProgressFrame).
(** The local variables of the loop. *)
Record loop_state := {
  last_yield_time : Z;
  sent_keepalive_count : Z;
  has_yielded_user_visible : bool;
}.
Inductive iteration :=
| Yields (o : out) (l : loop_state)
| Returns
| Raises (e : ChatRelayError).

Definition next_keepalive_at (l : loop_state) : Z :=
  last_yield_time l + _STREAM_FIRST_KEEPALIVE_S + sent_keepalive_count l * _STREAM_KEEPALIVE_INTERVAL_S.
Definition wait_budget (deadline now : Z) (l : loop_state) : Z :=
  Z.max (Z.min (deadline - now) (Z.max (next_keepalive_at l - now) 0)) 1000.

(** The wait ended at [now] without an item. *)
Definition on_silence (key : pystr) (use_tool_frames : bool) (deadline now : Z) (l : loop_state) (r : Relay)
    : iteration * Relay :=
  if deadline <=? now then (Returns, r)
  else
    let count := sent_keepalive_count l + 1 in
    let hidden := (Yields OKeepalive {| last_yield_time := last_yield_time l; sent_keepalive_count := count;
                                        has_yielded_user_visible := has_yielded_user_visible l |}, r) in
    if (sent_keepalive_count l =? 0) && negb use_tool_frames then
      match active_tool (sess r key) with
      | Some (_ :: _) => hidden
      | _ =>
          let prefix := if has_yielded_user_visible l then [NL] else [] in
          (Yields (OText (prefix ++ _STREAM_PROGRESS_DELTA))
             {| last_yield_time := last_yield_time l; sent_keepalive_count := count;
                has_yielded_user_visible := true |},
           upd key (set_text_status_open (Some true)) (upd key (set_text_has_visible_output (Some true)) r))
      end
    else hidden.

(** An item was taken from the queue at [now]. *)
Definition separated (key text : pystr) (r : Relay) : pystr :=
  if default false (text_status_open (sess r key)) && negb (bool_decide (text = []))
     && negb (_is_plain_text_status_chunk text) && negb (startswith text [NL])
  then NL :: text else text.
Definition on_item (key : pystr) (now : Z) (i : item) (l : loop_state) (r : Relay) : iteration * Relay :=
  match i with
  | QClose => (Returns, r)
  | QError e => (Raises e, r)
  | QFrame f => (Yields (OFrame f) l, r)
  | QText text =>
      (Yields (OText (separated key text r))
         {| last_yield_time := now; sent_keepalive_count := 0; has_yielded_user_visible := true |},
       upd key (set_text_status_open (Some (_is_plain_text_status_chunk text)))
         (upd key (set_text_has_visible_output (Some true)) r))
  end.

(** The deadline has passed: what is queued is yielded without waiting. *)
Fixpoint drain (q : list item) : list out * option ChatRelayError :=
  match q with
  | [] | QClose :: _ => ([], None)
  | QError e :: _ => ([], Some e)
  | QFrame f :: q => let '(os, e) := drain q in (OFrame f :: os, e)
  | QText s :: q => let '(os, e) := drain q in (OText s :: os, e)
  end.

(** [finally]: what the loop leaves. *)
Definition end_stream (key : pystr) : Relay → Relay :=
  upd key (λ s,
    let s := set_tool_progress_seq None (set_use_tool_frames None (set_delta_queue None s)) in
    let s := set_text_tool_name None (set_active_tool_seq None (set_active_tool_id None s)) in
    let s := set_started_tool_ids None (set_text_tool_count None s) in
    set_text_status_open None (set_text_has_visible_output None s)).

(** ** The answer of a turn that does not stream *)

Definition captured_reply (session_key key run_id : pystr) (r : Relay) : pystr + ChatRelayError :=
  let s := sess r key in
  match or_else (default [] (terminal_assistant_text s)) (default [] (last_assistant_text s)) with
  | [] => inr (relay_error "NO_REPLY"
                 ("No assistant reply captured for session " ++ session_key ++ " (canonical=" ++ key
                  ++ ", runId=" ++ run_id ++ ")"))
  | reply => inl reply
  end.
(** Behind the acknowledgement: the terminal text, when it is there already. *)
Definition fast_reply (key : pystr) (r : Relay) : option pystr :=
  match terminal_assistant_text (sess r key) with Some ((_ :: _) as t) => Some t | _ => None end.
Definition end_reply (key : pystr) : Relay → Relay := upd key (set_reply_event None).
End session.
