(* ===== verification/RelayEvents.v ===== *)
(** What one event of the gateway changes in the relay: at most the session it
    names, and in the queue of a turn only status items, unless it is a reply
    event that the turn accepts. *)

From stdpp Require Import base list gmap sorting.
From Stdlib Require Import NArith ZArith Lia.
From S2P Require Import Prelude PyStr PyFloat Json Config Authz Policy Turn RelayText Relay.

(** ** Sessions and queues *)

Lemma sess_upd_eq k f r : sess (upd k f r) k = f (sess r k).
Proof. unfold sess, upd. simpl. by rewrite lookup_insert_eq. Qed.
Lemma sess_upd_ne k k' f r : k ≠ k' → sess (upd k' f r) k = sess r k.
Proof. intros ?. unfold sess, upd. simpl. by rewrite lookup_insert_ne. Qed.
Lemma sess_upd k k' f r : sess (upd k' f r) k = if decide (k = k') then f (sess r k) else sess r k.
Proof. case_decide as E; [subst; apply sess_upd_eq|by apply sess_upd_ne]. Qed.

Definition qget (r : Relay) (q : N) : list item := default [] (queues r !! q).
Lemma qget_put_at q q' i r : qget (put_at q' i r) q = if decide (q = q') then qget r q ++ [i] else qget r q.
Proof.
  unfold qget, put_at. simpl. case_decide as E; [subst; by rewrite lookup_insert_eq|by rewrite lookup_insert_ne].
Qed.
Lemma sess_put k k' i r : sess (put k' i r) k = sess r k.
Proof. unfold put. by destruct (delta_queue (sess r k')). Qed.
Lemma qget_put k q i r :
  qget (put k i r) q = if decide (delta_queue (sess r k) = Some q) then qget r q ++ [i] else qget r q.
Proof.
  unfold put. destruct (delta_queue (sess r k)) as [q'|] eqn:E; [rewrite qget_put_at|]; repeat case_decide; congruence.
Qed.

(** What the other dictionaries hold, and the shared futures. *)
Definition frame (r : Relay) :=
  (pending r, chat_send_canonical r, canonical_by_raw r, active_turns r, ended_turns r, gateway_agents r,
   subscribed r, turn_locks r, futures r, next_ref r).
Lemma frame_put k i r : frame (put k i r) = frame r.
Proof. unfold put. by destruct (delta_queue (sess r k)). Qed.
Lemma events_put k i r : events (put k i r) = events r.
Proof. unfold put. by destruct (delta_queue (sess r k)). Qed.
(** The part of a session that decides who gets a reply. *)
Definition core (s : Sess) := (active_run_id s, delta_queue s, reply_event s, seen_same_run_event s, terminal_assistant_text s).

Definition progress_item (i : item) : Prop :=
  match i with QText s => _is_plain_text_status_chunk s = true | QFrame _ => True | _ => False end.

(** From [r] to [r'], session [k] keeps its core and its queue gains status items. *)
Definition touches (k : pystr) (r r' : Relay) : Prop :=
  frame r' = frame r ∧ events r' = events r ∧ (∀ k', core (sess r' k') = core (sess r k')) ∧
  (∀ k', k' ≠ k → sess r' k' = sess r k') ∧
  (∀ q, delta_queue (sess r k) ≠ Some q → qget r' q = qget r q) ∧
  (∀ q, ∃ ps, Forall progress_item ps ∧ qget r' q = qget r q ++ ps).

Lemma touches_refl k r : touches k r r.
Proof. split_and!; try done. intros q. exists []. split; [done|by rewrite app_nil_r]. Qed.
Lemma touches_trans k r1 r2 r3 : touches k r1 r2 → touches k r2 r3 → touches k r1 r3.
Proof.
  intros (F1 & E1 & C1 & O1 & N1 & Q1) (F2 & E2 & C2 & O2 & N2 & Q2).
  assert (Hd : delta_queue (sess r2 k) = delta_queue (sess r1 k)) by (specialize (C1 k); by injection C1).
  split_and!; [congruence..| | | |].
  - intros k'. by rewrite C2.
  - intros k' ?. rewrite O2 by done. by apply O1.
  - intros q ?. rewrite N2 by congruence. by apply N1.
  - intros q. destruct (Q1 q) as (p1 & F1' & H1), (Q2 q) as (p2 & F2' & ->); rewrite H1.
    exists (p1 ++ p2). split; [by apply Forall_app|by rewrite app_assoc].
Qed.
Lemma touches_upd k f r : (∀ s, core (f s) = core s) → touches k r (upd k f r).
Proof.
  intros Hf. split_and!; try done.
  - intros k'. rewrite sess_upd. case_decide; [by rewrite Hf|done].
  - intros k' ?. by apply sess_upd_ne.
  - intros q. exists []. split; [done|by rewrite app_nil_r].
Qed.
Lemma touches_put k i r : progress_item i → touches k r (put k i r).
Proof.
  intros Hi. split_and!.
  - apply frame_put.
  - apply events_put.
  - intros k'. by rewrite sess_put.
  - intros k' _. by rewrite sess_put.
  - intros q ?. rewrite qget_put. by rewrite decide_False.
  - intros q. rewrite qget_put. case_decide; [exists [i]; split; [by constructor|done]|].
    exists []. split; [done|by rewrite app_nil_r].
Qed.

Ltac touch :=
  repeat first
    [ progress intros
    | apply touches_refl
    | match goal with |- touches _ _ (upd _ _ _) => eapply touches_trans; [|apply touches_upd; done] end
    | match goal with |- touches _ _ (put _ _ _) => eapply touches_trans; [|apply touches_put] end ].

(** ** Status lines *)


Section events.
Context `{Unicode}.

Lemma status_waiting : _is_plain_text_status_chunk _APPROVAL_WAITING_LINE = true.
Proof. vm_compute. reflexivity. Qed.
Lemma status_decision a : _is_plain_text_status_chunk (_approval_terminal_line a) = true.
Proof.
  unfold _is_plain_text_status_chunk, _approval_terminal_line.
  rewrite startswith_app. by rewrite orb_true_r.
Qed.
Lemma status_calling (b : bool) name :
  _is_plain_text_status_chunk ((if b then [NL] else []) ++ calling ++ name) = true.
Proof.
  unfold _is_plain_text_status_chunk.
  destruct b; [change ([NL] ++ calling ++ name) with ((NL :: calling) ++ name)|change ([] ++ calling ++ name) with (calling ++ name)];
    rewrite startswith_app, ?orb_true_r; done.
Qed.
Lemma status_count s : _is_plain_text_status_chunk (" (x" ++ s) = true.
Proof. unfold _is_plain_text_status_chunk. rewrite startswith_app, !orb_true_r. done. Qed.
Lemma status_done : _is_plain_text_status_chunk tool_done = true.
Proof. vm_compute. reflexivity. Qed.
Lemma status_failed s : _is_plain_text_status_chunk (tool_failed ++ s) = true.
Proof. unfold _is_plain_text_status_chunk. rewrite startswith_app, !orb_true_r. done. Qed.

Lemma touches_approval_line k line r :
  _is_plain_text_status_chunk line = true → touches k r (_push_approval_line k line r).
Proof. intros. unfold _push_approval_line. repeat case_match; by touch. Qed.
Lemma touches_discard k id r : touches k r (discard_replay k id r).
Proof. unfold discard_replay. repeat case_match; touch. Qed.

(** The session an approval or a tool event names. *)
Definition event_key (payload : dict) (r : Relay) : pystr := canonical_of (str_get "sessionKey" [] payload) r.

Lemma touches_approval payload r : touches (event_key payload r) r (_handle_approval_event payload r).
Proof.
  unfold _handle_approval_event, event_key. destruct (get_or_null "approval" payload); try apply touches_refl.
  repeat case_match; [apply touches_approval_line, status_waiting| |apply touches_refl].
  eapply touches_trans; [apply touches_discard|]. apply touches_approval_line, status_decision.
Qed.
Lemma touches_start k name id dedup r : touches k r (tool_start k name id dedup r).
Proof.
  unfold tool_start. case_match; [apply touches_refl|].
  set (r1 := match dedup with [] => r | _ => _ end).
  assert (touches k r r1) as Hr1 by (subst r1; destruct dedup; touch).
  eapply touches_trans; [exact Hr1|].
  eapply touches_trans; [apply (touches_upd k (set_active_tool (Some name))); done|].
  case_match; [unfold frame_start; cbv zeta; touch; done|].
  unfold text_start; cbv zeta. case_match; [|apply touches_refl].
  case_match; touch; simpl; [apply status_count|apply status_calling].
Qed.
Lemma touches_text_end k mark r :
  _is_plain_text_status_chunk mark = true → touches k r (text_end k mark r).
Proof. intros. unfold text_end; cbv zeta. case_match; touch; done. Qed.
Lemma touches_frame_end k name id r : touches k r (frame_end k name id r).
Proof. unfold frame_end; cbv zeta. case_match; touch; done. Qed.
Lemma touches_tool stream payload r : touches (event_key payload r) r (handle_tool_event stream payload r).
Proof.
  unfold handle_tool_event, event_key. destruct (get_or_null "data" payload); try apply touches_refl.
  do 3 (case_match; [apply touches_refl|]).
  case_match.
  { match goal with |- touches _ _ (match ?x with Some _ => _ | None => _ end) => destruct x as [[|c n]|] end;
      [apply touches_refl|apply touches_start|apply touches_refl]. }
  case_match; [case_match; [apply touches_frame_end|apply touches_text_end, status_done]|].
  case_match; [|apply touches_refl]. case_match; [apply touches_refl|]. apply touches_text_end, status_failed.
Qed.

(** ** Reply events *)

(** The text of the reply event [msg], from a role and a session. *)
Definition reply_in (msg : dict) (key text : pystr) : Prop :=
  ∃ payload,
    default (JDict []) (dget "payload" msg) = JDict payload ∧ key = str_get "sessionKey" [] payload ∧
    is_terminal (default (JStr []) (dget "event" msg)) payload = true ∧
    (session_message payload = Ret ("assistant"%py, text) ∨ chat_message payload = Ret ("assistant"%py, text)).
Definition event_run (msg : dict) : pystr :=
  match default (JDict []) (dget "payload" msg) with JDict payload => run_id_of payload | _ => [] end.
Definition is_session_message (msg : dict) : bool := is_session_msg (default (JStr []) (dget "event" msg)).

(** The reply event belongs to the turn that waits at [key]: it carries the
    turn's run, or it carries none and cannot be another's. *)
Definition belongs (msg : dict) (s : Sess) : Prop :=
  match active_run_id s with
  | Some ((_ :: _) as run) =>
      event_run msg = run ∨
      (event_run msg = [] ∧ run ≠ _PENDING_RUN_ID ∧ is_session_message msg = true ∧
       default [] (terminal_assistant_text s) = [] ∧
       (is_Some (delta_queue s) → seen_same_run_event s = Some true))
  | _ => True
  end.
(** The event carries the run that is active and known. *)
Definition same_run (msg : dict) (s : Sess) : Prop :=
  match active_run_id s with
  | Some ((_ :: _) as run) => event_run msg = run ∧ run ≠ _PENDING_RUN_ID
  | _ => False
  end.

(** From [r] to [r'] the turn at [k] took the reply [text] of the event [msg],
    or merely learned of the event. *)
Definition noted (k : pystr) (msg : dict) (r r' : Relay) : Prop :=
  frame r' = frame r ∧ (∀ k', k' ≠ k → sess r' k' = sess r k') ∧
  active_run_id (sess r' k) = active_run_id (sess r k) ∧
  delta_queue (sess r' k) = delta_queue (sess r k) ∧ reply_event (sess r' k) = reply_event (sess r k) ∧
  (seen_same_run_event (sess r' k) = seen_same_run_event (sess r k) ∨
   seen_same_run_event (sess r' k) = Some true ∧ same_run msg (sess r k)).
Definition took (k : pystr) (msg : dict) (r r' : Relay) : Prop :=
  noted k msg r r' ∧ belongs msg (sess r k) ∧
  ∃ text, text ≠ [] ∧ reply_in msg k text ∧ terminal_assistant_text (sess r' k) = Some text ∧
    (∀ q, qget r' q = if decide (delta_queue (sess r k) = Some q) then qget r q ++ [QText text; QClose] else qget r q) ∧
    events r' = match reply_event (sess r k) with Some e => <[e := true]> (events r) | None => events r end.
Definition heard (k : pystr) (msg : dict) (r r' : Relay) : Prop :=
  noted k msg r r' ∧ terminal_assistant_text (sess r' k) = terminal_assistant_text (sess r k) ∧
  queues r' = queues r ∧ events r' = events r.

Lemma heard_refl k msg r : heard k msg r r.
Proof. unfold heard, noted. naive_solver. Qed.
Lemma heard_mark k payload msg r :
  default (JDict []) (dget "payload" msg) = JDict payload →
  heard k msg r (mark_seen k (run_id_of payload) r).
Proof.
  intros Hp. unfold mark_seen.
  destruct (active_run_id (sess r k)) as [[|c run]|] eqn:E; [apply heard_refl| |apply heard_refl].
  case_match eqn:Hc; [|apply heard_refl].
  apply andb_true_iff in Hc as [[_ Hr]%andb_true_iff Hn].
  apply bool_decide_eq_true in Hr. apply negb_true_iff, bool_decide_eq_false in Hn.
  unfold heard, noted. rewrite sess_upd_eq. split_and!; try done.
  - intros k' ?. by apply sess_upd_ne.
  - right. split; [done|]. unfold same_run, event_run. by rewrite Hp, E.
Qed.
(** A change of the texts of [k] only. *)
Lemma heard_upd k msg r r1 f :
  (∀ s, core (f s) = core s) → heard k msg r r1 → heard k msg r (upd k f r1).
Proof.
  intros Hf ((F & O & A & D & R & S) & T & Q & E). specialize (Hf (sess r1 k)). injection Hf as H1 H2 H3 H4 H5.
  unfold heard, noted. rewrite sess_upd_eq. split_and!; simpl; [exact F| |congruence..| |congruence|exact Q|exact E].
  - intros k' ?. rewrite sess_upd_ne by done. by apply O.
  - rewrite H4. exact S.
Qed.

Lemma stale_belongs k payload msg r :
  default (JDict []) (dget "payload" msg) = JDict payload →
  stale_reply (default (JStr []) (dget "event" msg)) k (run_id_of payload) r = false →
  is_session_msg (default (JStr []) (dget "event" msg)) = true
    ∨ is_chat_family (default (JStr []) (dget "event" msg)) = true →
  belongs msg (sess r k).
Proof.
  intros Hp Hs Hev. unfold belongs, stale_reply, event_run, is_session_message in *. rewrite Hp.
  destruct (active_run_id (sess r k)) as [[|c run]|]; [done| |done].
  apply orb_false_iff in Hs as [[[[Hs1 Hs2]%orb_false_iff Hs3]%orb_false_iff Hs4]%orb_false_iff Hs5].
  case_bool_decide as En; simpl in *; [|left; by apply negb_false_iff, bool_decide_eq_true in Hs1].
  right. split; [done|]. rewrite andb_true_r in Hs2, Hs3, Hs4, Hs5. destruct Hev as [Hev|Hev]; [|congruence].
  rewrite Hev in *. simpl in *. split_and!.
  - by apply bool_decide_eq_false in Hs3.
  - done.
  - apply bool_decide_eq_false in Hs4. by apply dec_stable.
  - intros Hq. rewrite Hs3 in Hs5. simpl in Hs5. rewrite bool_decide_eq_true_2 in Hs5 by done. simpl in Hs5.
    apply negb_false_iff in Hs5. by destruct (seen_same_run_event (sess r k)) as [[]|].
Qed.

Lemma deliver_took k payload msg text r r1 :
  default (JDict []) (dget "payload" msg) = JDict payload → k = str_get "sessionKey" [] payload →
  is_terminal (default (JStr []) (dget "event" msg)) payload = true →
  session_message payload = Ret ("assistant"%py, text) ∨ chat_message payload = Ret ("assistant"%py, text) →
  text ≠ [] → belongs msg (sess r k) → heard k msg r r1 → took k msg r (deliver k text r1).
Proof.
  intros Hp Hk Ht Hm Hne Hb ((F & O & A & D & R & S) & T & Q & E). unfold took, noted, deliver.
  set (r2 := put k QClose (put k (QText text) r1)).
  assert (Hs2 : ∀ k', sess r2 k' = sess r1 k') by (intros k'; unfold r2; by rewrite !sess_put).
  assert (Hf2 : frame r2 = frame r1) by (unfold r2; by rewrite !frame_put).
  assert (He2 : events r2 = events r1) by (unfold r2; by rewrite !events_put).
  set (r3 := upd k _ r2).
  assert (Hs3 : sess r3 k = set_terminal_assistant_text (Some text) (sess r1 k))
    by (unfold r3; by rewrite sess_upd_eq, Hs2).
  assert (Hq : ∀ q, qget r3 q = if decide (delta_queue (sess r k) = Some q) then qget r q ++ [QText text; QClose] else qget r q).
  { intros q. unfold r3. change (qget (upd _ _ r2) q) with (qget r2 q). unfold r2.
    rewrite !qget_put, !sess_put, D. unfold qget. rewrite Q. case_decide; [by rewrite <- app_assoc|done]. }
  assert (Hr3 : reply_event (sess r3 k) = reply_event (sess r k)) by (rewrite Hs3; exact R).
  rewrite Hr3.
  assert (Hs4 : ∀ k', sess (match reply_event (sess r k) with Some e => set_events (<[e := true]> (events r3)) r3 | None => r3 end) k'
                 = sess r3 k') by (intros; by destruct (reply_event (sess r k))).
  rewrite !Hs4, Hs3. simpl. split_and!; try done.
  - destruct (reply_event (sess r k)); exact (eq_trans Hf2 F).
  - intros k' ?. rewrite Hs4. unfold r3. rewrite sess_upd_ne, Hs2 by done. by apply O.
  - exists text. split_and!; [done| |done| |].
    + exists payload. naive_solver.
    + intros q. rewrite <- Hq. by destruct (reply_event (sess r k)).
    + destruct (reply_event (sess r k)); simpl; [by rewrite He2, E|exact (eq_trans He2 E)].
Qed.

Lemma capture_cases event payload role text r msg :
  default (JDict []) (dget "payload" msg) = JDict payload → event = default (JStr []) (dget "event" msg) →
  is_session_msg event = true ∨ is_chat_family event = true →
  session_message payload = Ret (role, text) ∨ chat_message payload = Ret (role, text) →
  let k := str_get "sessionKey" [] payload in
  heard k msg r (capture_reply event payload role text r) ∨ took k msg r (capture_reply event payload role text r).
Proof.
  intros Hp -> Hev Hm k. unfold capture_reply. fold k.
  case_match eqn:Hg; [left; apply heard_refl|].
  apply orb_false_iff in Hg as [[Hrole%negb_false_iff Hk]%orb_false_iff Htext%bool_decide_eq_false].
  apply bool_decide_eq_true in Hrole. subst role.
  assert (Hmain : ∀ r', r' = (if stale_reply (default (JStr []) (dget "event" msg)) k (run_id_of payload) r then r
     else let r := upd k (set_last_assistant_text (Some text)) (mark_seen k (run_id_of payload) r) in
          if is_terminal (default (JStr []) (dget "event" msg)) payload then deliver k text r else r) →
     heard k msg r r' ∨ took k msg r r').
  { intros r' ->. destruct (stale_reply _ _ _ _) eqn:Hs; [left; apply heard_refl|]. cbv zeta.
    assert (Hh : heard k msg r (upd k (set_last_assistant_text (Some text)) (mark_seen k (run_id_of payload) r)))
      by (apply heard_upd; [done|by apply heard_mark]).
    destruct (is_terminal _ _) eqn:Ht; [right|by left].
    eapply deliver_took; try done. by eapply stale_belongs. }
  destruct (reply_event (sess r k)), (delta_queue (sess r k)); [by apply Hmain..|left; apply heard_refl].
Qed.

(** What one event does: status items in one session, or the news of a reply,
    or the reply itself, and then it belongs to the turn that takes it. *)
Lemma handle_event_cases msg r r' :
  handle_event msg r = Ret r' → ∃ k, touches k r r' ∨ heard k msg r r' ∨ took k msg r r'.
Proof.
  unfold handle_event. set (event := default (JStr []) (dget "event" msg)).
  destruct (default (JDict []) (dget "payload" msg)) as [| | | | | |payload] eqn:Hp;
    try (intros [= <-]; exists []; left; apply touches_refl).
  cbv zeta. case_match; [intros [= <-]; eexists; left; apply touches_approval|].
  match goal with |- match ?x with Some _ => _ | None => _ end = _ → _ => destruct x as [stream|] end;
    [intros [= <-]; eexists; left; apply touches_tool|].
  destruct (is_session_msg event) eqn:Es.
  { destruct (session_message payload) as [[role text]|] eqn:Em; [|discriminate]. intros [= <-].
    exists (str_get "sessionKey" [] payload). right. apply capture_cases; auto. }
  destruct (is_chat_family event) eqn:Ec; [|intros [= <-]; exists []; left; apply touches_refl].
  destruct (chat_message payload) as [[role text]|] eqn:Em; [|discriminate]. intros [= <-].
  exists (str_get "sessionKey" [] payload). right. apply capture_cases; auto.
Qed.
End events.
