(* ===== verification/RelayStream.v ===== *)
(** A streaming turn among the events, responses and other turns that run
    between its awaits, and what it yields. *)

From stdpp Require Import base list gmap sorting relations.
From Stdlib Require Import NArith ZArith Lia.
From S2P Require Import Prelude PyStr PyCase PyFloat Json Config Authz Policy Turn RelayText Relay RelayTurn RelayEvents.

#[local] Open Scope Z_scope.

#[global] Instance ChatRelayError_eq_dec : EqDecision ChatRelayError.
Proof. solve_decision. Defined.

(** ** The turn and its steps *)

Record turn := { t_key : pystr; t_req : pystr; t_future : N; t_queue : N; t_deadline : Z; t_frames : bool }.
Inductive phase := Waiting | Looping (l : loop_state) | Ended (e : option ChatRelayError).
(** The relay, where the turn is, what it has yielded, and the events so far. *)
Record run_state := { rs_relay : Relay; rs_phase : phase; rs_outs : list out; rs_events : list dict }.

(** What other turns may do meanwhile: they serve other sessions.  Nothing in the
    relay keeps two raw keys with one canonical key apart, so this is an
    assumption about the turns that are in flight. *)
Record others (t : turn) (r r' : Relay) : Prop := {
  others_sess : sess r' (t_key t) = sess r (t_key t);
  others_queue : qget r' (t_queue t) = qget r (t_queue t);
  others_future : futures r' !! t_future t = futures r !! t_future t;
  others_pending : pending r' !! t_req t = pending r !! t_req t;
  others_chat : ∀ req, chat_send_canonical r' !! req = Some (t_key t) ↔ chat_send_canonical r !! req = Some (t_key t);
  others_alias : ∀ k, k ≠ t_key t → delta_queue (sess r' k) ≠ Some (t_queue t);
  others_wait : ∀ req, req ≠ t_req t → pending r' !! req ≠ Some (t_future t);
}.

(** [queue.get] takes the first item. *)
Definition pop_queue (t : turn) (r : Relay) : Relay :=
  set_queues (<[t_queue t := tail (qget r (t_queue t))]> (queues r)) r.

Section stream.
Context `{Unicode}.

Definition after_iteration (t : turn) (st : run_state) (it : iteration) (r : Relay) : run_state :=
  match it with
  | Yields o l => {| rs_relay := r; rs_phase := Looping l; rs_outs := rs_outs st ++ [o]; rs_events := rs_events st |}
  | Returns => {| rs_relay := end_stream (t_key t) r; rs_phase := Ended None; rs_outs := rs_outs st;
                  rs_events := rs_events st |}
  | Raises e => {| rs_relay := end_stream (t_key t) r; rs_phase := Ended (Some e); rs_outs := rs_outs st;
                   rs_events := rs_events st |}
  end.
Definition with_relay (st : run_state) (r : Relay) : run_state :=
  {| rs_relay := r; rs_phase := rs_phase st; rs_outs := rs_outs st; rs_events := rs_events st |}.
Definition loop_start (now : Z) : loop_state :=
  {| last_yield_time := now; sent_keepalive_count := 0; has_yielded_user_visible := false |}.

Inductive turn_step (t : turn) : run_state → run_state → Prop :=
| step_event st msg r :
    event_run msg ≠ _PENDING_RUN_ID → handle_event msg (rs_relay st) = Ret r →
    turn_step t st {| rs_relay := r; rs_phase := rs_phase st; rs_outs := rs_outs st;
                      rs_events := rs_events st ++ [msg] |}
| step_response st msg : turn_step t st (with_relay st (handle_response msg (rs_relay st)).1)
| step_reset st : turn_step t st (with_relay st (reset (rs_relay st)))
| step_others st r : others t (rs_relay st) r → turn_step t st (with_relay st r)
| step_ack st ack now e r :
    rs_phase st = Waiting →
    (ack = awaited "chat.send timed out" (t_future t) (rs_relay st) ∨ ∃ e, ack = inr e) →
    acknowledged (t_key t) (t_req t) true ack (rs_relay st) = (e, r) →
    turn_step t st {| rs_relay := r;
                      rs_phase := match e with Some e => Ended (Some e) | None => Looping (loop_start now) end;
                      rs_outs := rs_outs st; rs_events := rs_events st |}
| step_item st l now i rest it r :
    rs_phase st = Looping l → qget (rs_relay st) (t_queue t) = i :: rest →
    on_item (t_key t) now i l (pop_queue t (rs_relay st)) = (it, r) →
    turn_step t st (after_iteration t st it r)
| step_silence st l now it r :
    rs_phase st = Looping l → qget (rs_relay st) (t_queue t) = [] →
    on_silence (t_key t) (t_frames t) (t_deadline t) now l (rs_relay st) = (it, r) →
    turn_step t st (after_iteration t st it r)
| step_drain st l os e :
    rs_phase st = Looping l → drain (qget (rs_relay st) (t_queue t)) = (os, e) →
    turn_step t st {| rs_relay := end_stream (t_key t) (rs_relay st); rs_phase := Ended e;
                      rs_outs := rs_outs st ++ os; rs_events := rs_events st |}.

(** The start: the turn's state is in place and its message registered. *)
Definition started (t : turn) (st : run_state) : Prop :=
  ∃ r0 r1,
    install_stream (t_key t) (t_frames t) r0 = (t_queue t, r1) ∧
    register_chat_send (t_req t) (t_key t) r1 = (t_future t, rs_relay st) ∧
    (∀ k q, delta_queue (sess r0 k) = Some q → (q < next_ref r0)%N) ∧
    (∀ req, req ≠ t_req t → chat_send_canonical r0 !! req ≠ Some (t_key t)) ∧
    (∀ req f, pending r0 !! req = Some f → (f < next_ref r0)%N) ∧
    rs_phase st = Waiting ∧ rs_outs st = [] ∧ rs_events st = [].

(** ** What is yielded *)

Definition progress_out (o : out) : Prop :=
  match o with
  | OText s => _is_plain_text_status_chunk s = true ∨ s = NL :: _STREAM_PROGRESS_DELTA
  | _ => True
  end.
(** The run of an acknowledgement. *)
Definition run_of (payload : json) : option pystr :=
  match payload with
  | JDict d => match run_id_of d with [] => None | run => Some run end
  | _ => None
  end.
(** [text] is the reply of an event of the run, or of one without a run that
    came after an event of the run. *)
Definition own_reply (key : pystr) (run : option pystr) (evs : list dict) (text : pystr) : Prop :=
  ∃ pre msg post, evs = pre ++ msg :: post ∧ reply_in msg key text ∧
    match run with
    | Some run => event_run msg = run ∨
                  (event_run msg = [] ∧ is_session_message msg = true ∧ ∃ m, m ∈ pre ∧ event_run m = run)
    | None => True
    end.
(** [text] is a reply to the message of turn [t], as far as its run tells. *)
Definition answered (t : turn) (r : Relay) (evs : list dict) (text : pystr) : Prop :=
  ∃ payload, futures r !! t_future t = Some (Some (inl payload)) ∧
    own_reply (t_key t) (run_of payload) evs text.

(** The items a queue holds for a turn that has had no answer yet. *)
Definition queue_ok (P : pystr → Prop) (q : list item) : Prop :=
  ∃ ps, Forall progress_item ps ∧
    (q = ps ∨ (∃ e rest, q = ps ++ QError e :: rest) ∨
     (∃ text rest, q = ps ++ QText text :: QClose :: rest ∧ text ≠ [] ∧ P text)).
Definition shows (text' text : pystr) : Prop := text' = text ∨ text' = NL :: text.
Definition outs_answered (P : pystr → Prop) (os : list out) : Prop :=
  ∃ ps text text', Forall progress_out ps ∧ os = ps ++ [OText text'] ∧ shows text' text ∧ text ≠ [] ∧ P text.

(** ** The invariant *)

Definition output_ok (t : turn) (st : run_state) : Prop :=
  let P := answered t (rs_relay st) (rs_events st) in
  let q := qget (rs_relay st) (t_queue t) in
  match rs_phase st with
  | Ended _ => Forall progress_out (rs_outs st) ∨ outs_answered P (rs_outs st)
  | _ => (Forall progress_out (rs_outs st) ∧ queue_ok P q) ∨
         (outs_answered P (rs_outs st) ∧ ∃ rest, q = QClose :: rest)
  end.
Definition unshared (t : turn) (r : Relay) : Prop :=
  (∀ k, k ≠ t_key t → delta_queue (sess r k) ≠ Some (t_queue t)) ∧
  (∀ req, req ≠ t_req t → chat_send_canonical r !! req ≠ Some (t_key t)) ∧
  (∀ req, req ≠ t_req t → pending r !! req ≠ Some (t_future t)) ∧
  (∀ f, pending r !! t_req t = Some f → f = t_future t).

(** The message is out and its acknowledgement has not come. *)
Definition unacknowledged (t : turn) (st : run_state) : Prop :=
  let r := rs_relay st in let s := sess r (t_key t) in
  rs_phase st = Waiting ∧ rs_outs st = [] ∧
  active_run_id s = Some _PENDING_RUN_ID ∧ seen_same_run_event s = Some false ∧
  delta_queue s = Some (t_queue t) ∧
  Forall progress_item (qget r (t_queue t)) ∧
  ((futures r !! t_future t = Some None ∧
    pending r !! t_req t = Some (t_future t) ∧ chat_send_canonical r !! t_req t = Some (t_key t)) ∨
   ∃ e, futures r !! t_future t = Some (Some (inr e))).
(** The gateway has said which run the turn is. *)
Definition running (t : turn) (st : run_state) : Prop :=
  let r := rs_relay st in let s := sess r (t_key t) in
  delta_queue s = Some (t_queue t) ∧ (∀ e, rs_phase st ≠ Ended e) ∧
  ∃ payload, futures r !! t_future t = Some (Some (inl payload)) ∧ (active_run_id s = run_of payload ∨ rs_phase st = Waiting ∧ active_run_id s = Some _PENDING_RUN_ID) ∧
    (seen_same_run_event s = Some true → ∀ run, run_of payload = Some run → ∃ m, m ∈ rs_events st ∧ event_run m = run).
(** The turn's queue gets nothing any more. *)
Definition detached (t : turn) (st : run_state) : Prop :=
  delta_queue (sess (rs_relay st) (t_key t)) ≠ Some (t_queue t) ∧
  futures (rs_relay st) !! t_future t ≠ Some None.
Definition over (t : turn) (st : run_state) : Prop := ∃ e, rs_phase st = Ended e.

Definition stream_inv (t : turn) (st : run_state) : Prop :=
  over t st ∧ (Forall progress_out (rs_outs st) ∨
               outs_answered (answered t (rs_relay st) (rs_events st)) (rs_outs st)) ∨
  unshared t (rs_relay st) ∧ output_ok t st ∧
    (unacknowledged t st ∨ running t st ∨ (detached t st ∧ ∀ e, rs_phase st ≠ Ended e)).

(** ** Facts on queues and outputs *)

Definition settled (t : turn) (r r' : Relay) : Prop :=
  ∀ v, futures r !! t_future t = Some (Some v) → futures r' !! t_future t = Some (Some v).
Lemma own_reply_app key run evs evs' text : own_reply key run evs text → own_reply key run (evs ++ evs') text.
Proof. intros (pre & msg & post & -> & Hr & Hm). exists pre, msg, (post ++ evs'). by rewrite <- app_assoc. Qed.
Lemma answered_app t r r' evs evs' text :
  settled t r r' → answered t r evs text → answered t r' (evs ++ evs') text.
Proof. intros Hs (payload & Hf & Ho). exists payload. split; [by apply Hs|by apply own_reply_app]. Qed.
Lemma answered_settled t r r' evs text : settled t r r' → answered t r evs text → answered t r' evs text.
Proof. intros Hs Ha. rewrite <- (app_nil_r evs). by eapply answered_app. Qed.

Lemma queue_ok_mono (P Q : pystr → Prop) q : (∀ x, P x → Q x) → queue_ok P q → queue_ok Q q.
Proof.
  intros HPQ (ps & Hp & [->|[(e & rest & ->)|(text & rest & -> & Hn & Ht)]]); exists ps; split; try done.
  - by left.
  - right; left. eauto.
  - right; right. exists text, rest. eauto.
Qed.
Lemma queue_ok_app (P : pystr → Prop) q add :
  queue_ok P q → queue_ok P add → queue_ok P (q ++ add).
Proof.
  intros (ps & Hp & [->|[(e & rest & ->)|(text & rest & -> & Hn & Ht)]]) Hadd.
  - destruct Hadd as (ps' & Hp' & Hadd). exists (ps ++ ps'). split; [by apply Forall_app|].
    destruct Hadd as [->|[(e & rest & ->)|(text & rest & -> & ? & ?)]].
    + by left.
    + right; left. exists e, rest. by rewrite app_assoc.
    + right; right. exists text, rest. by rewrite app_assoc.
  - exists ps. split; [done|]. right; left. exists e, (rest ++ add). by rewrite <- app_assoc.
  - exists ps. split; [done|]. right; right. exists text, (rest ++ add). rewrite <- app_assoc. eauto.
Qed.
Lemma queue_ok_progress (P : pystr → Prop) ps : Forall progress_item ps → queue_ok P ps.
Proof. intros. exists ps. eauto. Qed.
Lemma queue_ok_errors (P : pystr → Prop) n e : queue_ok P (replicate n (QError e)).
Proof. destruct n as [|n]; [by apply queue_ok_progress|]. exists []. split; [done|]. right; left. by exists e, (replicate n (QError e)). Qed.
Lemma queue_ok_answer (P : pystr → Prop) text : text ≠ [] → P text → queue_ok P [QText text; QClose].
Proof. intros. exists []. split; [done|]. right; right. by exists text, []. Qed.

Lemma outs_answered_mono (P Q : pystr → Prop) os : (∀ x, P x → Q x) → outs_answered P os → outs_answered Q os.
Proof. intros HPQ (ps & text & text' & ? & ? & ? & ? & ?). exists ps, text, text'. eauto 10. Qed.

(** A step that keeps the turn where it is, extends the events, settles no
    future anew and extends the turn's queue by [add]. *)
Lemma output_ok_extend t st r evs add :
  output_ok t st → settled t (rs_relay st) r → qget r (t_queue t) = qget (rs_relay st) (t_queue t) ++ add →
  queue_ok (answered t r (rs_events st ++ evs)) add →
  output_ok t {| rs_relay := r; rs_phase := rs_phase st; rs_outs := rs_outs st; rs_events := rs_events st ++ evs |}.
Proof.
  unfold output_ok. simpl. intros Ho Hs -> Hadd.
  assert (HP : ∀ x, answered t (rs_relay st) (rs_events st) x → answered t r (rs_events st ++ evs) x)
    by (intros; by eapply answered_app).
  destruct (rs_phase st).
  - destruct Ho as [[Hf Hq]|[Ha (rest & ->)]]; [left|right].
    + split; [done|]. apply queue_ok_app; [by eapply queue_ok_mono|done].
    + split; [by eapply outs_answered_mono|]. by exists (rest ++ add).
  - destruct Ho as [[Hf Hq]|[Ha (rest & ->)]]; [left|right].
    + split; [done|]. apply queue_ok_app; [by eapply queue_ok_mono|done].
    + split; [by eapply outs_answered_mono|]. by exists (rest ++ add).
  - destruct Ho as [Hf|Ha]; [by left|right]. by eapply outs_answered_mono.
Qed.

(** ** Events *)

Lemma event_stable msg r r' :
  handle_event msg r = Ret r' →
  frame r' = frame r ∧ (∀ k, delta_queue (sess r' k) = delta_queue (sess r k)) ∧
  (∀ k, active_run_id (sess r' k) = active_run_id (sess r k)) ∧
  (∀ k, seen_same_run_event (sess r' k) = seen_same_run_event (sess r k) ∨
        seen_same_run_event (sess r' k) = Some true ∧ same_run msg (sess r k)).
Proof.
  intros He. destruct (handle_event_cases _ _ _ He) as (k & [(F & _ & C & _)|Hn]).
  - split_and!; [done|intros k'; specialize (C k'); injection C; auto..].
  - assert (noted k msg r r') as (F & O & A & D & _ & S) by (destruct Hn as [[Hn _]|[Hn _]]; exact Hn).
    split_and!; [done| | |]; intros k'; destruct (decide (k' = k)) as [->|Hk]; rewrite ?O by done; auto.
Qed.
(** What the event adds to the queue of a turn: nothing but status items, unless
    the turn takes the reply. *)
Lemma event_queue msg r r' k q :
  (∀ k', k' ≠ k → delta_queue (sess r k') ≠ Some q) → handle_event msg r = Ret r' →
  ∃ add, qget r' q = qget r q ++ add ∧
    (Forall progress_item add ∨
     ∃ text, add = [QText text; QClose] ∧ text ≠ [] ∧ delta_queue (sess r k) = Some q ∧
       belongs msg (sess r k) ∧ reply_in msg k text).
Proof.
  intros Hu He. destruct (handle_event_cases _ _ _ He) as (k' & [(_ & _ & _ & _ & _ & Hq)|[Hh|Ht]]).
  - destruct (Hq q) as (ps & Hps & Heq). exists ps. eauto.
  - exists []. destruct Hh as (_ & _ & Hq & _). unfold qget. rewrite Hq, app_nil_r. eauto.
  - destruct Ht as (_ & Hb & text & Hne & Hr & _ & Hq & _). specialize (Hq q). case_decide as Hd.
    + assert (k' = k) as -> by (destruct (decide (k' = k)); [done|by destruct (Hu k')]).
      exists [QText text; QClose]. split; [done|]. right. exists text. eauto 10.
    + exists []. rewrite Hq, app_nil_r. eauto.
Qed.

Lemma frame_fields r r' :
  frame r' = frame r →
  pending r' = pending r ∧ chat_send_canonical r' = chat_send_canonical r ∧ futures r' = futures r.
Proof. unfold frame. intros F. split_and!; congruence. Qed.
Lemma settled_frame t r r' : frame r' = frame r → settled t r r'.
Proof. intros (_ & _ & Hf)%frame_fields v Hv. by rewrite Hf. Qed.
Lemma unshared_event t msg r r' : handle_event msg r = Ret r' → unshared t r → unshared t r'.
Proof.
  intros He (Hq & Hc & Hp & Hr). destruct (event_stable _ _ _ He) as (F & D & _).
  destruct (frame_fields _ _ F) as (Hpe & Hch & _).
  unfold unshared. rewrite Hpe, Hch. split_and!; auto.
  intros k. rewrite D. apply Hq.
Qed.

Lemma over_step t st r evs :
  settled t (rs_relay st) r →
  over t st ∧ (Forall progress_out (rs_outs st) ∨ outs_answered (answered t (rs_relay st) (rs_events st)) (rs_outs st)) →
  stream_inv t {| rs_relay := r; rs_phase := rs_phase st; rs_outs := rs_outs st; rs_events := rs_events st ++ evs |}.
Proof.
  intros Hs [[e He] Ho]. left. split; [by exists e|]. destruct Ho as [Ho|Ho]; [by left|right].
  eapply outs_answered_mono; [|exact Ho]. intros. by eapply answered_app.
Qed.

Lemma run_of_nonempty payload run : run_of payload = Some run → run ≠ [].
Proof. unfold run_of. destruct payload as [| | | | | |d]; try done. destruct (run_id_of d); [done|by intros [= <-]]. Qed.

Lemma inv_event t st msg r :
  event_run msg ≠ _PENDING_RUN_ID → handle_event msg (rs_relay st) = Ret r → stream_inv t st →
  stream_inv t {| rs_relay := r; rs_phase := rs_phase st; rs_outs := rs_outs st; rs_events := rs_events st ++ [msg] |}.
Proof.
  intros Hm He [Hov|(Hu & Ho & Hst)]; destruct (event_stable _ _ _ He) as (F & D & A & S).
  { apply over_step; [by apply settled_frame|done]. }
  right. split; [by eapply unshared_event|].
  destruct (event_queue msg (rs_relay st) r (t_key t) (t_queue t) (proj1 Hu) He) as (add & Hq & Hadd).
  assert (Hown : Forall progress_item add ∨ ∃ text, add = [QText text; QClose] ∧ text ≠ [] ∧ running t st ∧
            answered t r (rs_events st ++ [msg]) text).
  { destruct Hadd as [?|(text & -> & Hne & Hd & Hb & Hr)]; [by left|right]. exists text. split_and!; try done.
    - destruct Hst as [(_ & _ & Ha & _)|[Hst|[[? _] _]]]; [|done|done].
      unfold belongs in Hb. rewrite Ha in Hb. by destruct Hb as [?|(_ & ? & _)].
    - destruct Hst as [(_ & _ & Ha & _)|[(_ & _ & payload & Hf & [Ha|[_ Ha]] & Hseen)|[[? _] _]]]; [| | |done].
      { unfold belongs in Hb. rewrite Ha in Hb. by destruct Hb as [?|(_ & ? & _)]. }
      2:{ unfold belongs in Hb. rewrite Ha in Hb. by destruct Hb as [?|(_ & ? & _)]. }
      exists payload. split; [by apply (settled_frame t _ _ F)|].
      exists (rs_events st), msg, []. split_and!; [done..|].
      destruct (run_of payload) as [run|] eqn:Er; [|done]. unfold belongs in Hb. rewrite Ha in Hb.
      pose proof (run_of_nonempty _ _ Er). destruct run as [|c run]; [done|].
      destruct Hb as [?|(? & ? & ? & _ & Hs)]; [by left|right]. split_and!; [done..|].
      by apply (Hseen (Hs (mk_is_Some _ _ Hd))). }
  split.
  - eapply output_ok_extend; [done|by apply settled_frame|done|].
    destruct Hown as [?|(text & -> & ? & _ & ?)]; [by apply queue_ok_progress|by apply queue_ok_answer].
  - destruct Hst as [Hst|[Hst|[[Hd Hf] Hn]]].
    + left. destruct Hown as [Hown|(? & _ & _ & (_ & _ & ? & Hf & _) & _)].
      2:{ destruct Hst as (_ & _ & _ & _ & _ & _ & [(Hf' & _)|[? Hf']]); congruence. }
      destruct Hst as (H1 & H2 & H3 & H4 & H5 & H6 & H7).
      destruct (frame_fields _ _ F) as (Fp & Fc & Ff). unfold unacknowledged; simpl.
      rewrite Fp, Fc, Ff, A, D, Hq. split_and!; try done; [|by apply Forall_app].
      destruct (S (t_key t)) as [->|[_ Hsr]]; [done|]. unfold same_run in Hsr. rewrite H3 in Hsr. by destruct Hsr.
    + right; left. destruct Hst as (H1 & H2 & payload & H3 & H4 & H5). unfold running; simpl.
      rewrite D, A. split_and!; [done..|]. exists payload. split_and!; [by apply (settled_frame t _ _ F)|done|].
      intros Hs run Hr. destruct (S (t_key t)) as [Heq|[_ Hsr]].
      * rewrite Heq in Hs. destruct (H5 Hs run Hr) as (m & Hin & ?). exists m. split; [|done]. apply elem_of_app. by left.
      * exists msg. split; [apply elem_of_app; right; apply list_elem_of_here|].
        unfold same_run in Hsr. destruct H4 as [H4|[_ H4]]; rewrite H4 in Hsr; [|by destruct Hsr].
        rewrite Hr in Hsr. destruct run; [done|]. apply Hsr.
    + right; right. split; [|done]. unfold detached; simpl. rewrite D.
      destruct (frame_fields _ _ F) as (_ & _ & Ff). by rewrite Ff.
Qed.

(** ** Responses, the loss of the connection, other turns *)

Lemma response_cases msg r r' :
  (handle_response msg r).1 = r' →
  r' = r ∨
  ∃ req f v, pending r !! req = Some f ∧ futures r !! f = Some None ∧
    ((∃ payload, v = inl payload ∧ r' = resolve f v (apply_run_id req payload r)) ∨
     (∃ e, v = inr e ∧ r' = resolve f v r)).
Proof.
  intros <-. unfold handle_response. destruct (get_or_null "id" msg) as [| | | |req| |]; try (by left).
  destruct (pending r !! req) as [f|] eqn:Hp; [|by left].
  destruct (futures r !! f) as [[v|]|] eqn:Hf; [by left| |by left].
  right. exists req, f. case_match; eexists; split_and!; eauto.
Qed.
Lemma apply_run_id_sess req payload r k :
  sess (apply_run_id req payload r) k = sess r k ∨
  chat_send_canonical r !! req = Some k ∧ (∃ d, payload = JDict d) ∧
    sess (apply_run_id req payload r) k = set_active_run_id (run_of payload) (sess r k).
Proof.
  unfold apply_run_id, run_of. destruct (chat_send_canonical r !! req) as [key|] eqn:Hc; [|by left].
  destruct payload as [| | | | | |d]; try (by left).
  destruct (run_id_of d) as [|c run].
  - case_bool_decide; [|by left]. rewrite sess_upd. case_decide; [subst; right; eauto|by left].
  - rewrite sess_upd. case_decide; [subst; right; eauto|by left].
Qed.
Lemma apply_run_id_rest req payload r :
  pending (apply_run_id req payload r) = pending r ∧
  chat_send_canonical (apply_run_id req payload r) = chat_send_canonical r ∧
  futures (apply_run_id req payload r) = futures r ∧ queues (apply_run_id req payload r) = queues r.
Proof. unfold apply_run_id. repeat case_match; done. Qed.
Lemma apply_run_id_acked req payload r k :
  chat_send_canonical r !! req = Some k → active_run_id (sess r k) = Some _PENDING_RUN_ID →
  active_run_id (sess (apply_run_id req payload r) k) = run_of payload ∨
  active_run_id (sess (apply_run_id req payload r) k) = Some _PENDING_RUN_ID.
Proof.
  unfold apply_run_id, run_of. intros -> Ha. destruct payload as [| | | | | |d]; try (by right).
  destruct (run_id_of d); [rewrite bool_decide_eq_true_2 by done|]; rewrite sess_upd_eq; by left.
Qed.

Lemma output_ok_same t st r :
  output_ok t st → settled t (rs_relay st) r → qget r (t_queue t) = qget (rs_relay st) (t_queue t) →
  output_ok t (with_relay st r).
Proof.
  intros Ho Hs Hq. unfold with_relay. rewrite <- (app_nil_r (rs_events st)).
  eapply (output_ok_extend t st r [] []); [done..|by rewrite app_nil_r|by apply queue_ok_progress].
Qed.
Lemma over_relay t st r :
  settled t (rs_relay st) r →
  over t st ∧ (Forall progress_out (rs_outs st) ∨ outs_answered (answered t (rs_relay st) (rs_events st)) (rs_outs st)) →
  stream_inv t (with_relay st r).
Proof. intros Hs Ho. unfold with_relay. rewrite <- (app_nil_r (rs_events st)). by apply over_step. Qed.

Lemma inv_response t st msg :
  stream_inv t st → stream_inv t (with_relay st (handle_response msg (rs_relay st)).1).
Proof.
  intros Hinv. set (r := rs_relay st). remember (handle_response msg r).1 as r' eqn:Hr. symmetry in Hr.
  destruct (response_cases _ _ _ Hr) as [->|(req & f & v & Hp & Hf & Hv)]; [by destruct st|].
  assert (Hrest : pending r' = pending r ∧ chat_send_canonical r' = chat_send_canonical r ∧
            futures r' = <[f := Some v]> (futures r) ∧ queues r' = queues r).
  { destruct Hv as [(payload & -> & ->)|(e & -> & ->)]; simpl; [|done].
    destruct (apply_run_id_rest req payload r) as (-> & -> & -> & ->). done. }
  destruct Hrest as (Hp' & Hc' & Hf' & Hq').
  assert (Hs : settled t r r').
  { intros w Hw. rewrite Hf'. destruct (decide (f = t_future t)) as [->|]; [congruence|by rewrite lookup_insert_ne]. }
  assert (Hsess : ∀ k, sess r' k = sess r k ∨
            chat_send_canonical r !! req = Some k ∧ ∃ run, sess r' k = set_active_run_id run (sess r k)).
  { intros k. destruct Hv as [(payload & -> & ->)|(e & -> & ->)]; [|by left].
    destruct (apply_run_id_sess req payload r k) as [?|(? & _ & ?)]; [by left|right; eauto]. }
  destruct Hinv as [Hov|((Hu1 & Hu2 & Hu3 & Hu4) & Ho & Hst)]; [by apply over_relay|].
  right. split_and!.
  { unfold unshared. simpl. rewrite Hp', Hc'. split_and!; [|done..].
    intros k Hk. destruct (Hsess k) as [->|(_ & run & ->)]; simpl; by apply Hu1. }
  { apply output_ok_same; [done..|]. unfold qget. by rewrite Hq'. }
  destruct (decide (f = t_future t)) as [->|Hne].
  - assert (req = t_req t) as -> by (destruct (decide (req = t_req t)); [done|by destruct (Hu3 req)]).
    destruct Hst as [Hst|[(_ & _ & payload & Hpay & _)|[[_ Hd] _]]]; [|unfold r in *; congruence|done].
    destruct Hst as (H1 & H2 & H3 & H4 & H5 & H6 & [(_ & _ & H7)|[e H7]]); [|unfold r in *; congruence].
    destruct Hv as [(payload & -> & Hr')|(e & -> & Hr')].
    + right; left. unfold running; simpl. fold r in H3, H4, H5, H7 |- *.
      assert (Hd : delta_queue (sess r' (t_key t)) = delta_queue (sess r (t_key t)) ∧
                   seen_same_run_event (sess r' (t_key t)) = seen_same_run_event (sess r (t_key t)))
        by (destruct (Hsess (t_key t)) as [->|(_ & run & ->)]; done).
      destruct Hd as [-> ->]. split_and!; [done|by rewrite H1|]. exists payload. split_and!.
      * rewrite Hf'. by rewrite lookup_insert_eq.
      * destruct (apply_run_id_acked (t_req t) payload r (t_key t) H7 H3) as [Ha|Ha]; rewrite Hr'; simpl; [left|right; split]; done.
      * rewrite H4. done.
    + left. unfold unacknowledged; simpl. rewrite Hr'.
      split_and!; [exact H1|exact H2|exact H3|exact H4|exact H5|exact H6|].
      right. exists e. simpl. by rewrite lookup_insert_eq.
  - assert (Hreq : req ≠ t_req t) by (intros ->; apply Hne; by apply Hu4).
    assert (Hk : sess r' (t_key t) = sess r (t_key t))
      by (destruct (Hsess (t_key t)) as [?|[Hcs _]]; [done|by destruct (Hu2 req)]).
    assert (Hfut : futures r' !! t_future t = futures r !! t_future t) by (rewrite Hf'; by apply lookup_insert_ne).
    assert (Hqg : qget r' (t_queue t) = qget r (t_queue t)) by (unfold qget; by rewrite Hq').
    unfold unacknowledged, running, detached; simpl. rewrite Hk, Hfut, Hqg, Hp', Hc'. exact Hst.
Qed.

Lemma inv_others t st r : others t (rs_relay st) r → stream_inv t st → stream_inv t (with_relay st r).
Proof.
  intros [Hk Hq Hf Hp Hc Ha Hw] [Hov|((Hu1 & Hu2 & Hu3 & Hu4) & Ho & Hst)].
  { apply over_relay; [|done]. intros v. by rewrite Hf. }
  right. split_and!.
  - unfold unshared. simpl. rewrite Hp. split_and!; try done. intros req Hreq Hcr. by apply (Hu2 req), Hc.
  - apply output_ok_same; [done|intros v; by rewrite Hf|done].
  - unfold unacknowledged, running, detached; simpl. rewrite Hk, Hf, Hq, Hp, Hc. exact Hst.
Qed.

Lemma fail_pending_futures r f :
  let fs := futures (fail_pending r) in
  (futures r !! f ≠ Some None → fs !! f = futures r !! f) ∧
  (futures r !! f = Some None → fs !! f = Some None ∨ fs !! f = Some (Some (inr DISCONNECTED))) ∧
  (futures r !! f = Some None → (∃ req, pending r !! req = Some f) → fs !! f = Some (Some (inr DISCONNECTED))).
Proof.
  unfold fail_pending. simpl.
  apply (map_fold_weak_ind
    (λ fs m, (futures r !! f ≠ Some None → fs !! f = futures r !! f) ∧
       (futures r !! f = Some None → fs !! f = Some None ∨ fs !! f = Some (Some (inr DISCONNECTED))) ∧
       (futures r !! f = Some None → (∃ req, m !! req = Some f) → fs !! f = Some (Some (inr DISCONNECTED))))).
  - split_and!; [done|by left|]. intros _ [req Hr]. by rewrite lookup_empty in Hr.
  - intros req g m fs Hm (I1 & I2 & I3). destruct (decide (g = f)) as [->|Hne].
    + destruct (decide (futures r !! f = Some None)) as [Hf|Hf].
      * assert (Hnew : (match fs !! f with Some None => <[f:=Some (inr DISCONNECTED)]> fs | _ => fs end) !! f
                       = Some (Some (inr DISCONNECTED)))
          by (destruct (I2 Hf) as [E|E]; rewrite E; [by rewrite lookup_insert_eq|exact E]).
        rewrite Hnew. split_and!; [done|by right|done].
      * assert (Hold : (match fs !! f with Some None => <[f:=Some (inr DISCONNECTED)]> fs | _ => fs end) = fs)
          by (rewrite (I1 Hf); by destruct (futures r !! f) as [[v|]|]).
        rewrite Hold. split_and!; [done|done|done].
    + assert (Hf : (match fs !! g with Some None => <[g:=Some (inr DISCONNECTED)]> fs | _ => fs end) !! f = fs !! f)
        by (destruct (fs !! g) as [[v|]|]; [done|by apply lookup_insert_ne|done]).
      rewrite Hf. split_and!; [done..|]. intros Hn [q Hq]. apply I3; [done|]. exists q.
      rewrite lookup_insert_Some in Hq. destruct Hq as [[_ ?]|[_ ?]]; [congruence|done].
Qed.
Lemma reset_futures r f :
  futures (reset r) !! f = futures (fail_pending r) !! f.
Proof.
  unfold reset, wake_waiters, close_queues. simpl.
  apply (map_fold_weak_ind (λ r' _, futures r' !! f = futures (fail_pending r) !! f)); [done|].
  intros k s m r' _ IH. by destruct (delta_queue s).
Qed.
(** Every open stream of the relay is closed with the error. *)
Lemma reset_queue r q :
  ∃ n, qget (reset r) q = qget r q ++ replicate n (QError DISCONNECTED) ∧
    ((∃ k, delta_queue (sess r k) = Some q) → n ≠ 0%nat).
Proof.
  assert (Hc : ∃ n, qget (close_queues (fail_pending r)) q = qget r q ++ replicate n (QError DISCONNECTED) ∧
            ((∃ k s, sessions (fail_pending r) !! k = Some s ∧ delta_queue s = Some q) → n ≠ 0%nat)).
  { unfold close_queues.
    apply (map_fold_weak_ind (λ r' m, ∃ n, qget r' q = qget r q ++ replicate n (QError DISCONNECTED) ∧
             ((∃ k s, m !! k = Some s ∧ delta_queue s = Some q) → n ≠ 0%nat))).
    - exists 0%nat. split; [by rewrite app_nil_r|]. intros (k & s & Hk & _). by rewrite lookup_empty in Hk.
    - intros k s m r' Hk (n & IH & Hn). destruct (delta_queue s) as [q'|] eqn:Hs.
      + rewrite qget_put_at. case_decide as Hq.
        * subst q'. exists (S n). split; [|done]. rewrite IH, <- app_assoc. f_equal.
          symmetry. apply (replicate_S_end n).
        * exists n. split; [done|]. intros (k' & s' & Hk' & Hs'). apply Hn.
          rewrite lookup_insert_Some in Hk'. destruct Hk' as [[<- <-]|[_ ?]]; [congruence|eauto].
      + exists n. split; [done|]. intros (k' & s' & Hk' & Hs'). apply Hn.
        rewrite lookup_insert_Some in Hk'. destruct Hk' as [[<- <-]|[_ ?]]; [congruence|eauto]. }
  destruct Hc as (n & Hq & Hn). exists n. split; [exact Hq|]. intros [k Hk]. apply Hn.
  unfold sess in Hk. destruct (sessions r !! k) as [s|] eqn:Es; [|done]. by exists k, s.
Qed.
Lemma sess_reset r k : sess (reset r) k = no_sess.
Proof. done. Qed.

Lemma settled_reset t r : settled t r (reset r).
Proof. intros v Hv. rewrite reset_futures, (proj1 (fail_pending_futures r _)); congruence. Qed.
Lemma inv_reset t st : stream_inv t st → stream_inv t (with_relay st (reset (rs_relay st))).
Proof.
  intros [Hov|((Hu1 & Hu2 & Hu3 & Hu4) & Ho & Hst)]; [apply over_relay; [apply settled_reset|done]|].
  right. split_and!.
  - unfold unshared. simpl. split_and!; try done; intros; try (by rewrite lookup_empty); try (by rewrite lookup_empty in *).
  - destruct (reset_queue (rs_relay st) (t_queue t)) as (n & Hq & _).
    unfold with_relay. rewrite <- (app_nil_r (rs_events st)).
    eapply output_ok_extend; [done|apply settled_reset|exact Hq|apply queue_ok_errors].
  - right; right. split.
    + split; [done|]. cbn [rs_relay with_relay]. rewrite reset_futures.
      destruct (fail_pending_futures (rs_relay st) (t_future t)) as (F1 & _ & F3).
      destruct Hst as [(_ & _ & _ & _ & _ & _ & [(Hf & Hp & _)|[e Hf]])|[(_ & _ & p & Hf & _)|[[_ Hf] _]]].
      * by rewrite F3 by eauto.
      * rewrite F1 by congruence. congruence.
      * rewrite F1 by congruence. congruence.
      * rewrite F1 by done. done.
    + destruct Hst as [(Hw & _)|[(_ & Hn & _)|[_ Hn]]]; [simpl; by rewrite Hw|done..].
Qed.

(** ** The acknowledgement *)

Lemma sess_unregister req r k : sess (unregister req r) k = sess r k.
Proof. done. Qed.
Lemma inv_ack t st ack now e r :
  rs_phase st = Waiting →
  (ack = awaited "chat.send timed out" (t_future t) (rs_relay st) ∨ ∃ e, ack = inr e) →
  acknowledged (t_key t) (t_req t) true ack (rs_relay st) = (e, r) → stream_inv t st →
  stream_inv t {| rs_relay := r;
                  rs_phase := match e with Some e => Ended (Some e) | None => Looping (loop_start now) end;
                  rs_outs := rs_outs st; rs_events := rs_events st |}.
Proof.
  intros Hw Hack Ha [[[e' He] _]|((Hu1 & Hu2 & Hu3 & Hu4) & Ho & Hst)]; [congruence|].
  unfold acknowledged in Ha. destruct ack as [payload|e'].
  - injection Ha as <- <-. destruct Hack as [Hack|[? ?]]; [|done].
    assert (Hf : futures (rs_relay st) !! t_future t = Some (Some (inl payload))).
    { unfold awaited in Hack. destruct (futures (rs_relay st) !! t_future t) as [[v|]|]; congruence. }
    right. set (run := match payload with JDict d => run_id_of d | _ => [] end).
    assert (Hrun : match run with [] => None | _ => Some run end = run_of payload)
      by (unfold run, run_of; destruct payload as [| | | | | |d]; try done; by destruct (run_id_of d)).
    rewrite Hrun. split_and!.
    + unfold unshared. simpl. split_and!.
      * intros k Hk. rewrite sess_upd_ne by done. by apply Hu1.
      * intros req Hr. rewrite lookup_delete_ne by done. by apply Hu2.
      * intros req Hr. rewrite lookup_delete_ne by done. by apply Hu3.
      * intros f. by rewrite lookup_delete_eq.
    + unfold output_ok in *. rewrite Hw in Ho. exact Ho.
    + destruct Hst as [(_ & _ & _ & _ & _ & _ & [(Hf' & _)|[e Hf']])|[(Hd & _ & p & Hf' & _ & Hs)|[[Hd Hf'] _]]]; [congruence..| |].
      * right; left. unfold running; simpl. rewrite sess_upd_eq. simpl. split_and!; [done..|].
        exists p. rewrite Hf' in Hf. injection Hf as ->. split_and!; [done|by left|done].
      * right; right. split; [|done]. split; simpl; [by rewrite sess_upd_eq|done].
  - injection Ha as <- <-. left. split; [by eexists|]. simpl.
    unfold output_ok in Ho. rewrite Hw in Ho.
    assert (Hans : ∀ r', futures r' = futures (rs_relay st) →
      ∀ x, answered t (rs_relay st) (rs_events st) x → answered t r' (rs_events st) x)
      by (intros r' Hr x; apply answered_settled; intros v; by rewrite Hr).
    destruct Ho as [[Ho _]|[Ho _]]; [by left|right]. eapply outs_answered_mono; [|exact Ho].
    apply Hans. unfold _cleanup_pending_turn. by case_match.
Qed.

(** ** The loop *)

(** A change of the flags of the turn's session that keeps its core. *)
Definition same_core (t : turn) (r r' : Relay) : Prop :=
  core (sess r' (t_key t)) = core (sess r (t_key t)) ∧ (∀ k, k ≠ t_key t → sess r' k = sess r k) ∧
  pending r' = pending r ∧ chat_send_canonical r' = chat_send_canonical r ∧ futures r' = futures r.

Lemma loop_next t st l o l' r :
  rs_phase st = Looping l → same_core t (rs_relay st) r → unshared t (rs_relay st) →
  (running t st ∨ (detached t st ∧ ∀ e, rs_phase st ≠ Ended e)) →
  output_ok t (after_iteration t st (Yields o l') r) → stream_inv t (after_iteration t st (Yields o l') r).
Proof.
  intros Hl (Hc & Hk & Hp & Hcs & Hf) (Hu1 & Hu2 & Hu3 & Hu4) Hst Ho. right. injection Hc as C1 C2 C3 C4 C5.
  split_and!; [|exact Ho|].
  - unfold unshared. simpl. rewrite Hp, Hcs. split_and!; try done. intros k Hne. rewrite Hk by done. by apply Hu1.
  - right. destruct Hst as [(H1 & _ & p & H3 & H4 & H5)|[[H1 H2] _]]; [left|right].
    + unfold running. simpl. rewrite C1, C2, C4, Hf. split_and!; [done..|]. exists p. split_and!; [done| |done].
      left. destruct H4 as [?|[Hw _]]; [done|congruence].
    + split; [|done]. unfold detached. simpl. by rewrite C2, Hf.
Qed.
Lemma loop_over t st r e :
  futures r = futures (rs_relay st) →
  Forall progress_out (rs_outs st) ∨ outs_answered (answered t (rs_relay st) (rs_events st)) (rs_outs st) →
  stream_inv t {| rs_relay := end_stream (t_key t) r; rs_phase := Ended e; rs_outs := rs_outs st; rs_events := rs_events st |}.
Proof.
  intros Hf Ho. left. split; [by eexists|]. destruct Ho as [Ho|Ho]; [by left|right].
  eapply outs_answered_mono; [|exact Ho]. intros x. apply answered_settled. intros v. simpl. by rewrite Hf.
Qed.
Lemma looping_mode t st l :
  rs_phase st = Looping l → stream_inv t st →
  unshared t (rs_relay st) ∧ output_ok t st ∧ (running t st ∨ (detached t st ∧ ∀ e, rs_phase st ≠ Ended e)).
Proof.
  intros Hl [[[e He] _]|(Hu & Ho & Hst)]; [congruence|]. split_and!; [done..|].
  destruct Hst as [(Hw & _)|Hst]; [congruence|done].
Qed.

Lemma separated_status key s r : _is_plain_text_status_chunk s = true → separated key s r = s.
Proof. intros Hs. unfold separated. rewrite Hs. simpl. by rewrite andb_false_r. Qed.
Lemma separated_shows key s r : shows (separated key s r) s.
Proof. unfold separated, shows. case_match; auto. Qed.

Lemma inv_item t st l now i rest it r :
  rs_phase st = Looping l → qget (rs_relay st) (t_queue t) = i :: rest →
  on_item (t_key t) now i l (pop_queue t (rs_relay st)) = (it, r) → stream_inv t st →
  stream_inv t (after_iteration t st it r).
Proof.
  intros Hl Hq Hit Hinv. destruct (looping_mode t st l Hl Hinv) as (Hu & Ho & Hst).
  assert (Hpop : qget (pop_queue t (rs_relay st)) (t_queue t) = rest)
    by (unfold pop_queue, qget at 1; simpl; by rewrite lookup_insert_eq, Hq).
  unfold output_ok in Ho. rewrite Hl, Hq in Ho.
  destruct i as [s| |e|f]; injection Hit as <- <-.
  - apply loop_next with l; [done| |done..|].
    { split_and!; try done; simpl; [by rewrite !sess_upd_eq|]. intros k ?. by rewrite !sess_upd_ne by done. }
    destruct Ho as [[Hf (ps & Hps & Hcase)]|[_ [rest' ?]]]; [|done]. unfold output_ok. simpl.
    destruct ps as [|p ps].
    + destruct Hcase as [?|[(e & rest' & ?)|(text & rest' & [= -> ->] & Hne & Ha)]]; [done..|].
      right. split; [|by exists rest']. exists (rs_outs st), text, (separated (t_key t) text (pop_queue t (rs_relay st))).
      split_and!; [done..|apply separated_shows|done|exact Ha].
    + apply Forall_cons_1 in Hps as [Hp Hps].
      assert (p = QText s) as -> by (by destruct Hcase as [[= ?]|[(? & ? & [= ?])|(? & ? & [= ?] & _)]]).
      left. rewrite separated_status by done. split; [apply Forall_app; split; [done|by apply Forall_singleton; left]|].
      change (qget _ (t_queue t)) with (qget (pop_queue t (rs_relay st)) (t_queue t)). rewrite Hpop. exists ps. split; [done|].
      destruct Hcase as [[= ->]|[(? & ? & [= ->])|(? & ? & [= ->] & ? & ?)]]; [by left|right; left; eauto|right; right; eauto 10].
  - apply loop_over; [done|].
    destruct Ho as [[Hf _]|[Ha _]]; [by left|by right].
  - apply loop_over; [done|].
    destruct Ho as [[Hf _]|[Ha _]]; [by left|by right].
  - apply loop_next with l; [done|done|done..|].
    destruct Ho as [[Hf (ps & Hps & Hcase)]|[_ [rest' ?]]]; [|done]. unfold output_ok. simpl. left.
    rewrite Hpop. split; [apply Forall_app; split; [done|by apply Forall_singleton]|].
    destruct ps as [|p ps]; [by destruct Hcase as [?|[(? & ? & ?)|(? & ? & ? & _)]]|].
    apply Forall_cons_1 in Hps as [_ Hps]. exists ps. split; [done|].
    destruct Hcase as [[= _ ->]|[(? & ? & [= _ ->])|(? & ? & [= _ ->] & ? & ?)]]; [by left|right; left; eauto|right; right; eauto 10].
Qed.

Lemma inv_silence t st l now it r :
  rs_phase st = Looping l → qget (rs_relay st) (t_queue t) = [] →
  on_silence (t_key t) (t_frames t) (t_deadline t) now l (rs_relay st) = (it, r) → stream_inv t st →
  stream_inv t (after_iteration t st it r).
Proof.
  intros Hl Hq Hit Hinv. destruct (looping_mode t st l Hl Hinv) as (Hu & Ho & Hst).
  unfold output_ok in Ho. rewrite Hl, Hq in Ho. destruct Ho as [[Hf _]|[_ [? ?]]]; [|done].
  assert (Hok : ∀ o l' r', progress_out o → qget r' (t_queue t) = [] →
            output_ok t (after_iteration t st (Yields o l') r')).
  { intros o l' r' Hp Hq'. unfold output_ok. simpl. left. rewrite Hq'.
    split; [apply Forall_app; split; [done|by apply Forall_singleton]|by apply queue_ok_progress]. }
  unfold on_silence in Hit. case_match; [injection Hit as <- <-; apply loop_over; [done|by left]|].
  assert (Hhidden : ∀ l', stream_inv t (after_iteration t st (Yields OKeepalive l') (rs_relay st))).
  { intros l'. apply loop_next with l; [done|done|done..|]. by apply Hok. }
  case_match; [|injection Hit as <- <-; apply Hhidden].
  destruct (active_tool (sess (rs_relay st) (t_key t))) as [[|c n]|]; injection Hit as <- <-; try apply Hhidden.
  all: apply loop_next with l; [done| |done..|apply Hok; [|exact Hq]].
  all: try (split_and!; try done; simpl; [by rewrite !sess_upd_eq|intros k ?; by rewrite !sess_upd_ne by done]).
  all: destruct (has_yielded_user_visible l); [by right|by left].
Qed.

Lemma drain_progress q : ∀ ps, Forall progress_item ps →
  ∃ os, Forall progress_out os ∧ drain (ps ++ q) = (os ++ (drain q).1, (drain q).2).
Proof.
  intros ps Hps. induction Hps as [|i ps Hi Hps (os & Hos & IH)]; [exists []; split; [done|simpl; by destruct (drain q)]|].
  destruct i as [s| |e|f]; try done; simpl; rewrite IH.
  - exists (OText s :: os). split; [constructor; [by left|done]|done].
  - exists (OFrame f :: os). split; [by constructor|done].
Qed.
Lemma drain_ok (P : pystr → Prop) q os e :
  queue_ok P q → drain q = (os, e) → Forall progress_out os ∨ outs_answered P os.
Proof.
  intros (ps & Hps & Hcase) Hd.
  destruct Hcase as [->|[(e' & rest & ->)|(text & rest & -> & Hne & Ht)]].
  - destruct (drain_progress [] ps Hps) as (os' & Hos & Heq). rewrite !app_nil_r in Heq.
    rewrite Heq in Hd. injection Hd as <- _. simpl. left. by rewrite ?app_nil_r.
  - destruct (drain_progress (QError e' :: rest) ps Hps) as (os' & Hos & Heq).
    rewrite Heq in Hd. injection Hd as <- _. simpl. left. by rewrite ?app_nil_r.
  - destruct (drain_progress (QText text :: QClose :: rest) ps Hps) as (os' & Hos & Heq).
    rewrite Heq in Hd. injection Hd as <- _. simpl. right. exists os', text, text. split_and!; try done. by left.
Qed.
Lemma inv_drain t st l os e :
  rs_phase st = Looping l → drain (qget (rs_relay st) (t_queue t)) = (os, e) → stream_inv t st →
  stream_inv t {| rs_relay := end_stream (t_key t) (rs_relay st); rs_phase := Ended e;
                  rs_outs := rs_outs st ++ os; rs_events := rs_events st |}.
Proof.
  intros Hl Hd Hinv. destruct (looping_mode t st l Hl Hinv) as (_ & Ho & _).
  unfold output_ok in Ho. rewrite Hl in Ho. left. split; [by eexists|]. simpl.
  assert (Hans : ∀ x, answered t (rs_relay st) (rs_events st) x →
                      answered t (end_stream (t_key t) (rs_relay st)) (rs_events st) x)
    by (intros x; apply answered_settled; by intros v).
  destruct Ho as [[Hf Hq]|[Ha [rest Hq]]].
  - destruct (drain_ok _ _ _ _ Hq Hd) as [?|(ps & text & text' & ? & -> & ? & ? & ?)]; [left; by apply Forall_app|right].
    exists (rs_outs st ++ ps), text, text'. rewrite app_assoc. split_and!; auto. by apply Forall_app.
  - rewrite Hq in Hd. injection Hd as <- <-. rewrite app_nil_r. right. by eapply outs_answered_mono.
Qed.

(** ** The whole turn *)

Lemma inv_step t st st' : turn_step t st st' → stream_inv t st → stream_inv t st'.
Proof.
  destruct 1; intros Hinv.
  - by apply inv_event.
  - by apply inv_response.
  - by apply inv_reset.
  - by apply inv_others.
  - by eapply inv_ack.
  - by eapply inv_item.
  - by eapply inv_silence.
  - by eapply inv_drain.
Qed.

Lemma show_replayed_touches k r : touches k r (show_replayed k r).
Proof.
  unfold show_replayed. destruct (replay_pending (sess r k)) as [ids|]; [|apply touches_refl].
  case_decide; [by apply touches_upd|].
  eapply touches_trans; [|apply touches_approval_line, status_waiting]. by apply touches_upd.
Qed.
Lemma started_inv t st : started t st → stream_inv t st.
Proof.
  intros (r0 & r1 & Hi & Hr & Hq & Hc & Hp & Hw & Ho & _). right.
  unfold install_stream, alloc in Hi. injection Hi as Htq Hr1.
  set (ra := upd (t_key t) (stream_sess (t_frames t) (next_ref r0))
               (set_queues (<[next_ref r0 := []]> (queues (set_next_ref (next_ref r0 + 1)%N r0)))
                  (set_next_ref (next_ref r0 + 1)%N r0))).
  change (show_replayed (t_key t) ra = r1) in Hr1.
  destruct (show_replayed_touches (t_key t) ra) as (F & _ & C & O & _ & Q). rewrite Hr1 in F, C, O, Q.
  destruct (frame_fields _ _ F) as (Fp & Fc & Ff).
  assert (Fn : next_ref r1 = (next_ref r0 + 1)%N) by (injection F; auto).
  unfold register_chat_send, register, alloc in Hr. injection Hr as Htf Hst.
  assert (Hk : core (sess (rs_relay st) (t_key t)) = core (stream_sess (t_frames t) (t_queue t) (sess r0 (t_key t)))).
  { rewrite <- Hst. change (core (sess r1 (t_key t)) = core (stream_sess (t_frames t) (t_queue t) (sess r0 (t_key t)))).
    rewrite C. unfold ra. rewrite sess_upd_eq, Htq. done. }
  injection Hk as K1 K2 K3 K4 K5.
  assert (Hqs : Forall progress_item (qget (rs_relay st) (t_queue t))).
  { rewrite <- Hst. destruct (Q (t_queue t)) as (ps & Hps & Heq).
    change (Forall progress_item (qget r1 (t_queue t))). rewrite Heq.
    unfold ra, qget, upd; simpl. rewrite Htq, lookup_insert_eq. done. }
  assert (Hfp : ∀ req f, pending r1 !! req = Some f → f ≠ t_future t).
  { intros req f Hpr. rewrite Fp in Hpr. specialize (Hp req f Hpr). lia. }
  split_and!.
  - unfold unshared. rewrite <- Hst. simpl. split_and!.
    + intros k Hne Hd. change (delta_queue (sess r1 k) = Some (t_queue t)) in Hd.
      rewrite O in Hd by done. unfold ra in Hd. rewrite sess_upd_ne in Hd by done.
      specialize (Hq _ _ Hd). lia.
    + intros req Hne. rewrite lookup_insert_ne, Fc by done. by apply Hc.
    + intros req Hne. rewrite lookup_insert_ne by done. intros Hpr. by apply (Hfp _ _ Hpr).
    + intros f. rewrite lookup_insert_eq. intros [= <-]. exact Htf.
  - unfold output_ok. rewrite Hw, Ho. left. split; [done|by apply queue_ok_progress].
  - left. unfold unacknowledged. rewrite K1, K2, K4. split_and!; try done. left. rewrite <- Hst. simpl.
    rewrite Htf, !lookup_insert_eq. done.
Qed.

End stream.

(** ** How long the loop runs *)

(** One pass of the loop that began at [now]: an item taken at a time, or a wait
    that ended at a time without one. *)
Inductive wake := Took (at_time : Z) (i : item) | Silent (at_time : Z).
Definition wake_time (w : wake) : Z := match w with Took z _ | Silent z => z end.
(** An item comes no sooner than the pass begins; a wait lasts its budget. *)
Definition timely (deadline now : Z) (l : loop_state) (w : wake) : Prop :=
  match w with Took z _ => now <= z | Silent z => now + wait_budget deadline now l <= z end.
Definition pass (key : pystr) (use_tool_frames : bool) (deadline : Z) (l : loop_state) (r : Relay) (w : wake)
    : iteration * Relay :=
  match w with
  | Took z i => on_item key z i l r
  | Silent z => on_silence key use_tool_frames deadline z l r
  end.
(** The passes of a loop that has not returned: it went through [ws], and the
    next pass would begin at [now]. *)
Inductive goes_on (key : pystr) (use_tool_frames : bool) (deadline : Z)
    : Z → loop_state → Relay → list wake → Z → loop_state → Prop :=
| goes_here now l r : goes_on key use_tool_frames deadline now l r [] now l
| goes_pass now l r w o l' r' r'' ws now' l'' :
    now < deadline → timely deadline now l w →
    pass key use_tool_frames deadline l r w = (Yields o l', r') →
    goes_on key use_tool_frames deadline (wake_time w) l' r'' ws now' l'' →
    goes_on key use_tool_frames deadline now l r (w :: ws) now' l''.

Definition is_took (w : wake) : bool := match w with Took _ _ => true | Silent _ => false end.
Definition items_of (ws : list wake) : nat := length (List.filter is_took ws).
(** The count of keepalives is in step with the clock. *)
Definition in_step (now : Z) (l : loop_state) : Prop :=
  last_yield_time l <= now ∧ 0 <= sent_keepalive_count l ∧
  (sent_keepalive_count l = 0 ∨
   last_yield_time l + _STREAM_FIRST_KEEPALIVE_S + (sent_keepalive_count l - 1) * _STREAM_KEEPALIVE_INTERVAL_S <= now).

Lemma pass_in_step key frames deadline now l r w o l' r' :
  now < deadline → in_step now l → timely deadline now l w → pass key frames deadline l r w = (Yields o l', r') →
  in_step (wake_time w) l' ∧ now <= wake_time w ∧
  match w with
  | Took _ (QText _) => sent_keepalive_count l' = 0 ∧ last_yield_time l' = wake_time w
  | Took _ _ => l' = l
  | Silent z => sent_keepalive_count l' = sent_keepalive_count l + 1 ∧ last_yield_time l' = last_yield_time l ∧ z < deadline
  end.
Proof.
  intros Hn (H1 & H2 & H3) Ht Hp. unfold in_step in *.
  destruct w as [z i|z]; simpl in *.
  - destruct i as [s| |e|f]; [|discriminate Hp..|]; injection Hp as <- <- <-; simpl; split_and!; try lia; auto.
  - unfold on_silence in Hp. destruct (deadline <=? z) eqn:Ed; [discriminate Hp|].
    apply Z.leb_gt in Ed. unfold wait_budget, next_keepalive_at, _STREAM_FIRST_KEEPALIVE_S, _STREAM_KEEPALIVE_INTERVAL_S in *.
    assert (Hl : sent_keepalive_count l' = sent_keepalive_count l + 1 ∧ last_yield_time l' = last_yield_time l).
    { destruct ((_ =? 0) && _); [|by injection Hp as <- <- <-].
      destruct (active_tool _) as [[|c n]|]; by injection Hp as <- <- <-. }
    destruct Hl as [-> ->]. split_and!; try done; try lia.
Qed.

(** Fifteen seconds per keepalive: what the waits of a loop add up to. *)
Lemma silent_time key frames deadline now l r ws now' l' :
  goes_on key frames deadline now l r ws now' l' → in_step now l →
  let silent := Z.of_nat (length ws) - Z.of_nat (items_of ws) in
  silent = 0 ∨
  15000000 * silent + 15000000 * sent_keepalive_count l + last_yield_time l
    <= 15000000 * Z.of_nat (items_of ws) + deadline + 7000000.
Proof.
  induction 1 as [|now l r w o l' r' r'' ws now' l'' Hn Ht Hp Hg IH]; intros Hin; [by left|].
  destruct (pass_in_step _ _ _ _ _ _ _ _ _ _ Hn Hin Ht Hp) as (Hin' & Hle & Hw).
  specialize (IH Hin'). destruct Hin as (H1 & H2 & H3), Hin' as (H4 & H5 & H6).
  unfold _STREAM_FIRST_KEEPALIVE_S, _STREAM_KEEPALIVE_INTERVAL_S in *.
  destruct w as [z [s| |e|f]|z]; unfold items_of in *; simpl in *; try discriminate Hp; try subst l'; lia.
Qed.
Lemma in_step_start now : in_step now (loop_start now).
Proof. unfold in_step. simpl. split_and!; auto; lia. Qed.
Lemma goes_on_in_step key frames deadline now l r ws now' l' :
  goes_on key frames deadline now l r ws now' l' → in_step now l → in_step now' l'.
Proof.
  induction 1 as [|now l r w o l' r' r'' ws now' l'' Hn Ht Hp Hg IH]; intros Hin; [done|].
  apply IH. by eapply pass_in_step.
Qed.

(** C17. A streaming turn comes to its end: the loop makes at most twelve passes more
    than twice the items it takes, under the turn's deadline of 180 seconds.  No
    wait of it lasts longer than fifteen seconds, half of the read timeout of
    Home Assistant, nor less than a millisecond. *)
Theorem stream_loop_ends key frames deadline now r ws now' l :
  deadline <= now + _STREAM_TURN_TIMEOUT_S →
  goes_on key frames deadline now (loop_start now) r ws now' l →
  (length ws <= 2 * items_of ws + 12)%nat ∧
  1000 <= wait_budget deadline now' l <= _STREAM_KEEPALIVE_INTERVAL_S.
Proof.
  intros Hd Hg. pose proof (in_step_start now) as Hin. split.
  - destruct (silent_time _ _ _ _ _ _ _ _ _ Hg Hin) as [Hs|Hs]; unfold _STREAM_TURN_TIMEOUT_S in *; simpl in *; lia.
  - destruct (goes_on_in_step _ _ _ _ _ _ _ _ _ Hg Hin) as (H1 & H2 & H3).
    unfold wait_budget, next_keepalive_at, _STREAM_FIRST_KEEPALIVE_S, _STREAM_KEEPALIVE_INTERVAL_S in *. lia.
Qed.

(** ** Witnesses *)

#[local] Instance every_char_prints : Unicode := {| uni_printable := λ _, true; uni_decimal := λ _, None |}.
Definition demo_turn : turn :=
  {| t_key := "k"; t_req := "q"; t_future := 1; t_queue := 0; t_deadline := 180000000; t_frames := false |}.
Definition demo_installed : Relay := (install_stream "k" false new_relay).2.
Definition demo_sent : run_state :=
  {| rs_relay := (register_chat_send "q" "k" demo_installed).2; rs_phase := Waiting; rs_outs := []; rs_events := [] |}.
Definition demo_response : dict :=
  [("id"%py, JStr "q"); ("ok"%py, JBool true); ("payload"%py, JDict [("runId"%py, JStr "r1")])].
Definition demo_acked : run_state := with_relay demo_sent (handle_response demo_response (rs_relay demo_sent)).1.
Definition demo_loop : run_state :=
  {| rs_relay := (acknowledged "k" "q" true (inl (JDict [("runId"%py, JStr "r1")])) (rs_relay demo_acked)).2;
     rs_phase := Looping (loop_start 0); rs_outs := []; rs_events := [] |}.
Definition demo_final : dict :=
  [("event"%py, JStr "chat");
   ("payload"%py, JDict [("sessionKey"%py, JStr "k"); ("role"%py, JStr "assistant"); ("runId"%py, JStr "r1");
                         ("state"%py, JStr "final"); ("message"%py, JStr "Hi")])].
Definition or_same (r : Relay) (x : res Relay) : Relay := match x with Ret r' => r' | Raise _ => r end.
Definition demo_heard : run_state :=
  {| rs_relay := or_same (rs_relay demo_loop) (handle_event demo_final (rs_relay demo_loop));
     rs_phase := rs_phase demo_loop; rs_outs := rs_outs demo_loop; rs_events := rs_events demo_loop ++ [demo_final] |}.
Definition demo_iteration : iteration * Relay :=
  on_item "k" 5 (QText "Hi") (loop_start 0) (pop_queue demo_turn (rs_relay demo_heard)).
Definition demo_spoken : run_state := after_iteration demo_turn demo_heard demo_iteration.1 demo_iteration.2.


Example stream_loop_ends_witness :
  let r := demo_installed in
  let ws := [Silent 8000000; Silent 23000000] in
  let l := {| last_yield_time := 0; sent_keepalive_count := 2; has_yielded_user_visible := true |} in
  goes_on "k" false 180000000 0 (loop_start 0) r ws 23000000 l ∧
  (length ws <= 2 * items_of ws + 12)%nat ∧ 1000 <= wait_budget 180000000 23000000 l <= _STREAM_KEEPALIVE_INTERVAL_S.
Proof.
  intros r ws l.
  assert (Hg : goes_on "k" false 180000000 0 (loop_start 0) r ws 23000000 l).
  { eapply goes_pass; [lia|vm_compute; congruence|reflexivity|].
    eapply (goes_pass _ _ _ _ _ r); [vm_compute; reflexivity|vm_compute; congruence|reflexivity|]. apply (goes_here _ _ _ _ _ r). }
  split; [exact Hg|]. refine (stream_loop_ends "k" false 180000000 0 r ws 23000000 l _ Hg). vm_compute. congruence.
Defined.
