(* ===== verification/RelayRegistry.v ===== *)
(** Who a session key speaks for, which turns have ended, and what the loss of
    the connection leaves. *)

From stdpp Require Import base list gmap sorting relations.
From Stdlib Require Import NArith ZArith Lia.
From S2P Require Import Prelude PyStr PyCase PyFloat Json Config Authz Policy Turn RelayText Relay RelayTurn RelayEvents RelayStream.

#[local] Open Scope Z_scope.

(** ** Principals *)

Section registry.
Context `{Casing}.

(** Exactly one turn in flight answers to the hint, and this is its principal. *)
Definition sole_principal (hint : pystr) (r : Relay) (c : Caller) : Prop :=
  let h := py_lower (strip hint) in
  ∃ raw, active_turns r !! raw = Some c ∧ answers_to r raw h = true ∧
    ∀ raw', is_Some (active_turns r !! raw') → answers_to r raw' h = true → raw' = raw.
Lemma active_caller_Some hint r c : active_caller hint r = Some c ↔ sole_principal hint r c.
Proof.
  unfold sole_principal. set (h := py_lower (strip hint)). unfold active_caller. fold h.
  set (l := List.filter (λ kc, answers_to r kc.1 h) (map_to_list (active_turns r))).
  assert (Hin : ∀ raw c, (raw, c) ∈ l ↔ active_turns r !! raw = Some c ∧ answers_to r raw h = true).
  { intros raw c'. unfold l. rewrite list_elem_of_In, List.filter_In, <- list_elem_of_In, elem_of_map_to_list. done. }
  assert (Hnd : NoDup l) by (apply NoDup_ListNoDup, List.NoDup_filter, NoDup_ListNoDup, NoDup_map_to_list).
  split.
  - intros Hl. assert (∃ raw, l = [(raw, c)]) as [raw E]
      by (destruct l as [|[raw c'] [|]]; try discriminate Hl; injection Hl as ->; eauto).
    exists raw. destruct (proj1 (Hin raw c)) as [Ha Hb]; [rewrite E; apply list_elem_of_here|].
    split_and!; [done..|]. intros raw' [c' Hc'] Hr.
    assert (Hel : (raw', c') ∈ l) by (by apply Hin). rewrite E in Hel.
    apply list_elem_of_singleton in Hel. congruence.
  - intros (raw & Hr & Ha & Hu).
    assert (Hall : ∀ x, x ∈ l → x = (raw, c)).
    { intros [raw' c'] [Hc' Ha']%Hin. assert (raw' = raw) as -> by (by apply Hu). congruence. }
    assert (Hel : (raw, c) ∈ l) by (by apply Hin).
    destruct l as [|x [|y l']]; [by inversion Hel|by rewrite (Hall x (list_elem_of_here _ _))|].
    exfalso. rewrite (Hall x), (Hall y) in Hnd
      by (apply list_elem_of_here || apply list_elem_of_further, list_elem_of_here).
    apply NoDup_cons_1_1 in Hnd. apply Hnd, list_elem_of_here.
Qed.
(** A hint speaks for a caller exactly when one turn in flight, and no other,
    has a key that equals the hint but for case and outer blanks, and then for the
    principal this turn entered with.  In particular a hint of a turn that has
    ended, or that two turns answer to, speaks for nobody. *)
Theorem hint_speaks_for_one hint r c :
  active_caller hint r = Some c ↔ sole_principal hint r c.
Proof. exact (active_caller_Some hint r c). Qed.

(** The principal of a turn is what its authorization says; without one it is
    the untrusted caller. *)
Lemma enter_turn_principal key authz r :
  active_turns (enter_turn key authz r) !! key = Some (match authz with Some a => Caller_from_turn a | None => UNTRUSTED end).
Proof. unfold enter_turn. simpl. by rewrite lookup_insert_eq. Qed.
Lemma exit_turn_forgets now key r : active_turns (exit_turn now key r) !! key = None.
Proof. unfold exit_turn, _record_ended. simpl. by rewrite lookup_delete_eq. Qed.

(** ** Turns that ended *)

Lemma prune_bounds now ended :
  (length (_prune_ended now ended) <= _ENDED_TURN_MAX)%nat ∧
  ∀ k t, (k, t) ∈ _prune_ended now ended → (k, t) ∈ ended ∧ now - t <= _ENDED_TURN_TTL_S.
Proof.
  unfold _prune_ended. set (kept := List.filter _ ended). split.
  - rewrite length_drop. lia.
  - intros k t Hin. assert (Hk : (k, t) ∈ kept).
    { rewrite <- (take_drop (length kept - _ENDED_TURN_MAX) kept). apply elem_of_app. by right. }
    unfold kept in Hk. rewrite list_elem_of_In, List.filter_In, <- list_elem_of_In in Hk. destruct Hk as [Hk Ht].
    split; [done|]. apply negb_true_iff, Z.ltb_ge in Ht. simpl in Ht. lia.
Qed.
(** The times at which turns of the relay ended. *)
Definition ended_by (now : Z) (r : Relay) : Prop :=
  ∀ k t, (k, t) ∈ ended_turns r → t <= now.
(** One more turn of the relay ends: the record stays within 256 entries, none
    older than five minutes. *)
Lemma record_bounds now key r :
  (length (ended_turns (_record_ended now key r)) <= _ENDED_TURN_MAX)%nat ∧
  ∀ k t, (k, t) ∈ ended_turns (_record_ended now key r) → now - t <= _ENDED_TURN_TTL_S.
Proof.
  destruct (prune_bounds now (dset (py_lower (default key (canonical_by_raw r !! key))) now
    (dset (py_lower key) now (ended_turns r)))) as [H1 H2].
  split; [exact H1|]. intros k t Hk. apply H2 in Hk. apply Hk.
Qed.
End registry.

(** Recording a turn that is recorded already keeps its place in line, so the
    turn that ended last can be the first to be forgotten: the turns "k", then
    [n] others, then "k" again, then one more. *)
Definition numbered (n : nat) : pystr := "t" ++ str_of_nat n.
Definition record_many `{Casing} (now : Z) (keys : list pystr) (r : Relay) : Relay :=
  fold_left (λ r k, _record_ended now k r) keys r.
Theorem refreshed_turn_is_forgotten :
  let _ := ascii_casing in
  let r := record_many 1 (map numbered (seq 0 255)) (_record_ended 0 "k" new_relay) in
  let r := _record_ended 2 "k" r in
  (recently_ended 3 "k" r).1 = true ∧
  (recently_ended 3 "k" (_record_ended 3 "last" r)).1 = false ∧
  (recently_ended 3 "t0" (_record_ended 3 "last" r)).1 = true.
Proof. vm_compute. auto. Qed.

(** ** The loss of the connection *)

(** What those who wait on [r] find in [r'] is an error or a wake-up: the pending
    calls, the open streams, behind what they hold, and the waiting turns. *)
Definition released (r r' : Relay) : Prop :=
  (∀ req f, pending r !! req = Some f → futures r !! f = Some None →
     futures r' !! f = Some (Some (inr DISCONNECTED))) ∧
  (∀ f v, futures r !! f = Some (Some v) → futures r' !! f = Some (Some v)) ∧
  (∀ k q, delta_queue (sess r k) = Some q →
     ∃ n, qget r' q = qget r q ++ QError DISCONNECTED :: replicate n (QError DISCONNECTED)) ∧
  (∀ k e, reply_event (sess r k) = Some e → events r' !! e = Some true).
Definition forgotten (r' : Relay) : Prop :=
  pending r' = ∅ ∧ (∀ k, sess r' k = no_sess) ∧ subscribed r' = ∅ ∧ canonical_by_raw r' = ∅.

Lemma reset_wakes r k e : reply_event (sess r k) = Some e → events (reset r) !! e = Some true.
Proof.
  intros He. unfold reset, wake_waiters. simpl.
  assert (Hs : sessions (close_queues (fail_pending r)) = sessions r).
  { unfold close_queues. apply (map_fold_weak_ind (λ r' _, sessions r' = sessions r)); [done|].
    intros k' s m r' _ IH. by destruct (delta_queue s). }
  rewrite Hs. unfold sess in He. destruct (sessions r !! k) as [s|] eqn:Es; [|done]. simpl in He.
  cut (∃ k s, sessions r !! k = Some s ∧ reply_event s = Some e); [|eauto].
  apply (map_fold_weak_ind (λ es m, (∃ k s, m !! k = Some s ∧ reply_event s = Some e) → es !! e = Some true)).
  { intros (k' & s' & Hk' & _). by rewrite lookup_empty in Hk'. }
  intros k1 s1 m es _ IH (k' & s' & Hk' & Hs').
  apply lookup_insert_Some in Hk'. destruct (reply_event s1) as [e1|] eqn:E1.
  - destruct (decide (e1 = e)) as [->|Hne]; [by rewrite lookup_insert_eq|]. rewrite lookup_insert_ne by done.
    apply IH. destruct Hk' as [[_ <-]|[_ ?]]; [congruence|eauto].
  - apply IH. destruct Hk' as [[_ <-]|[_ ?]]; [congruence|eauto].
Qed.
Lemma reset_keeps_turns r : active_turns (reset r) = active_turns r.
Proof.
  unfold reset, wake_waiters, close_queues. simpl.
  apply (map_fold_weak_ind (λ r' _, active_turns r' = active_turns r)); [done|].
  intros k s m r' _ IH. by destruct (delta_queue s).
Qed.
(** When the connection is lost, nobody is left waiting: every pending call is
    answered with the error, every open stream is closed with it behind what it
    holds, every waiting turn is woken, and the relay forgets its sessions; the
    principals of the turns in flight stay until the turns have ended. *)
Theorem reset_frees_waiters r :
  released r (reset r) ∧ forgotten (reset r) ∧ active_turns (reset r) = active_turns r.
Proof.
  split; [|split; [done|apply reset_keeps_turns]]. split_and!; [| | |apply reset_wakes].
  - intros req f Hp Hf. rewrite reset_futures. apply fail_pending_futures; [done|eauto].
  - intros f v Hf. rewrite reset_futures, (proj1 (fail_pending_futures r f)); congruence.
  - intros k q Hq. destruct (reset_queue r q) as (n & -> & Hn). destruct n as [|n]; [by destruct Hn; eauto|].
    exists n. done.
Qed.
