(* ===== verification/Invoke.v ===== *)
(** One [node.invoke.request] ([gateway_ws.py]): decoding its parameters within
    their bounds, finding the caller it speaks for, running the command, and the
    one result frame that answers it. *)

From stdpp Require Import base list gmap sorting.
From Stdlib Require Import NArith ZArith Lia.
From S2P Require Import Prelude PyStr PyCase PyFloat Json JsonParse Config Authz Policy Scrub Dispatch Turn RelayText Relay RelayTurn RelayEvents RelayStream RelayRegistry.

(** ** [json.dumps] with the default separators *)

Fixpoint json_dumps (j : json) : pystr :=
  match j with
  | JNull => "null"
  | JBool b => if b then "true" else "false"
  | JInt z => str_of_Z z
  | JFloat x => json_dumps_float x
  | JStr s => json_dumps_str s
  | JList l => "[" ++ join ", " (map json_dumps l) ++ "]"
  | JDict d => "{" ++ join ", " (map (λ kv, json_dumps_str kv.1 ++ ": " ++ json_dumps kv.2) d) ++ "}"
  end.

(** ** Constants *)

Definition _MAX_PARAMS_JSON_BYTES : N := 512 * 1024.
Definition _MAX_PARAMS_DEPTH : nat := 64.
Definition _MAX_PARAMS_MEMBERS : N := 4096.
Definition _MAX_INVOKE_RESULT_BYTES : N := 24 * 1024 * 1024.
Definition _INVOKE_CALLER : Caller := Caller_operator "gateway-invoke".
Definition _CALLER_PARAM : pystr := "_openclaw_caller".

(** ** Parameters *)

(** The refusals of [_decode_invoke_params] and of the caller's hint. *)
Inductive refusal :=
| InvalidInvokeParamsError
| OversizeInvokeParamsError
| CallerRefusedError (code message : pystr).
Definition refusal_code (e : refusal) : pystr :=
  match e with
  | InvalidInvokeParamsError => "INVALID_PARAMS"
  | OversizeInvokeParamsError => "REQUEST_TOO_LARGE"
  | CallerRefusedError code _ => code
  end.
Definition refusal_message (e : refusal) : pystr :=
  match e with CallerRefusedError _ message => message | _ => "Malformed invoke params" end.
(** A step that answers, refuses, or raises what its caller does not catch. *)
Inductive verdict (A : Type) := Accepted (a : A) | Refused (e : refusal) | Escapes (e : exn).
Arguments Accepted {A} a.
Arguments Refused {A} e.
Arguments Escapes {A} e.

Definition children_of (j : json) : option (list json) :=
  match j with JDict d => Some (map snd d) | JList l => Some l | _ => None end.
(** The walk of [_check_params_shape]; the head of [stack] is its top. *)
Fixpoint shape_loop (fuel : nat) (members : N) (stack : list (json * nat)) : bool :=
  match fuel, stack with
  | _, [] => true
  | O, _ => false
  | S fuel, (node, depth) :: stack =>
      match children_of node with
      | None => shape_loop fuel members stack
      | Some children =>
          if (_MAX_PARAMS_DEPTH <? depth)%nat then false
          else
            let members := (members + N.of_nat (length children))%N in
            if (_MAX_PARAMS_MEMBERS <? members)%N then false
            else shape_loop fuel members (rev (map (λ c, (c, S depth)) children) ++ stack)
      end
  end.
Fixpoint json_size (j : json) : nat :=
  S match j with
    | JList l => sum_list (map json_size l)
    | JDict d => sum_list (map (λ kv, json_size kv.2) d)
    | _ => 0
    end.
Definition _check_params_shape (decoded : json) : bool := shape_loop (json_size decoded) 0 [(decoded, 1%nat)].

(** [json.loads] refuses a text that nests deeper than the interpreter's stack;
    which texts these are is the interpreter's. *)
Class JsonDepth := { nests_too_deep : pystr → bool }.

Section invoke.
Context `{Unicode} `{Casing} `{JsonDepth}.

Definition decode_text (raw_json : pystr) : verdict dict :=
  if nests_too_deep raw_json then Refused OversizeInvokeParamsError
  else
    match loads raw_json with
    | Raise e => if bool_decide (e = JSONDecodeError) then Refused InvalidInvokeParamsError else Escapes e
    | Ret (JDict d) => if _check_params_shape (JDict d) then Accepted d else Refused OversizeInvokeParamsError
    | Ret _ => Refused InvalidInvokeParamsError
    end.
Definition _decode_invoke_params (payload : dict) : verdict dict :=
  match get_or_null "paramsJSON" payload with
  | JStr ((_ :: _) as raw_json) =>
      match utf8 raw_json with
      | None => Escapes (Exn "UnicodeEncodeError" "surrogates not allowed")
      | Some bytes =>
          if (_MAX_PARAMS_JSON_BYTES <? N.of_nat (length bytes))%N then Refused OversizeInvokeParamsError
          else decode_text raw_json
      end
  | _ => Refused InvalidInvokeParamsError
  end.

(** ** The caller *)

(** The hint, taken out of the parameters; blank text is no hint. *)
Definition _pop_caller_hint (params : dict) : verdict (option pystr * dict) :=
  match dget _CALLER_PARAM params with
  | None => Accepted (None, params)
  | Some hint =>
      match hint with
      | JDict h =>
          match get_or_null "sessionKey" h with
          | JStr key => if bool_decide (strip key = []) then Refused (CallerRefusedError "INVALID_PARAMS" "Malformed invoke params")
                        else Accepted (Some key, ddel _CALLER_PARAM params)
          | _ => Refused (CallerRefusedError "INVALID_PARAMS" "Malformed invoke params")
          end
      | _ => Refused (CallerRefusedError "INVALID_PARAMS" "Malformed invoke params")
      end
  end.
Definition turn_ended : refusal :=
  CallerRefusedError "REQUEST_EXPIRED" "That request expired because the Assist turn has ended. Ask again.".
Definition no_turn : refusal := CallerRefusedError "PERMISSION_DENIED" "No active Assist turn for caller".
Definition _resolve_invoke_caller (now : Z) (params : dict) (relay : option Relay)
    : verdict (Caller * dict) * option Relay :=
  match _pop_caller_hint params with
  | Escapes e => (Escapes e, relay)
  | Refused e => (Refused e, relay)
  | Accepted (None, params) => (Accepted (_INVOKE_CALLER, params), relay)
  | Accepted (Some session_key, params) =>
      match relay with
      | None => (Refused no_turn, relay)
      | Some r =>
          match active_caller session_key r with
          | Some caller => (Accepted (caller, params), relay)
          | None =>
              let '(ended, r) := recently_ended now session_key r in
              (Refused (if ended then turn_ended else no_turn), Some r)
          end
      end
  end.

(** ** Frames *)

Definition _make_req (id method : pystr) (params : dict) : dict :=
  [("type"%py, JStr "req"); ("id"%py, JStr id); ("method"%py, JStr method); ("params"%py, JDict params)].
Definition error_field (code message : pystr) : dict :=
  [("ok"%py, JBool false); ("error"%py, JDict [("code"%py, JStr code); ("message"%py, JStr message)])].
Definition base_of (payload : dict) : dict :=
  [("id"%py, JStr (str_get "id" [] payload)); ("nodeId"%py, JStr (str_get "nodeId" [] payload))].
Definition result_frame (id : pystr) (params : dict) : dict := _make_req id "node.invoke.result" params.
Definition result_too_large : dict :=
  error_field "RESULT_TOO_LARGE" "Command ran but its result exceeds the size limit".
Definition _send_invoke_result (id2 : pystr) (resp base : dict) : dict :=
  if (_MAX_INVOKE_RESULT_BYTES <? N.of_nat (length (json_dumps (JDict resp))))%N
  then result_frame id2 (base ++ result_too_large) else resp.

Definition or_text (j : json) (default_ : pystr) : pystr :=
  match j with JStr ((_ :: _) as s) => s | _ => default_ end.
(** The answer to what a command returned. *)
Definition response_of (result : json) (rd : dict) : dict :=
  let succeeded := match dget "ok" rd with None => true | Some ok => bool_decide (ok = JBool true) end in
  [("ok"%py, JBool succeeded); ("payload"%py, result)]
  ++ if succeeded then []
     else [("error"%py, JDict [("code"%py, JStr (or_text (get_or_null "error" rd) "COMMAND_ERROR"));
                               ("message"%py, JStr (or_text (get_or_null "message" rd) "Node command failed"))])].
Definition command_error : dict := error_field "COMMAND_ERROR" "Internal command error".
(** The command an [UnknownCommandError] names. *)
Definition unknown_command (command : pystr) (params : dict) : pystr :=
  match collect_codes (JDict params) with Ret codes => scrub_str command codes | Raise _ => command end.

Context {W : Type} (handlers : pystr → @handler W).

Definition outcome_fields (command : pystr) (params : dict) (r : res json) : dict :=
  match r with
  | Ret ((JDict rd) as result) => response_of result rd
  | Ret _ => command_error
  | Raise e => if bool_decide (exn_type e = "UnknownCommandError"%py)
               then error_field "UNKNOWN_COMMAND" (unknown_command command params) else command_error
  end.
(** The frame that answers the invoke, with what it leaves; or an exception
    that ends the connection. *)
Definition _handle_invoke (now : Z) (id1 id2 : pystr) (payload : json) (relay : option Relay) (st : @DState W)
    : res dict * option Relay * @DState W :=
  match payload with
  | JDict payload =>
      let command := str_get "command" [] payload in
      let base := base_of payload in
      match _decode_invoke_params payload with
      | Escapes e => (Raise e, relay, st)
      | Refused e =>
          (Ret (_send_invoke_result id2
                  (result_frame id1 (base ++ error_field (refusal_code e) "Malformed invoke params")) base), relay, st)
      | Accepted params =>
          let '(v, relay) := _resolve_invoke_caller now params relay in
          match v with
          | Escapes e => (Raise e, relay, st)
          | Refused e => (Ret (result_frame id1 (base ++ error_field (refusal_code e) (refusal_message e))), relay, st)
          | Accepted (caller, params) =>
              let '(st, r) := dispatch_async handlers command params caller st in
              (Ret (_send_invoke_result id2
                      (result_frame id1 (base ++ outcome_fields command params r)) base), relay, st)
          end
      end
  | _ => (Raise (Exn "AttributeError" "object has no attribute 'get'"), relay, st)
  end.
End invoke.

(** ** The bounds on parameters *)

Section shape.
(** How deep the containers of a value nest, and how many members they have. *)
Fixpoint container_depth (j : json) : nat :=
  match j with
  | JList l => S (max_list (map container_depth l))
  | JDict d => S (max_list (map (λ kv, container_depth kv.2) d))
  | _ => 0
  end.
Fixpoint member_count (j : json) : N :=
  match j with
  | JList l => (N.of_nat (length l) + foldr N.add 0 (map member_count l))%N
  | JDict d => (N.of_nat (length d) + foldr N.add 0 (map (λ kv, member_count kv.2) d))%N
  | _ => 0%N
  end.

Lemma child_facts j cs :
  children_of j = Some cs →
  json_size j = S (sum_list (map json_size cs)) ∧ container_depth j = S (max_list (map container_depth cs)) ∧
  member_count j = (N.of_nat (length cs) + foldr N.add 0 (map member_count cs))%N.
Proof.
  destruct j as [| | | | |l|d]; intros [= <-]; simpl; [done|].
  rewrite !map_map, length_map. done.
Qed.
Lemma leaf_facts j : children_of j = None → container_depth j = 0%nat ∧ member_count j = 0%N ∧ json_size j = 1%nat.
Proof. by destruct j. Qed.

(** The budget of a stack: what the walk may still count. *)
Definition stack_members (stack : list (json * nat)) : N := foldr N.add 0%N (map (λ jd, member_count jd.1) stack).
Definition stack_size (stack : list (json * nat)) : nat := sum_list (map (λ jd, json_size jd.1) stack).
Definition fits (jd : json * nat) : Prop := container_depth jd.1 = 0 ∨ jd.2 + container_depth jd.1 <= S _MAX_PARAMS_DEPTH.

Lemma sum_app (a b : list N) : foldr N.add 0%N (a ++ b) = (foldr N.add 0 a + foldr N.add 0 b)%N.
Proof. induction a as [|x a IH]; simpl; [done|]. rewrite IH. lia. Qed.
Lemma sum_rev (a : list N) : foldr N.add 0%N (rev a) = foldr N.add 0%N a.
Proof. induction a as [|x a IH]; simpl; [done|]. rewrite sum_app, IH. simpl. lia. Qed.
Lemma sum_list_app (a b : list nat) : sum_list (a ++ b) = sum_list a + sum_list b.
Proof. apply sum_list_with_app. Qed.
Lemma sum_list_rev' (a : list nat) : sum_list (rev a) = sum_list a.
Proof. induction a as [|x a IH]; simpl; [done|]. rewrite sum_list_app, IH. simpl. lia. Qed.
Lemma max_list_le (l : list nat) b : max_list l <= b ↔ Forall (λ x, x <= b) l.
Proof.
  induction l as [|x l IH]; simpl; [split; [done|lia]|]. rewrite Forall_cons, <- IH. lia.
Qed.

Lemma shape_loop_spec fuel : ∀ members stack,
  stack_size stack <= fuel → (members <= _MAX_PARAMS_MEMBERS)%N →
  shape_loop fuel members stack = true ↔
    Forall fits stack ∧ (members + stack_members stack <= _MAX_PARAMS_MEMBERS)%N.
Proof.
  induction fuel as [|fuel IH]; intros members [|[j depth] stack] Hs Hm; simpl.
  - unfold stack_members. simpl. split; [split; [done|lia]|done].
  - exfalso. unfold stack_size in Hs. simpl in Hs. destruct j; simpl in Hs; lia.
  - unfold stack_members. simpl. split; [split; [done|lia]|done].
  - unfold stack_size in Hs. simpl in Hs. unfold stack_members at 1. simpl. fold (stack_members stack).
    destruct (children_of j) as [cs|] eqn:Hc.
    + destruct (child_facts _ _ Hc) as (Hz & Hd & Hn). rewrite Forall_cons. unfold fits at 1. simpl. rewrite Hd, Hn.
      assert (Hsz : stack_size (rev (map (λ c, (c, S depth)) cs) ++ stack) <= fuel).
      { unfold stack_size. rewrite map_app, sum_list_app, map_rev, sum_list_rev', map_map.
        change (sum_list (map json_size cs) + stack_size stack <= fuel). fold (stack_size stack) in Hs. lia. }
      assert (Hst : stack_members (rev (map (λ c, (c, S depth)) cs) ++ stack)
                    = (foldr N.add 0 (map member_count cs) + stack_members stack)%N).
      { unfold stack_members. by rewrite map_app, sum_app, map_rev, sum_rev, map_map. }
      assert (Hf : Forall fits (rev (map (λ c, (c, S depth)) cs) ++ stack) ↔
                   Forall (λ c, container_depth c = 0 ∨ S depth + container_depth c <= S _MAX_PARAMS_DEPTH) cs ∧ Forall fits stack).
      { rewrite Forall_app, <- (Permutation_rev _), Forall_map. done. }
      destruct (_MAX_PARAMS_DEPTH <? depth)%nat eqn:Ed.
      { apply Nat.ltb_lt in Ed. split; [done|]. intros [[[|?] _] _]; [done|lia]. }
      apply Nat.ltb_ge in Ed.
      assert (Hdep : depth + S (max_list (map container_depth cs)) <= S _MAX_PARAMS_DEPTH ↔
                     Forall (λ c, container_depth c = 0 ∨ S depth + container_depth c <= S _MAX_PARAMS_DEPTH) cs).
      { transitivity (max_list (map container_depth cs) <= _MAX_PARAMS_DEPTH - depth); [lia|].
        rewrite max_list_le, Forall_map. apply Forall_iff. intros c. lia. }
      destruct (_MAX_PARAMS_MEMBERS <? members + N.of_nat (length cs))%N eqn:En.
      { apply N.ltb_lt in En. split; [done|]. intros [_ Hle]. lia. }
      apply N.ltb_ge in En. rewrite IH, Hst, Hf by done. rewrite Hdep. split; [intros [[? ?] ?]|intros [[[?|?] ?] ?]]; split_and!; auto; lia.
    + destruct (leaf_facts _ Hc) as (Hd & Hn & Hz). rewrite Forall_cons, IH by (unfold stack_size; lia || done).
      unfold fits at 2. simpl. rewrite Hd, Hn. split; [intros [? ?]|intros [[_ ?] ?]]; split_and!; auto; lia.
Qed.

(** The parameters the shape check lets through are those that nest at most 64
    containers and have at most 4096 members in all; the walk visits every
    value once and always ends. *)
Theorem params_shape_exact j :
  _check_params_shape j = true ↔ container_depth j <= _MAX_PARAMS_DEPTH ∧ (member_count j <= _MAX_PARAMS_MEMBERS)%N.
Proof.
  unfold _check_params_shape. rewrite shape_loop_spec; [|unfold stack_size; simpl; lia|done].
  rewrite Forall_singleton. unfold fits, stack_members. simpl. rewrite !N.add_0_r. lia.
Qed.
End shape.

(** ** What an invoke may do *)

Section properties.
Context `{Unicode} `{Casing} `{JsonDepth} {W : Type} (handlers : pystr → @handler W).
Implicit Types st : @DState W.

(** The caller that parameters speak for: the operator when they hold no hint,
    else the principal of the one turn in flight that the hint names. *)
Definition speaks_for (relay : option Relay) (params : dict) (caller : Caller) : Prop :=
  match dget _CALLER_PARAM params with
  | None => caller = _INVOKE_CALLER
  | Some hint =>
      ∃ h key r raw, hint = JDict h ∧ get_or_null "sessionKey" h = JStr key ∧ relay = Some r ∧
        active_turns r !! raw = Some caller ∧ answers_to r raw (py_lower (strip key)) = true ∧
        ∀ raw', is_Some (active_turns r !! raw') → answers_to r raw' (py_lower (strip key)) = true → raw' = raw
  end.

Lemma resolve_caller_accepted now params relay caller params' relay' :
  _resolve_invoke_caller now params relay = (Accepted (caller, params'), relay') →
  speaks_for relay params caller ∧ params' = ddel _CALLER_PARAM params ∧ relay' = relay.
Proof.
  unfold _resolve_invoke_caller, _pop_caller_hint, speaks_for.
  destruct (dget _CALLER_PARAM params) as [hint|] eqn:Hh.
  - destruct hint as [| | | | | |h]; try (intros E; discriminate E).
    destruct (get_or_null "sessionKey" h) as [| | | |key| |] eqn:Hk; try (intros E; discriminate E).
    case_bool_decide; [intros E; discriminate E|]. destruct relay as [r|]; [|intros E; discriminate E].
    destruct (active_caller key r) as [c|] eqn:Ha.
    + intros [= <- <- <-]. apply active_caller_Some in Ha as (raw & ? & ? & ?). naive_solver.
    + destruct (recently_ended now key r). intros E; discriminate E.
  - intros [= <- <- <-]. split_and!; [done|by rewrite ddel_absent|done].
Qed.

Lemma send_result_cases id2 id1 base b fields :
  _send_invoke_result id2 (result_frame id1 (base ++ ("ok"%py, JBool b) :: fields)) base
    = result_frame id1 (base ++ ("ok"%py, JBool b) :: fields) ∨
  _send_invoke_result id2 (result_frame id1 (base ++ ("ok"%py, JBool b) :: fields)) base
    = result_frame id2 (base ++ result_too_large).
Proof. unfold _send_invoke_result. case_match; auto. Qed.

(** The outcome of a command that makes an invoke succeed. *)
Definition succeeded (r : res json) : Prop :=
  ∃ rd, r = Ret (JDict rd) ∧ (dget "ok" rd = None ∨ dget "ok" rd = Some (JBool true)).
Lemma outcome_ok command params r :
  ∃ b fields, outcome_fields command params r = ("ok"%py, JBool b) :: fields ∧ (b = true → succeeded r).
Proof.
  unfold outcome_fields, succeeded, command_error.
  destruct r as [result|e]; [|case_bool_decide; eexists _, _; by split].
  destruct result as [| | | | | |rd]; try (eexists _, _; by split).
  eexists _, _. split; [reflexivity|]. intros Hb. exists rd. split; [done|].
  destruct (dget "ok" rd); [right; f_equal; by apply bool_decide_eq_true in Hb|by left].
Qed.

#[local] Opaque base_of.
(** C6. An invoke runs a command only with the caller its parameters speak for, and
    with the hint taken out of them: the state changes only by a dispatch that
    the policy gate lets through for this caller.  It is answered by one result
    frame that carries its own id and node, and the frame says that it succeeded
    only when the command ran and did.  An invoke that is not answered has run
    nothing. *)
Theorem invoke_speaks_for_its_caller now id1 id2 payload relay st out relay' st' :
  _handle_invoke handlers now id1 id2 payload relay st = (out, relay', st') →
  let ran d params caller :=
    payload = JDict d ∧ _decode_invoke_params d = Accepted params ∧ speaks_for relay params caller in
  let run d params caller :=
    dispatch_async handlers (str_get "command" [] d) (ddel _CALLER_PARAM params) caller st in
  (st' = st ∨ ∃ d params caller, ran d params caller ∧ st' = (run d params caller).1 ∧
     check caller (str_get "command" [] d) (ddel _CALLER_PARAM params) = None) ∧
  match out with
  | Ret frame => ∃ d id ok fields, payload = JDict d ∧ (id = id1 ∨ id = id2) ∧
      frame = result_frame id (base_of d ++ ("ok"%py, JBool ok) :: fields) ∧
      (ok = true → ∃ params caller, ran d params caller ∧ succeeded (run d params caller).2)
  | Raise _ => st' = st
  end.
Proof.
  intros Hi ran run. unfold _handle_invoke in Hi.
  destruct payload as [| | | | | |d]; try (injection Hi as <- <- <-; split; [by left|done]).
  destruct (_decode_invoke_params d) as [params|e|e] eqn:Hd.
  - destruct (_resolve_invoke_caller now params relay) as [v relay1] eqn:Hr.
    destruct v as [[caller params']|e|e]; cbv beta iota zeta in Hi.
    + apply resolve_caller_accepted in Hr as (Hsp & -> & ->).
      assert (Hran : ran d params caller) by (split_and!; done).
      destruct (dispatch_async handlers (str_get "command" [] d) (ddel _CALLER_PARAM params) caller st) as [st1 r] eqn:Hdis.
      injection Hi as <- <- <-. split.
      * destruct (check caller (str_get "command" [] d) (ddel _CALLER_PARAM params)) as [c|] eqn:Hc.
        { left. assert (E : (dispatch handlers (str_get "command" [] d) (ddel _CALLER_PARAM params) caller st).1 = st ∧
            dispatch_async handlers (str_get "command" [] d) (ddel _CALLER_PARAM params) caller st
            = dispatch handlers (str_get "command" [] d) (ddel _CALLER_PARAM params) caller st).
          { unfold dispatch, dispatch_async. rewrite Hc. repeat case_match; done. }
          destruct E as [E1 E2]. rewrite E2 in Hdis. rewrite Hdis in E1. done. }
        right. exists d, params, caller. unfold run. by rewrite Hdis.
      * destruct (outcome_ok (str_get "command" [] d) (ddel _CALLER_PARAM params) r) as (b & fields & -> & Hb).
        destruct (send_result_cases id2 id1 (base_of d) b fields) as [E|E]; rewrite E; clear E.
        -- exists d, id1, b, fields. split_and!; [done|by left|done|]. intros ?. exists params, caller.
           unfold run. rewrite Hdis. auto.
        -- exists d, id2, false, (tail result_too_large). split_and!; [done|by right|reflexivity|done].
    + injection Hi as <- <- <-. split; [by left|].
      exists d, id1, false, (tail (error_field (refusal_code e) (refusal_message e))). split_and!; [done|by left|reflexivity|done].
    + injection Hi as <- <- <-. split; [by left|done].
  - injection Hi as <- <- <-. split; [by left|].
    destruct (send_result_cases id2 id1 (base_of d) false
      [("error"%py, JDict [("code"%py, JStr (refusal_code e)); ("message"%py, JStr "Malformed invoke params")])]) as [E|E];
      unfold error_field; rewrite E.
    + eexists d, id1, false, _. split_and!; [done|by left|reflexivity|done].
    + exists d, id2, false, (tail result_too_large). split_and!; [done|by right|reflexivity|done].
  - injection Hi as <- <- <-. split; [by left|done].
Qed.

#[local] Transparent base_of.
Definition long_integer_params : pystr := [123; 34; 110; 34; 58]%N ++ replicate 4301 49%N ++ [125%N].
(** Parameters that Python's reader refuses with another exception than
    [JSONDecodeError] are not refused but end the connection: an integer of more
    than 4300 digits, and a text with a lone surrogate. *)
Theorem unreadable_params_escape now id1 id2 relay st :
  let payload text := JDict [("id"%py, JStr "i"); ("command"%py, JStr "ping"); ("paramsJSON"%py, JStr text)] in
  (nests_too_deep long_integer_params = false →
   _handle_invoke handlers now id1 id2 (payload long_integer_params) relay st = (Raise int_too_long, relay, st)) ∧
  _handle_invoke handlers now id1 id2 (payload [55296%N]) relay st
    = (Raise (Exn "UnicodeEncodeError" "surrogates not allowed"), relay, st).
Proof.
  intros payload. split; [|reflexivity]. intros Hn.
  assert (Hu : ∃ bs, utf8 long_integer_params = Some bs ∧ (_MAX_PARAMS_JSON_BYTES <? N.of_nat (length bs))%N = false)
    by (eexists; split; vm_compute; reflexivity).
  assert (Hl : loads long_integer_params = Raise int_too_long) by (vm_compute; reflexivity).
  destruct Hu as (bs & Hu & Hb). unfold payload, _handle_invoke, _decode_invoke_params.
  replace (get_or_null "paramsJSON" [("id"%py, JStr "i"); ("command"%py, JStr "ping"); ("paramsJSON"%py, JStr long_integer_params)])
    with (JStr long_integer_params) by reflexivity.
  change long_integer_params with (123%N :: tail long_integer_params) at 1. cbv iota beta.
  change (123%N :: tail long_integer_params) with long_integer_params.
  rewrite Hu, Hb. unfold decode_text. by rewrite Hn, Hl.
Qed.
End properties.

(** ** Witness *)

#[local] Instance every_char_prints : Unicode := {| uni_printable := λ _, true; uni_decimal := λ _, None |}.
#[local] Instance ascii_case : Casing := ascii_casing.
#[local] Instance shallow : JsonDepth := {| nests_too_deep := λ _, false |}.
Definition counting : pystr → @handler nat := λ _, Sync (λ w _ _, (S w, Ret (JDict []))).
Definition in_flight : Relay := enter_turn "ha-assist:C1" None new_relay.
Definition hinted_ping : json :=
  JDict [("id"%py, JStr "i1"); ("nodeId"%py, JStr "n"); ("command"%py, JStr "ping");
         ("paramsJSON"%py, JStr (json_dumps (JDict [(_CALLER_PARAM, JDict [("sessionKey"%py, JStr "HA-assist:c1 ")])])))].
Definition idle_world : @DState nat := {| world := 0; CURRENT_CALLER := None |}.
Lemma triple_eta {A B C} (p : A * B * C) : p = (p.1.1, p.1.2, p.2).
Proof. by destruct p as [[a b] c]. Qed.
Example invoke_speaks_for_its_caller_witness :
  let out := _handle_invoke counting 0 "r1" "r2" hinted_ping (Some in_flight) idle_world in
  world out.2 = 1 ∧
  (out.2 = idle_world ∨ ∃ d params caller,
     (hinted_ping = JDict d ∧ _decode_invoke_params d = Accepted params ∧ speaks_for (Some in_flight) params caller) ∧
     out.2 = (dispatch_async counting (str_get "command" [] d) (ddel _CALLER_PARAM params) caller idle_world).1 ∧
     check caller (str_get "command" [] d) (ddel _CALLER_PARAM params) = None).
Proof.
  set (out := _handle_invoke counting 0 "r1" "r2" hinted_ping (Some in_flight) idle_world). intros o.
  assert (Hw : world out.2 = 1) by (vm_compute; reflexivity). split; [exact Hw|].
  exact (proj1 (invoke_speaks_for_its_caller counting 0 "r1" "r2" hinted_ping (Some in_flight) idle_world
                  out.1.1 out.1.2 out.2 (triple_eta out))).
Defined.
