(* ===== verification/Pairing.v ===== *)
(** The pairing state machine ([pairing.py]), the errors of a gateway response,
    and the wait before the next connection ([gateway_ws.py]). *)

From stdpp Require Import base list gmap sorting relations.
From Stdlib Require Import NArith ZArith Lia.
From S2P Require Import Prelude PyStr PyFloat Json JsonParse.

(** ** The machine *)

Inductive PairingState := UNKNOWN | PENDING | PAIRED | ERROR.
#[global] Instance PairingState_eq_dec : EqDecision PairingState.
Proof. solve_decision. Defined.

Record PairingError := { pairing_code : pystr; pairing_message : pystr; retry_after_ms : option pyfloat }.

Definition or_str (a b : pystr) : pystr := match a with [] => b | _ => a end.
(** A rejection has no payload. *)
Definition on_connect_response (ok : bool) (error : option pystr) (error_message : pystr)
    (retry : option pyfloat) : PairingState * option PairingError :=
  if ok then (PAIRED, None)
  else
    let code := or_str (default [] error) "UNKNOWN_ERROR" in
    if bool_decide (code = "PAIRING_REQUIRED"%py) then (PENDING, None)
    else (ERROR, Some {| pairing_code := code; pairing_message := error_message; retry_after_ms := retry |}).
Definition on_reconnect (s : PairingState) : PairingState :=
  match s with ERROR => ERROR | _ => UNKNOWN end.

(** ** The error of a response *)

Section errors.
Context `{Unicode}.

Definition _decode_error_code (raw : json) : option pystr :=
  match raw with
  | JDict d => match get_or_null "code" d with JStr c => Some c | _ => None end
  | _ => None
  end.
Definition _decode_error_message (raw : json) : pystr :=
  match raw with
  | JDict d =>
      let message := match get_or_null "message" d with JStr ((_ :: _) as m) => [m] | _ => [] end in
      let details := get_or_null "details" d in
      join " | " (message ++ if truthy details then ["details=" ++ py_repr details] else [])
  | _ => if truthy raw then py_str raw else []
  end.
(** [float(x)]; an integer too large for a float raises. *)
Definition float_of_int (z : Z) : res pyfloat :=
  match float_of_ratio (z <? 0)%Z (Z.to_N (Z.abs z)) 1 with
  | FInf _ => Raise (Exn "OverflowError" "int too large to convert to float")
  | x => Ret x
  end.
Definition negative (x : pyfloat) : bool :=
  match x with FFin neg m _ => neg && negb (m =? 0)%N | FInf neg => neg | FNan => false end.
Definition number_or_none (j : json) : res (option pyfloat) :=
  match j with
  | JInt z => if (z <? 0)%Z then Ret None else let? x := float_of_int z in Ret (Some x)
  | JBool b => let? x := float_of_int (if b then 1 else 0) in Ret (Some x)
  | JFloat x => Ret (if negative x then None else Some x)
  | _ => Ret None
  end.
Definition _decode_error_retry_after_ms (raw : json) : res (option pyfloat) :=
  match raw with
  | JDict d =>
      number_or_none
        match get_or_null "retryAfterMs" d with
        | JNull => match get_or_null "details" d with JDict details => get_or_null "retryAfterMs" details | _ => JNull end
        | x => x
        end
  | _ => Ret None
  end.

(** ** The wait before the next attempt *)

Definition _RECONNECT_DELAY_S : Z := 5.
Definition _RATE_LIMITED_BACKOFF_BASE_S : Z := 30.
Definition _RATE_LIMITED_BACKOFF_MAX_S : Z := 300.
Definition _RATE_LIMITED_BACKOFF_FACTOR : Z := 2.

(** What ended a connection: a pairing error, or another exception, known by its [repr]. *)
Inductive failure := PairingFailure (e : PairingError) | OtherFailure (repr : pystr).
Definition haystack (f : failure) : pystr :=
  match f with
  | PairingFailure e => "PairingError(" ++ repr_str (pairing_code e ++ ": " ++ pairing_message e) ++ ")"
  | OtherFailure r => r
  end.
(** A wait in seconds, or the thousandth of what the gateway asked for. *)
Inductive delay := Seconds (s : Z) | Thousandth (ms : pyfloat).

Definition is_rate_limited (f : failure) : bool :=
  contains (haystack f) "AUTH_RATE_LIMITED" || contains (haystack f) "wait_then_retry".
Definition _next_reconnect_delay (f : failure) (rate_limited_delay_s : Z) : delay * Z :=
  match f with
  | PairingFailure {| retry_after_ms := Some ms |} => (Thousandth ms, 0%Z)
  | _ =>
      if negb (is_rate_limited f) then (Seconds _RECONNECT_DELAY_S, 0%Z)
      else
        let d := if (rate_limited_delay_s <=? 0)%Z then _RATE_LIMITED_BACKOFF_BASE_S
                 else Z.min (rate_limited_delay_s * _RATE_LIMITED_BACKOFF_FACTOR) _RATE_LIMITED_BACKOFF_MAX_S in
        (Seconds d, d)
  end.

(** ** Properties *)

(** Successive failures, with the waits between them. *)
Fixpoint delays (fs : list failure) (rate_limited_delay_s : Z) : list delay :=
  match fs with
  | [] => []
  | f :: fs => let '(d, r) := _next_reconnect_delay f rate_limited_delay_s in d :: delays fs r
  end.
Definition asks_for_delay (f : failure) : Prop :=
  match f with PairingFailure e => is_Some (retry_after_ms e) | _ => False end.

Lemma next_delay_cases f r :
  ¬ asks_for_delay f →
  _next_reconnect_delay f r =
    if is_rate_limited f then
      let d := if (r <=? 0)%Z then 30%Z else Z.min (r * 2) 300 in (Seconds d, d)
    else (Seconds 5, 0%Z).
Proof.
  intros Hn. unfold _next_reconnect_delay.
  destruct f as [[c m [ms|]]|s]; [by destruct Hn; eexists| |]; by destruct (is_rate_limited _).
Qed.
(** As long as the gateway names no delay itself, the node waits five seconds
    before it connects again, and after the [k]-th refusal in a row for too many
    attempts it waits 30, 60, 120, 240 and then always 300 seconds: it neither
    hammers the gateway nor waits longer than five minutes. *)
Theorem backoff_schedule fs r :
  (r = 0 ∨ 30 <= r <= 300)%Z → Forall (λ f, ¬ asks_for_delay f) fs →
  Forall (λ d, ∃ s, d = Seconds s ∧ (5 <= s <= 300)%Z) (delays fs r) ∧
  (Forall (λ f, is_rate_limited f = true) fs → r = 0%Z →
   delays fs r = map (λ k, Seconds (Z.min (30 * 2 ^ Z.of_nat k) 300)) (seq 0 (length fs))).
Proof.
  intros Hr Hf. split.
  - revert r Hr. induction Hf as [|f fs Hn _ IH]; intros r Hr; simpl; [done|].
    rewrite next_delay_cases by done.
    destruct (is_rate_limited f); [destruct (r <=? 0)%Z eqn:E|].
    + constructor; [eexists; split; [done|lia]|]. apply IH. lia.
    + apply Z.leb_gt in E. constructor; [eexists; split; [done|lia]|]. apply IH. lia.
    + constructor; [eexists; split; [done|lia]|]. apply IH. lia.
  - intros Hrl ->.
    assert (Hgen : ∀ fs k, Forall (λ f, ¬ asks_for_delay f) fs → Forall (λ f, is_rate_limited f = true) fs →
      delays fs (Z.min (30 * 2 ^ Z.of_nat k) 300) = map (λ k, Seconds (Z.min (30 * 2 ^ Z.of_nat k) 300)) (seq (S k) (length fs))).
    { clear. induction fs as [|f fs IH]; intros k Hn Hl; simpl; [done|].
      apply Forall_cons in Hn as [Hn Hns], Hl as [Hl Hls]. rewrite next_delay_cases, Hl by done.
      replace (Z.min (30 * 2 ^ Z.of_nat k) 300 <=? 0)%Z with false by (symmetry; apply Z.leb_gt; lia).
      assert (E : Z.min (Z.min (30 * 2 ^ Z.of_nat k) 300 * 2) 300 = Z.min (30 * 2 ^ Z.of_nat (S k)) 300)
        by (rewrite Nat2Z.inj_succ, Z.pow_succ_r by lia; lia).
      cbv zeta. rewrite E. f_equal. by apply IH. }
    destruct fs as [|f fs]; [done|]. simpl.
    apply Forall_cons in Hf as [Hn Hns], Hrl as [Hl Hls]. rewrite next_delay_cases, Hl by done. simpl. f_equal.
    by apply (Hgen fs 0%nat).
Qed.
Example backoff_schedule_witness :
  let rate_limited := OtherFailure "AUTH_RATE_LIMITED" in
  delays (replicate 6 rate_limited) 0 = map Seconds [30; 60; 120; 240; 300; 300]%Z ∧
  Forall (λ d, ∃ s, d = Seconds s ∧ (5 <= s <= 300)%Z) (delays (replicate 6 rate_limited) 0).
Proof.
  split; [vm_compute; reflexivity|].
  refine (proj1 (backoff_schedule (replicate 6 (OtherFailure "AUTH_RATE_LIMITED")) 0 (or_introl eq_refl) _)).
  repeat constructor; intros [].
Defined.
End errors.

(** The machine over a session: the answers of the gateway and the reconnects. *)
Inductive pairing_event :=
| Answer_ (ok : bool) (error : option pystr) (message : pystr) (retry : option pyfloat)
| Reconnect.
Definition pairing_step (s : PairingState) (e : pairing_event) : PairingState :=
  match e with
  | Answer_ ok error message retry => (on_connect_response ok error message retry).1
  | Reconnect => on_reconnect s
  end.
Definition pairing_run (es : list pairing_event) : PairingState := fold_left pairing_step es UNKNOWN.
(** The last answer, reconnects aside. *)
Definition last_answer (es : list pairing_event) : option pairing_event :=
  List.find (λ e, match e with Reconnect => false | _ => true end) (rev es).
(** The state is what the gateway said last: paired when its acceptance is the
    last event, pending when a demand for approval is, and in error from a
    refusal on until the next answer, since a reconnect keeps the error. *)
Theorem pairing_tells_the_last_answer es :
  (pairing_run es = PAIRED ↔ ∃ pre error message retry, es = pre ++ [Answer_ true error message retry]) ∧
  (pairing_run es = PENDING ↔
     ∃ pre message retry, es = pre ++ [Answer_ false (Some "PAIRING_REQUIRED"%py) message retry]) ∧
  (pairing_run es = ERROR ↔
     ∃ error message retry, last_answer es = Some (Answer_ false error message retry) ∧
       error ≠ Some "PAIRING_REQUIRED"%py).
Proof.
  unfold pairing_run, last_answer. induction es as [|e es IH] using rev_ind.
  { simpl. split_and!; split; try done; [by intros ([|??] & ? & ? & ? & ?)|by intros ([|??] & ? & ? & ?)|naive_solver]. }
  rewrite fold_left_app, rev_app_distr. simpl.
  destruct e as [ok error message retry|]; simpl.
  - destruct ok; simpl.
    { split_and!; split; try done; [eauto| |naive_solver].
      intros (pre & m & r & E). apply app_inj_2 in E as [_ E]; done. }
    assert (Hp : or_str (default [] error) "UNKNOWN_ERROR" = "PAIRING_REQUIRED"%py ↔ error = Some "PAIRING_REQUIRED"%py).
    { destruct error as [[|c s]|]; simpl; split; try done; by intros [= -> ->]. }
    case_bool_decide as E; simpl.
    + apply Hp in E as ->. split_and!; split; try done; [|eauto|naive_solver].
      intros (pre & m & r & ? & E). apply app_inj_2 in E as [_ E]; done.
    + split_and!; split; try done.
      * intros (pre & m & r & ? & E'). apply app_inj_2 in E' as [_ E']; done.
      * intros (pre & m & r & E'). apply app_inj_2 in E' as [_ [= E' _ _]]; [|done]. by destruct E; apply Hp.
      * intros _. exists error, message, retry. split; [done|]. by rewrite <- Hp.
  - destruct IH as (_ & _ & IH). set (s := fold_left pairing_step es UNKNOWN) in *.
    assert (Hs : on_reconnect s ≠ PAIRED ∧ on_reconnect s ≠ PENDING ∧ (on_reconnect s = ERROR ↔ s = ERROR))
      by (destruct s; simpl; naive_solver).
    destruct Hs as (H1 & H2 & H3). split_and!; [split; [done|]|split; [done|]|by rewrite H3].
    + intros (pre & ? & ? & ? & E). apply app_inj_2 in E as [_ E]; done.
    + intros (pre & ? & ? & E). apply app_inj_2 in E as [_ E]; done.
Qed.
