(* ===== verification/PrivateFiles.v ===== *)
(** The files of the node's own data directory: the device tokens the gateway
    issues ([gateway_ws.py]), the private files of [identity.py] and the local
    API token of [token_store.py].

    Permission bits are not modelled, nor the calls that only set them. *)

From stdpp Require Import base list gmap.
From Stdlib Require Import NArith ZArith Lia.
From S2P Require Import Prelude PyStr SafePath JsonParse SafeFd.

Section files.
Context `{Os}.

(** ** Plain files *)

(** [os.open(..., O_WRONLY | O_CREAT | O_TRUNC | O_NOFOLLOW)] *)
Definition open_trunc (d : disk) (p : list pystr) : out disk :=
  sys (SysCreate p) NoName
    match node_at d p with
    | Some (Link _) => inl ELOOP
    | Some Dir => inl EISDIR
    | _ => inr (<[p := File []]> d)
    end.
(** The text of a file that a path reaches, links followed. *)
Definition read_file (d : disk) (ps : list pystr) : out (list N) :=
  match namei lookup_budget d [] ps with
  | inl e => Err (OsError e NoName)
  | inr loc =>
      sys (SysRead loc) NoName
        match node_at d loc with Some (File bytes) => inr bytes | Some Dir => inl EISDIR | _ => inl ENOENT end
  end.
Definition is_file (d : disk) (ps : list pystr) : bool :=
  match namei lookup_budget d [] ps with
  | inr loc => match node_at d loc with Some (File _) => true | _ => false end
  | inl _ => false
  end.
Definition path_exists (d : disk) (ps : list pystr) : bool :=
  match namei lookup_budget d [] ps with inr _ => true | inl _ => false end.
Definition is_symlink (d : disk) (dir : list pystr) (name : pystr) : bool :=
  match namei lookup_budget d [] dir with
  | inr loc => match node_at d (loc ++ [name]) with Some (Link _) => true | _ => false end
  | inl _ => false
  end.
Definition encode_text (s : pystr) : out (list N) :=
  match utf8 s with Some b => Ok b | None => Err (PyError (Exn "UnicodeEncodeError" "surrogates not allowed")) end.
(** Text files are read with universal newlines. *)
Fixpoint newlines (s : pystr) : pystr :=
  match s with
  | 13%N :: 10%N :: s => NL :: newlines s
  | 13%N :: s => NL :: newlines s
  | c :: s => c :: newlines s
  | [] => []
  end.
Definition decode_bytes (b : list N) : out pystr :=
  match decode b with Some s => Ok (newlines s) | None => Err (PyError (Exn "UnicodeDecodeError" "invalid start byte")) end.

(** ** Device tokens *)

Definition tmp_of (name : pystr) : pystr := name ++ ".tmp".
(** The write of the temporary file, behind its opening. *)
Definition fill_tmp (d : disk) (tmp : list pystr) (token : pystr) : out unit * disk :=
  match encode_text token with
  | Err e => (Err e, unlink_quietly d tmp)
  | Ok bytes =>
      match write_all d tmp bytes with
      | (Err e, d) => (Err e, unlink_quietly d tmp)
      | (Ok _, d) => (Ok tt, d)
      end
  end.
Definition _atomic_write_token (d : disk) (dir : list pystr) (name token : pystr) : out unit * disk :=
  match mkdirs d [] dir with
  | (Err e, d) => (Err e, d)
  | (Ok loc, d) =>
      let tmp := loc ++ [tmp_of name] in
      let cleared := match node_at d tmp with
                     | Some (Link _) => sys (SysUnlink tmp) NoName (sys_unlink d tmp)
                     | _ => Ok d
                     end in
      match cleared with
      | Err e => (Err e, d)
      | Ok d =>
          match open_trunc d tmp with
          | Err e => (Err e, d)
          | Ok d =>
              match fill_tmp d tmp token with
              | (Err e, d) => (Err e, d)
              | (Ok _, d) =>
                  match replace_at d loc (tmp_of name) loc name with
                  | Err e => (Err e, unlink_quietly d tmp)
                  | Ok d => (Ok tt, d)
                  end
              end
          end
      end
  end.

(** ** Private files *)

Definition _open_private_fd (d : disk) (loc : list pystr) : out disk :=
  match node_at d loc with
  | Some (Link _) => Err (PyError (Exn "_UnsafePathError" "refusing to write to symlink"))
  | _ => open_trunc d loc
  end.
Definition _write_private_file (d : disk) (dir : list pystr) (name content : pystr) : out unit * disk :=
  match mkdirs d [] dir with
  | (Err e, d) => (Err e, d)
  | (Ok loc, d) =>
      match _open_private_fd d (loc ++ [name]) with
      | Err e => (Err e, d)
      | Ok d =>
          match encode_text content with
          | Err e => (Err e, d)
          | Ok bytes => write_all d (loc ++ [name]) bytes
          end
      end
  end.

(** ** The local API token *)

Definition _TOKEN_FILENAME : pystr := "local-api-token".
Definition _write_token (d : disk) (dir : list pystr) (token : pystr) : out unit * disk :=
  _write_private_file d dir _TOKEN_FILENAME (token ++ [NL]).
(** The stored token; [None] when there is none that can be used. *)
Definition stored_token (d : disk) (dir : list pystr) : out (option pystr) :=
  if path_exists d (dir ++ [_TOKEN_FILENAME]) && negb (is_symlink d dir _TOKEN_FILENAME) then
    match read_file d (dir ++ [_TOKEN_FILENAME]) with
    | Err (OsError _ _) => Ok None
    | Err e => Err e
    | Ok bytes =>
        let# text := decode_bytes bytes in
        Ok (match strip text with [] => None | token => Some token end)
    end
  else Ok None.
(** [fresh] is the text of [secrets.token_urlsafe]. *)
Definition load_or_generate_local_api_token (d : disk) (dir : list pystr) (fresh : pystr)
    : out (pystr * bool) * disk :=
  match stored_token d dir with
  | Err e => (Err e, d)
  | Ok (Some token) => (Ok (token, false), d)
  | Ok None =>
      match _write_token d dir fresh with
      | (Err e, d) => (Err e, d)
      | (Ok _, d) => (Ok (fresh, true), d)
      end
  end.
Definition rotate_local_api_token (d : disk) (dir : list pystr) (fresh : pystr) : out pystr * disk :=
  match _write_token d dir fresh with
  | (Err e, d) => (Err e, d)
  | (Ok _, d) => (Ok fresh, d)
  end.
End files.

(** ** Writing a token *)

Section properties.
Context `{Os}.

Lemma tmp_ne (loc : list pystr) name : loc ++ [tmp_of name] ≠ loc ++ [name].
Proof.
  intros E. apply app_inj_tail in E as [_ E]. apply (f_equal length) in E.
  unfold tmp_of in E. rewrite length_app in E. simpl in E. lia.
Qed.

(** Only the location [t] may differ. *)
Definition same_but (t : list pystr) (d d' : disk) : Prop := ∀ p, p ≠ t → d' !! p = d !! p.
Lemma same_but_refl t d : same_but t d d.
Proof. by intros p. Qed.
Lemma same_but_insert t x d d' : same_but t d d' → same_but t d (<[t := x]> d').
Proof. intros Hs p Hp. rewrite lookup_insert_ne by done. auto. Qed.
Lemma same_but_delete t d d' : same_but t d d' → same_but t d (delete t d').
Proof. intros Hs p Hp. rewrite lookup_delete_ne by done. auto. Qed.
Lemma same_but_unlink t d d' : same_but t d d' → same_but t d (unlink_quietly d' t).
Proof.
  intros Hs. unfold unlink_quietly. destruct (sys _ _ _) as [d1|] eqn:E; [|done].
  apply sys_Ok in E. unfold sys_unlink in E.
  destruct (node_at d' t) as [[]|]; try done; injection E as <-; by apply same_but_delete.
Qed.
#[local] Hint Resolve same_but_refl same_but_insert same_but_delete same_but_unlink : core.

Lemma fill_tmp_spec d t token r d' :
  fill_tmp d t token = (r, d') → same_but t d d' ∧
  (r = Ok tt → ∃ bytes, utf8 token = Some bytes ∧ d' !! t = Some (File bytes)).
Proof.
  unfold fill_tmp, encode_text. destruct (utf8 token) as [bytes|]; [|by intros [= <- <-]; split; [auto|]].
  destruct (write_all d t bytes) as [w d1] eqn:Ew.
  apply write_all_spec in Ew as [[-> ->]|(e & junk & -> & ->)]; intros [= <- <-].
  - split; [auto|]. intros _. exists bytes. by rewrite lookup_insert_eq.
  - split; [auto|done].
Qed.
Lemma replace_file d loc s t bytes d' :
  loc ++ [s] ≠ loc ++ [t] → d !! (loc ++ [s]) = Some (File bytes) → replace_at d loc s loc t = Ok d' →
  d' = <[loc ++ [t] := File bytes]> (delete (loc ++ [s]) d).
Proof.
  intros Hne Hs Hr%named_Ok%named_Ok%sys_Ok. unfold sys_rename in Hr.
  rewrite !node_at_snoc, Hs in Hr. by destruct (d !! (loc ++ [t])) as [[]|]; simplify_eq.
Qed.

Lemma atomic_write_token_spec d dir name token :
  let '(r, d') := _atomic_write_token d dir name token in
  let '(made, d0) := mkdirs d [] dir in
  match made with
  | Err e => r = Err e ∧ d' = d0
  | Ok loc =>
      match r with
      | Ok _ => ∃ bytes, utf8 token = Some bytes ∧ d' !! (loc ++ [name]) = Some (File bytes) ∧
                         d' !! (loc ++ [tmp_of name]) = None
      | Err _ => d' !! (loc ++ [name]) = d0 !! (loc ++ [name])
      end ∧
      ∀ p, p ≠ loc ++ [name] → p ≠ loc ++ [tmp_of name] → d' !! p = d0 !! p
  end.
Proof.
  destruct (_atomic_write_token d dir name token) as [r d'] eqn:Hw. unfold _atomic_write_token in Hw.
  destruct (mkdirs d [] dir) as [[loc|e] d0]; [|injection Hw as <- <-; auto].
  pose proof (tmp_ne loc name) as Hne. set (t := loc ++ [tmp_of name]) in *.
  assert (Hfail : ∀ e d1, same_but t d0 d1 → (r, d') = (Err e, d1) →
    match r with
    | Ok _ => ∃ bytes, utf8 token = Some bytes ∧ d' !! (loc ++ [name]) = Some (File bytes) ∧ d' !! t = None
    | Err _ => d' !! (loc ++ [name]) = d0 !! (loc ++ [name])
    end ∧ ∀ p, p ≠ loc ++ [name] → p ≠ t → d' !! p = d0 !! p).
  { intros e d1 Hs [= -> ->]. split; [by apply Hs|auto]. }
  destruct (match node_at d0 t with Some (Link _) => _ | _ => _ end) as [d1|e] eqn:Hc;
    [|by eapply Hfail].
  assert (Hs1 : same_but t d0 d1).
  { destruct (node_at d0 t) as [[]|]; try (injection Hc as <-; auto; fail).
    apply sys_Ok in Hc. unfold sys_unlink in Hc. destruct (node_at d0 t) as [[]|]; simplify_eq; auto. }
  destruct (open_trunc d1 t) as [d2|e] eqn:Ho; [|by eapply Hfail].
  assert (Hs2 : same_but t d0 d2).
  { apply sys_Ok in Ho. destruct (node_at d1 t) as [[]|]; simplify_eq; auto. }
  destruct (fill_tmp d2 t token) as [[[]|e] d3] eqn:Hf; apply fill_tmp_spec in Hf as [Hs3 Hb];
    (assert (Hs3' : same_but t d0 d3) by (intros p Hp; rewrite Hs3; auto)); [|by eapply Hfail].
  destruct (Hb eq_refl) as (bytes & Hu & Ht).
  destruct (replace_at d3 loc (tmp_of name) loc name) as [d4|e] eqn:Hr; [|eapply Hfail; [|by symmetry]; auto].
  apply (replace_file _ _ _ _ _ _ Hne Ht) in Hr as ->. injection Hw as <- <-. split.
  - exists bytes. rewrite lookup_insert_eq, lookup_insert_ne by done. by rewrite lookup_delete_eq.
  - intros p Hp Hpt. rewrite lookup_insert_ne, lookup_delete_ne by done. auto.
Qed.
(** Writing a device token is all or nothing.  Behind the creation of missing
    directories, a write that succeeds has put exactly the encoded token at the
    file's name, and left no temporary file; one that fails, at whatever call,
    has left what was there.  Nothing but the file and its temporary name is
    touched, whatever links lie at these names. *)
Theorem token_write_all_or_nothing d dir name token :
  let '(r, d') := _atomic_write_token d dir name token in
  let '(made, d0) := mkdirs d [] dir in
  match made with
  | Err e => r = Err e ∧ d' = d0
  | Ok loc =>
      match r with
      | Ok _ => ∃ bytes, utf8 token = Some bytes ∧ d' !! (loc ++ [name]) = Some (File bytes) ∧
                         d' !! (loc ++ [tmp_of name]) = None
      | Err _ => d' !! (loc ++ [name]) = d0 !! (loc ++ [name])
      end ∧
      ∀ p, p ≠ loc ++ [name] → p ≠ loc ++ [tmp_of name] → d' !! p = d0 !! p
  end.
Proof. exact (atomic_write_token_spec d dir name token). Qed.

(** ** The local token across restarts *)

Lemma newlines_id s : 13%N ∉ s → newlines s = s.
Proof.
  induction s as [|c s IH]; [done|]. intros [Hc Hs]%not_elem_of_cons. simpl. rewrite IH by done.
  repeat (case_match; try done).
Qed.

Lemma mkdirs_plain d cur ps loc d' :
  disk_wf d → clean ps → link_free (links_of d) (cur ++ ps) → node_at d cur = Some Dir →
  mkdirs d cur ps = (Ok loc, d') →
  loc = cur ++ ps ∧ disk_wf d' ∧ node_at d' (cur ++ ps) = Some Dir ∧ links_of d' = links_of d.
Proof.
  revert d cur. induction ps as [|n ps IH]; intros d cur Hw Hc Hl Hd; cbn [mkdirs].
  { intros [= <- <-]. by rewrite app_nil_r. }
  rewrite (cons_middle n cur ps), app_assoc in Hl |- *.
  apply Forall_cons in Hc as [Hn Hc].
  destruct (namei lookup_budget d cur [n]) as [e|l] eqn:En.
  - destruct e; try done. destruct (sys _ _ _) as [?|] eqn:Es; [|done]. apply sys_Ok in Es.
    destruct (node_at d (cur ++ [n])) eqn:Ea; [done|].
    assert (Hli : links_of (<[cur ++ [n] := Dir]> d) = links_of d).
    { unfold links_of. rewrite omap_insert_None by done. apply delete_id. rewrite lookup_omap.
      rewrite node_at_snoc in Ea. by rewrite Ea. }
    intros Hm. apply IH in Hm as (-> & ? & ? & Hli'); [by rewrite Hli', Hli| |done|by rewrite Hli|].
    + apply disk_wf_insert; [done..|]. by rewrite Ea.
    + rewrite node_at_snoc. by rewrite lookup_insert_eq.
  - assert (l = cur ++ [n]) as ->.
    { eapply namei_plain; [by apply Forall_singleton| |done]. intros q m r E.
      apply (Hl q m (r ++ ps)). by rewrite E, <- app_assoc. }
    destruct (node_at d (cur ++ [n])) as [[]|] eqn:Ea; try done. by apply IH.
Qed.

Lemma strip_line t : t ≠ [] → Forall (λ c, is_space c = false) t → strip (t ++ [NL]) = t.
Proof.
  intros Ht Hs. unfold strip, rstrip.
  assert (Hl : lstrip (t ++ [NL]) = t ++ [NL]).
  { destruct t as [|c t]; [done|]. apply Forall_cons in Hs as [Hc _]. simpl. by rewrite Hc. }
  rewrite Hl, rev_app_distr. cbn [rev app lstrip]. change (is_space NL) with true. cbv iota.
  destruct t as [|c t _] using rev_ind; [done|].
  apply Forall_app in Hs as [_ [Hc _]%Forall_cons].
  rewrite rev_app_distr. cbn [rev app lstrip]. rewrite Hc.
  change (c :: rev t) with (rev [c] ++ rev t). by rewrite <- rev_app_distr, rev_involutive.
Qed.

(** A directory that is there, reached without links. *)
Record dir_ok (d : disk) (dir : list pystr) : Prop := {
  dir_wf : disk_wf d; dir_clean : clean dir; dir_free : link_free (links_of d) dir; dir_there : node_at d dir = Some Dir }.
Definition plain_node (x : option node) : Prop := match x with None | Some (File _) => True | _ => False end.

Lemma dir_ok_insert d dir name bytes :
  dir_ok d dir → plain_node (d !! (dir ++ [name])) → dir_ok (<[dir ++ [name] := File bytes]> d) dir.
Proof.
  intros [Hw Hc Hl Hd] Hp. set (p := dir ++ [name]) in *.
  assert (Hpl : links_of d !! p = None) by (rewrite links_of_lookup; by destruct (d !! p) as [[]|]).
  split; [|done| |].
  - apply disk_wf_insert; [done..|]. rewrite node_at_snoc. change (d !! p ≠ Some Dir). by destruct (d !! p) as [[]|].
  - intros q m u E. rewrite links_of_lookup. destruct (decide (q ++ [m] = p)) as [->|Hq]; [by rewrite lookup_insert_eq|].
    rewrite lookup_insert_ne by done. rewrite <- links_of_lookup. by eapply Hl.
  - assert (p ≠ dir).
    { intros E. apply (f_equal length) in E. unfold p in E. rewrite length_app in E. simpl in E. lia. }
    destruct dir as [|a dir]; [done|]. simpl in *. by rewrite lookup_insert_ne.
Qed.
Lemma plain_file_reads d dir name bytes :
  let p := dir ++ [name] in
  dir_ok d dir → clean_part name → d !! p = Some (File bytes) →
  path_exists d p = true ∧ is_symlink d dir name = false ∧ (os_fault (SysRead p) = None → read_file d p = Ok bytes).
Proof.
  intros p [Hw Hc Hl Hd] Hn Hp.
  assert (Hlp : link_free (links_of d) p) by (apply link_free_snoc; [done|]; rewrite links_of_lookup; fold p; by rewrite Hp).
  assert (Hat : node_at d p = Some (File bytes)) by (unfold p; by rewrite node_at_snoc).
  assert (Hn1 : namei lookup_budget d [] p = inr p)
    by (apply (namei_reaches _ _ []); [done|by apply clean_snoc|done|exact (mk_is_Some _ _ Hat)]).
  assert (Hn2 : namei lookup_budget d [] dir = inr dir) by (apply (namei_reaches _ _ []); [done..|exact (mk_is_Some _ _ Hd)]).
  unfold path_exists, is_symlink, read_file. rewrite Hn1, Hn2. fold p. rewrite Hat.
  split_and!; [done..|]. intros Hf. unfold sys. by rewrite Hf.
Qed.
Lemma mkdirs_there d cur ps :
  disk_wf d → clean ps → link_free (links_of d) (cur ++ ps) → node_at d (cur ++ ps) = Some Dir →
  mkdirs d cur ps = (Ok (cur ++ ps), d).
Proof.
  intros Hw. revert cur. induction ps as [|n ps IH]; intros cur Hc Hl Hd; cbn [mkdirs]; [by rewrite app_nil_r|].
  rewrite (cons_middle n cur ps), app_assoc in Hl, Hd |- *. apply Forall_cons in Hc as [Hn Hc].
  assert (Hx : node_at d (cur ++ [n]) = Some Dir).
  { destruct ps as [|m ps]; [by rewrite app_nil_r in Hd|]. eapply ancestor_dir; [done|exact (mk_is_Some _ _ Hd)]. }
  rewrite (namei_reaches _ _ cur [n]); [|done|by apply Forall_singleton| |by rewrite Hx].
  - rewrite Hx. by apply IH.
  - intros q m r E. apply (Hl q m (r ++ ps)). by rewrite E, <- app_assoc.
Qed.

(** What a write in such a directory changes. *)
Lemma write_private_file_spec d dir name content r d' :
  let p := dir ++ [name] in
  dir_ok d dir → _write_private_file d dir name content = (r, d') →
  (r ≠ Ok tt ∧ d' = d) ∨
  ∃ bytes, plain_node (d !! p) ∧ d' = <[p := File bytes]> d ∧ (r = Ok tt → utf8 content = Some bytes).
Proof.
  intros p [Hw Hc Hl Hd]. unfold _write_private_file. rewrite mkdirs_there by done. cbn [app]. fold p.
  destruct (_open_private_fd d p) as [d1|] eqn:Eo; [|intros [= <- <-]; by left].
  assert (d1 = <[p := File []]> d ∧ plain_node (d !! p)) as [-> Hp].
  { unfold _open_private_fd, open_trunc in Eo. change (node_at d p) with (node_at d (dir ++ [name])) in Eo.
    rewrite node_at_snoc in Eo. fold p in Eo. destruct (d !! p) as [[]|]; try done; apply sys_Ok in Eo; by simplify_eq. }
  unfold encode_text. destruct (utf8 content) as [bytes|]; [|intros [= <- <-]; right; by exists []].
  destruct (write_all _ _ _) as [w d2] eqn:Ew. intros [= <- <-].
  apply write_all_spec in Ew as [[-> ->]|(e & junk & -> & ->)]; rewrite insert_insert_eq; right; by eexists.
Qed.
Lemma private_file_kept d dir name name' content r d' :
  dir_ok d dir → _write_private_file d dir name content = (r, d') →
  dir_ok d' dir ∧ (name' ≠ name → d' !! (dir ++ [name']) = d !! (dir ++ [name'])).
Proof.
  intros Hok Hw. destruct (write_private_file_spec _ _ _ _ _ _ Hok Hw) as [[_ ->]|(bytes & Hp & -> & _)]; [done|].
  split; [by apply dir_ok_insert|]. intros Hn. rewrite lookup_insert_ne; [done|].
  intros E. by apply app_inj_tail in E as [_ ->].
Qed.

(** A private file that was written is there, a plain file, with its text. *)
Lemma private_file_stored d dir name content bytes r d' :
  let p := dir ++ [name] in
  disk_wf d → clean dir → clean_part name → link_free (links_of d) dir → utf8 content = Some bytes →
  os_fault (SysRead p) = None → _write_private_file d dir name content = (Ok r, d') →
  path_exists d' p = true ∧ is_symlink d' dir name = false ∧ read_file d' p = Ok bytes.
Proof.
  intros p Hw Hc Hn Hl Hu Hrd Hwr. unfold _write_private_file in Hwr.
  destruct (mkdirs d [] dir) as [[loc|] d0] eqn:Em; [|done].
  apply mkdirs_plain in Em as (-> & Hw0 & Hdir & Hli); [|done..]. cbn [app] in *.
  assert (Hok : dir_ok d0 dir) by (split; [done|done|by rewrite Hli|done]).
  assert (Hwr0 : _write_private_file d0 dir name content = (Ok r, d'))
    by (unfold _write_private_file; rewrite mkdirs_there by (done || apply Hok); exact Hwr).
  destruct r. apply write_private_file_spec in Hwr0 as [[? _]|(bytes' & Hp & -> & Hb)]; [done| |done].
  specialize (Hb eq_refl). rewrite Hu in Hb. injection Hb as <-.
  destruct (plain_file_reads (<[p := File bytes]> d0) dir name bytes) as (? & ? & ?);
    [by apply dir_ok_insert|done|apply lookup_insert_eq|auto].
Qed.

(** The texts [secrets.token_urlsafe] makes. *)
Definition token_text (t : pystr) : Prop := t ≠ [] ∧ Forall (λ c, (c < 128)%N ∧ is_space c = false) t.
Definition token_file (dir : list pystr) : list pystr := dir ++ [_TOKEN_FILENAME].

Lemma token_filename_clean : clean_part _TOKEN_FILENAME.
Proof. split_and!; [discriminate..|]. apply (bool_decide_unpack (SL ∉ _TOKEN_FILENAME)). vm_compute. exact I. Qed.
Lemma ascii_encodable s : Forall (λ c, (c < 128)%N) s → ∃ bytes, utf8 s = Some bytes ∧ decode bytes = Some s.
Proof.
  intros Hs. destruct (utf8_encodable s) as [bytes Hu].
  { eapply Forall_impl; [exact Hs|]. intros c Hlt. unfold is_surrogate. apply andb_false_intro1, N.leb_gt. cbv beta in Hlt. lia. }
  exists bytes. split; [done|]. apply decode_encode; [|done].
  eapply Forall_impl; [exact Hs|]. unfold valid_char. intros c Hlt. cbv beta in Hlt. lia.
Qed.
Lemma token_text_reads t : token_text t →
  ∃ bytes, utf8 (t ++ [NL]) = Some bytes ∧ decode_bytes bytes = Ok (t ++ [NL]) ∧ strip (t ++ [NL]) = t.
Proof.
  intros [Hne Ht]. destruct (ascii_encodable (t ++ [NL])) as (bytes & Hu & Hd).
  { apply Forall_app. split; [|by apply Forall_singleton]. eapply Forall_impl; [exact Ht|naive_solver]. }
  exists bytes. split; [done|]. unfold decode_bytes. rewrite Hd, newlines_id.
  - split; [done|]. apply strip_line; [done|]. eapply Forall_impl; [exact Ht|naive_solver].
  - intros [Hin|Hin]%elem_of_app; [|by apply list_elem_of_singleton in Hin].
    rewrite Forall_forall in Ht. destruct (Ht _ Hin) as [_ E]. vm_compute in E. discriminate E.
Qed.
Lemma stored_token_reads d dir t bytes :
  token_text t → utf8 (t ++ [NL]) = Some bytes →
  path_exists d (token_file dir) = true → is_symlink d dir _TOKEN_FILENAME = false →
  read_file d (token_file dir) = Ok bytes → stored_token d dir = Ok (Some t).
Proof.
  intros Ht Hu He Hs Hread. destruct (token_text_reads t Ht) as (bytes' & Hu' & Hd & Hst).
  rewrite Hu in Hu'. injection Hu' as <-. unfold stored_token. fold (token_file dir). rewrite He, Hs, Hread.
  cbn [negb andb]. rewrite Hd. cbn [obind]. rewrite Hst. destruct Ht as [Hne _]. by destruct t.
Qed.
Lemma stored_token_plain d dir t bytes :
  dir_ok d dir → token_text t → utf8 (t ++ [NL]) = Some bytes → d !! token_file dir = Some (File bytes) →
  os_fault (SysRead (token_file dir)) = None → stored_token d dir = Ok (Some t).
Proof.
  intros Hok Ht Hu Hp Hf. destruct (plain_file_reads _ _ _ _ Hok token_filename_clean Hp) as (? & ? & Hr).
  eapply stored_token_reads; eauto.
Qed.
Lemma write_token_stored d dir t r d' :
  disk_wf d → clean dir → link_free (links_of d) dir → token_text t →
  os_fault (SysRead (token_file dir)) = None →
  _write_token d dir t = (Ok r, d') → stored_token d' dir = Ok (Some t).
Proof.
  intros Hw Hc Hl Ht Hrd Hwr. destruct (token_text_reads t Ht) as (bytes & Hu & _).
  eapply private_file_stored in Hwr as (He & Hs & Hread); [|done..|apply token_filename_clean|done|exact Hu|done].
  by eapply stored_token_reads.
Qed.

(** The local API token survives a restart: what one start answered, loaded or
    generated, the next start loads, whatever it would have generated. *)
Theorem local_token_survives_restart d dir fresh fresh' token created d' :
  disk_wf d → clean dir → link_free (links_of d) dir → token_text fresh →
  os_fault (SysRead (token_file dir)) = None →
  load_or_generate_local_api_token d dir fresh = (Ok (token, created), d') →
  load_or_generate_local_api_token d' dir fresh' = (Ok (token, false), d').
Proof.
  intros Hw Hc Hl Hf Hr. unfold load_or_generate_local_api_token.
  destruct (stored_token d dir) as [[t|]|] eqn:Es; [|destruct (_write_token d dir fresh) as [[u|] d1] eqn:Ew|];
    intros [= <- <- <-]; [by rewrite Es|].
  by rewrite (write_token_stored d dir fresh u d1).
Qed.
End properties.

Definition data_disk : disk := list_to_map [(["data"%py], Dir)].
Definition data_dir : list pystr := ["data"%py; "openclaw"%py].
#[local] Instance sound_os : Os :=
  {| os_fault := λ _, None; os_openat2 := true; os_partial := 0; os_fd := 3 |}.
Example local_token_survives_restart_witness :
  let run := load_or_generate_local_api_token data_disk data_dir "abc" in
  run.1 = Ok ("abc"%py, true) ∧
  load_or_generate_local_api_token run.2 data_dir "other" = (Ok ("abc"%py, false), run.2).
Proof.
  assert (E : (load_or_generate_local_api_token data_disk data_dir "abc").1 = Ok ("abc"%py, true)) by (vm_compute; reflexivity).
  split; [exact E|]. apply (local_token_survives_restart data_disk data_dir "abc" "other" "abc" true).
  - apply disk_wfb_spec. vm_compute. reflexivity.
  - apply (good_rootb_spec data_disk (abs_path data_dir)). vm_compute. reflexivity.
  - assert (H : good_root data_disk (abs_path data_dir)) by (apply good_rootb_spec; vm_compute; reflexivity).
    apply H.
  - split; [discriminate|]. apply Forall_forall. intros c Hc. revert c Hc. apply Forall_forall.
    repeat constructor.
  - reflexivity.
  - rewrite <- E. apply surjective_pairing.
Defined.
