(* ===== verification/Identity.v ===== *)
(** The device identity of the node ([identity.py]): the signed text of a
    connect, and the identity file.

    Ed25519 keys and their PEM form are the library's: [Ed25519] is what the code
    uses of it. *)

From stdpp Require Import base list gmap.
From Stdlib Require Import NArith ZArith Lia.
From S2P Require Import Prelude PyStr Json JsonParse JsonFlat Sha256 Base64 SafePath SafeFd PrivateFiles.

(** ** Keys *)

Class Ed25519 := {
  private_key : Type;
  public_raw : private_key → list N;
  ed_sign : private_key → list N → list N;
  (** the PKCS8 PEM text of a key; the key in a PEM text, if it is one of Ed25519 *)
  to_pem : private_key → pystr;
  from_pem : pystr → res (option private_key) }.

Definition _CLIENT_ID : pystr := "node-host".
Definition _CLIENT_MODE : pystr := "node".
Definition _PLATFORM : pystr := "linux".
Definition _DEVICE_FAMILY : pystr := "hass-node".

(** [base64.urlsafe_b64encode(data).rstrip(b"=")] *)
Definition urlsafe (c : N) : N := if (c =? 43)%N then 45%N else if (c =? 47)%N then 95%N else c.
Definition _b64url (data : list N) : pystr := rev (lstrip_pad (rev (map urlsafe (b64encode data)))).
Definition _device_id (raw_pub : list N) : pystr := Sha.sha256_hex raw_pub.

(** ** The signed text of a connect *)

Definition PIPE : pystr := "|".
Definition connect_payload (device_id role : pystr) (scopes : list pystr) (signed_at_ms : Z) (token nonce : pystr)
    : pystr :=
  join PIPE ["v3"; device_id; _CLIENT_ID; _CLIENT_MODE; role; join "," scopes; str_of_Z signed_at_ms; token; nonce;
             _PLATFORM; _DEVICE_FAMILY]%py.

Section identity.
Context `{Ed25519} `{Os}.

(** The two texts are as the file holds them, whatever they are. *)
Record DeviceIdentity := {
  device_id : json; public_key_b64url : json; identity_key : private_key }.

Definition sign_connect (i : DeviceIdentity) (nonce role : pystr) (scopes : list pystr) (token : pystr)
    (signed_at_ms : Z) : res (pystr * Z) :=
  match device_id i with
  | JStr id =>
      match utf8 (connect_payload id role scopes signed_at_ms token nonce) with
      | Some payload => Ret (_b64url (ed_sign (identity_key i) payload), signed_at_ms)
      | None => Raise (Exn "UnicodeEncodeError" "surrogates not allowed")
      end
  | _ => Raise (Exn "TypeError" "sequence item 1: expected str instance")
  end.
(** [key] is a fresh key. *)
Definition generate_identity (key : private_key) : DeviceIdentity :=
  {| device_id := JStr (_device_id (public_raw key)); public_key_b64url := JStr (_b64url (public_raw key));
     identity_key := key |}.

(** ** The identity file *)

(** [json.dumps(data, indent=2)] of a generated identity. *)
Definition pretty_member (kv : pystr * pystr) : pystr := json_dumps_str kv.1 ++ ": " ++ json_dumps_str kv.2.
Definition pretty_object (members : list (pystr * pystr)) : pystr :=
  "{" ++ nl_indent 1 ++ join ("," ++ nl_indent 1) (map pretty_member members) ++ nl_indent 0 ++ "}".
Definition identity_text (key : private_key) : pystr :=
  pretty_object [("device_id", _device_id (public_raw key)); ("public_key_b64url", _b64url (public_raw key));
                 ("private_key_pem", to_pem key)]%py.
(** [save_identity(generate_identity(), path)] *)
Definition save_identity (key : private_key) (d : disk) (dir : list pystr) (name : pystr) : out unit * disk :=
  _write_private_file d dir name (identity_text key).

Definition InvalidIdentityKeyError : exn :=
  Exn "InvalidIdentityKeyError" "Persisted identity key is not an Ed25519 private key".
Definition member_of (k : pystr) (d : dict) : res json :=
  match dget k d with Some v => Ret v | None => Raise (Exn "KeyError" k) end.
Definition identity_of (raw : json) : res DeviceIdentity :=
  match raw with
  | JDict d =>
      let? pem := member_of "private_key_pem" d in
      let? pem := match pem with JStr s => Ret s | _ => Raise (Exn "AttributeError" "object has no attribute 'encode'") end in
      let? key := from_pem pem in
      match key with
      | None => Raise InvalidIdentityKeyError
      | Some key =>
          let? id := member_of "device_id" d in
          let? pub := member_of "public_key_b64url" d in
          Ret {| device_id := id; public_key_b64url := pub; identity_key := key |}
      end
  | _ => Raise (Exn "TypeError" "not an object")
  end.
Definition raised {A} (r : res A) : out A := match r with Ret a => Ok a | Raise e => Err (PyError e) end.
Definition load_identity (d : disk) (ps : list pystr) : out DeviceIdentity :=
  let# bytes := read_file d ps in
  let# text := decode_bytes bytes in
  let# raw := raised (loads text) in
  raised (identity_of raw).
Definition load_or_generate (d : disk) (dir : list pystr) (name : pystr) (key : private_key)
    : out (DeviceIdentity * bool) * disk :=
  if path_exists d (dir ++ [name]) then
    match load_identity d (dir ++ [name]) with Ok i => (Ok (i, false), d) | Err e => (Err e, d) end
  else
    match save_identity key d dir name with
    | (Err e, d) => (Err e, d)
    | (Ok _, d) => (Ok (generate_identity key, true), d)
    end.
End identity.

(** ** What a signature binds *)

Lemma peel (c : N) (a b x y : pystr) : c ∉ a → c ∉ b → a ++ c :: x = b ++ c :: y → a = b ∧ x = y.
Proof.
  intros Ha Hb E. apply (f_equal (partition_at c)) in E.
  rewrite !partition_at_app in E by done. by injection E.
Qed.
Lemma digits_no_pipe (s : pystr) : Forall (λ c, is_digit c = true) s → 124%N ∉ s.
Proof. intros Hs Hin. rewrite Forall_forall in Hs. by specialize (Hs _ Hin). Qed.
Lemma str_of_Z_no_pipe z : 124%N ∉ str_of_Z z.
Proof.
  unfold str_of_Z. pose proof (digits_no_pipe _ (str_of_N_digits (Z.abs_N z))) as Hd.
  destruct (z <? 0)%Z; [|done]. by apply not_elem_of_cons.
Qed.

(** The signed text of a connect determines the device, the role, the scopes as
    they are sent, the time, the token and the nonce: no text of one connect is
    the text of another, even for a nonce of any shape. *)
Theorem connect_payload_binds id role scopes t token nonce id' role' scopes' t' token' nonce' :
  Forall (λ w : pystr, 124%N ∉ w) [id; role; join "," scopes; token; id'; role'; join "," scopes'; token'] →
  connect_payload id role scopes t token nonce = connect_payload id' role' scopes' t' token' nonce' →
  id = id' ∧ role = role' ∧ join "," scopes = join "," scopes' ∧ t = t' ∧ token = token' ∧ nonce = nonce'.
Proof.
  intros Hp E. rewrite !Forall_cons in Hp. destruct Hp as (H1 & H2 & H3 & H4 & H5 & H6 & H7 & H8 & _).
  unfold connect_payload in E. rewrite !join_map_cons in E by done. cbn [join] in E.
  change PIPE with [124%N] in E. cbn [app] in E.
  injection E as E.
  apply peel in E as [-> E]; [|done..]. injection E as E.
  apply peel in E as [-> E]; [|done..]. apply peel in E as [-> E]; [|done..].
  apply peel in E as [Et E]; [|apply str_of_Z_no_pipe..]. apply str_of_Z_inj in Et as ->.
  apply peel in E as [-> E]; [|done..]. apply app_inv_tail in E as ->. done.
Qed.

(** ** The identity file is read back *)

Lemma loads_identity_text a b c :
  scalars a → scalars b → scalars c →
  loads (pretty_object [("device_id", a); ("public_key_b64url", b); ("private_key_pem", c)]%py)
  = Ret (JDict [("device_id", JStr a); ("public_key_b64url", JStr b); ("private_key_pem", JStr c)]%py).
Proof.
  intros Ha Hb Hc. set (d := [("device_id", JStr a); _; _]%py).
  pose proof (loads_spaced (nl_indent 1) (nl_indent 1) " " (nl_indent 0) d) as E.
  unfold d in E. cbn [map] in E. unfold pretty_object. cbn [map]. apply E; clear E; try (by repeat constructor).
  - right. by eexists.
  - apply (bool_decide_unpack (NoDup _)). vm_compute. exact I.
Qed.

Definition plain_char (x : N) : Prop := (x < 128)%N ∧ x ≠ 13%N.
Lemma visible_plain s : Forall visible s → Forall plain_char s.
Proof. intros Hs. eapply Forall_impl; [exact Hs|]. unfold visible, plain_char. intros. lia. Qed.
Lemma identity_text_plain `{Ed25519} key : Forall plain_char (identity_text key).
Proof.
  unfold identity_text, pretty_object, pretty_member. cbn [map join fst snd].
  repeat first [apply Forall_app; split | apply visible_plain, dumps_str_visible
               | apply Forall_cons; split; [by split|] | apply Forall_nil; exact I].
Qed.

Lemma plain_scalars s : Forall (λ c, (c < 128)%N) s → scalars s.
Proof.
  intros Hs. eapply Forall_impl; [exact Hs|]. intros c Hc. cbv beta in Hc. split; [lia|].
  unfold is_surrogate. apply andb_false_intro1, N.leb_gt. lia.
Qed.
Lemma Forall_lstrip_pad (P : N → Prop) s : Forall P s → Forall P (lstrip_pad s).
Proof.
  induction 1 as [|c s Hc Hs IH]; [constructor|]. simpl.
  repeat (case_match; try (by constructor)). done.
Qed.
Lemma b64url_ascii bs : Forall is_byte bs → Forall (λ c, (c < 128)%N) (_b64url bs).
Proof.
  intros Hb. apply b64encode_ascii in Hb. unfold _b64url. apply Forall_rev, Forall_lstrip_pad, Forall_rev, Forall_fmap.
  apply Forall_forall. intros c Hc. pose proof (proj1 (forallb_true_forall _ _) Hb c Hc) as Ha.
  apply N.ltb_lt in Ha. unfold urlsafe. simpl. destruct (c =? 43)%N; [done|]. destruct (c =? 47)%N; [done|lia].
Qed.
Lemma device_id_ascii bs : Forall (λ c, (c < 128)%N) (_device_id bs).
Proof.
  unfold _device_id, Sha.sha256_hex, Sha.hex. generalize (Sha.sha256 bs). intros l.
  induction l as [|x l IH]; [constructor|]. cbn [map concat]. apply Forall_app. split; [|done].
  eapply Forall_impl; [apply visible_plain, hex_pad_visible|by intros c []].
Qed.

(** ** The identity across restarts *)

Section restart.
Context `{Ed25519} `{Os}.
(** Reading a PEM text back, and the bytes of a public key. *)
Hypothesis pem_round_trip : ∀ key, from_pem (to_pem key) = Ret (Some key).
Hypothesis pem_text : ∀ key, scalars (to_pem key).
Hypothesis raw_bytes : ∀ key, Forall is_byte (public_raw key).

Lemma identity_read_back key bytes :
  decode bytes = Some (identity_text key) →
  (let# text := decode_bytes bytes in let# raw := raised (loads text) in raised (identity_of raw))
  = Ok (generate_identity key).
Proof.
  intros Hd. unfold decode_bytes. rewrite Hd. cbn [obind]. rewrite newlines_id.
  - unfold identity_text. rewrite loads_identity_text.
    + cbn [raised obind]. unfold identity_of. set (m := [("device_id"%py, _); _; _]).
      assert (member_of "private_key_pem" m = Ret (JStr (to_pem key))) as -> by reflexivity.
      cbn [rbind]. by rewrite pem_round_trip.
    + apply plain_scalars, device_id_ascii.
    + by apply plain_scalars, b64url_ascii.
    + apply pem_text.
  - intros Hin. pose proof (identity_text_plain key) as Hp. rewrite Forall_forall in Hp.
    by destruct (Hp _ Hin).
Qed.

(** The identity of the node survives a restart: what one start answered, loaded
    or generated, the next start loads, whatever key it would have generated. *)
Theorem identity_survives_restart d dir name key key' i created d' :
  disk_wf d → clean dir → clean_part name → link_free (links_of d) dir →
  os_fault (SysRead (dir ++ [name])) = None →
  load_or_generate d dir name key = (Ok (i, created), d') →
  load_or_generate d' dir name key' = (Ok (i, false), d').
Proof.
  intros Hw Hc Hn Hl Hr. unfold load_or_generate.
  destruct (path_exists d (dir ++ [name])) eqn:Ee.
  - destruct (load_identity d (dir ++ [name])) as [j|] eqn:Eload; intros [= <- <- <-]. by rewrite Ee, Eload.
  - destruct (save_identity key d dir name) as [[u|] d1] eqn:Es; intros [= <- <- <-].
    destruct (ascii_encodable (identity_text key)) as (bytes & Hu & Hd).
    { eapply Forall_impl; [apply identity_text_plain|by intros c []]. }
    eapply private_file_stored in Es as (-> & _ & Hread); [|done..].
    unfold load_identity. rewrite Hread. cbn [obind]. by rewrite (identity_read_back key).
Qed.
End restart.

(** ** Witnesses *)

(** Keys that are texts of their own. *)
#[local] Instance named_keys : Ed25519 :=
  {| private_key := bool; public_raw := λ k, [if k then 1 else 0]%N; ed_sign := λ _ m, m;
     to_pem := λ k, if k then "K1" else "K0"; from_pem := λ s, Ret (Some (bool_decide (s = "K1"%py))) |}.
#[local] Instance sound_os : Os :=
  {| os_fault := λ _, None; os_openat2 := true; os_partial := 0; os_fd := 3 |}.
Definition id_disk : disk := list_to_map [(["data"%py], Dir)].
Example identity_survives_restart_witness :
  let run := load_or_generate id_disk ["data"%py] "node-key.json" true in
  run.1 = Ok (generate_identity true, true) ∧
  load_or_generate run.2 ["data"%py] "node-key.json" false = (Ok (generate_identity true, false), run.2).
Proof.
  assert (E : (load_or_generate id_disk ["data"%py] "node-key.json" true).1 = Ok (generate_identity true, true))
    by (vm_compute; reflexivity).
  split; [exact E|].
  assert (Hg : good_root id_disk (abs_path ["data"%py])) by (apply good_rootb_spec; vm_compute; reflexivity).
  apply (identity_survives_restart) with (d := id_disk) (key := true) (created := true).
  - by intros [].
  - intros []; apply plain_scalars; repeat constructor.
  - intros []; repeat constructor.
  - apply disk_wfb_spec. vm_compute. reflexivity.
  - apply Hg.
  - split_and!; [discriminate..|]. apply (bool_decide_unpack (SL ∉ ("node-key.json"%py : pystr))). vm_compute. exact I.
  - apply Hg.
  - reflexivity.
  - rewrite <- E. apply surjective_pairing.
Defined.
Example connect_payload_binds_witness :
  let nonce : pystr := "a|b" in
  connect_payload "d" "node" [] 7 "t" nonce = connect_payload "d" "node" [] 7 "t" nonce ∧ nonce = "a|b"%py.
Proof.
  split; [reflexivity|].
  apply (connect_payload_binds "d" "node" [] 7 "t" "a|b" "d" "node" [] 7 "t" "a|b"); [|reflexivity].
  repeat (apply Forall_cons; split;
    [match goal with |- 124%N ∉ ?w => apply (bool_decide_unpack (124%N ∉ (w : pystr))); vm_compute; exact I end|]).
  apply Forall_nil. exact I.
Defined.
