(* ===== verification/NodeConfig.v ===== *)
(** [config.py]: the configuration of the node, read from its environment.

    [getenv] is the environment; [addon] is what [_is_addon_mode] answered, and
    [home] the directory of the user. *)

From stdpp Require Import base list gmap sorting.
From Stdlib Require Import NArith ZArith Lia.
From S2P Require Import Prelude PyStr PyCase PyFloat Json JsonParse Base64 Config SafePath Authz Identity.

(** ** The readers of the language *)

(** [json.loads] of bytes finds out their encoding first. *)
Inductive encoding := Utf8 | Utf8Sig | Utf16 | Utf16Be | Utf16Le | Utf32 | Utf32Be | Utf32Le.
Definition detect_encoding (b : list N) : encoding :=
  match b with
  | 0%N :: 0%N :: 254%N :: 255%N :: _ | 255%N :: 254%N :: 0%N :: 0%N :: _ => Utf32
  | 254%N :: 255%N :: _ | 255%N :: 254%N :: _ => Utf16
  | 239%N :: 187%N :: 191%N :: _ => Utf8Sig
  | 0%N :: x :: _ :: _ :: _ => if (x =? 0)%N then Utf32Be else Utf16Be
  | _ :: 0%N :: x :: y :: _ => if ((x =? 0) && (y =? 0))%N then Utf32Le else Utf16Le
  | [0%N; _] => Utf16Be
  | [_; 0%N] => Utf16Le
  | _ => Utf8
  end.
(** The decoders, that let surrogates pass, of all but plain UTF-8 text. *)
Class WideText := { wide_decode : encoding → list N → option pystr }.
Definition json_text `{WideText} (b : list N) : option pystr :=
  match detect_encoding b, decode b with
  | Utf8, Some s => Some s
  | enc, _ => wide_decode enc b
  end.

(** The digits of a [float] literal, with single underscores between them, and
    what follows them. *)
Section float_literal.
Context `{Unicode}.
Fixpoint float_digits (s : pystr) : list N * pystr :=
  match s with
  | [] => ([], [])
  | c :: s' =>
      match decimal_value c with
      | None => ([], s)
      | Some d =>
          match s' with
          | 95%N :: s'' =>
              match s'' with
              | c2 :: _ => match decimal_value c2 with
                           | Some _ => let '(ds, r) := float_digits s'' in (d :: ds, r)
                           | None => ([d], s')
                           end
              | [] => ([d], s')
              end
          | _ => let '(ds, r) := float_digits s' in (d :: ds, r)
          end
      end
  end.
Definition float_exponent (s : pystr) : option Z :=
  match s with
  | [] => Some 0%Z
  | c :: s =>
      if ((c =? 101) || (c =? 69))%N then
        let '(neg, s) := match s with 45%N :: r => (true, r) | 43%N :: r => (false, r) | _ => (false, s) end in
        match float_digits s with
        | ((_ :: _) as ds, []) => Some (signed neg (undigits 10 0 ds))
        | _ => None
        end
      else None
  end.
(** [float(s)]; [None] is the [ValueError]. *)
Definition py_float (s : pystr) : option pyfloat :=
  let t := strip s in
  let '(neg, t) := match t with 45%N :: r => (true, r) | 43%N :: r => (false, r) | _ => (false, t) end in
  if bool_decide (ascii_lower t ∈ ["inf"; "infinity"]%py) then Some (FInf neg)
  else if bool_decide (ascii_lower t = "nan"%py) then Some FNan
  else
    let '(whole, r) := float_digits t in
    let '(frac, r) := match r with 46%N :: r => float_digits r | _ => ([], r) end in
    match whole ++ frac, float_exponent r with
    | (_ :: _) as ds, Some ex => Some (float_of_decimal neg (undigits 10 0 ds) (ex - Z.of_nat (length frac)))
    | _, _ => None
    end.
End float_literal.

(** [x < z] and [z < x] of a finite float. *)
Definition float_lt_int (x : pyfloat) (z : Z) : bool :=
  match x with
  | FFin neg m e => if (0 <=? e)%Z then (signed neg m * 2 ^ e <? z)%Z else (signed neg m <? z * 2 ^ (- e))%Z
  | FInf neg => neg
  | FNan => false
  end.
Definition int_lt_float (z : Z) (x : pyfloat) : bool :=
  match x with
  | FFin neg m e => if (0 <=? e)%Z then (z <? signed neg m * 2 ^ e)%Z else (z * 2 ^ (- e) <? signed neg m)%Z
  | FInf neg => negb neg
  | FNan => false
  end.
Definition whole (z : N) : pyfloat := float_of_decimal false z 0.

(** ** The pairing token *)

Definition un_urlsafe (c : N) : N := if (c =? 45)%N then 43%N else if (c =? 95)%N then 47%N else c.
(** [value + "=" * (-len(value) % 4)] *)
Definition padded (value : pystr) : pystr :=
  value ++ replicate (Z.to_nat ((- Z.of_nat (length value)) mod 4)) 61%N.
Definition bootstrap_token (value : pystr) (envelope : json) : pystr :=
  match envelope with
  | JDict d => match get_or_null "bootstrapToken" d with JStr ((_ :: _) as token) => token | _ => value end
  | _ => value
  end.
(** A setup code gives the token in it; anything else is the token itself. *)
Definition normalize_pairing_token `{WideText} (raw : pystr) : res pystr :=
  match strip raw with
  | [] => Ret []
  | value =>
      match b64decode (map un_urlsafe (padded value)) with
      | Raise _ => Ret value
      | Ret bytes =>
          match json_text bytes with
          | None => Ret value
          | Some text =>
              match loads text with
              | Raise e => if bool_decide (e = JSONDecodeError) then Ret value else Raise e
              | Ret envelope => Ret (bootstrap_token value envelope)
              end
          end
      end
  end.

(** ** The configuration *)

Definition _DEFAULT_GATEWAY_URL : pystr := "wss://gateway.example.com/ws".
Definition _ADDON_DATA_DIR : path := path_of "/data/openclaw".
Definition standalone_data_dir (home : path) : path := Path (root home) (parts home ++ [".openclaw"; "hass-node"]%py).
Definition DEFAULT_VISION_TIMEOUT_SECONDS : pyfloat := whole 45.
Definition _MIN_VISION_TIMEOUT_SECONDS : N := 10.
Definition _MAX_VISION_TIMEOUT_SECONDS : N := 120.

Record NodeConfig := {
  addon_mode : bool; gateway_url : pystr; pairing_token : pystr; node_name : pystr; hass_url : pystr;
  hass_token : pystr; supervisor_token : pystr; data_dir : path; local_api_token : pystr;
  identity : IdentityConfig; reset_pairing : pystr; reset_bootstrap : bool;
  vision_timeout_seconds : pyfloat; vision_model : pystr;
}.
Definition key_path (c : NodeConfig) : path := Path (root (data_dir c)) (parts (data_dir c) ++ ["node-key.json"]%py).
Definition device_token_path (c : NodeConfig) : path :=
  Path (root (data_dir c)) (parts (data_dir c) ++ ["device-token"]%py).
Definition device_token_name (role : pystr) : pystr := "device-token." ++ role.
Definition device_token_path_for (c : NodeConfig) (role : pystr) : path :=
  Path (root (data_dir c)) (parts (data_dir c) ++ [device_token_name role]).

Section load.
Context `{Unicode} `{Casing} `{WideText}.
Context (getenv : pystr → option pystr).

Definition env_or (name default_ : pystr) : pystr := default default_ (getenv name).
Definition env_strip (name : pystr) : pystr := strip (env_or name []).

Definition _parse_vision_timeout_env (name : pystr) : pyfloat :=
  match env_strip name with
  | [] => DEFAULT_VISION_TIMEOUT_SECONDS
  | raw =>
      match py_float raw with
      | None => DEFAULT_VISION_TIMEOUT_SECONDS
      | Some value =>
          if isfinite value then
            let upper := if float_lt_int value (Z.of_N _MAX_VISION_TIMEOUT_SECONDS) then value
                         else whole _MAX_VISION_TIMEOUT_SECONDS in
            if int_lt_float (Z.of_N _MIN_VISION_TIMEOUT_SECONDS) upper then upper
            else whole _MIN_VISION_TIMEOUT_SECONDS
          else DEFAULT_VISION_TIMEOUT_SECONDS
      end
  end.

Definition _RESET_PAIRING_TOKEN_ALIASES : list pystr := ["1"; "true"; "yes"; "on"; "y"; "token"].
Definition _RESET_PAIRING_IDENTITY_ALIASES : list pystr := ["identity"; "full"].
Definition _RESET_PAIRING_NONE_ALIASES : list pystr := [""; "0"; "false"; "no"; "off"; "n"; "none"].
Definition _parse_reset_pairing_env (name : pystr) : pystr :=
  let raw := py_casefold (env_strip name) in
  if elem raw _RESET_PAIRING_TOKEN_ALIASES then "token"
  else if elem raw _RESET_PAIRING_IDENTITY_ALIASES then "identity"
  else "none".
Definition reset_bootstrap_env : bool :=
  elem (py_lower (env_strip "OPENCLAW_RESET_BOOTSTRAP")) ["1"; "true"; "yes"; "on"; "y"].

Definition _parse_json_env (name : pystr) : res json :=
  match env_strip name with
  | [] => Ret JNull
  | raw => match loads raw with
           | Raise e => if bool_decide (e = JSONDecodeError) then Ret JNull else Raise e
           | r => r
           end
  end.
Definition cleaned_texts (values : list pystr) : list pystr :=
  List.filter (λ v, negb (bool_decide (v = []))) (map strip values).
Definition _parse_string_list_env (name : pystr) (default_ : list pystr) : res (list pystr) :=
  let? parsed := _parse_json_env name in
  let cleaned :=
    match parsed with
    | JList items => cleaned_texts (map py_str items)
    | JNull => cleaned_texts (split_on 44 (env_strip name))
    | _ => []
    end in
  Ret (match cleaned with [] => default_ | _ => cleaned end).
Definition _parse_string_map_env (name : pystr) : res (list (pystr * pystr)) :=
  let? parsed := _parse_json_env name in
  match parsed with
  | JDict d =>
      Ret (fold_left (λ result kv,
             match kv.2 with
             | JStr v => match strip kv.1, strip v with
                         | (_ :: _) as k, (_ :: _) as v => dset k v result
                         | _, _ => result
                         end
             | _ => result
             end) d [])
  | _ => Ret []
  end.
Definition roles_patched : list pystr := ["user"; "admin"; "super_admin"].
Definition patch_of (raw_patch : json) : option ForbiddenCommandPatch :=
  match raw_patch with
  | JDict p =>
      match default (JList []) (dget "add" p), default (JList []) (dget "remove" p) with
      | JList add, JList remove =>
          Some {| patch_add := list_to_set (cleaned_texts (map py_str add));
                  patch_remove := list_to_set (cleaned_texts (map py_str remove)) |}
      | _, _ => None
      end
  | _ => None
  end.
Definition _parse_forbidden_patches_env (name : pystr) : res (list (pystr * ForbiddenCommandPatch)) :=
  let? parsed := _parse_json_env name in
  match parsed with
  | JDict d =>
      Ret (fold_left (λ patches kv,
             if elem kv.1 roles_patched then
               match patch_of kv.2 with Some p => dset kv.1 p patches | None => patches end
             else patches) d [])
  | _ => Ret []
  end.

Definition _parse_identity_config : res IdentityConfig :=
  let? admins := _parse_string_list_env "OPENCLAW_IDENTITY_SUPER_ADMINS" [] in
  let? agents := _parse_string_map_env "OPENCLAW_IDENTITY_USER_AGENT_MAP" in
  let? patches := _parse_forbidden_patches_env "OPENCLAW_IDENTITY_FORBIDDEN_COMMANDS" in
  let? denylist := _parse_string_list_env "OPENCLAW_ADDON_LIFECYCLE_DENYLIST"
                     (sorted_set DEFAULT_ADDON_LIFECYCLE_DENYLIST) in
  Ret {| super_admins := list_to_set admins; user_agent_map := agents;
         default_agent_id := env_strip "OPENCLAW_IDENTITY_DEFAULT_AGENT_ID";
         user_role_agent_id := env_strip "OPENCLAW_IDENTITY_USER_ROLE_AGENT_ID";
         admin_role_agent_id := env_strip "OPENCLAW_IDENTITY_ADMIN_ROLE_AGENT_ID";
         forbidden_commands := patches; addon_lifecycle_denylist := list_to_set denylist |}.

Definition load_config (addon : bool) (home : path) : res NodeConfig :=
  let? token := normalize_pairing_token (env_or "PAIRING_TOKEN" []) in
  let? id := _parse_identity_config in
  Ret {| addon_mode := addon;
         gateway_url := env_or "GATEWAY_URL" _DEFAULT_GATEWAY_URL;
         pairing_token := token;
         node_name := env_or "NODE_NAME" [];
         hass_url := env_or "HASS_URL" (if addon then "http://homeassistant" else []);
         hass_token := if addon then [] else env_or "HASS_TOKEN" [];
         supervisor_token := if addon then env_or "SUPERVISOR_TOKEN" [] else [];
         data_dir := if addon then _ADDON_DATA_DIR else standalone_data_dir home;
         local_api_token := env_or "OPENCLAW_LOCAL_API_TOKEN" [];
         identity := id;
         reset_pairing := _parse_reset_pairing_env "OPENCLAW_RESET_PAIRING";
         reset_bootstrap := reset_bootstrap_env;
         vision_timeout_seconds := _parse_vision_timeout_env "OPENCLAW_VISION_TIMEOUT_SECONDS";
         vision_model := env_strip "OPENCLAW_VISION_MODEL" |}.
End load.

(** [warn_ignored_legacy_allowlist]: whether the notice is logged. *)
Definition warn_ignored_legacy_allowlist (options : option pystr) : bool :=
  match options with
  | Some text =>
      match loads text with
      | Ret (JDict data) =>
          match get_or_null "addon_lifecycle" data with
          | JDict lifecycle => truthy (get_or_null "allowlist" lifecycle)
          | _ => false
          end
      | _ => false
      end
  | None => false
  end.

(** ** Setup codes *)

Definition url_char (v : N) : N := urlsafe (b64_char v).
Lemma url_char_spec v : (v < 64)%N → un_urlsafe (url_char v) = b64_char v ∧ (url_char v =? 61)%N = false ∧
                                     is_space (url_char v) = false.
Proof.
  apply (below_64 (λ v, un_urlsafe (url_char v) = b64_char v ∧ (url_char v =? 61)%N = false ∧ is_space (url_char v) = false)).
  intros n Hn. do 64 (destruct n as [|n]; [by vm_compute|]). lia.
Qed.
Lemma b64url_shape bs :
  Forall is_byte bs → ∃ body, _b64url bs = map url_char body ∧ Forall (λ v, v < 64)%N body ∧
    (bs ≠ [] → body ≠ []) ∧ map un_urlsafe (padded (_b64url bs)) = b64encode bs.
Proof.
  intros Hb. destruct (b64_shape bs Hb) as (body & E & Hf & Hne & _). exists body.
  assert (Hu : _b64url bs = map url_char body).
  { unfold _b64url. rewrite E, map_app, map_map, rev_app_distr. fold url_char.
    assert (∀ k, rev (map urlsafe (replicate k 61%N)) = replicate k 61%N) as ->.
    { intros k. rewrite <- map_rev. induction k as [|k IH]; [done|]. cbn [replicate rev].
      rewrite map_app, IH. cbn. symmetry. apply replicate_cons_app. }
    rewrite lstrip_pad_app. destruct body as [|v body _] using rev_ind; [done|].
    apply Forall_app in Hf as [_ [Hv _]%Forall_cons].
    rewrite map_app, rev_app_distr. cbn [map rev app].
    rewrite lstrip_pad_head by (by apply url_char_spec). cbn [rev]. by rewrite rev_involutive. }
  split_and!; [done..|]. rewrite Hu. unfold padded. rewrite length_map, map_app, map_map, E. f_equal.
  - apply map_ext_in. intros v Hv. apply url_char_spec. rewrite Forall_forall in Hf. by apply Hf, list_elem_of_In.
  - generalize (Z.to_nat ((- Z.of_nat (length body)) mod 4)). intros k. by induction k as [|k IH]; [|cbn; rewrite IH].
Qed.
Lemma lstrip_blanks p s : Forall (λ c, is_space c = true) p → lstrip (p ++ s) = lstrip s.
Proof. induction 1 as [|c p Hc _ IH]; [done|]. simpl. by rewrite Hc. Qed.
Lemma lstrip_visible s : Forall (λ c, is_space c = false) s → lstrip s = s.
Proof. destruct 1 as [|c s Hc _]; [done|]. simpl. by rewrite Hc. Qed.
Lemma strip_blanks p s q :
  Forall (λ c, is_space c = true) p → Forall (λ c, is_space c = true) q → Forall (λ c, is_space c = false) s → s ≠ [] →
  strip (p ++ s ++ q) = s.
Proof.
  intros Hp Hq Hs Hne. unfold strip, rstrip. rewrite lstrip_blanks by done.
  assert (lstrip (s ++ q) = s ++ q) as ->.
  { destruct s as [|c s]; [done|]. apply Forall_cons in Hs as [Hc _]. simpl. by rewrite Hc. }
  rewrite rev_app_distr, lstrip_blanks by (by apply Forall_rev).
  rewrite lstrip_visible by (by apply Forall_rev). apply rev_involutive.
Qed.
Lemma plain_is_utf8 text : Forall (λ c, 0 < c < 128)%N text → detect_encoding text = Utf8.
Proof.
  intros Ht. destruct text as [|a [|b [|c [|d text]]]]; try done;
    rewrite ?Forall_cons in Ht; destruct_and?; unfold detect_encoding; repeat (case_match; try done; try lia).
Qed.

Section setup_code.
Context `{WideText}.
(** A setup code is unwrapped: from the base64url text, without padding and with
    blanks around it, of any JSON object that names a bootstrap token, the node
    takes that token. *)
Theorem setup_code_is_unwrapped before after text d token :
  Forall (λ c, is_space c = true) before → Forall (λ c, is_space c = true) after →
  Forall (λ c, 0 < c < 128)%N text → loads text = Ret (JDict d) →
  get_or_null "bootstrapToken" d = JStr token → token ≠ [] →
  normalize_pairing_token (before ++ _b64url text ++ after) = Ret token.
Proof.
  intros Hb Ha Ht Hl Hd Hne.
  assert (Hby : Forall is_byte text) by (eapply Forall_impl; [exact Ht|]; unfold is_byte; simpl; intros; lia).
  assert (Hnn : text ≠ []) by (by intros ->).
  destruct (b64url_shape text Hby) as (body & E & Hf & Hbn & Hp).
  unfold normalize_pairing_token. rewrite strip_blanks; [|done|done| |rewrite E; destruct body; [by destruct Hbn|done]].
  2: { rewrite E. apply Forall_fmap. eapply Forall_impl; [exact Hf|]. intros v Hv. by apply url_char_spec. }
  destruct (_b64url text) as [|c s] eqn:Es; [destruct body; [by destruct Hbn|done]|]. rewrite Hp, b64decode_encode by done.
  assert (decode text = Some text) as Hdec.
  { apply decode_encode; [|apply utf8_ascii]; (eapply Forall_impl; [exact Ht|]); unfold valid_char; simpl; intros; lia. }
  assert (json_text text = Some text) as ->.
  { unfold json_text. rewrite Hdec. assert (detect_encoding text = Utf8) as ->; [|done].
    by apply plain_is_utf8. }
  rewrite Hl. unfold bootstrap_token. rewrite Hd. by destruct token.
Qed.
End setup_code.

(** ** What the reader of JSON raises *)

Definition json_error (e : exn) : Prop := e = JSONDecodeError ∨ e = int_too_long.
Definition raises_json {A} (r : res A) : Prop := ∀ e, r = Raise e → json_error e.
Lemma raises_Ret {A} (a : A) : raises_json (Ret a).
Proof. by intros e [=]. Qed.
Lemma raises_malformed {A} : raises_json (A := A) malformed.
Proof. intros e [= <-]. by left. Qed.
Lemma raises_bind {A B} (m : res A) (f : A → res B) : raises_json m → (∀ a, raises_json (f a)) → raises_json (rbind m f).
Proof. intros Hm Hf. destruct m as [a|e]; [apply Hf|]. intros e' [= <-]. by apply Hm. Qed.
(** Case analysis on what the reader looks at. *)
Ltac json_cases tac :=
  repeat match goal with
         | |- raises_json (Ret _) => apply raises_Ret
         | |- raises_json malformed => apply raises_malformed
         | |- _ => tac
         | |- raises_json (match ?x with _ => _ end) => destruct x
         end.

Lemma raises_string f s : raises_json (scan_string f s).
Proof.
  revert s. induction f as [|f IH]; intros s; [destruct s; apply raises_malformed|].
  destruct s as [|c s]; simpl; [apply raises_malformed|].
  assert (Hcc : ∀ c r, raises_json (cons_char c (scan_string f r)))
    by (intros; unfold cons_char; apply raises_bind; [done|intros []; apply raises_Ret]).
  json_cases ltac:(apply Hcc).
Qed.
Lemma raises_number s : raises_json (scan_number s).
Proof. unfold scan_number. json_cases ltac:(fail). intros e [= <-]. by right. Qed.
Lemma raises_value f : (∀ s, raises_json (scan_value f s)) ∧ (∀ s, raises_json (scan_items f s)) ∧
                       (∀ s, raises_json (scan_members f s)).
Proof.
  induction f as [|f (IHv & IHi & IHm)]; [split_and!; intros; apply raises_malformed|].
  split_and!; intros s; simpl.
  - json_cases ltac:(first [apply raises_number | apply raises_bind;
      [first [apply raises_string | apply IHi | apply IHm]|intros []; apply raises_Ret]]).
  - apply raises_bind; [apply IHv|]. intros [v r].
    json_cases ltac:(apply raises_bind; [apply IHi|intros []; apply raises_Ret]).
  - json_cases ltac:(apply raises_bind; [apply raises_string|]). intros [k r].
    json_cases ltac:(apply raises_bind; [apply IHv|]). intros [v r'].
    json_cases ltac:(apply raises_bind; [apply IHm|intros []; apply raises_Ret]).
Qed.
Lemma loads_raises s e : loads s = Raise e → json_error e.
Proof.
  revert e. change (raises_json (loads s)). unfold loads.
  assert (Hgo : raises_json (let? (v, r) := scan_value (2 * length s + 2) (skip_ws s) in
                             match skip_ws r with [] => Ret v | _ => malformed end)).
  { apply raises_bind; [apply raises_value|]. intros [v r]. destruct (skip_ws r); [apply raises_Ret|apply raises_malformed]. }
  json_cases ltac:(apply Hgo).
Qed.

(** ** A configuration is well formed *)

Lemma rstrip_prefix s : ∃ q, s = rstrip s ++ q.
Proof.
  unfold rstrip. destruct (lstrip_suffix (rev s)) as (p & E & _). exists (rev p).
  rewrite <- rev_app_distr, <- E. by rewrite rev_involutive.
Qed.
Lemma strip_idem s : strip (strip s) = strip s.
Proof.
  unfold strip. set (x := lstrip s). destruct (rstrip_prefix x) as [q E].
  assert (Hl : lstrip (rstrip x) = rstrip x).
  { destruct (rstrip x) as [|c t] eqn:Er; [done|].
    assert (Hx : lstrip x = x) by apply lstrip_fixed. rewrite E in Hx. cbn [app] in Hx. simpl in Hx.
    simpl. destruct (is_space c) eqn:Ec; [|done]. rewrite ?Ec in Hx.
    destruct (lstrip_suffix (t ++ q)) as (p & Ep & _). rewrite Hx in Ep.
    apply (f_equal length) in Ep. rewrite (length_app p) in Ep. simpl in Ep. lia. }
  rewrite Hl. unfold rstrip. by rewrite rev_involutive, lstrip_fixed.
Qed.

Definition trimmed (s : pystr) : Prop := s ≠ [] ∧ strip s = s.
Definition blank_or_trimmed (s : pystr) : Prop := strip s = s.
Definition patch_ok (kp : pystr * ForbiddenCommandPatch) : Prop :=
  kp.1 ∈ roles_patched ∧ set_Forall trimmed (patch_add kp.2) ∧ set_Forall trimmed (patch_remove kp.2).
Definition pair_ok (kv : pystr * pystr) : Prop := trimmed kv.1 ∧ trimmed kv.2.
Definition identity_ok (i : IdentityConfig) : Prop :=
  set_Forall trimmed (super_admins i) ∧
  (NoDup (dkeys (user_agent_map i)) ∧ Forall pair_ok (user_agent_map i)) ∧
  Forall blank_or_trimmed [default_agent_id i; user_role_agent_id i; admin_role_agent_id i] ∧
  (NoDup (dkeys (forbidden_commands i)) ∧ Forall patch_ok (forbidden_commands i)) ∧
  (addon_lifecycle_denylist i ≠ ∅ ∧ set_Forall trimmed (addon_lifecycle_denylist i)).
Definition timeout_ok (x : pyfloat) : Prop :=
  isfinite x = true ∧ float_lt_int x 10 = false ∧ int_lt_float 120 x = false.
Definition config_ok (c : NodeConfig) : Prop :=
  identity_ok (identity c) ∧ timeout_ok (vision_timeout_seconds c) ∧
  reset_pairing c ∈ ["none"; "token"; "identity"]%py ∧
  (addon_mode c = true → hass_token c = [] ∧ data_dir c = _ADDON_DATA_DIR) ∧
  (addon_mode c = false → supervisor_token c = []).

Lemma cleaned_trimmed l : Forall trimmed (cleaned_texts l).
Proof.
  unfold cleaned_texts. apply Forall_forall. intros s Hs%list_elem_of_In%filter_In.
  destruct Hs as [[u [<- _]]%in_map_iff Hne]. split; [by intros E; rewrite E in Hne|apply strip_idem].
Qed.
Lemma set_trimmed l : Forall trimmed l → set_Forall trimmed (list_to_set (C := gset pystr) l).
Proof. intros Hl x Hx. rewrite elem_of_list_to_set in Hx. rewrite Forall_forall in Hl. auto. Qed.

Lemma denylist_trimmed : Forall trimmed (sorted_set DEFAULT_ADDON_LIFECYCLE_DENYLIST).
Proof.
  apply Forall_forall. intros s Hs%elem_of_sorted_set. revert s Hs.
  change (set_Forall trimmed DEFAULT_ADDON_LIFECYCLE_DENYLIST). apply set_trimmed.
  rewrite !Forall_cons. split_and!; [by vm_compute..|by apply Forall_nil].
Qed.

Lemma denylist_nonempty : sorted_set DEFAULT_ADDON_LIFECYCLE_DENYLIST ≠ [].
Proof.
  intros E. assert (Hin : "supervisor"%py ∈ sorted_set DEFAULT_ADDON_LIFECYCLE_DENYLIST).
  { apply elem_of_sorted_set. unfold DEFAULT_ADDON_LIFECYCLE_DENYLIST. rewrite elem_of_list_to_set. right. left. }
  rewrite E in Hin. by apply elem_of_nil in Hin.
Qed.
Lemma list_to_set_cons_ne (a : pystr) l : list_to_set (C := gset pystr) (a :: l) ≠ ∅.
Proof.
  intros E. assert (Hin : a ∈ list_to_set (C := gset pystr) (a :: l)) by (rewrite elem_of_list_to_set; left).
  rewrite E in Hin. by apply elem_of_empty in Hin.
Qed.

Section config.
Context `{Unicode} `{Casing} `{WideText} (getenv : pystr → option pystr).
Notation json_env := (_parse_json_env getenv).

Lemma env_trimmed name : blank_or_trimmed (env_strip getenv name).
Proof. apply strip_idem. Qed.
Lemma json_env_raises name e : json_env name = Raise e → e = int_too_long.
Proof.
  unfold _parse_json_env. destruct (env_strip getenv name) as [|c s]; [done|].
  destruct (loads (c :: s)) as [j|x] eqn:El; [done|].
  case_bool_decide; intros [= <-]. by destruct (loads_raises _ _ El).
Qed.
Lemma string_list_ok name dflt r :
  _parse_string_list_env getenv name dflt = r → Forall trimmed dflt →
  match r with Ret l => Forall trimmed l ∧ (dflt ≠ [] → l ≠ []) | Raise e => e = int_too_long end.
Proof.
  intros <- Hd. unfold _parse_string_list_env. destruct (json_env name) as [j|e] eqn:Ej; simpl; [|by eapply json_env_raises].
  set (cleaned := match j with JNull => _ | _ => _ end).
  assert (Hc : Forall trimmed cleaned) by (unfold cleaned; destruct j; try apply cleaned_trimmed; constructor).
  by destruct cleaned.
Qed.
Lemma fold_dset_ok {V} (P : pystr * V → Prop) {A} (step : list (pystr * V) → A → list (pystr * V)) l d :
  (∀ d a, step d a = d ∨ ∃ k v, step d a = dset k v d ∧ P (k, v)) →
  NoDup (dkeys d) → Forall P d → NoDup (dkeys (fold_left step l d)) ∧ Forall P (fold_left step l d).
Proof.
  intros Hs. revert d. induction l as [|a l IH]; intros d Hn Hf; [done|]. simpl. apply IH.
  - destruct (Hs d a) as [->|(k & v & -> & _)]; [done|by apply dset_NoDup].
  - destruct (Hs d a) as [->|(k & v & -> & Hp)]; [done|]. rewrite Forall_forall in *.
    intros x [->|Hx]%elem_of_dset; auto.
Qed.
Lemma string_map_ok name r :
  _parse_string_map_env getenv name = r →
  match r with Ret m => NoDup (dkeys m) ∧ Forall pair_ok m | Raise e => e = int_too_long end.
Proof.
  intros <-. unfold _parse_string_map_env. destruct (json_env name) as [j|e] eqn:Ej; simpl; [|by eapply json_env_raises].
  destruct j as [| | | | | |d]; try (split; constructor). apply fold_dset_ok; [|constructor..].
  intros m [k v]. simpl. destruct v as [| | | |v| |]; auto.
  destruct (strip k) as [|a k'] eqn:Ek; auto. destruct (strip v) as [|b v'] eqn:Ev; auto.
  right. eexists _, _. split; [done|]. unfold pair_ok, trimmed. simpl.
  rewrite <- Ek, <- Ev, !strip_idem. by rewrite Ek, Ev.
Qed.
Lemma patches_ok name r :
  _parse_forbidden_patches_env getenv name = r →
  match r with Ret m => NoDup (dkeys m) ∧ Forall patch_ok m | Raise e => e = int_too_long end.
Proof.
  intros <-. unfold _parse_forbidden_patches_env. destruct (json_env name) as [j|e] eqn:Ej; simpl; [|by eapply json_env_raises].
  destruct j as [| | | | | |d]; try (split; constructor). apply fold_dset_ok; [|constructor..].
  intros m [k v]. simpl. unfold elem. case_bool_decide as Hk; auto.
  destruct (patch_of v) as [p|] eqn:Ep; auto. right. exists k, p. split; [done|].
  unfold patch_of in Ep. destruct v; try done.
  destruct (default _ (dget "add" d0)); try done. destruct (default _ (dget "remove" d0)); try done.
  injection Ep as <-. split_and!; [done|apply set_trimmed, cleaned_trimmed..].
Qed.

Lemma vision_timeout_ok name : timeout_ok (_parse_vision_timeout_env getenv name).
Proof.
  unfold _parse_vision_timeout_env. destruct (env_strip getenv name); [by vm_compute|].
  destruct (py_float _) as [x|]; [|by vm_compute]. destruct (isfinite x) eqn:Ef; [|by vm_compute]. cbv zeta.
  set (upper := if float_lt_int x _ then x else _).
  assert (Hu : isfinite upper = true ∧ int_lt_float 120 upper = false).
  { unfold upper. destruct (float_lt_int x (Z.of_N _MAX_VISION_TIMEOUT_SECONDS)) eqn:E; [|by vm_compute]. split; [done|].
    destruct x as [| |neg m e]; try done. unfold float_lt_int, int_lt_float, _MAX_VISION_TIMEOUT_SECONDS in *.
    change (Z.of_N 120) with 120%Z in *. destruct (0 <=? e)%Z; lia. }
  destruct Hu as [Hf H120].
  destruct (int_lt_float (Z.of_N _MIN_VISION_TIMEOUT_SECONDS) upper) eqn:E; [|by vm_compute]. split_and!; [done| |done].
  destruct upper as [| |neg m e]; try done. unfold float_lt_int, int_lt_float, _MIN_VISION_TIMEOUT_SECONDS in *.
  change (Z.of_N 10) with 10%Z in *. destruct (0 <=? e)%Z; lia.
Qed.

Lemma normalize_raises raw e : normalize_pairing_token raw = Raise e → e = int_too_long.
Proof.
  unfold normalize_pairing_token. destruct (strip raw) as [|c v]; [done|].
  destruct (b64decode _); [|done]. destruct (json_text _) as [text|]; [|done].
  destruct (loads text) as [j|x] eqn:El; [done|]. case_bool_decide; intros [= <-]. by destruct (loads_raises _ _ El).
Qed.
Lemma identity_config_ok :
  match _parse_identity_config getenv with Ret i => identity_ok i | Raise e => e = int_too_long end.
Proof.
  unfold _parse_identity_config.
  destruct (_parse_string_list_env getenv _ []) as [admins|e] eqn:E1; apply string_list_ok in E1; simpl; try done.
  destruct (_parse_string_map_env getenv _) as [agents|e] eqn:E2; apply string_map_ok in E2; simpl; try done.
  destruct (_parse_forbidden_patches_env getenv _) as [patches|e] eqn:E3; apply patches_ok in E3; simpl; try done.
  destruct (_parse_string_list_env getenv _ (sorted_set _)) as [deny|e] eqn:E4; apply string_list_ok in E4; simpl; try done.
  - destruct E1 as [E1 _], E4 as [E4 Hne]. split_and!; [by apply set_trimmed|apply E2|apply E2| |apply E3|apply E3| |by apply set_trimmed].
    + cbn [default_agent_id user_role_agent_id admin_role_agent_id]. do 3 (apply Forall_cons; split; [apply env_trimmed|]). by apply Forall_nil.
    + destruct deny as [|a l]; [destruct Hne; [exact denylist_nonempty|reflexivity]|]. apply list_to_set_cons_ne.
  - apply denylist_trimmed.
  - apply denylist_trimmed.
Qed.

(** No JSON that is read from the environment holds an integer of more than 4300
    digits: neither a stripped option nor the text in a setup code. *)
Definition no_huge_numbers : Prop :=
  (∀ name, loads (env_strip getenv name) ≠ Raise int_too_long) ∧
  (∀ bytes text,
     b64decode (map un_urlsafe (padded (strip (env_or getenv "PAIRING_TOKEN" [])))) = Ret bytes →
     json_text bytes = Some text → loads text ≠ Raise int_too_long).
Lemma json_env_Ret name : no_huge_numbers → ∃ j, json_env name = Ret j.
Proof.
  intros [Hn _]. specialize (Hn name). destruct (json_env name) as [j|e] eqn:E; [by exists j|].
  pose proof (json_env_raises _ _ E) as ->. revert E. unfold _parse_json_env.
  destruct (env_strip getenv name) as [|c s]; [done|]. destruct (loads (c :: s)) as [j|x]; [done|].
  case_bool_decide; congruence.
Qed.
Lemma normalize_Ret : no_huge_numbers → ∃ token, normalize_pairing_token (env_or getenv "PAIRING_TOKEN" []) = Ret token.
Proof.
  intros [_ Hn]. destruct (normalize_pairing_token _) as [t|e] eqn:E; [by exists t|].
  pose proof (normalize_raises _ _ E) as ->. revert E. unfold normalize_pairing_token.
  destruct (strip (env_or getenv "PAIRING_TOKEN" [])) as [|c v]; [done|].
  destruct (b64decode _) as [bytes|] eqn:Eb; [|done]. destruct (json_text bytes) as [text|] eqn:Et; [|done].
  specialize (Hn bytes text eq_refl Et). destruct (loads text); [done|]. case_bool_decide; congruence.
Qed.
Lemma identity_config_Ret : no_huge_numbers → ∃ i, _parse_identity_config getenv = Ret i.
Proof.
  intros Hn. assert (Hl : ∀ name d, ∃ l, _parse_string_list_env getenv name d = Ret l).
  { intros name d. destruct (json_env_Ret name Hn) as [j Ej]. unfold _parse_string_list_env. rewrite Ej. by eexists. }
  unfold _parse_identity_config.
  repeat match goal with
  | |- context [_parse_string_list_env getenv ?n ?d] => destruct (Hl n d) as [? ->]
  | |- context [_parse_string_map_env getenv ?n] =>
      unfold _parse_string_map_env; destruct (json_env_Ret n Hn) as [[] ->]; cbn [rbind]
  | |- context [_parse_forbidden_patches_env getenv ?n] =>
      unfold _parse_forbidden_patches_env; destruct (json_env_Ret n Hn) as [[] ->]; cbn [rbind]
  end; by eexists.
Qed.

(** C24. Whatever the environment holds, JSON that cannot be read included, but for
    integers of more than 4300 digits in it, a configuration is read from it, and
    is well formed: the options are trimmed and never blank entries, the maps have
    each key once, patches are for the three roles, the denylist of add-ons is
    never empty, the vision timeout is between 10 and 120 seconds, a reset is one
    of the three modes, and each mode has its own credentials only. *)
Theorem config_well_formed addon home :
  no_huge_numbers → ∃ c, load_config getenv addon home = Ret c ∧ config_ok c.
Proof.
  intros Hn. unfold load_config. destruct (normalize_Ret Hn) as [token ->].
  destruct (identity_config_Ret Hn) as [i Ei]. pose proof identity_config_ok as Hi. rewrite Ei in *.
  cbn [rbind]. eexists. split; [done|]. split_and!; cbn; try apply Hi; try apply vision_timeout_ok.
  - unfold _parse_reset_pairing_env. repeat case_match; set_solver.
  - by intros ->.
  - by intros ->.
Qed.

(** The one error of a reading. *)
Theorem config_raises_on_numbers addon home e : load_config getenv addon home = Raise e → e = int_too_long.
Proof.
  unfold load_config. destruct (normalize_pairing_token _) as [token|x] eqn:En.
  - cbn [rbind]. pose proof identity_config_ok as Hi. destruct (_parse_identity_config getenv) as [i|x]; [done|].
    by intros [= <-].
  - intros [= <-]. by apply normalize_raises in En.
Qed.
End config.

(** ** Witnesses *)

#[local] Instance every_char_prints : Unicode := {| uni_printable := λ _, true; uni_decimal := λ _, None |}.
#[local] Instance utf8_only : WideText := {| wide_decode := λ _ _, None |}.
Definition setup_envelope : dict := [("bootstrapToken"%py, JStr "tok-1"); ("url"%py, JStr "wss://gw/")].
Definition setup_text : pystr := dumps_compact (JDict setup_envelope).
Example setup_code_is_unwrapped_witness : normalize_pairing_token (" " ++ _b64url setup_text ++ [NL]) = Ret "tok-1"%py.
Proof.
  apply (setup_code_is_unwrapped " " [NL] setup_text setup_envelope "tok-1").
  - repeat constructor.
  - repeat constructor.
  - apply Forall_forall. intros c Hc. assert (Hb : forallb (λ c, (0 <? c) && (c <? 128))%N setup_text = true) by (vm_compute; reflexivity).
    pose proof (proj1 (forallb_true_forall _ _) Hb c Hc) as Hr. apply andb_prop in Hr as [?%N.ltb_lt ?%N.ltb_lt]. lia.
  - vm_compute. reflexivity.
  - vm_compute. reflexivity.
  - discriminate.
Defined.
#[local] Existing Instance ascii_casing.
(** An option whose JSON is broken off is read as texts separated by commas, and an
    unknown reset as none. *)
Definition broken_env (name : pystr) : option pystr :=
  if bool_decide (name = "OPENCLAW_IDENTITY_SUPER_ADMINS"%py) then Some " [a, "%py
  else if bool_decide (name = "OPENCLAW_RESET_PAIRING"%py) then Some "all"%py else None.
Example config_well_formed_witness :
  ∃ c, load_config broken_env true (path_of "/root") = Ret c ∧ config_ok c.
Proof.
  apply (config_well_formed broken_env true (path_of "/root")). split.
  - intros name. unfold env_strip, env_or, broken_env. case_bool_decide; [vm_compute; discriminate|].
    case_bool_decide; vm_compute; discriminate.
  - intros bytes text Hb. vm_compute in Hb. injection Hb as <-. intros Ht. vm_compute in Ht. injection Ht as <-. vm_compute. discriminate.
Defined.
