(* ===== verification/Connection.v ===== *)
(** A connection of the node to the gateway ([gateway_ws.py]): the handshake, the
    queue of pending invokes, the event loop, and what is done between two
    connections.

    A connection runs against the list of what arrives on it, in order: frames,
    ends of waits, the steps of the other tasks of the process, and its loss.  A
    run that has used up the list waits.  A connection that cannot be opened is
    one that is lost before its first frame.  The [n]-th send fails when
    [send_fault] says so. *)

From stdpp Require Import base list gmap.
From Stdlib Require Import NArith ZArith Lia.
From S2P Require Import Prelude PyStr PyCase PyFloat Json JsonParse PyInt Authz Policy Dispatch SafePath SafeFd.
From S2P Require Import Relay RelayTurn Invoke Pairing PrivateFiles Identity Config NodeConfig.

(** ** The state *)

(** What the connections and the local API share: the disk, the relays made so
    far, and the runtime. *)
Record Shared := {
  disk_of : disk; relays : gmap N Relay;
  chat_relay : option N; node_connected : bool; operator_connected : bool }.
Definition set_disk (d : disk) (h : Shared) : Shared :=
  Build_Shared d (relays h) (chat_relay h) (node_connected h) (operator_connected h).
Definition set_relays (rs : gmap N Relay) (h : Shared) : Shared :=
  Build_Shared (disk_of h) rs (chat_relay h) (node_connected h) (operator_connected h).
Definition set_chat_relay (r : option N) (h : Shared) : Shared :=
  Build_Shared (disk_of h) (relays h) r (node_connected h) (operator_connected h).
Definition set_connected (role : pystr) (value : bool) (h : Shared) : Shared :=
  if bool_decide (role = "operator"%py)
  then Build_Shared (disk_of h) (relays h) (chat_relay h) (node_connected h) value
  else Build_Shared (disk_of h) (relays h) (chat_relay h) value (operator_connected h).

Inductive arrival :=
| Frame (raw : pystr)
| Silence                              (* the time of a bounded wait is up *)
| Meanwhile (f : Shared → Shared)      (* another task of the process has run *)
| Closed (repr : pystr)                (* the gateway closed the connection *)
| Lost (repr : pystr).

(** How a step ends that has no answer: by an exception, or not yet. *)
Inductive stop := Fails (f : failure) | Waits.

Section connection.
Context {W : Type}.

Record conn := {
  inbox : list arrival;
  sent : list dict;
  ticks : nat;
  pairing : PairingState;
  device_token : pystr;
  rate_limited_delay_s : Z;
  shared : Shared;
  commands_state : @DState W }.
Definition set_inbox v (s : conn) : conn :=
  Build_conn v (sent s) (ticks s) (pairing s) (device_token s) (rate_limited_delay_s s) (shared s) (commands_state s).
Definition set_sent v (s : conn) : conn :=
  Build_conn (inbox s) v (ticks s) (pairing s) (device_token s) (rate_limited_delay_s s) (shared s) (commands_state s).
Definition set_ticks v (s : conn) : conn :=
  Build_conn (inbox s) (sent s) v (pairing s) (device_token s) (rate_limited_delay_s s) (shared s) (commands_state s).
Definition set_pairing v (s : conn) : conn :=
  Build_conn (inbox s) (sent s) (ticks s) v (device_token s) (rate_limited_delay_s s) (shared s) (commands_state s).
Definition set_token v (s : conn) : conn :=
  Build_conn (inbox s) (sent s) (ticks s) (pairing s) v (rate_limited_delay_s s) (shared s) (commands_state s).
Definition set_delay v (s : conn) : conn :=
  Build_conn (inbox s) (sent s) (ticks s) (pairing s) (device_token s) v (shared s) (commands_state s).
Definition set_shared v (s : conn) : conn :=
  Build_conn (inbox s) (sent s) (ticks s) (pairing s) (device_token s) (rate_limited_delay_s s) v (commands_state s).
Definition set_commands_state v (s : conn) : conn :=
  Build_conn (inbox s) (sent s) (ticks s) (pairing s) (device_token s) (rate_limited_delay_s s) (shared s) v.

Definition C (A : Type) : Type := conn → (A + stop) * conn.
Definition cret {A} (a : A) : C A := λ s, (inl a, s).
Definition cbind {A B} (m : C A) (f : A → C B) : C B :=
  λ s, match m s with (inl a, s') => f a s' | (inr e, s') => (inr e, s') end.
Definition fails {A} (f : failure) : C A := λ s, (inr (Fails f), s).
Definition modify (f : conn → conn) : C unit := λ s, (inl tt, f s).
Definition gets {A} (f : conn → A) : C A := λ s, (inl (f s), s).
Definition on_shared (f : Shared → Shared) : C unit := modify (λ s, set_shared (f (shared s)) s).
End connection.
Arguments conn : clear implicits.
Arguments C : clear implicits.
Notation "'let&' x ':=' m 'in' k" := (cbind m (λ x, k))
  (at level 10, x pattern, m at level 100, k at level 200) : res_scope.

(** [repr] of an exception. *)
Definition repr_exn `{Unicode} (e : exn) : pystr := exn_type e ++ "(" ++ repr_str (exn_msg e) ++ ")".

(** ** The client *)

Class Gateway `{Unicode} := {
  uuid : nat → pystr;                  (* the text of a random id *)
  clock : nat → Z;                     (* the wall clock of a step, in milliseconds *)
  monotonic : nat → Z;                 (* its monotonic clock, in microseconds *)
  send_fault : nat → option pystr;     (* the [repr] of what the [n]-th send raises *)
  version : pystr }.

Record Client `{Ed25519} := {
  c_config : NodeConfig; c_identity : DeviceIdentity; c_cwd : list pystr;
  c_role : pystr; c_scopes : list pystr; c_caps : list pystr; c_commands : list pystr;
  c_chat_relay_enabled : bool; c_invoke_dispatch_enabled : bool;
  c_token_persist_path : path; c_pair_fallback_enabled : bool; c_has_runtime : bool }.

Definition _NODE_ROLE : pystr := "node".
Definition _OPERATOR_SCOPES : list pystr :=
  ["operator.approvals"; "operator.read"; "operator.talk.secrets"; "operator.write"].
Definition _RES_CORRELATION_MAX_FRAMES : nat := 256.
Definition _PERSISTABLE_SIBLING_ROLES : list pystr := ["node"; "operator"].

Section client.
Context `{Unicode} `{Casing} `{JsonDepth} `{Os} `{Ed25519} `{!Gateway}.
Context {W : Type} (handlers : pystr → @handler W) (cl : Client).
Notation C := (C W).
Implicit Types s : conn W.

(** ** Sending and receiving *)

Definition raise_exn {A} (e : exn) : C A := fails (OtherFailure (repr_exn e)).
Definition lift_res {A} (r : res A) : C A := match r with Ret a => cret a | Raise e => raise_exn e end.
Definition tick : C nat := λ s, (inl (ticks s), set_ticks (S (ticks s)) s).
Definition send (frame : dict) : C unit :=
  λ s, match send_fault (length (sent s)) with
       | Some repr => (inr (Fails (OtherFailure repr)), s)
       | None => (inl tt, set_sent (sent s ++ [frame]) s)
       end.

Inductive got := GotFrame (raw : pystr) | GotTimeout | GotEnd (clean : bool) (repr : pystr) | GotNothing.
Fixpoint next_arrival (bounded : bool) (arrivals : list arrival) (h : Shared) : got * list arrival * Shared :=
  match arrivals with
  | [] => (GotNothing, [], h)
  | Frame raw :: rest => (GotFrame raw, rest, h)
  | Silence :: rest => if bounded then (GotTimeout, rest, h) else next_arrival bounded rest h
  | Meanwhile f :: rest => next_arrival bounded rest (f h)
  | Closed repr :: _ => (GotEnd true repr, arrivals, h)
  | Lost repr :: _ => (GotEnd false repr, arrivals, h)
  end.
(** [ws.recv()] under a timeout; [None] when it is up. *)
Definition recv_within (bounded : bool) : C (option pystr) :=
  λ s, let '(g, rest, h) := next_arrival bounded (inbox s) (shared s) in
       let s := set_shared h (set_inbox rest s) in
       match g with
       | GotFrame raw => (inl (Some raw), s)
       | GotTimeout => (inl None, s)
       | GotEnd _ repr => (inr (Fails (OtherFailure repr)), s)
       | GotNothing => (inr Waits, s)
       end.
Definition recv : C pystr :=
  let& raw := recv_within false in
  match raw with Some raw => cret raw | None => λ s, (inr Waits, s) end.
(** [json.loads(raw)], of which the code takes members. *)
Definition parse (raw : pystr) : C dict :=
  let& j := lift_res (loads raw) in
  match j with JDict d => cret d | _ => raise_exn (Exn "AttributeError" "object has no attribute 'get'") end.
Definition is_type (msg : dict) (t : pystr) : bool := bool_decide (get_or_null "type" msg = JStr t).
Definition is_event (msg : dict) (e : pystr) : bool := bool_decide (get_or_null "event" msg = JStr e).

(** [async for raw in ws]: the body says whether to go on; the answer is whether
    the iterator ended. *)
Fixpoint over_frames (body : dict → C bool) (arrivals : list arrival) : C bool :=
  λ s, match arrivals with
       | [] => (inr Waits, set_inbox [] s)
       | Frame raw :: rest =>
           match (let& msg := parse raw in body msg) (set_inbox rest s) with
           | (inl true, s) => over_frames body rest s
           | (inl false, s) => (inl false, s)
           | (inr e, s) => (inr e, s)
           end
       | Silence :: rest => over_frames body rest s
       | Meanwhile f :: rest => over_frames body rest (set_shared (f (shared s)) s)
       | Closed _ :: _ => (inl true, set_inbox arrivals s)
       | Lost repr :: _ => (inr (Fails (OtherFailure repr)), set_inbox arrivals s)
       end.
Definition for_frames (body : dict → C bool) : C bool := λ s, over_frames body (inbox s) s.

(** ** Tokens *)

Definition path_file (p : path) : list pystr * pystr := (parts (path_parent p), path_name p).
Definition oserror_failure (e : errno) (names : os_names) : failure := OtherFailure ("OSError: " ++ oserror_str e names).
Definition fserr_failure (e : fserr) : failure :=
  match e with
  | OsError e names => oserror_failure e names
  | PyError e => OtherFailure (repr_exn e)
  | _ => OtherFailure "OSError"
  end.
Definition write_token (p : path) (token : pystr) : C (SafeFd.out unit) :=
  λ s, let '(r, d) := _atomic_write_token (disk_of (shared s)) (path_file p).1 (path_file p).2 token in
       (inl r, set_shared (set_disk d (shared s)) s).
Definition _persist_device_token (token : pystr) : C unit :=
  let& r := write_token (c_token_persist_path cl) token in
  match r with Ok _ => cret tt | Err e => fails (fserr_failure e) end.

(** The entries of [auth.deviceTokens]. *)
Definition token_entries (tokens : json) : list (pystr * pystr) :=
  let entry (role token : json) :=
    match role, token with
    | JStr ((_ :: _) as role), JStr ((_ :: _) as token) => Some (role, token)
    | _, _ => None
    end in
  match tokens with
  | JDict d => omap (λ kv, entry (JStr kv.1) kv.2) d
  | JList l => omap (λ raw, match raw with
                            | JDict d => entry (get_or_null "role" d) (get_or_null "token" d)
                            | _ => None end) l
  | _ => []
  end.
Definition sibling (role : pystr) : bool :=
  negb (bool_decide (role = c_role cl)) && elem role _PERSISTABLE_SIBLING_ROLES.
Fixpoint persist_entries (entries : list (pystr * pystr)) : C unit :=
  match entries with
  | [] => cret tt
  | (role, token) :: entries =>
      if sibling role then
        let& r := write_token (device_token_path_for (c_config cl) role) token in
        match r with
        | Ok _ | Err (OsError _ _) => persist_entries entries
        | Err e => fails (fserr_failure e)
        end
      else persist_entries entries
  end.
Definition _persist_dual_role_tokens (tokens : json) : C unit := persist_entries (token_entries tokens).

(** A file that cannot be read is left alone; one that is not UTF-8 raises. *)
Definition _reload_device_token : C unit :=
  λ s, let p := parts (c_token_persist_path cl) in
       if is_file (disk_of (shared s)) p then
         match (let# bytes := read_file (disk_of (shared s)) p in decode_bytes bytes) with
         | Ok text => match strip text with [] => (inl tt, s) | value => (inl tt, set_token value s) end
         | Err (OsError _ _) => (inl tt, s)
         | Err e => (inr (Fails (fserr_failure e)), s)
         end
       else (inl tt, s).

(** Only a plain file that lies, links followed, in the data directory. *)
Definition _token_path_safe_to_unlink (d : disk) : bool :=
  let p := c_token_persist_path cl in
  match SafePath.resolve (links_of d) (c_cwd cl) (path_str (data_dir (c_config cl))),
        SafePath.resolve (links_of d) (c_cwd cl) (path_str p) with
  | Ret dir, Ret resolved => relative_to resolved dir && negb (is_symlink d (path_file p).1 (path_file p).2)
  | _, _ => false
  end.
Definition unlink_token (d : disk) : disk :=
  match namei lookup_budget d [] (path_file (c_token_persist_path cl)).1 with
  | inr dir => unlink_quietly d (dir ++ [(path_file (c_token_persist_path cl)).2])
  | inl _ => d
  end.
Definition token_rejections : list pystr := ["NOT_PAIRED"; "PAIRING_REQUIRED"; "AUTH_TOKEN_MISMATCH"; "token_mismatch"].
Definition rejects_token (f : failure) : bool := existsb (contains (haystack f)) token_rejections.
Definition _maybe_drop_invalid_device_token (f : failure) (s : conn W) : conn W :=
  if negb (c_pair_fallback_enabled cl) || negb (rejects_token f) || bool_decide (device_token s = [])
     || bool_decide (device_token s = pairing_token (c_config cl)) then s
  else
    let d := disk_of (shared s) in
    let s := if _token_path_safe_to_unlink d then set_shared (set_disk (unlink_token d) (shared s)) s else s in
    set_token (pairing_token (c_config cl)) s.

(** ** The handshake *)

Definition bad_frame (message : pystr) : failure := OtherFailure ("ValueError(" ++ repr_str message ++ ")").
Definition _recv_challenge : C pystr :=
  let& raw := recv in
  let& msg := parse raw in
  if negb (is_type msg "event") || negb (is_event msg "connect.challenge")
  then fails (bad_frame ("Expected connect.challenge, got: " ++ py_repr (get_or_null "event" msg)))
  else
    match default (JDict []) (dget "payload" msg) with
    | JDict payload =>
        match dget "nonce" payload, dget "ts" payload with
        | Some nonce, Some ts => let& _ := lift_res (py_int ts) in cret (py_str nonce)
        | None, _ => raise_exn (Exn "KeyError" "nonce")
        | _, None => raise_exn (Exn "KeyError" "ts")
        end
    | _ => raise_exn (Exn "TypeError" "not an object")
    end.

Definition strs (l : list pystr) : json := JList (map JStr l).
Definition display_name (id : pystr) : pystr :=
  or_str (node_name (c_config cl)) ("openclaw-hass-node@" ++ take 12 id).
(** The parameters of the connect request. *)
Definition connect_params (id : pystr) (signature nonce token : pystr) (signed_at_ms : Z) : dict :=
  [("minProtocol", JInt 3); ("maxProtocol", JInt 4);
   ("client", JDict [("id", JStr "node-host"); ("version", JStr version); ("platform", JStr "linux");
                     ("mode", JStr "node"); ("deviceFamily", JStr "hass-node");
                     ("displayName", JStr (display_name id))]%py);
   ("role", JStr (c_role cl)); ("scopes", strs (c_scopes cl)); ("caps", strs (c_caps cl));
   ("commands", strs (c_commands cl)); ("permissions", JDict []); ("auth", JDict [("token", JStr token)]%py);
   ("locale", JStr "en-US"); ("userAgent", JStr ("openclaw-hass-node/" ++ version));
   ("device", JDict [("id", JStr id); ("publicKey", public_key_b64url (c_identity cl));
                     ("signature", JStr signature); ("signedAt", JInt signed_at_ms);
                     ("nonce", JStr nonce)]%py)]%py.
Definition _send_connect (nonce : pystr) : C pystr :=
  let& t := tick in
  let& token := gets device_token in
  let& signed := lift_res (sign_connect (c_identity cl) nonce (c_role cl) (c_scopes cl) token (clock t)) in
  match device_id (c_identity cl) with
  | JStr id =>
      let& n := tick in
      let& _ := send (_make_req (uuid n) "connect" (connect_params id signed.1 nonce token signed.2)) in
      cret (uuid n)
  | _ => raise_exn (Exn "TypeError" "not a text")
  end.

(** What an accepted connect brings: tokens for this role and for the other. *)
Definition adopt_tokens (payload : json) : C unit :=
  match payload with
  | JNull => cret tt
  | JDict payload =>
      let auth := get_or_null "auth" payload in
      match if truthy auth then auth else JDict [] with
      | JDict auth =>
          let& token := gets device_token in
          let& _ := match get_or_null "deviceToken" auth with
                    | JStr ((_ :: _) as issued) =>
                        if bool_decide (issued = token) then cret tt
                        else let& _ := modify (set_token issued) in _persist_device_token issued
                    | _ => cret tt
                    end in
          _persist_dual_role_tokens (get_or_null "deviceTokens" auth)
      | _ => raise_exn (Exn "AttributeError" "object has no attribute 'get'")
      end
  | _ => raise_exn (Exn "AttributeError" "object has no attribute 'get'")
  end.
Definition _recv_connect_response (req_id : pystr) : C unit :=
  let& raw := recv in
  let& msg := parse raw in
  if negb (is_type msg "res")
  then fails (bad_frame ("Expected res frame, got type=" ++ py_repr (get_or_null "type" msg)))
  else if negb (bool_decide (get_or_null "id" msg = JStr req_id))
  then fails (bad_frame ("Connect response id mismatch: expected " ++ repr_str req_id ++ ", got "
                         ++ py_repr (get_or_null "id" msg)))
  else
    let ok := truthy (get_or_null "ok" msg) in
    let error := get_or_null "error" msg in
    let& retry := if ok then cret None else lift_res (_decode_error_retry_after_ms error) in
    let '(state, failed) :=
      if ok then on_connect_response true None [] None
      else on_connect_response false (_decode_error_code error) (_decode_error_message error) retry in
    let& _ := modify (set_pairing state) in
    match failed with
    | Some e => fails (PairingFailure e)
    | None =>
        if ok then
          let& _ := modify (set_delay 0) in
          adopt_tokens (get_or_null "payload" msg)
        else cret tt
    end.

Definition _await_approval : C unit :=
  let& ended := for_frames (λ msg,
    if is_event msg "connect.approved"
    then let& _ := modify (set_pairing PAIRED) in cret false
    else cret true) in
  if ended then
    fails (OtherFailure ("ConnectionError('WebSocket iterator exited before pairing approval; "
                         ++ "gateway likely closed the connection — reconnecting.')"))
  else cret tt.

(** The response with the id; [None] when its time or its frames are up. *)
Fixpoint await_res (frames : nat) (req_id : pystr) : C (option dict) :=
  match frames with
  | O => cret None
  | S frames =>
      let& raw := recv_within true in
      match raw with
      | None => cret None
      | Some raw =>
          let& msg := parse raw in
          if is_type msg "res" then
            if bool_decide (get_or_null "id" msg = JStr req_id) then cret (Some msg) else await_res frames req_id
          else if is_type msg "event" then await_res frames req_id
          else cret (Some msg)
      end
  end.
Definition _await_res (req_id : pystr) : C (option dict) := await_res _RES_CORRELATION_MAX_FRAMES req_id.

(** ** Invokes *)

(** The relay of the runtime, and what an invoke leaves of it. *)
Definition runtime_relay (h : Shared) : option Relay :=
  if c_has_runtime cl then match chat_relay h with Some r => relays h !! r | None => None end else None.
Definition put_relay (r : option Relay) (h : Shared) : Shared :=
  match chat_relay h, r with
  | Some a, Some r => if c_has_runtime cl then set_relays (<[a := r]> (relays h)) h else h
  | _, _ => h
  end.
Definition handle_invoke (payload : json) : C unit :=
  let& t := tick in
  let& n1 := tick in
  let& n2 := tick in
  λ s, let '(frame, relay, st) := _handle_invoke handlers (monotonic t) (uuid n1) (uuid n2) payload
                                    (runtime_relay (shared s)) (commands_state s) in
       let s := set_shared (put_relay relay (shared s)) (set_commands_state st s) in
       match frame with
       | Ret frame => send frame s
       | Raise e => raise_exn e s
       end.

(** The frame after the acknowledgement is read and dropped, whatever it is. *)
Definition _ack_pending (invoke_id : pystr) : C unit :=
  let& n := tick in
  let& _ := send (_make_req (uuid n) "node.pending.ack" [("ids"%py, JList [JStr invoke_id])]) in
  λ s, match recv_within true s with
       | (inl (Some raw), s) => (let& _ := parse raw in cret tt) s
       | (inl None, s) => (inl tt, s)
       | (inr (Fails _), s) => (inl tt, s)
       | (inr Waits, s) => (inr Waits, s)
       end.
(** A queued action that is well formed: its id, and the payload of its invoke. *)
Definition action_of (action : json) : option (pystr * dict) :=
  match action with
  | JDict a =>
      match get_or_null "id" a, get_or_null "command" a with
      | JStr ((_ :: _) as id), JStr (_ :: _) =>
          Some (id, match get_or_null "paramsJSON" a with
                    | JNull | JStr [] => dset "paramsJSON" (JStr "{}") a
                    | _ => a
                    end)
      | _, _ => None
      end
  | _ => None
  end.
Fixpoint run_actions (actions : list json) : C unit :=
  match actions with
  | [] => cret tt
  | action :: actions =>
      match action_of action with
      | None => run_actions actions
      | Some (id, payload) =>
          let& _ := handle_invoke (JDict payload) in
          let& _ := _ack_pending id in
          run_actions actions
      end
  end.
(** The actions of the response; a value that is not iterated over raises. *)
Definition actions_of (payload : dict) : res (list json) :=
  let actions := match get_or_null "actions" payload with
                 | JNull => default (JList []) (dget "items" payload)
                 | a => a
                 end in
  match actions with
  | JList l => Ret l
  | JDict d => Ret (map (λ kv, JStr kv.1) d)
  | JStr t => Ret (map (λ c, JStr [c]) t)
  | a => if truthy a then Raise (Exn "TypeError" "object of type has no len()") else Ret []
  end.
Definition _pull_pending : C unit :=
  let& n := tick in
  let& _ := send (_make_req (uuid n) "node.pending.pull" []) in
  let& msg := _await_res (uuid n) in
  match msg with
  | None => cret tt
  | Some msg =>
      if truthy (get_or_null "ok" msg) then
        match get_or_null "payload" msg with
        | JDict payload => let& actions := lift_res (actions_of payload) in run_actions actions
        | _ => cret tt
        end
      else cret tt
  end.

(** ** The event loop *)

Definition relay_event (e : json) : bool :=
  match e with
  | JStr e => startswith e "session." || startswith e "chat" || bool_decide (e = "agent"%py)
  | _ => false
  end.
Definition at_relay {A} (a : N) (f : Relay → res (A * Relay)) : C A :=
  λ s, match f (default new_relay (relays (shared s) !! a)) with
       | Ret (x, r) => (inl x, set_shared (set_relays (<[a := r]> (relays (shared s))) (shared s)) s)
       | Raise e => raise_exn e s
       end.
Definition on_frame (relay : option N) (msg : dict) : C bool :=
  let& consumed :=
    match relay with
    | Some a => if is_type msg "res"
                then at_relay a (λ r, let '(r, b) := handle_response msg r in Ret (b, r)) else cret false
    | None => cret false
    end in
  let& _ :=
    if negb consumed && is_type msg "event" then
      let event := default (JStr []) (dget "event" msg) in
      if bool_decide (event = JStr "node.invoke.request") && c_invoke_dispatch_enabled cl
      then handle_invoke (default (JDict []) (dget "payload" msg))
      else
        match relay with
        | Some a => if relay_event event
                    then at_relay a (λ r, let? r := handle_event msg r in Ret (tt, r)) else cret tt
        | None => cret tt
        end
    else cret tt in
  cret true.
Definition _event_loop (relay : option N) : C unit := let& _ := for_frames (on_frame relay) in cret tt.

(** ** A connection, and what comes between two *)

Definition _set_runtime_connected (value : bool) (h : Shared) : Shared :=
  if c_has_runtime cl then set_connected (c_role cl) value h else h.
(** A relay made for this connection. *)
Definition make_relay : C (option N) :=
  if c_chat_relay_enabled cl then
    λ s, let a := fresh (dom (relays (shared s))) in
         (inl (Some a), set_shared (set_relays (<[a := new_relay]> (relays (shared s))) (shared s)) s)
  else cret None.
Definition _attach_relay (relay : option N) (h : Shared) : Shared :=
  if c_has_runtime cl then match relay with Some a => set_chat_relay (Some a) h | None => h end else h.
(** [finally] of the event loop. *)
Definition leave_loop (relay : option N) (h : Shared) : Shared :=
  let h := match relay with
           | Some a => set_relays (<[a := reset (default new_relay (relays h !! a))]> (relays h)) h
           | None => h
           end in
  let h := _set_runtime_connected false h in
  if c_has_runtime cl then match relay with Some _ => set_chat_relay None h | None => h end else h.
Definition handshake : C unit :=
  let& _ := _reload_device_token in
  let& nonce := _recv_challenge in
  let& req_id := _send_connect nonce in
  let& _ := _recv_connect_response req_id in
  let& state := gets pairing in
  if bool_decide (state = PENDING) then _await_approval else cret tt.
Definition serve : C unit :=
  let& relay := make_relay in
  let& _ := on_shared (_set_runtime_connected true) in
  let& _ := on_shared (_attach_relay relay) in
  λ s, match _event_loop relay s with
       | (inr Waits, s) => (inr Waits, s)
       | (r, s) => (r, set_shared (leave_loop relay (shared s)) s)
       end.
Definition _connect_and_loop : C unit :=
  let& _ := handshake in
  let& _ := if c_invoke_dispatch_enabled cl then _pull_pending else cret tt in
  serve.
(** The date a wait ends at can be computed; the wait can be slept through. *)
Definition YEAR_10000_MS : Z := 253402300800000.
Definition _format_retry_at_utc (now_ms : Z) (d : delay) : bool :=
  match d with
  | Seconds _ | Thousandth FNan => true
  | Thousandth ms => isfinite ms && negb (int_lt_float (YEAR_10000_MS - 1 - now_ms) ms)
  end.
Definition can_sleep (d : delay) : bool := match d with Thousandth FNan => false | _ => true end.
(** What [run] does when a connection ends: it connects again, behind a wait or
    at once; or it ends with the exception of a wait that cannot be. *)
Inductive next := Reconnects (d : option delay) | Ends | Runs.
Definition after_failure (f : failure) : C next :=
  let& t := tick in
  λ s, let '(d, r) := _next_reconnect_delay f (rate_limited_delay_s s) in
       let s := set_delay r s in
       if _format_retry_at_utc (clock t) d then
         let s := _maybe_drop_invalid_device_token f s in
         let s := set_pairing (on_reconnect (pairing s)) s in
         (inl (if can_sleep d then Reconnects (Some d) else Ends),
          set_shared (_set_runtime_connected false (shared s)) s)
       else (inl Ends, s).
Definition run_once (s : conn W) : (next + stop) * conn W :=
  match _connect_and_loop s with
  | (inl _, s) => (inl (Reconnects None), s)
  | (inr (Fails f), s) => after_failure f s
  | (inr Waits, s) => (inl Runs, s)
  end.
End client.

(** ** How a connection proceeds *)

Section proofs.
Context `{Unicode} `{Casing} `{JsonDepth} `{Os} `{Ed25519} `{!Gateway}.
Context {W : Type} (handlers : pystr → @handler W) (cl : Client).
Notation C := (C W).
Implicit Types s : conn W.

Definition frames_of (arrivals : list arrival) : list pystr :=
  omap (λ a, match a with Frame raw => Some raw | _ => None end) arrivals.
Lemma frames_of_app a b : frames_of (a ++ b) = frames_of a ++ frames_of b.
Proof. apply omap_app. Qed.
Lemma elem_frames_of raw a : raw ∈ frames_of a → Frame raw ∈ a.
Proof. intros (x & Hx & E)%list_elem_of_omap. destruct x; by simplify_eq. Qed.

Lemma next_arrival_spec b arrivals h g rest h' :
  next_arrival b arrivals h = (g, rest, h') →
  ∃ pre, arrivals = pre ++ rest ∧ frames_of pre = match g with GotFrame raw => [raw] | _ => [] end.
Proof.
  revert h. induction arrivals as [|a arrivals IH]; intros h; simpl; [intros [= <- <- <-]; by exists []|].
  destruct a as [raw| |f|repr|repr]; try (intros [= <- <- <-]; by exists []).
  - intros [= <- <- <-]. by exists [Frame raw].
  - destruct b; [intros [= <- <- <-]; by exists [Silence]|].
    intros (pre & -> & Hf)%IH. exists (Silence :: pre). by rewrite <- Hf.
  - intros (pre & -> & Hf)%IH. exists (Meanwhile f :: pre). by rewrite <- Hf.
Qed.
Lemma next_arrival_timeout arrivals h rest h' :
  next_arrival true arrivals h = (GotTimeout, rest, h') → ∃ pre, arrivals = pre ++ rest ∧ last pre = Some Silence.
Proof.
  revert h. induction arrivals as [|a arrivals IH]; intros h; simpl; [done|].
  destruct a as [raw| |f|repr|repr]; try done.
  - intros [= <- <-]. by exists [Silence].
  - intros (pre & -> & Hl)%IH. exists (Meanwhile f :: pre). split; [done|]. by rewrite last_cons, Hl.
Qed.
Lemma cbind_inv {A B} (m : C A) (f : A → C B) s r s' :
  cbind m f s = (r, s') →
  (∃ a s1, m s = (inl a, s1) ∧ f a s1 = (r, s')) ∨ (∃ e, m s = (inr e, s') ∧ r = inr e).
Proof. unfold cbind. destruct (m s) as [[a|e] s1]; naive_solver. Qed.

(** What a step of the handshake may do: use up arrivals, and send connect
    requests; it runs no command. *)
Definition connect_frame (f : dict) : Prop := ∃ id params, f = _make_req id "connect" params.
Definition careful_step s s' : Prop :=
  (∃ pre, inbox s = pre ++ inbox s') ∧ commands_state s' = commands_state s ∧
  ∃ frames, sent s' = sent s ++ frames ∧ Forall connect_frame frames.
Lemma careful_refl s : careful_step s s.
Proof. split_and!; [by exists []|done|exists []; by rewrite app_nil_r]. Qed.
Lemma careful_trans s1 s2 s3 : careful_step s1 s2 → careful_step s2 s3 → careful_step s1 s3.
Proof.
  intros ((p1 & E1) & Hc1 & f1 & Hs1 & Hf1) ((p2 & E2) & Hc2 & f2 & Hs2 & Hf2). split_and!.
  - exists (p1 ++ p2). by rewrite E1, E2, app_assoc.
  - congruence.
  - exists (f1 ++ f2). rewrite Hs2, Hs1, app_assoc. split; [done|by apply Forall_app].
Qed.
Definition careful {A} (m : C A) : Prop := ∀ s r s', m s = (r, s') → careful_step s s'.
Lemma careful_ret {A} (a : A) : careful (cret a).
Proof. intros s r s' [= <- <-]. apply careful_refl. Qed.
Lemma careful_fails {A} f : careful (A := A) (fails f).
Proof. intros s r s' [= <- <-]. apply careful_refl. Qed.
Lemma careful_gets {A} (f : conn W → A) : careful (gets f).
Proof. intros s r s' [= <- <-]. apply careful_refl. Qed.
Lemma careful_modify f : (∀ s, inbox (f s) = inbox s ∧ sent (f s) = sent s ∧ commands_state (f s) = commands_state s) →
  careful (modify f).
Proof.
  intros Hf s r s' [= <- <-]. destruct (Hf s) as (E1 & E2 & E3).
  split_and!; [exists []; by rewrite E1|done|exists []; by rewrite E2, app_nil_r].
Qed.
Lemma careful_bind {A B} (m : C A) (f : A → C B) : careful m → (∀ a, careful (f a)) → careful (cbind m f).
Proof.
  intros Hm Hf s r s' [(a & s1 & E1 & E2)|(e & E & _)]%cbind_inv; [|by eapply Hm].
  eapply careful_trans; [by eapply Hm|by eapply Hf].
Qed.
Lemma careful_lift {A} (r : res A) : careful (lift_res r).
Proof. destruct r; [apply careful_ret|apply careful_fails]. Qed.

Lemma lift_res_inv {A} (r : res A) s a s' : lift_res r s = (inl a, s') → r = Ret a ∧ s' = s.
Proof. destruct r; [by intros [= -> ->]|done]. Qed.
Lemma recv_within_spec b s r s' :
  recv_within b s = (r, s') →
  sent s' = sent s ∧ commands_state s' = commands_state s ∧ pairing s' = pairing s ∧ ticks s' = ticks s ∧
  ∃ pre, inbox s = pre ++ inbox s' ∧ frames_of pre = match r with inl (Some raw) => [raw] | _ => [] end.
Proof.
  unfold recv_within. destruct (next_arrival b (inbox s) (shared s)) as [[g rest] h] eqn:E.
  apply next_arrival_spec in E. destruct g; intros [= <- <-]; split_and!; done.
Qed.
Lemma careful_recv_within b : careful (recv_within b).
Proof.
  intros s r s' (Hs & Hc & _ & _ & pre & Hp & _)%recv_within_spec.
  split_and!; [eauto|done|exists []; by rewrite Hs, app_nil_r].
Qed.
Lemma recv_spec s raw s' :
  recv s = (inl raw, s') → pairing s' = pairing s ∧ ticks s' = ticks s ∧ ∃ pre, inbox s = pre ++ inbox s' ∧ frames_of pre = [raw].
Proof.
  unfold recv. intros [(a & s1 & E & E')|(e & _ & [=])]%cbind_inv.
  apply recv_within_spec in E as (_ & _ & Hp & Ht & Hpre). destruct a; [|done]. by injection E' as <- <-.
Qed.
Lemma careful_recv : careful recv.
Proof.
  apply careful_bind; [apply careful_recv_within|]. intros [raw|]; [apply careful_ret|].
  intros s r s' [= <- <-]. apply careful_refl.
Qed.
Lemma careful_parse raw : careful (parse raw).
Proof. apply careful_bind; [apply careful_lift|]. intros []; try apply careful_fails. apply careful_ret. Qed.
Lemma parse_spec raw s d s' : parse raw s = (inl d, s') → loads raw = Ret (JDict d) ∧ s' = s.
Proof.
  unfold parse, lift_res. intros [(j & s1 & E & E')|(e & _ & [=])]%cbind_inv.
  destruct (loads raw) as [j'|]; [|done]. injection E as <- <-. destruct j'; try done. by injection E' as <- <-.
Qed.
Lemma careful_tick : careful tick.
Proof. intros s r s' [= <- <-]. split_and!; [by exists []|done|exists []; by rewrite app_nil_r]. Qed.
Lemma send_spec f s r s' :
  send f s = (r, s') → (r = inl tt ∧ s' = set_sent (sent s ++ [f]) s) ∨ ∃ e, r = inr (Fails e) ∧ s' = s.
Proof. unfold send. destruct (send_fault _); intros [= <- <-]; eauto. Qed.
Lemma careful_send_connect id params : careful (send (_make_req id "connect" params)).
Proof.
  intros s r s' [[-> ->]|(e & -> & ->)]%send_spec; [|apply careful_refl].
  split_and!; [by exists []|done|]. eexists [_]. split; [done|]. constructor; [by eexists _, _|constructor].
Qed.
(** A loop over frames whose body leaves the arrivals alone. *)
Lemma over_frames_spec body arrivals s r s' :
  (∀ d s r s', body d s = (r, s') → inbox s' = inbox s) →
  over_frames body arrivals s = (r, s') →
  ∃ pre, arrivals = pre ++ inbox s' ∧
  match r with
  | inl false => ∃ raw d s1 s2, raw ∈ frames_of pre ∧ loads raw = Ret (JDict d) ∧ body d s1 = (inl false, s2) ∧ s' = s2
  | _ => True
  end.
Proof.
  intros Hb. revert s. induction arrivals as [|a arrivals IH]; intros s; cbn [over_frames].
  { intros [= <- <-]. by exists []. }
  assert (Hgo : ∀ s, over_frames body arrivals s = (r, s') → ∃ pre, a :: arrivals = pre ++ inbox s' ∧
    match r with inl false => ∃ raw d s1 s2, raw ∈ frames_of pre ∧ loads raw = Ret (JDict d) ∧
                                body d s1 = (inl false, s2) ∧ s' = s2 | _ => True end).
  { intros s0 (pre & Hp & Hr)%IH. exists (a :: pre). split; [by rewrite Hp|]. destruct r as [[]|]; try done.
    destruct Hr as (raw & d & s1 & s2 & Hin & Hrest). exists raw, d, s1, s2. split; [|done].
    change (a :: pre) with ([a] ++ pre). rewrite frames_of_app. by apply elem_of_app; right. }
  destruct a as [raw| |f|repr|repr]; [|by apply Hgo|by apply Hgo|intros [= <- <-]; by exists []..].
  destruct (cbind _ _ _) as [[[]|e] s1] eqn:E.
  - apply Hgo.
  - intros [= <- <-]. apply cbind_inv in E as [(d & s2 & Ep & Eb)|(? & _ & [=])].
    apply parse_spec in Ep as [Hl ->]. pose proof (Hb _ _ _ _ Eb) as Hi. cbn in Hi.
    exists [Frame raw]. rewrite Hi. split; [done|]. eexists raw, d, _, _. split_and!; [apply list_elem_of_here|done..].
  - intros [= <- <-]. apply cbind_inv in E as [(d & s2 & Ep & Eb)|(? & Ep & [= ->])].
    + apply parse_spec in Ep as [Hl ->]. pose proof (Hb _ _ _ _ Eb) as Hi. cbn in Hi.
      exists [Frame raw]. by rewrite Hi.
    + assert (Hi : inbox s1 = arrivals).
      { unfold parse, lift_res, cbind, raise_exn, fails, cret in Ep. destruct (loads raw) as [[]|]; by simplify_eq. }
      exists [Frame raw]. by rewrite Hi.
Qed.
Definition calm s s' : Prop := sent s' = sent s ∧ commands_state s' = commands_state s.
Lemma over_frames_calm body arrivals s r s' :
  (∀ d s r s', body d s = (r, s') → calm s s') → over_frames body arrivals s = (r, s') → calm s s'.
Proof.
  intros Hb. revert s. induction arrivals as [|a arrivals IH]; intros s; cbn [over_frames]; [by intros [= <- <-]|].
  destruct a as [raw| |f|repr|repr]; try (by intros [= <- <-]); [|apply IH|intros Ho; by apply IH in Ho].
  assert (Hs : ∀ x s1, (let& msg := parse raw in body msg) (set_inbox arrivals s) = (x, s1) → calm s s1).
  { intros x s1 [(d & s2 & Ep & Eb)|(e & Ep & _)]%cbind_inv.
    - apply parse_spec in Ep as [_ ->]. by apply Hb in Eb.
    - unfold parse, lift_res, cbind, raise_exn, fails, cret in Ep. destruct (loads raw) as [[]|]; by simplify_eq. }
  destruct (cbind _ _ _) as [[[]|e] s1]; pose proof (Hs _ _ eq_refl) as [E1 E2]; try (by intros [= <- <-]).
  intros [E3 E4]%IH. split; congruence.
Qed.

Lemma approval_body d s r s' :
  (if is_event d "connect.approved" then let& _ := modify (set_pairing PAIRED) in cret false else cret true) s = (r, s') →
  inbox s' = inbox s ∧ calm s s' ∧ (r = inl false → is_event d "connect.approved" = true ∧ pairing s' = PAIRED).
Proof. destruct (is_event d "connect.approved"); intros [= <- <-]; by split_and!. Qed.
Lemma await_approval_spec s r s' :
  _await_approval s = (r, s') → calm s s' ∧
  ∃ pre, inbox s = pre ++ inbox s' ∧
    (r = inl tt → pairing s' = PAIRED ∧ ∃ raw d, raw ∈ frames_of pre ∧ loads raw = Ret (JDict d) ∧ is_event d "connect.approved" = true).
Proof.
  unfold _await_approval, for_frames. intros [([] & s1 & E & E')|(e & E & ->)]%cbind_inv.
  - injection E' as <- <-. split; [by eapply over_frames_calm in E; [|intros; by eapply approval_body]|].
    apply over_frames_spec in E as (pre & Hp & _); [|intros; by eapply approval_body]. by exists pre.
  - injection E' as <- <-. split; [by eapply over_frames_calm in E; [|intros; by eapply approval_body]|].
    apply over_frames_spec in E as (pre & Hp & Hr); [|intros; by eapply approval_body].
    destruct Hr as (raw & d & s2 & s3 & Hin & Hl & Hb & ->). apply approval_body in Hb as (_ & _ & Hb).
    destruct (Hb eq_refl) as [Hev Hpa]. exists pre. split; [done|]. intros _. split; [done|]. by exists raw, d.
  - split; [by eapply over_frames_calm in E; [|intros; by eapply approval_body]|].
    apply over_frames_spec in E as (pre & Hp & _); [|intros; by eapply approval_body]. exists pre. by split.
Qed.
Lemma careful_await_approval : careful _await_approval.
Proof.
  intros s r s' ([Hs Hc] & pre & Hp & _)%await_approval_spec.
  split_and!; [eauto|done|exists []; by rewrite Hs, app_nil_r].
Qed.

(** ** The handshake *)

(** Only the shared state and the token change. *)
Definition sidelong s s' : Prop :=
  inbox s' = inbox s ∧ sent s' = sent s ∧ commands_state s' = commands_state s ∧ pairing s' = pairing s.
Lemma sidelong_refl s : sidelong s s.
Proof. by split_and!. Qed.
Lemma sidelong_trans s1 s2 s3 : sidelong s1 s2 → sidelong s2 s3 → sidelong s1 s3.
Proof. unfold sidelong. intros (?&?&?&?) (?&?&?&?). split_and!; congruence. Qed.
Definition aside {A} (m : C A) : Prop := ∀ s r s', m s = (r, s') → sidelong s s'.
Lemma aside_careful {A} (m : C A) : aside m → careful m.
Proof.
  intros Hm s r s' (E1 & E2 & E3 & _)%Hm. split_and!; [by exists []; rewrite E1|done|exists []; by rewrite E2, app_nil_r].
Qed.
Lemma aside_ret {A} (a : A) : aside (cret a).
Proof. intros s r s' [= <- <-]. apply sidelong_refl. Qed.
Lemma aside_fails {A} f : aside (A := A) (fails f).
Proof. intros s r s' [= <- <-]. apply sidelong_refl. Qed.
Lemma aside_bind {A B} (m : C A) (f : A → C B) : aside m → (∀ a, aside (f a)) → aside (cbind m f).
Proof.
  intros Hm Hf s r s' [(a & s1 & E1 & E2)|(e & E & _)]%cbind_inv; [|by eapply Hm].
  eapply sidelong_trans; [by eapply Hm|by eapply Hf].
Qed.
Lemma aside_write_token p t : aside (write_token p t).
Proof.
  intros s r s'. unfold write_token. destruct (_atomic_write_token _ _ _ _). intros [= <- <-]. by split_and!.
Qed.
Lemma aside_persist_entries l : aside (persist_entries cl l).
Proof.
  induction l as [|[role token] l IH]; [apply aside_ret|]. simpl. destruct (sibling cl role); [|done].
  apply aside_bind; [apply aside_write_token|]. intros [[]|[]]; done || apply aside_fails.
Qed.
Lemma aside_persist_token t : aside (_persist_device_token cl t).
Proof. apply aside_bind; [apply aside_write_token|]. intros []; [apply aside_ret|apply aside_fails]. Qed.
Lemma aside_adopt payload : aside (adopt_tokens cl payload).
Proof.
  destruct payload; try apply aside_fails; [apply aside_ret|]. cbn [adopt_tokens].
  destruct (if truthy _ then _ else _); try apply aside_fails.
  apply aside_bind; [intros s r s' [= <- <-]; by split_and!|]. intros token.
  apply aside_bind; [|intros _; apply aside_persist_entries].
  destruct (get_or_null "deviceToken" d0) as [| | | |[|c t]| |]; try apply aside_ret.
  case_bool_decide; [apply aside_ret|]. apply aside_bind; [intros s r s' [= <- <-]; by split_and!|].
  intros _. apply aside_persist_token.
Qed.
Lemma aside_reload : aside (_reload_device_token cl).
Proof.
  intros s r s'. unfold _reload_device_token.
  repeat case_match; intros [= <- <-]; by split_and!.
Qed.

Ltac careful_steps :=
  repeat match goal with
         | |- careful (cbind _ _) => apply careful_bind; [|intros ?]
         | |- careful (cret _) => apply careful_ret
         | |- careful (fails _) => apply careful_fails
         | |- careful (raise_exn _) => apply careful_fails
         | |- careful (gets _) => apply careful_gets
         | |- careful (lift_res _) => apply careful_lift
         | |- careful (parse _) => apply careful_parse
         | |- careful recv => apply careful_recv
         | |- careful tick => apply careful_tick
         | |- careful (send (_make_req _ "connect" _)) => apply careful_send_connect
         | |- careful (modify _) => apply careful_modify; by intros
         | |- careful (adopt_tokens _ _) => apply aside_careful, aside_adopt
         | |- careful _await_approval => apply careful_await_approval
         | |- careful (match ?x with _ => _ end) => destruct x
         end.
Lemma careful_challenge : careful _recv_challenge.
Proof. unfold _recv_challenge. careful_steps. Qed.
Lemma careful_send_connect_req nonce : careful (_send_connect cl nonce).
Proof. unfold _send_connect. careful_steps. Qed.
Lemma careful_response id : careful (_recv_connect_response cl id).
Proof. unfold _recv_connect_response. careful_steps. Qed.
Lemma careful_handshake : careful (handshake cl).
Proof.
  unfold handshake. apply careful_bind; [apply aside_careful, aside_reload|intros _].
  apply careful_bind; [apply careful_challenge|intros nonce].
  apply careful_bind; [apply careful_send_connect_req|intros id].
  apply careful_bind; [apply careful_response|intros _]. careful_steps.
Qed.

(** A frame by which the gateway accepts the connection: the approving answer to
    the connect request, or an approval. *)
Definition accepts (raw : pystr) : Prop :=
  ∃ d, loads raw = Ret (JDict d) ∧
    ((is_type d "res" = true ∧ truthy (get_or_null "ok" d) = true ∧ ∃ n, get_or_null "id" d = JStr (uuid n)) ∨
     is_event d "connect.approved" = true).
Lemma response_spec id s s' :
  _recv_connect_response cl id s = (inl tt, s') →
  ∃ pre raw d, inbox s = pre ++ inbox s' ∧ frames_of pre = [raw] ∧ loads raw = Ret (JDict d) ∧
    ((is_type d "res" = true ∧ get_or_null "id" d = JStr id ∧ truthy (get_or_null "ok" d) = true ∧ pairing s' = PAIRED) ∨
     pairing s' = PENDING).
Proof.
  unfold _recv_connect_response. intros [(raw & s1 & Er & E)|(? & _ & [=])]%cbind_inv.
  apply recv_spec in Er as (_ & _ & pre & Hpre & Hf).
  apply cbind_inv in E as [(d & s2 & Ep & E)|(? & _ & [=])]. apply parse_spec in Ep as [Hl ->].
  destruct (is_type d "res") eqn:Et; [|done]. cbn [negb] in E. case_bool_decide as Hid; [|done]. cbn [negb] in E.
  exists pre, raw, d. destruct (truthy (get_or_null "ok" d)) eqn:Eok.
  - cbn [cbind cret on_connect_response modify] in E. unfold cbind, cret, modify, on_connect_response in E.
    apply aside_adopt in E as (E1 & _ & _ & E4). rewrite E1. split_and!; [done..|]. left. by rewrite E4.
  - apply cbind_inv in E as [(retry & s2 & Ee & E)|(? & _ & [=])].
    apply lift_res_inv in Ee as [_ ->].
    unfold on_connect_response in E. case_bool_decide; [|unfold cbind, modify, fails in E; done].
    injection E as <-. split_and!; [done..|]. by right.
Qed.
Lemma handshake_accepts s s' : handshake cl s = (inl tt, s') → pairing s' = PAIRED ∧ ∃ raw, Frame raw ∈ inbox s ∧ accepts raw.
Proof.
  unfold handshake. intros [(u & s1 & E1 & E)|(? & _ & [=])]%cbind_inv. apply aside_reload in E1 as (Hi1 & _).
  apply cbind_inv in E as [(nonce & s2 & E2 & E)|(? & _ & [=])]. apply careful_challenge in E2 as ((p2 & G2) & _).
  apply cbind_inv in E as [(id & s3 & E3 & E)|(? & _ & [=])].
  assert (Hid : ∃ n, id = uuid n).
  { unfold _send_connect in E3. repeat (apply cbind_inv in E3 as [(? & ? & _ & E3)|(? & _ & [=])]).
    destruct (device_id _); try done. repeat (apply cbind_inv in E3 as [(? & ? & _ & E3)|(? & _ & [=])]).
    injection E3 as <- _. eauto. }
  apply careful_send_connect_req in E3 as ((p3 & G3) & _).
  apply cbind_inv in E as [([] & s4 & E4 & E)|(? & _ & [=])]. apply response_spec in E4 as (p4 & raw & d & G4 & Hf & Hl & Hacc).
  assert (Hin : ∀ x post, x ∈ post → inbox s4 = post ++ inbox s' ∨ post = p4 → x ∈ inbox s).
  { intros x post Hx Hc. rewrite <- Hi1, G2, G3, G4. rewrite !elem_of_app.
    destruct Hc as [Hc| ->]; [rewrite Hc, elem_of_app|]; tauto. }
  unfold cbind, gets in E. destruct Hacc as [(Ht & Hi & Hok & Hp)|Hp]; rewrite Hp in E.
  - injection E as <-. split; [done|]. exists raw. split.
    + apply (Hin _ p4); [|by right]. apply elem_frames_of. rewrite Hf. left.
    + exists d. split; [done|]. left. destruct Hid as [n ->]. eauto.
  - rewrite bool_decide_eq_true_2 in E by done. apply await_approval_spec in E as (_ & p5 & G5 & Hr).
    destruct (Hr eq_refl) as (Hpa & raw' & d' & Hin' & Hl' & Hev). split; [done|]. exists raw'. split.
    + apply (Hin _ p5); [|by left]. by apply elem_frames_of.
    + exists d'. auto.
Qed.
End proofs.

(** ** Properties *)

Section properties.
Context `{Unicode} `{Casing} `{JsonDepth} `{Os} `{Ed25519} `{!Gateway}.
Context {W : Type} (handlers : pystr → @handler W) (cl : Client).
Notation C := (C W).
Implicit Types s : conn W.

(** C14. Until the gateway has accepted the connection, by a positive answer to the
    connect request or by an approval of the device, the connection runs no
    command and sends nothing but connect requests, whatever frames arrive. *)
Theorem no_command_before_acceptance s r s' :
  _connect_and_loop handlers cl s = (r, s') →
  (commands_state s' = commands_state s ∧ ∃ frames, sent s' = sent s ++ frames ∧ Forall connect_frame frames) ∨
  ∃ raw, Frame raw ∈ inbox s ∧ accepts raw.
Proof.
  unfold _connect_and_loop. intros [([] & s1 & Eh & _)|(e & Eh & _)]%cbind_inv.
  - right. by apply handshake_accepts in Eh as [_ ?].
  - left. by apply careful_handshake in Eh as (_ & ? & ?).
Qed.

(** ** Waiting for a response *)

Definition answers (req_id : pystr) (d : dict) : Prop :=
  (is_type d "res" = true ∧ get_or_null "id" d = JStr req_id) ∨ (is_type d "res" = false ∧ is_type d "event" = false).
Definition passed_over (req_id raw : pystr) : Prop :=
  ∃ d, loads raw = Ret (JDict d) ∧ ¬ answers req_id d.
Lemma await_res_spec n req_id s r s' :
  await_res n req_id s = (r, s') →
  sent s' = sent s ∧ commands_state s' = commands_state s ∧
  ∃ pre dropped, inbox s = pre ++ inbox s' ∧ Forall (passed_over req_id) dropped ∧ length dropped ≤ n ∧
  match r with
  | inl (Some d) => ∃ raw, frames_of pre = dropped ++ [raw] ∧ loads raw = Ret (JDict d) ∧ answers req_id d
  | inl None => frames_of pre = dropped
  | inr _ => ∃ rest, frames_of pre = dropped ++ rest
  end.
Proof.
  revert s. induction n as [|n IH]; intros s; cbn [await_res].
  { intros [= <- <-]. split_and!; [done..|]. by exists [], []. }
  intros [(raw & s1 & Er & E)|(e & Er & ->)]%cbind_inv; apply recv_within_spec in Er as (Hs & Hc & _ & _ & pre & Hp & Hf).
  2: { split_and!; [done..|]. exists pre, []. split_and!; [done|constructor|simpl; lia|by exists []; rewrite Hf]. }
  destruct raw as [raw|].
  2: { injection E as <- <-. split_and!; [done..|]. exists pre, []. split_and!; [done|constructor|simpl; lia|done]. }
  apply cbind_inv in E as [(d & s2 & Ep & E)|(e & Ep & ->)].
  2: { assert (s' = s1) as ->.
       { unfold parse, lift_res, cbind, raise_exn, fails, cret in Ep. destruct (loads raw) as [[]|]; by simplify_eq. }
       split_and!; [done..|]. exists pre, []. split_and!; [done|constructor|simpl; lia|by exists [raw]; rewrite Hf]. }
  apply parse_spec in Ep as [Hl ->].
  assert (Hgo : ¬ answers req_id d → await_res n req_id s1 = (r, s') →
    sent s' = sent s ∧ commands_state s' = commands_state s ∧
    ∃ pre dropped, inbox s = pre ++ inbox s' ∧ Forall (passed_over req_id) dropped ∧ length dropped ≤ S n ∧
    match r with
    | inl (Some d) => ∃ raw, frames_of pre = dropped ++ [raw] ∧ loads raw = Ret (JDict d) ∧ answers req_id d
    | inl None => frames_of pre = dropped
    | inr _ => ∃ rest, frames_of pre = dropped ++ rest
    end).
  { intros Hna (Es & Ec & pre2 & dropped & Hp2 & Hd & Hn & Hr)%IH. split_and!; [congruence..|].
    exists (pre ++ pre2), (raw :: dropped). rewrite frames_of_app, Hf. split_and!.
    - by rewrite Hp, Hp2, app_assoc.
    - constructor; [by exists d|done].
    - simpl. lia.
    - destruct r as [[d'|]|]; cbn [app]; [destruct Hr as (raw' & -> & ?); by exists raw'|by rewrite Hr|destruct Hr as (rest & ->); by exists rest]. }
  assert (Hdone : answers req_id d → r = inl (Some d) → s' = s1 →
    sent s' = sent s ∧ commands_state s' = commands_state s ∧
    ∃ pre dropped, inbox s = pre ++ inbox s' ∧ Forall (passed_over req_id) dropped ∧ length dropped ≤ S n ∧
    match r with
    | inl (Some d) => ∃ raw, frames_of pre = dropped ++ [raw] ∧ loads raw = Ret (JDict d) ∧ answers req_id d
    | inl None => frames_of pre = dropped
    | inr _ => ∃ rest, frames_of pre = dropped ++ rest
    end).
  { intros Ha -> ->. split_and!; [done..|]. exists pre, []. split_and!; [done|constructor|simpl; lia|].
    exists raw. by rewrite Hf. }
  unfold answers in *. destruct (is_type d "res") eqn:Et.
  - case_bool_decide as Hid; [injection E as <- <-; apply Hdone; auto|]. apply Hgo; [|done]. naive_solver.
  - destruct (is_type d "event") eqn:Ee; [apply Hgo; [naive_solver|done]|]. injection E as <- <-. apply Hdone; auto.
Qed.
Lemma await_response_spec req_id s r s' :
  _await_res req_id s = (r, s') →
  sent s' = sent s ∧ commands_state s' = commands_state s ∧
  ∃ pre dropped, inbox s = pre ++ inbox s' ∧ Forall (passed_over req_id) dropped ∧ length dropped ≤ 256 ∧
  match r with
  | inl (Some d) => ∃ raw, frames_of pre = dropped ++ [raw] ∧ loads raw = Ret (JDict d) ∧ answers req_id d
  | inl None => frames_of pre = dropped
  | inr _ => ∃ rest, frames_of pre = dropped ++ rest
  end.
Proof. exact (await_res_spec _RES_CORRELATION_MAX_FRAMES req_id s r s'). Qed.
(** The wait for a response to a request passes over events and the responses to
    other requests, at most 256 of them, and takes nothing else for the
    response: what it returns is a frame with the id of the request, or one that
    is neither an event nor a response.  It runs nothing and sends nothing. *)
Theorem response_is_correlated req_id s r s' :
  _await_res req_id s = (r, s') →
  sent s' = sent s ∧ commands_state s' = commands_state s ∧
  ∃ pre dropped, inbox s = pre ++ inbox s' ∧ Forall (passed_over req_id) dropped ∧ length dropped ≤ 256 ∧
  match r with
  | inl (Some d) => ∃ raw, frames_of pre = dropped ++ [raw] ∧ loads raw = Ret (JDict d) ∧ answers req_id d
  | inl None => frames_of pre = dropped
  | inr _ => ∃ rest, frames_of pre = dropped ++ rest
  end.
Proof. exact (await_response_spec req_id s r s'). Qed.

(** ** The queue of pending invokes *)

Definition result_of (payload : dict) (f : dict) : Prop :=
  ∃ rid fields, f = result_frame rid (base_of payload ++ fields).
Definition ack_of (id : pystr) (f : dict) : Prop :=
  ∃ n, f = _make_req (uuid n) "node.pending.ack" [("ids"%py, JList [JStr id])].
(** The frames a run over actions sends; the flag tells a run that came to the
    end of its actions. *)
Inductive served : list (pystr * dict) → list dict → bool → Prop :=
| served_all : served [] [] true
| served_stop acts : served acts [] false
| served_result id payload acts f :
    result_of payload f → served ((id, payload) :: acts) [f] false
| served_next id payload acts f g frames complete :
    result_of payload f → ack_of id g → served acts frames complete →
    served ((id, payload) :: acts) (f :: g :: frames) complete.

#[local] Opaque base_of.
Lemma handle_invoke_spec payload s r s' :
  handle_invoke handlers cl (JDict payload) s = (r, s') →
  (r = inl tt ∧ ∃ f, sent s' = sent s ++ [f] ∧ result_of payload f) ∨ (∃ e, r = inr (Fails e) ∧ sent s' = sent s).
Proof.
  unfold handle_invoke. cbn [cbind tick]. unfold cbind, tick.
  set (s0 := set_ticks _ _).
  destruct (_handle_invoke _ _ _ _ _ _ _) as [[out relay] st] eqn:Eh.
  assert (Hs0 : sent s0 = sent s) by done. destruct out as [frame|e].
  - assert (Hf : result_of payload frame).
    { assert (Hsend : ∀ id1 id2 fields, result_of payload
        (_send_invoke_result id2 (result_frame id1 (base_of payload ++ fields)) (base_of payload))).
      { intros. unfold _send_invoke_result. destruct (_ <? _)%N; by eexists _, _. }
      unfold _handle_invoke in Eh. destruct (_decode_invoke_params payload); [|by simplify_eq; apply Hsend|done].
      destruct (_resolve_invoke_caller _ _ _) as [v rel]. destruct v as [[caller params]|e|]; [|by simplify_eq; eexists _, _|done].
      destruct (dispatch_async _ _ _ _ _) as [st1 r1]. simplify_eq. apply Hsend. }
    intros [[-> ->]|(e & -> & ->)]%send_spec; [left|right; by eexists].
    split; [done|]. by exists frame.
  - intros [= <- <-]. right. eexists. split; [done|]. exact Hs0.
Qed.
Lemma ack_spec id s r s' :
  _ack_pending id s = (r, s') →
  (∃ g, sent s' = sent s ++ [g] ∧ ack_of id g) ∨ (∃ e, r = inr (Fails e) ∧ sent s' = sent s).
Proof.
  unfold _ack_pending. intros [(n & s1 & Et & E)|(e & [=] & _)]%cbind_inv. injection Et as <- <-.
  apply cbind_inv in E as [([] & s2 & Es & E)|(e & Es & ->)];
    apply send_spec in Es as [[Er ->]|(e' & Er & ->)]; simplify_eq; [|right; by eexists].
  left. eexists. split; [|by eexists]. destruct (recv_within true _) as [x s3] eqn:Ew.
  apply recv_within_spec in Ew as (Hs & _). cbn in Hs. rewrite <- Hs.
  destruct x as [[raw|]|[]]; try (by simplify_eq).
  unfold parse, lift_res, cbind, raise_exn, fails, cret in E. destruct (loads raw) as [[]|]; by simplify_eq.
Qed.
Lemma run_actions_spec actions s r s' :
  run_actions handlers cl actions s = (r, s') →
  ∃ frames complete, sent s' = sent s ++ frames ∧ served (omap action_of actions) frames complete ∧
    (r = inl tt → complete = true).
Proof.
  revert s. induction actions as [|a actions IH]; intros s; cbn [run_actions].
  { intros [= <- <-]. exists [], true. rewrite app_nil_r. split_and!; [done|constructor|done]. }
  assert (omap action_of (a :: actions)
          = match action_of a with Some y => y :: omap action_of actions | None => omap action_of actions end) as -> by done.
  destruct (action_of a) as [[id payload]|]; [|apply IH].
  intros [([] & s1 & Eh & E)|(e & Eh & ->)]%cbind_inv; apply handle_invoke_spec in Eh as [(Er & f & Hs1 & Hf)|(e' & Er & Hs1)]; simplify_eq.
  - apply cbind_inv in E as [([] & s2 & Ea & E)|(e & Ea & ->)]; apply ack_spec in Ea as [(g & Hs2 & Hg)|(e' & Er' & Hs2)]; simplify_eq.
    + apply IH in E as (frames & complete & Hs3 & Hsv & Hc). exists (f :: g :: frames), complete. split_and!; [|by constructor|done].
      rewrite Hs3, Hs2, Hs1, <- !app_assoc. done.
    + exists [f; g], false. split_and!; [by rewrite Hs2, Hs1, <- app_assoc|by repeat constructor|done].
    + exists [f], false. split_and!; [by rewrite Hs2, Hs1|by constructor|done].
  - exists [], false. rewrite app_nil_r. split_and!; [done|constructor|done].
Qed.

(** The queue a response lists: under [actions], or under [items] when that is
    null. *)
Inductive lists_queue (d : dict) : list json → Prop :=
| lists_actions payload l :
    truthy (get_or_null "ok" d) = true → get_or_null "payload" d = JDict payload →
    get_or_null "actions" payload = JList l → lists_queue d l
| lists_items payload l :
    truthy (get_or_null "ok" d) = true → get_or_null "payload" d = JDict payload →
    get_or_null "actions" payload = JNull → dget "items" payload = Some (JList l) → lists_queue d l.
(** An action with an id and a command, and the invoke it stands for: parameters
    that are missing are the empty object. *)
Inductive well_formed : json → pystr → dict → Prop :=
| wf_given a id command :
    get_or_null "id" a = JStr id → id ≠ [] → get_or_null "command" a = JStr command → command ≠ [] →
    get_or_null "paramsJSON" a ≠ JNull → get_or_null "paramsJSON" a ≠ JStr [] → well_formed (JDict a) id a
| wf_default a id command :
    get_or_null "id" a = JStr id → id ≠ [] → get_or_null "command" a = JStr command → command ≠ [] →
    get_or_null "paramsJSON" a = JNull ∨ get_or_null "paramsJSON" a = JStr [] →
    well_formed (JDict a) id (dset "paramsJSON" (JStr "{}") a).
(** The invokes of a queue, in its order, the malformed actions left out. *)
Inductive invokes_of : list json → list (pystr * dict) → Prop :=
| invokes_nil : invokes_of [] []
| invokes_take a id payload l acts : well_formed a id payload → invokes_of l acts → invokes_of (a :: l) ((id, payload) :: acts)
| invokes_skip a l acts : (∀ id payload, ¬ well_formed a id payload) → invokes_of l acts → invokes_of (a :: l) acts.

Lemma action_of_spec a :
  match action_of a with Some (id, payload) => well_formed a id payload | None => ∀ id payload, ¬ well_formed a id payload end.
Proof.
  unfold action_of. destruct a as [| | | | | |a]; try (intros id payload Hw; by inversion Hw).
  assert (Hno : (∀ x y, get_or_null "id" a = JStr x → x ≠ [] → get_or_null "command" a = JStr y → y ≠ [] → False) →
                ∀ id payload, ¬ well_formed (JDict a) id payload).
  { intros Hno id payload Hw. inversion Hw; subst; by eapply Hno. }
  destruct (get_or_null "id" a) as [| | | |[|c id]| |] eqn:Ei; try (apply Hno; congruence).
  destruct (get_or_null "command" a) as [| | | |[|c' cmd]| |] eqn:Ec; try (apply Hno; congruence).
  destruct (get_or_null "paramsJSON" a) as [| | | |[|x p]| |] eqn:Ep;
    try (eapply wf_given; rewrite ?Ei, ?Ec, ?Ep; done).
  - eapply wf_default; rewrite ?Ei, ?Ec; try done. by left.
  - eapply wf_default; rewrite ?Ei, ?Ec; try done. by right.
Qed.
Lemma invokes_of_actions l : invokes_of l (omap action_of l).
Proof.
  induction l as [|a l IH]; [constructor|]. pose proof (action_of_spec a) as Ha.
  change (omap action_of (a :: l)) with (match action_of a with Some y => y :: omap action_of l | None => omap action_of l end).
  destruct (action_of a) as [[id payload]|]; by constructor.
Qed.
Lemma no_actions {X} (f : X → json) l : (∀ x, action_of (f x) = None) → omap action_of (map f l) = [].
Proof. intros Hf. induction l as [|x l IH]; [done|]. cbn. by rewrite Hf, IH. Qed.
(** What is run over is the queue that is listed, or holds no action. *)
Lemma actions_of_spec d payload actions :
  truthy (get_or_null "ok" d) = true → get_or_null "payload" d = JDict payload → actions_of payload = Ret actions →
  (∃ l, lists_queue d l) ∧ (∀ l, lists_queue d l → l = actions) ∨ (∀ l, ¬ lists_queue d l) ∧ omap action_of actions = [].
Proof.
  intros Hok Hp Ha.
  assert (Hinv : ∀ l, lists_queue d l → get_or_null "actions" payload = JList l ∨
    get_or_null "actions" payload = JNull ∧ dget "items" payload = Some (JList l)).
  { intros l Hl. inversion Hl as [p' ? _ Hp' Q1|p' ? _ Hp' Q1 Q2]; rewrite Hp in Hp'; injection Hp' as <-; auto. }
  unfold actions_of in Ha. destruct (get_or_null "actions" payload) as [|b|z|x|t|l|o] eqn:Ea.
  - destruct (dget "items" payload) as [items|] eqn:Ei; cbn [default] in Ha.
    + assert (Hn : (∀ l, items ≠ JList l) → ∀ l, ¬ lists_queue d l).
      { intros Hne l [?|[_ [= Hx]]]%Hinv; [done|by eapply Hne]. }
      destruct items as [|b|z|x|t|l|o]; try (destruct (truthy _) in Ha; [done|]); injection Ha as <-;
        try (right; split; [by apply Hn|done || by apply no_actions]).
      left. split; [exists l; by eapply lists_items|]. by intros l' [?|[_ [= ->]]]%Hinv.
    + injection Ha as <-. right. split; [|done]. by intros l [?|[_ ?]]%Hinv.
  - destruct (truthy _) in Ha; [done|]. injection Ha as <-. right. split; [by intros l [?|[? _]]%Hinv|done].
  - destruct (truthy _) in Ha; [done|]. injection Ha as <-. right. split; [by intros l [?|[? _]]%Hinv|done].
  - destruct (truthy _) in Ha; [done|]. injection Ha as <-. right. split; [by intros l [?|[? _]]%Hinv|done].
  - injection Ha as <-. right. split; [by intros l [?|[? _]]%Hinv|by apply no_actions].
  - injection Ha as <-. left. split; [exists l; by eapply lists_actions|]. by intros l' [[= ->]|[? _]]%Hinv.
  - injection Ha as <-. right. split; [by intros l [?|[? _]]%Hinv|by apply no_actions].
Qed.
(** Without a response, the wait was used up: by silence, or by 256 frames. *)
Lemma await_res_None n req_id s s' :
  await_res n req_id s = (inl None, s') →
  ∃ pre, inbox s = pre ++ inbox s' ∧ (length (frames_of pre) = n ∨ last pre = Some Silence).
Proof.
  revert s. induction n as [|n IH]; intros s; cbn [await_res].
  { intros [= <-]. exists []. split; [done|by left]. }
  intros [(raw & s1 & Er & E)|(e & Er & [=])]%cbind_inv.
  destruct raw as [raw|].
  - apply recv_within_spec in Er as (_ & _ & _ & _ & pre & Hp & Hf).
    apply cbind_inv in E as [(d & s2 & Ep & E)|(e & Ep & [=])]. apply parse_spec in Ep as [_ ->].
    assert (Hrec : await_res n req_id s1 = (inl None, s')).
    { destruct (is_type d "res"); [case_bool_decide; [done|exact E]|]. by destruct (is_type d "event"). }
    apply IH in Hrec as (pre2 & Hp2 & Hc). exists (pre ++ pre2). rewrite Hp, Hp2, app_assoc. split; [done|].
    rewrite frames_of_app, Hf. destruct Hc as [Hc|Hc]; [left; cbn; by rewrite Hc|right]. by rewrite last_app, Hc.
  - injection E as <-. unfold recv_within in Er.
    destruct (next_arrival true (inbox s) (shared s)) as [[g rest] h] eqn:En. destruct g; simplify_eq.
    apply next_arrival_timeout in En as (pre & Hp & Hl). exists pre. split; [exact Hp|by right].
Qed.

Lemma await_response_None req_id s s' :
  _await_res req_id s = (inl None, s') →
  ∃ pre, inbox s = pre ++ inbox s' ∧ (length (frames_of pre) = 256 ∨ last pre = Some Silence).
Proof. exact (await_res_None _RES_CORRELATION_MAX_FRAMES req_id s s'). Qed.

(** C38. The pending invokes are asked for once, by one request, and served in the
    order of the queue that the response lists: each action with an id and a
    command is answered by its own result and acknowledged behind it, none is
    left out, and a malformed one is neither run nor acknowledged; nothing is run
    when the response lists no queue.  A run that stops with an error has served
    the actions up to some point, the last one perhaps without its
    acknowledgement: nothing is acknowledged that was not answered.  The response
    is the first frame that answers the request; a run that goes on without one
    has waited until the time was up or 256 frames had come. *)
Theorem pending_served_in_order s r s' :
  _pull_pending handlers cl s = (r, s') →
  (r ≠ inl tt ∧ sent s' = sent s) ∨
  ∃ id frames, sent s' = sent s ++ _make_req id "node.pending.pull" [] :: frames ∧
  ((∃ pre post dropped raw d, inbox s = pre ++ post ∧ frames_of pre = dropped ++ [raw] ∧
      Forall (passed_over id) dropped ∧ loads raw = Ret (JDict d) ∧ answers id d ∧
      (∀ l, lists_queue d l →
         ∃ acts complete, invokes_of l acts ∧ served acts frames complete ∧ (r = inl tt → complete = true)) ∧
      ((∀ l, ¬ lists_queue d l) → frames = [])) ∨
   (frames = [] ∧
    (r = inl tt → ∃ pre, inbox s = pre ++ inbox s' ∧ Forall (passed_over id) (frames_of pre) ∧
       (length (frames_of pre) = 256 ∨ last pre = Some Silence)))).
Proof.
  unfold _pull_pending. intros [(n & s1 & Et & E)|(e & [=] & _)]%cbind_inv. injection Et as <- <-.
  apply cbind_inv in E as [([] & s2 & Es & E)|(e & Es & ->)];
    apply send_spec in Es as [[Er ->]|(e' & Er & ->)]; simplify_eq; [|by left].
  right. set (id := uuid (ticks s)) in *. exists id.
  apply cbind_inv in E as [(m & s3 & Ea & E)|(e & Ea & ->)].
  2: { apply await_response_spec in Ea as (Hs3 & _). exists []. split; [exact Hs3|]. right. done. }
  destruct m as [d|].
  2: { injection E as <- <-. pose proof (await_response_spec _ _ _ _ Ea) as (Hs3 & _ & pre & dropped & Hp & Hd & _ & Hf).
       exists []. split; [exact Hs3|]. right. split; [done|]. intros _.
       apply await_response_None in Ea as (pre' & Hp' & Hc). rewrite Hp' in Hp. apply app_inv_tail in Hp as <-.
       exists pre'. split_and!; [exact Hp'|by rewrite Hf|exact Hc]. }
  apply await_response_spec in Ea as (Hs3 & _ & pre & dropped & Hp & Hd & _ & raw & Hf & Hl & Ha).
  cbn [sent set_sent inbox set_ticks] in Hs3, Hp.
  assert (Hquiet : (∀ l, ¬ lists_queue d l) → sent s' = sent s3 →
    ∃ frames, sent s' = sent s ++ _make_req id "node.pending.pull" [] :: frames ∧
    ((∃ pre post dropped raw d, inbox s = pre ++ post ∧ frames_of pre = dropped ++ [raw] ∧
      Forall (passed_over id) dropped ∧ loads raw = Ret (JDict d) ∧ answers id d ∧
      (∀ l, lists_queue d l →
         ∃ acts complete, invokes_of l acts ∧ served acts frames complete ∧ (r = inl tt → complete = true)) ∧
      ((∀ l, ¬ lists_queue d l) → frames = [])) ∨
     (frames = [] ∧
      (r = inl tt → ∃ pre, inbox s = pre ++ inbox s' ∧ Forall (passed_over id) (frames_of pre) ∧
         (length (frames_of pre) = 256 ∨ last pre = Some Silence))))).
  { intros Hno Hs. exists []. split; [by rewrite Hs, Hs3|]. left. exists pre, (inbox s3), dropped, raw, d.
    split_and!; try done. intros l Hq. by destruct (Hno l). }
  destruct (truthy _) eqn:Eok.
  2: { injection E as <- <-. apply Hquiet; [|done]. intros l Hq. inversion Hq; congruence. }
  destruct (get_or_null "payload" d) as [| | | | | |payload] eqn:Ep;
    try (injection E as <- <-; apply Hquiet; [|done]; intros q Hq; inversion Hq; congruence).
  apply cbind_inv in E as [(actions & s4 & El & E)|(e & El & ->)].
  - apply lift_res_inv in El as [El ->]. apply run_actions_spec in E as (frames & complete & Hs & Hsv & Hc).
    exists frames. split; [by rewrite Hs, Hs3, <- app_assoc|]. left. exists pre, (inbox s3), dropped, raw, d.
    destruct (actions_of_spec _ _ _ Eok Ep El) as [[[l0 Hl0] Hq]|[Hno Hnil]]; split_and!; try done.
    + intros l Hl'. rewrite (Hq l Hl'). exists (omap action_of actions), complete.
      split_and!; [apply invokes_of_actions|done|done].
    + intros Hno. by destruct (Hno l0).
    + intros l Hq. by destruct (Hno l).
    + intros _. rewrite Hnil in Hsv. by inversion Hsv.
  - assert (Hraise : ∃ x, actions_of payload = Raise x).
    { unfold lift_res, cret in El. destruct (actions_of payload); [done|by eexists]. }
    apply Hquiet; [|by unfold lift_res, raise_exn, fails in El; destruct (actions_of payload); simplify_eq].
    destruct Hraise as [x Hx]. intros l Hq. unfold actions_of in Hx.
    inversion Hq as [p' ? _ Hp' Q1|p' ? _ Hp' Q1 Q2]; rewrite Ep in Hp'; injection Hp' as <-; rewrite Q1 in Hx;
      [done|by rewrite Q2 in Hx].
Qed.

(** ** Tokens *)

(** The files a sibling's token may be written to. *)
Definition token_place (p : list pystr) : Prop :=
  ∃ loc role, (role = "node"%py ∨ role = "operator"%py) ∧ role ≠ c_role cl ∧
    (p = loc ++ [device_token_name role] ∨ p = loc ++ [tmp_of (device_token_name role)]).
Lemma sibling_role role : sibling cl role = true → (role = "node"%py ∨ role = "operator"%py) ∧ role ≠ c_role cl.
Proof.
  unfold sibling. intros [Hn He]%andb_prop. apply negb_true_iff, bool_decide_eq_false in Hn.
  apply elem_true in He. unfold _PERSISTABLE_SIBLING_ROLES in He. split; [|done].
  apply elem_of_cons in He as [->|[->|He]%elem_of_cons]; [by left|by right|by apply not_elem_of_nil in He].
Qed.
Lemma write_token_keeps role token s r s' :
  sibling cl role = true → write_token (device_token_path_for (c_config cl) role) token s = (r, s') →
  ∀ l x, ¬ token_place l → disk_of (shared s) !! l = Some x → disk_of (shared s') !! l = Some x.
Proof.
  intros Hr. unfold write_token, path_file. cbn [fst snd].
  set (dir := parts (path_parent _)). assert (path_name (device_token_path_for (c_config cl) role) = device_token_name role) as ->
    by (unfold path_name, device_token_path_for; cbn [parts]; by rewrite last_snoc).
  pose proof (atomic_write_token_spec (disk_of (shared s)) dir (device_token_name role) token) as Hspec.
  destruct (_atomic_write_token _ _ _ _) as [o d]. intros [= <- <-] l x Hl Hx. cbn [shared set_shared disk_of set_disk].
  destruct (mkdirs _ _ _) as [[loc|e] d0] eqn:Em; apply mkdirs_keeps in Em.
  - destruct Hspec as [_ Hk]. rewrite Hk; [by apply Em; [set_solver|]|..];
      intros ->; apply Hl; exists loc, role; apply sibling_role in Hr as []; auto.
  - destruct Hspec as [_ ->]. by apply Em; [set_solver|].
Qed.
(** Whatever roles and tokens the gateway names for the other connections, the
    node writes only to files called [device-token.node] or
    [device-token.operator], with their temporary names, and never to the one of
    its own role: every other file is left as it was, and nothing is sent or run. *)
Theorem sibling_tokens_confined tokens s r s' :
  _persist_dual_role_tokens cl tokens s = (r, s') →
  (sent s' = sent s ∧ commands_state s' = commands_state s ∧ device_token s' = device_token s) ∧
  ∀ l x, ¬ token_place l → disk_of (shared s) !! l = Some x → disk_of (shared s') !! l = Some x.
Proof.
  unfold _persist_dual_role_tokens. generalize (token_entries tokens). intros entries. revert s.
  induction entries as [|[role token] entries IH]; intros s; cbn [persist_entries]; [by intros [= <- <-]|].
  destruct (sibling cl role) eqn:Es; [|apply IH].
  intros [(o & s1 & Ew & E)|(e & Ew & ->)]%cbind_inv.
  2: { unfold write_token in Ew. by destruct (_atomic_write_token _ _ _ _). }
  pose proof (write_token_keeps _ _ _ _ _ Es Ew) as Hk.
  assert (Hsame : sent s1 = sent s ∧ commands_state s1 = commands_state s ∧ device_token s1 = device_token s).
  { unfold write_token in Ew. destruct (_atomic_write_token _ _ _ _). by injection Ew as <- <-. }
  assert (Hgo : persist_entries cl entries s1 = (r, s') → (sent s' = sent s ∧ commands_state s' = commands_state s ∧
    device_token s' = device_token s) ∧ ∀ l x, ¬ token_place l → disk_of (shared s) !! l = Some x → disk_of (shared s') !! l = Some x).
  { intros [(E1 & E2 & E3) Hk2]%IH. destruct Hsame as (F1 & F2 & F3). split; [split_and!; congruence|]. eauto. }
  destruct o as [|[]]; try (by apply Hgo); injection E as <- <-; eauto.
Qed.

(** ** The connect request *)

(** The text a gateway rebuilds from the fields of a connect request. *)
Definition member (path : list pystr) (params : dict) : json :=
  fold_left (λ j k, match j with JDict d => get_or_null k d | _ => JNull end) path (JDict params).
Definition text_at (path : list pystr) (params : dict) : pystr :=
  match member path params with JStr s => s | JInt z => str_of_Z z | _ => [] end.
Definition scopes_at (params : dict) : list pystr :=
  match member ["scopes"]%py params with JList l => omap (λ j, match j with JStr s => Some s | _ => None end) l | _ => [] end.
Definition rebuilt_payload (params : dict) : pystr :=
  join PIPE ["v3"%py; text_at ["device"; "id"] params; text_at ["client"; "id"] params; text_at ["client"; "mode"] params;
    text_at ["role"] params; join "," (scopes_at params); text_at ["device"; "signedAt"] params;
    text_at ["auth"; "token"] params; text_at ["device"; "nonce"] params; text_at ["client"; "platform"] params;
    text_at ["client"; "deviceFamily"] params]%py.
Lemma scopes_listed l : omap (λ j, match j with JStr s => Some s | _ => None end) (map JStr l) = l.
Proof. induction l as [|w l IH]; [done|]. cbn. f_equal. exact IH. Qed.
(** A connect request can be verified from itself: its signature is the one of the
    text that its own fields make, the nonce of the challenge among them. *)
Theorem connect_request_verifies nonce s id s' :
  _send_connect cl nonce s = (inl id, s') →
  ∃ params bytes, sent s' = sent s ++ [_make_req id "connect" params] ∧
    text_at ["device"; "nonce"]%py params = nonce ∧ utf8 (rebuilt_payload params) = Some bytes ∧
    text_at ["device"; "signature"]%py params = _b64url (ed_sign (identity_key (c_identity cl)) bytes).
Proof.
  unfold _send_connect. intros [(t & s1 & Et & E)|(? & _ & [=])]%cbind_inv. injection Et as <- <-.
  unfold gets in E. cbn [cbind] in E. unfold cbind at 1 in E.
  apply cbind_inv in E as [([sg at_] & s2 & El & E)|(? & _ & [=])]. apply lift_res_inv in El as [El ->].
  unfold sign_connect in El. destruct (device_id (c_identity cl)) as [| | | |did| |] eqn:Ed; try done.
  destruct (utf8 _) as [bytes|] eqn:Eu; [|done]. injection El as <- <-.
  apply cbind_inv in E as [(n & s3 & En & E)|(? & _ & [=])]. injection En as <- <-.
  apply cbind_inv in E as [([] & s4 & Es & E)|(? & _ & [=])]. injection E as <- <-.
  apply send_spec in Es as [[_ ->]|(? & [=] & _)]. cbn [fst snd].
  eexists _, bytes. split; [done|]. split; [done|]. split; [|done].
  rewrite <- Eu. f_equal. unfold rebuilt_payload, connect_payload.
  assert (scopes_at (connect_params cl did (_b64url (ed_sign (identity_key (c_identity cl)) bytes)) nonce
            (device_token (set_ticks (S (ticks s)) s)) (clock (ticks s))) = c_scopes cl) as ->; [|done].
  apply scopes_listed.
Qed.

(** ** After a failure *)

(** A connection that fails is tried again: as long as the gateway names no delay
    of its own, the client goes on with a wait, is not paired, and reports the
    role as not connected.  The device token is kept, unless it was rejected and
    the client may fall back: then the pairing token takes its place. *)
Theorem failure_is_survived f s r s' :
  ¬ asks_for_delay f → after_failure cl f s = (r, s') →
  (∃ d, r = inl (Reconnects (Some (Seconds d)))) ∧ pairing s' ≠ PAIRED ∧ pairing s' ≠ PENDING ∧
  (c_has_runtime cl = true →
   (if bool_decide (c_role cl = "operator"%py) then operator_connected else node_connected) (shared s') = false) ∧
  ((device_token s' = device_token s ∧ disk_of (shared s') = disk_of (shared s)) ∨
   (rejects_token f = true ∧ c_pair_fallback_enabled cl = true ∧ device_token s' = pairing_token (c_config cl))).
Proof.
  intros Hd. unfold after_failure. intros [(t & s1 & Et & E)|(? & [=] & _)]%cbind_inv. injection Et as <- <-.
  destruct (_next_reconnect_delay f _) as [d rl] eqn:En.
  assert (∃ x, d = Seconds x) as [x ->].
  { unfold _next_reconnect_delay in En. destruct f as [[c m [ms|]]|]; [destruct Hd; by eexists| |];
      destruct (is_rate_limited _); cbn in En; simplify_eq; eauto. }
  cbn [_format_retry_at_utc can_sleep] in E. injection E as <- <-. cbn [pairing set_pairing shared set_shared].
  assert (Hrec : ∀ p, on_reconnect p ≠ PAIRED ∧ on_reconnect p ≠ PENDING) by (by intros []).
  split; [by eexists|]. split; [apply Hrec|]. split; [apply Hrec|]. split.
  - intros Hr. unfold _set_runtime_connected, set_connected. rewrite Hr. by case_bool_decide.
  - unfold _maybe_drop_invalid_device_token. set (s1 := set_delay rl _).
    assert (Hdisk : ∀ h, disk_of (_set_runtime_connected cl false h) = disk_of h).
    { intros h. unfold _set_runtime_connected, set_connected. destruct (c_has_runtime cl); [|done]. by case_bool_decide. }
    rewrite Hdisk.
    destruct (c_pair_fallback_enabled cl) eqn:Ef; [|by left].
    destruct (rejects_token f) eqn:Er; [|by left]. cbn [negb orb].
    destruct (bool_decide (device_token s1 = [])); [by left|]. destruct (bool_decide (device_token s1 = _)); [by left|].
    right. by split_and!.
Qed.
End properties.

(** ** Witnesses *)

#[local] Instance every_char_prints : Unicode := {| uni_printable := λ _, true; uni_decimal := λ _, None |}.
#[local] Existing Instance ascii_casing.
#[local] Instance shallow : JsonDepth := {| nests_too_deep := λ _, false |}.
#[local] Instance sound_os : Os := {| os_fault := λ _, None; os_openat2 := true; os_partial := 0; os_fd := 3 |}.
#[local] Instance one_key : Ed25519 :=
  {| private_key := unit; public_raw := λ _, [1%N]; ed_sign := λ _ m, take 3 m; to_pem := λ _, "K"; from_pem := λ _, Ret (Some tt) |}.
#[local] Instance counted : Gateway :=
  {| uuid := λ n, "u" ++ str_of_nat n; clock := λ n, Z.of_nat n; monotonic := λ n, Z.of_nat n;
     send_fault := λ _, None; version := "1" |}.
Definition demo_config : NodeConfig :=
  {| addon_mode := true; gateway_url := "wss://g"; pairing_token := "pair"; node_name := []; hass_url := []; hass_token := [];
     supervisor_token := []; data_dir := path_of "/data"; local_api_token := []; identity := identity_default;
     reset_pairing := "none"; reset_bootstrap := false; vision_timeout_seconds := DEFAULT_VISION_TIMEOUT_SECONDS; vision_model := [] |}.
Definition demo_client : Client :=
  {| c_config := demo_config; c_identity := generate_identity tt; c_cwd := []; c_role := "node"; c_scopes := []; c_caps := ["system"%py];
     c_commands := ["ping"%py]; c_chat_relay_enabled := false; c_invoke_dispatch_enabled := true;
     c_token_persist_path := device_token_path_for demo_config "node"; c_pair_fallback_enabled := true; c_has_runtime := true |}.
Definition demo_shared : Shared :=
  {| disk_of := list_to_map [(["data"%py], Dir); (["data"%py; "node-key.json"%py], File [1%N])]; relays := ∅; chat_relay := None;
     node_connected := false; operator_connected := false |}.
Definition start (arrivals : list arrival) : conn nat :=
  {| inbox := arrivals; sent := []; ticks := 0; pairing := UNKNOWN; device_token := "tok"; rate_limited_delay_s := 0;
     shared := demo_shared; commands_state := {| world := 0; CURRENT_CALLER := None |} |}.
Definition frame_of (d : dict) : arrival := Frame (dumps_compact (JDict d)).
Definition challenge : arrival :=
  frame_of [("event", JStr "connect.challenge"); ("payload", JDict [("nonce", JStr "n"); ("ts", JInt 1)]%py); ("type", JStr "event")]%py.
Definition invoke_event : arrival :=
  frame_of [("event", JStr "node.invoke.request"); ("payload", JDict [("command", JStr "ping"); ("id", JStr "i")]%py); ("type", JStr "event")]%py.
Definition queued : json :=
  JDict [("command", JStr "system.ping"); ("id", JStr "a1"); ("paramsJSON", JNull)]%py.
Definition queue_reply : arrival :=
  frame_of [("id", JStr "u0"); ("ok", JBool true); ("payload", JDict [("actions", JList [JInt 7; queued])]%py); ("type", JStr "res")]%py.

Example no_command_before_acceptance_witness :
  let run := _connect_and_loop counting demo_client (start [challenge; invoke_event; Lost "gone"]) in
  (commands_state run.2 = commands_state (start []) ∧ ∃ frames, sent run.2 = [] ++ frames ∧ Forall connect_frame frames) ∨
  ∃ raw, Frame raw ∈ [challenge; invoke_event; Lost "gone"] ∧ accepts raw.
Proof. apply (no_command_before_acceptance counting demo_client (start [challenge; invoke_event; Lost "gone"]) _ _ (surjective_pairing _)). Defined.
Example response_is_correlated_witness :
  let s := start [invoke_event; Silence] in
  let run := _await_res "u0" s in
  run.1 = inl None ∧ sent run.2 = [] ∧ commands_state run.2 = commands_state s ∧
  ∃ pre dropped, inbox s = pre ++ inbox run.2 ∧ Forall (passed_over "u0") dropped ∧ length dropped ≤ 256 ∧
  match run.1 with
  | inl (Some d) => ∃ raw, frames_of pre = dropped ++ [raw] ∧ loads raw = Ret (JDict d) ∧ answers "u0" d
  | inl None => frames_of pre = dropped
  | inr _ => ∃ rest, frames_of pre = dropped ++ rest
  end.
Proof.
  split; [vm_compute; reflexivity|].
  apply (response_is_correlated counting "u0" (start [invoke_event; Silence]) _ _ (surjective_pairing _)).
Defined.
Definition queue_run := _pull_pending counting demo_client (start [queue_reply; Silence]).
(** A queue of something that is no action, and an action: one result and its
    acknowledgement are sent, for the second. *)
Example pending_served_in_order_witness :
  ∃ id frames acts complete,
    sent queue_run.2 = [_make_req id "node.pending.pull" []] ++ frames ∧ length frames = 2%nat ∧
    invokes_of [JInt 7; queued] acts ∧ served acts frames complete ∧ complete = true.
Proof.
  assert (Hr : queue_run.1 = inl tt) by (vm_compute; reflexivity).
  assert (Hn : length (sent queue_run.2) = 3%nat) by (vm_compute; reflexivity).
  assert (E : _pull_pending counting demo_client (start [queue_reply; Silence]) = (queue_run.1, queue_run.2))
    by (unfold queue_run; apply surjective_pairing).
  destruct (pending_served_in_order counting demo_client (start [queue_reply; Silence]) queue_run.1 queue_run.2 E)
    as [[Hbad _]|(id & frames & Hs & Hc)]; [destruct (Hbad Hr)|].
  clear E. change (sent (start [queue_reply; Silence])) with ([] : list dict) in Hs. cbn [app] in Hs.
  assert (Hl : length frames = 2%nat) by (rewrite Hs in Hn; injection Hn as Hn; exact Hn).
  destruct Hc as [(pre & post & dropped & raw & d & Hp & Hf & _ & Hld & _ & Hq & _)|[-> _]]; [|discriminate Hl].
  assert (Hraw : raw = match queue_reply with Frame x => x | _ => [] end).
  { assert (Hin : raw ∈ frames_of ([queue_reply; Silence] : list arrival)).
    { change (inbox (start [queue_reply; Silence])) with [queue_reply; Silence] in Hp. rewrite Hp, frames_of_app, Hf.
      apply elem_of_app. left. apply elem_of_app. right. left. }
    apply elem_of_cons in Hin as [->|Hin]; [reflexivity|]. by apply elem_of_nil in Hin. }
  assert (Hq' : lists_queue d [JInt 7; queued]).
  { rewrite Hraw in Hld. vm_compute in Hld. injection Hld as <-.
    eapply lists_actions; [reflexivity|reflexivity|reflexivity]. }
  destruct (Hq _ Hq') as (acts & complete & Hi & Hsv & Hcm). exists id, frames, acts, complete.
  split_and!; [exact Hs|exact Hl|exact Hi|exact Hsv|exact (Hcm Hr)].
Defined.
Definition hostile_tokens : json := JDict [("../node-key.json", JStr "x"); ("operator", JStr "y")]%py.
Example sibling_tokens_confined_witness :
  let run := _persist_dual_role_tokens demo_client hostile_tokens (start []) in
  disk_of (shared run.2) !! ["data"; "device-token.operator"]%py = Some (File [121%N]) ∧
  ((sent run.2 = [] ∧ commands_state run.2 = commands_state (start []) ∧ device_token run.2 = "tok"%py) ∧
   ∀ l x, ¬ token_place demo_client l → disk_of demo_shared !! l = Some x → disk_of (shared run.2) !! l = Some x).
Proof.
  split; [vm_compute; reflexivity|].
  apply (sibling_tokens_confined demo_client hostile_tokens (start []) _ _ (surjective_pairing _)).
Defined.
Example connect_request_verifies_witness :
  let run := _send_connect demo_client "n" (start []) in
  ∃ params bytes, sent run.2 = [] ++ [_make_req "u1" "connect" params] ∧
    text_at ["device"; "nonce"]%py params = "n"%py ∧ utf8 (rebuilt_payload params) = Some bytes ∧
    text_at ["device"; "signature"]%py params = _b64url (ed_sign (identity_key (c_identity demo_client)) bytes).
Proof.
  apply (connect_request_verifies demo_client "n" (start []) "u1").
  rewrite (surjective_pairing (_send_connect demo_client "n" (start []))). by f_equal.
Defined.
Definition rejected : failure := OtherFailure "PairingError('NOT_PAIRED: ')".
Example failure_is_survived_witness :
  let run := after_failure demo_client rejected (start []) in
  (∃ d, run.1 = inl (Reconnects (Some (Seconds d)))) ∧ pairing run.2 ≠ PAIRED ∧ pairing run.2 ≠ PENDING ∧
  (c_has_runtime demo_client = true →
   (if bool_decide (c_role demo_client = "operator"%py) then operator_connected else node_connected) (shared run.2) = false) ∧
  ((device_token run.2 = "tok"%py ∧ disk_of (shared run.2) = disk_of demo_shared) ∨
   (rejects_token rejected = true ∧ c_pair_fallback_enabled demo_client = true ∧
    device_token run.2 = pairing_token (c_config demo_client))).
Proof.
  apply (failure_is_survived demo_client rejected (start []) _ _); [|apply surjective_pairing].
  by intros [].
Defined.
