(* ===== verification/SystemRun.v ===== *)
(** [commands/system_run.py]: [system.run], which starts the process of a plan that
    the gateway had approved.

    The process itself is not code of the repository: what the handler sees of it
    is when the child exits, when its pipes are closed, and what was read from
    them by then, all in microseconds from its start.  The ends of the process
    are noticed when they happen. *)

From stdpp Require Import base list gmap.
From Stdlib Require Import NArith ZArith Lia.
From S2P Require Import Prelude PyStr PyCase PyFloat Json JsonParse PyInt SafePath SafeFd ExecApprovals.

Definition _DEFAULT_TIMEOUT_MS : Z := 30000.
Definition _DEFAULT_MAX_TIMEOUT_MS : Z := 60000.
Definition _KILL_DRAIN_TIMEOUT : Z := 1000000.
Definition _MAX_OUTPUT_BYTES : N := 262144.
Definition _MAX_ARGV_BYTES : N := 131072.
Definition _MAX_ENV_BYTES : N := 131072.
Definition _SAFE_ENV_KEYS : list pystr := ["PATH"; "HOME"; "LANG"; "TZ"; "USER"; "TERM"; "LOGNAME"].
Definition _BLOCKED_KEY_SUBSTRINGS : list pystr :=
  ["TOKEN"; "SECRET"; "KEY"; "PASS"; "CREDENTIAL"; "AUTH"; "PWD"].
Definition _APPROVAL_DECISIONS : list pystr := ["allow-once"; "allow-always"].

(** ** Decoding with replacement

    [bytes.decode(errors="replace")]: U+FFFD for each longest start of a sequence
    that is not one. *)

Definition FFFD : N := 65533.
Definition second_ok (b1 b2 : N) : bool :=
  (if b1 =? 224 then (160 <=? b2) && (b2 <? 192)
   else if b1 =? 237 then (128 <=? b2) && (b2 <? 160)
   else if b1 =? 240 then (144 <=? b2) && (b2 <? 192)
   else if b1 =? 244 then (128 <=? b2) && (b2 <? 144)
   else is_cont b2)%N.
Fixpoint decode_replace (bs : list N) : pystr :=
  match bs with
  | [] => []
  | b1 :: r1 =>
      if (b1 <? 128)%N then b1 :: decode_replace r1
      else if ((b1 <? 194) || (244 <? b1))%N then FFFD :: decode_replace r1
      else
        match r1 with
        | [] => [FFFD]
        | b2 :: r2 =>
            if negb (second_ok b1 b2) then FFFD :: decode_replace r1
            else if (b1 <? 224)%N then ((b1 - 192) * 64 + (b2 - 128))%N :: decode_replace r2
            else
              match r2 with
              | [] => [FFFD]
              | b3 :: r3 =>
                  if negb (is_cont b3) then FFFD :: decode_replace r2
                  else if (b1 <? 240)%N
                  then ((b1 - 224) * 4096 + (b2 - 128) * 64 + (b3 - 128))%N :: decode_replace r3
                  else
                    match r3 with
                    | [] => [FFFD]
                    | b4 :: r4 =>
                        if negb (is_cont b4) then FFFD :: decode_replace r3
                        else ((b1 - 240) * 262144 + (b2 - 128) * 4096 + (b3 - 128) * 64 + (b4 - 128))%N
                             :: decode_replace r4
                    end
              end
        end
  end.

(** ** Processes *)

Record Child := {
  exits : option (Z * Z);                (* when the child exits, and its return code *)
  pipes_closed : option Z;               (* when the last holder of its pipes closes them *)
  written_by : Z → list N * list N;      (* what was read from the pipes by a time *)
  freed_after_kill : option Z;           (* how long its session's killing leaves them open *)
}.
(** What is started: arguments, directory and environment. *)
Record Launch := { l_argv : list pystr; l_cwd : option pystr; l_env : list (pystr * pystr) }.
Inductive started := NoSuchFile | CannotStart (message : pystr) | Started (c : Child).
Class Processes := { popen : Launch → started }.

Definition before (t : option Z) (deadline : Z) : bool := match t with Some t => (t <=? deadline)%Z | None => false end.
Record finish := {
  timed_out : bool; output_incomplete : bool; returncode : Z; stdout : list N; stderr : list N; took : Z }.
(** [communicate] under the timeout, and what follows its expiry. *)
Definition wait_for (c : Child) (timeout : Z) : finish :=
  let exited := match exits c with Some (e, _) => (e <=? timeout)%Z | None => false end in
  let code := match exits c with Some (_, code) => code | None => 0%Z end in
  if exited && before (pipes_closed c) timeout then
    let q := default 0%Z (pipes_closed c) in
    let e := match exits c with Some (e, _) => e | None => 0%Z end in
    Build_finish false false code (written_by c q).1 (written_by c q).2 (Z.max e q)
  else
    let now := Z.max timeout 0 in
    if exited then Build_finish false true code (written_by c now).1 (written_by c now).2 now
    else if before (pipes_closed c) timeout then Build_finish true false code [] [] now
    else if before (freed_after_kill c) _KILL_DRAIN_TIMEOUT
    then Build_finish true false code [] [] (now + default 0%Z (freed_after_kill c))
    else Build_finish true true code [] [] (now + _KILL_DRAIN_TIMEOUT).

(** [subprocess.Popen] refuses a name with an equals sign, and a NUL. *)
Definition environment_error (env : list (pystr * pystr)) : option exn :=
  if existsb (λ kv, existsb (N.eqb 61) kv.1) env
  then Some (Exn "ValueError" "illegal environment variable name")
  else if existsb (λ kv, existsb (N.eqb 0) kv.1 || existsb (N.eqb 0) kv.2) env
  then Some (Exn "ValueError" "embedded null byte")
  else None.
(** The longest wait the system call takes, in milliseconds. *)
Definition POLL_MAX : Z := 2147483647.

(** ** Checks

    A check goes on with a value or ends with the error payload. *)

Definition E (A : Type) : Type := res (A + json).
Definition go {A} (a : A) : E A := Ret (inl a).
Definition stop_with {A} (e : json) : E A := Ret (inr e).
Definition check_ {A} (e : option json) (k : E A) : E A := match e with Some e => stop_with e | None => k end.
Definition and_then {A B} (m : E A) (f : A → E B) : E B :=
  rbind m (λ r, match r with inl a => f a | inr e => stop_with e end).
Notation "'let!' x ':=' m 'in' k" := (and_then m (λ x, k))
  (at level 10, x pattern, m at level 100, k at level 200) : res_scope.
Notation "'unless' e 'then' k" := (check_ e k) (at level 10, e at level 100, k at level 200) : res_scope.

Section run.
Context `{Unicode} `{Casing} `{Processes}.
Context (getenv : pystr → option pystr) (h : Host).

Definition _base_env : list (pystr * pystr) :=
  omap (λ k, match getenv k with Some v => Some (k, v) | None => None end) _SAFE_ENV_KEYS.
Definition _is_blocked_key (key : pystr) : bool :=
  existsb (contains (py_upper key)) _BLOCKED_KEY_SUBSTRINGS.
Definition _merge_env (caller_env : list (pystr * pystr)) : option (list (pystr * pystr)) :=
  if existsb (λ kv, _is_blocked_key kv.1) caller_env then None
  else Some (fold_left (λ env kv, dset kv.1 kv.2 env) caller_env _base_env).
(** [None] when an item cannot be encoded. *)
Fixpoint _encoded_size (items : list pystr) : option N :=
  match items with
  | [] => Some 0%N
  | item :: items =>
      match utf8 item, _encoded_size items with
      | Some bs, Some n => Some (N.of_nat (length bs) + 1 + n)%N
      | _, _ => None
      end
  end.
(** [_is_utf8_encodable] and the comparison of the size. *)
Definition size_error (items : list pystr) (limit : N) (unencodable too_large : json) : option json :=
  match _encoded_size items with
  | None => Some unencodable
  | Some n => if (limit <? n)%N then Some too_large else None
  end.

Definition _max_timeout_ms : Z :=
  match getenv "OPENCLAW_RUN_TIMEOUT_MAX_MS" with
  | None => _DEFAULT_MAX_TIMEOUT_MS
  | Some s => match int_of_str s with Ret z => z | Raise _ => _DEFAULT_MAX_TIMEOUT_MS end
  end.
Definition _validate_optional_identifier (value : json) (field : pystr) : option json :=
  match value with
  | JNull => None
  | JStr s => expect (negb (bool_decide (strip s = []))) (bad (field ++ " must be a non-empty string"))
  | _ => Some (bad (field ++ " must be a non-empty string"))
  end.

Abbreviation unauthorized m := (error_dict "UNAUTHORIZED" m).
Definition non_blank (j : json) : bool :=
  match j with JStr s => negb (bool_decide (strip s = [])) | _ => false end.
(** The envelope of the approval holds the plan. *)
Definition _verify_authorization (params : dict) : E dict :=
  match get_or_null "systemRunPlan" params with
  | JNull => stop_with (unauthorized "system.run requires the Gateway-forwarded systemRunPlan")
  | JDict plan =>
      if negb (non_blank (get_or_null "runId" params))
      then stop_with (unauthorized "system.run requires a non-empty runId from the approved forward")
      else
        let approved := bool_decide (get_or_null "approved" params = JBool true) in
        let decision_ok := match get_or_null "approvalDecision" params with
                           | JStr d => bool_decide (d ∈ _APPROVAL_DECISIONS) | _ => false end in
        let source_ok := non_blank (get_or_null "approvalSource" params) in
        if negb (approved || decision_ok || source_ok)
        then stop_with (unauthorized ("system.run requires approved=true, approvalDecision, "
                                      ++ "or approvalSource from the Gateway approval envelope"))
        else go plan
  | _ => stop_with (bad "systemRunPlan must be an object")
  end.

Abbreviation mismatch m := (error_dict "PLAN_MISMATCH" m).
Definition bound_field (plan : dict) (forwarded : json) (field : pystr) : option json :=
  match dget field plan with
  | None => Some (mismatch ("systemRunPlan is missing the approval-bound " ++ field))
  | Some v => expect (bool_decide (v = forwarded)) (mismatch (field ++ " does not match the approved systemRunPlan"))
  end.
Definition _verify_plan_consistency (plan : dict) (argv : list pystr) (resolved_cwd : option pystr)
    (command_text : pystr) (params : dict) : option json :=
  first_error
    [expect (bool_decide (get_or_null "argv" plan = JList (map JStr argv)))
       (mismatch "command does not match the approved systemRunPlan argv");
     match dget "commandText" plan with
     | None => Some (mismatch "systemRunPlan is missing the approval-bound commandText")
     | Some t => expect (bool_decide (t = JStr command_text))
                   (mismatch "commandText does not match the approved systemRunPlan")
     end;
     bound_field plan (opt_json resolved_cwd) "cwd";
     bound_field plan (get_or_null "agentId" params) "agentId";
     bound_field plan (get_or_null "sessionKey" params) "sessionKey"].

Definition _resolve_timeout_ms (params : dict) : E Z :=
  if dmem "timeout" params && negb (dmem "timeoutMs" params)
  then stop_with (bad "timeout is not accepted; use timeoutMs (native exec wire contract)")
  else
    match default (JInt _DEFAULT_TIMEOUT_MS) (dget "timeoutMs" params) with
    | JInt raw => if (raw <=? 0)%Z then stop_with (bad "timeoutMs must be positive") else go (Z.min raw _max_timeout_ms)
    | raw => stop_with (bad ("timeoutMs must be an integer number of milliseconds, got " ++ py_repr raw))
    end.
Definition forwarded_cwd (params : dict) : E (option pystr) :=
  match get_or_null "cwd" params with
  | JNull => go None
  | JStr raw =>
      if bool_decide (strip raw = []) then stop_with (bad "cwd must be a non-empty string")
      else let! p := _validate_cwd h raw in go (Some p)
  | _ => stop_with (bad "cwd must be a non-empty string")
  end.
Definition identifier_fields : list pystr := ["agentId"; "sessionKey"; "proposalId"; "runId"; "approvalSource"].
Definition caller_env (params : dict) : list (pystr * pystr) :=
  match get_or_null "env" params with
  | JDict d => omap (λ kv, match kv.2 with JStr v => Some (kv.1, v) | _ => None end) d
  | _ => []
  end.
Definition env_item (kv : pystr * pystr) : pystr := kv.1 ++ [61%N] ++ kv.2.
Definition lift_sum {A} (r : A + json) : E A := Ret r.

(** The checks, up to the start: what is started, and its timeout. *)
Definition run_request (params : dict) : E (Launch * Z) :=
  let! argv := lift_sum (_validate_argv (get_or_null "command" params)) in
  let! plan := _verify_authorization params in
  let! text := lift_sum (_resolve_command_text argv (get_or_null "rawCommand" params)) in
  unless _validate_env (get_or_null "env" params) then
  let! cwd := forwarded_cwd params in
  unless first_error (map (λ f, _validate_optional_identifier (get_or_null f params) f) identifier_fields) then
  unless _verify_plan_consistency plan argv cwd text.1 params then
  unless size_error argv _MAX_ARGV_BYTES (bad "command contains a value that cannot be UTF-8 encoded")
           (error_dict "ARGV_TOO_LARGE" ("command exceeds " ++ str_of_N _MAX_ARGV_BYTES ++ " total argv bytes")) then
  match _merge_env (caller_env params) with
  | None => stop_with (bad ("env contains a key matching a blocked pattern "
                            ++ "(TOKEN, SECRET, KEY, PASS, CREDENTIAL, AUTH, PWD)"))
  | Some env =>
      unless size_error (map env_item env) _MAX_ENV_BYTES (bad "env contains a value that cannot be UTF-8 encoded")
               (error_dict "ENV_TOO_LARGE" ("env exceeds " ++ str_of_N _MAX_ENV_BYTES ++ " total bytes")) then
      let! timeout_ms := _resolve_timeout_ms params in
      go ({| l_argv := argv; l_cwd := cwd; l_env := env |}, timeout_ms)
  end.

Definition elapsed_ms (f : finish) : Z := took f / 1000.
Definition answer_of (timeout_ms : Z) (f : finish) : json :=
  if timed_out f then
    JDict [("ok", JBool true); ("success", JBool false); ("exitCode", JNull); ("timedOut", JBool true);
           ("stdout", JStr []); ("stderr", JStr []); ("outputIncomplete", JBool (output_incomplete f));
           ("error", JStr ("Command timed out after " ++ str_of_Z timeout_ms ++ "ms"));
           ("elapsed_ms", JInt (elapsed_ms f))]%py
  else
    JDict [("ok", JBool true); ("success", JBool (bool_decide (returncode f = 0%Z)));
           ("exitCode", JInt (returncode f)); ("timedOut", JBool false);
           ("stdout", JStr (decode_replace (take (N.to_nat _MAX_OUTPUT_BYTES) (stdout f))));
           ("stderr", JStr (decode_replace (take (N.to_nat _MAX_OUTPUT_BYTES) (stderr f))));
           ("outputIncomplete", JBool (output_incomplete f)); ("elapsed_ms", JInt (elapsed_ms f))]%py.

(** The answer, and the process that was started. *)
Definition run_process (l : Launch) (timeout_ms : Z) : res json * option (Launch * Child) :=
  match environment_error (l_env l) with
  | Some e => (Raise e, None)
  | None =>
      match popen l with
      | NoSuchFile => (Ret (error_dict "NOT_FOUND" ("Binary not found: " ++ repr_str (default [] (head (l_argv l))))), None)
      | CannotStart m => (Ret (error_dict "EXEC_ERROR" ("Execution failed: " ++ m)), None)
      | Started c =>
          (if (POLL_MAX <? timeout_ms)%Z then Raise (Exn "OverflowError" "timeout is too large")
           else Ret (answer_of timeout_ms (wait_for c (timeout_ms * 1000))), Some (l, c))
      end
  end.
Definition handle_system_run (params : dict) : res json * option (Launch * Child) :=
  match run_request params with
  | Raise e => (Raise e, None)
  | Ret (inr e) => (Ret e, None)
  | Ret (inl (l, timeout_ms)) => run_process l timeout_ms
  end.
End run.

(** ** What was checked *)

Lemma and_then_inl {A B} (m : E A) (f : A → E B) b :
  and_then m f = Ret (inl b) → ∃ a, m = Ret (inl a) ∧ f a = Ret (inl b).
Proof. unfold and_then. intros ([a|e] & -> & Hf)%rbind_Ret; [by exists a|done]. Qed.
Lemma check_inl {A} e (k : E A) b : check_ e k = Ret (inl b) → e = None ∧ k = Ret (inl b).
Proof. by destruct e. Qed.

Section facts.
Context `{Unicode} `{Casing} `{Processes}.
Context (getenv : pystr → option pystr) (h : Host).

(** The envelope carries a run id and one of the three signs of approval. *)
Definition approved_envelope (params : dict) : Prop :=
  non_blank (get_or_null "runId" params) = true ∧
  (get_or_null "approved" params = JBool true ∨
   (∃ d, get_or_null "approvalDecision" params = JStr d ∧ d ∈ _APPROVAL_DECISIONS) ∨
   non_blank (get_or_null "approvalSource" params) = true).
(** The plan names the arguments, the text shown for them, the directory, the
    agent and the session. *)
Definition planned (plan params : dict) (argv : list pystr) (cwd : option pystr) : Prop :=
  get_or_null "argv" plan = JList (map JStr argv) ∧
  dget "commandText" plan = Some (JStr (_format_exec_command argv)) ∧
  dget "cwd" plan = Some (opt_json cwd) ∧
  dget "agentId" plan = Some (get_or_null "agentId" params) ∧
  dget "sessionKey" plan = Some (get_or_null "sessionKey" params).
Definition allowed_cwd (cwd : option pystr) : Prop :=
  ∀ p, cwd = Some p → ∃ raw roots q, host_roots h = Ret roots ∧
    resolve_safe (host_links h) (host_cwd h) raw roots = Ret q ∧ host_is_dir h q = true ∧ p = path_str q.
(** The environment is the safe part of the node's own, changed by variables of
    the request that name no credential. *)
Definition allowed_env (params : dict) (env : list (pystr * pystr)) : Prop :=
  ∀ k v, (k, v) ∈ env →
    (k ∈ _SAFE_ENV_KEYS ∧ getenv k = Some v) ∨
    (∃ d, get_or_null "env" params = JDict d ∧ (k, JStr v) ∈ d ∧ _is_blocked_key k = false).
Definition fits_in (items : list pystr) (limit : N) : Prop := ∃ n, _encoded_size items = Some n ∧ (n <= limit)%N.

Lemma authorization_inv params plan :
  _verify_authorization params = Ret (inl plan) →
  get_or_null "systemRunPlan" params = JDict plan ∧ approved_envelope params.
Proof.
  unfold _verify_authorization, approved_envelope.
  destruct (get_or_null "systemRunPlan" params) as [| | | | | |p]; try done.
  destruct (non_blank (get_or_null "runId" params)); [|done]. cbn [negb].
  destruct (_ || _ || _) eqn:Es; [|done]. intros [= <-]. split; [done|]. split; [done|].
  apply orb_true_iff in Es as [[?%bool_decide_eq_true|Hd]%orb_true_iff|?]; [by left| |by right; right].
  right; left. destruct (get_or_null "approvalDecision" params); try done. apply bool_decide_eq_true in Hd. eauto.
Qed.
Lemma consistency_inv plan params argv cwd :
  _verify_plan_consistency plan argv cwd (_format_exec_command argv) params = None →
  planned plan params argv cwd.
Proof.
  unfold _verify_plan_consistency. intros Hf%first_error_None.
  repeat (apply Forall_cons in Hf as [? Hf]).
  assert (Hb : ∀ v f, bound_field plan v f = None → dget f plan = Some v).
  { intros v f. unfold bound_field. destruct (dget f plan); [|done]. by intros ->%expect_None%bool_decide_eq_true. }
  split_and!; [|by apply Hb..]. by eapply bool_decide_eq_true, expect_None.
Qed.
Lemma command_text_inv argv raw text : _resolve_command_text argv raw = inl text → text.1 = _format_exec_command argv.
Proof.
  unfold _resolve_command_text. intros Ht.
  destruct raw; try done; repeat (destruct (bool_decide _) in Ht; cbn in Ht; try by injection Ht as <-); try done.
  all: destruct (_ && _) in Ht; [done|]; by injection Ht as <-.
Qed.
Lemma cwd_inv params cwd : forwarded_cwd h params = Ret (inl cwd) → allowed_cwd cwd.
Proof.
  unfold forwarded_cwd. intros Hc p ->. destruct (get_or_null "cwd" params) as [| | | |raw| |]; try done.
  destruct (bool_decide _); [done|]. apply and_then_inl in Hc as (q & Hv & [= ->]).
  unfold _validate_cwd in Hv. apply rbind_Ret in Hv as (roots & Hr & Hv).
  destruct (resolve_safe _ _ _ _) as [q|e] eqn:Eq; [|by repeat (case_bool_decide; try done)].
  destruct (host_is_dir h q) eqn:Ed; [|done]. injection Hv as <-. by exists raw, roots, q.
Qed.
Lemma merge_env_inv params env : _merge_env getenv (caller_env params) = Some env → allowed_env params env.
Proof.
  unfold _merge_env. destruct (existsb _ _) eqn:Eb; [done|]. intros [= <-] k v [Hx|Hx]%dict_of_fold.
  - left. unfold _base_env in Hx. apply list_elem_of_omap in Hx as (k' & Hk & Hg).
    destruct (getenv k') eqn:Eg; by simplify_eq.
  - right. pose proof Hx as Hb. unfold caller_env in Hx.
    destruct (get_or_null "env" params) as [| | | | | |d]; try by apply not_elem_of_nil in Hx.
    apply list_elem_of_omap in Hx as ([k' j] & Hin & Hj). simpl in Hj. destruct j; simplify_eq.
    exists d. split_and!; [done..|]. rewrite existsb_false_forall in Eb. exact (Eb _ Hb).
Qed.
Lemma size_inv items limit a b : size_error items limit a b = None → fits_in items limit.
Proof.
  unfold size_error, fits_in. destruct (_encoded_size items) as [n|]; [|done].
  destruct (N.ltb_spec limit n); [done|]. eauto.
Qed.
Lemma timeout_inv params t : _resolve_timeout_ms getenv params = Ret (inl t) →
  ∃ raw, (0 < raw)%Z ∧ default (JInt _DEFAULT_TIMEOUT_MS) (dget "timeoutMs" params) = JInt raw ∧
         t = Z.min raw (_max_timeout_ms getenv).
Proof.
  unfold _resolve_timeout_ms. destruct (_ && _); [done|].
  destruct (default _ _) as [| |raw| | | |] eqn:Ed; try done. destruct (Z.leb_spec raw 0); [done|].
  intros [= <-]. eauto.
Qed.

Lemma run_request_inv params l t :
  run_request getenv h params = Ret (inl (l, t)) →
  (∃ plan, get_or_null "systemRunPlan" params = JDict plan ∧ planned plan params (l_argv l) (l_cwd l)) ∧
  approved_envelope params ∧ allowed_cwd (l_cwd l) ∧ allowed_env params (l_env l) ∧
  fits_in (l_argv l) _MAX_ARGV_BYTES ∧ fits_in (map env_item (l_env l)) _MAX_ENV_BYTES ∧
  ∃ raw, (0 < raw)%Z ∧ default (JInt _DEFAULT_TIMEOUT_MS) (dget "timeoutMs" params) = JInt raw ∧
         t = Z.min raw (_max_timeout_ms getenv).
Proof.
  unfold run_request. intros (argv & _ & Hr)%and_then_inl.
  apply and_then_inl in Hr as (plan & Hplan & Hr). apply and_then_inl in Hr as (text & Ht & Hr).
  apply check_inl in Hr as [_ Hr]. apply and_then_inl in Hr as (cwd & Hcwd & Hr).
  apply check_inl in Hr as [_ Hr]. apply check_inl in Hr as [Hc Hr]. apply check_inl in Hr as [Hs Hr].
  destruct (_merge_env _ _) as [env|] eqn:Ee; [|done]. apply check_inl in Hr as [Hes Hr].
  apply and_then_inl in Hr as (t' & Hto & [= <- <-]). cbn [l_argv l_cwd l_env].
  injection Ht as Ht. rewrite (command_text_inv _ _ _ Ht) in Hc.
  apply authorization_inv in Hplan as [Hp He]. apply timeout_inv in Hto.
  split_and!; [exists plan; split; [done|by apply consistency_inv]|done|by eapply cwd_inv|by apply merge_env_inv
    |by eapply size_inv|by eapply size_inv|done].
Qed.
Lemma system_run_inv params r l c :
  handle_system_run getenv h params = (r, Some (l, c)) →
  ∃ t, run_request getenv h params = Ret (inl (l, t)) ∧ popen l = Started c ∧ environment_error (l_env l) = None ∧
    r = if (POLL_MAX <? t)%Z then Raise (Exn "OverflowError" "timeout is too large")
        else Ret (answer_of t (wait_for c (t * 1000))).
Proof.
  unfold handle_system_run. destruct (run_request _ _ _) as [[[l' t]|e]|e]; [|done..].
  unfold run_process. destruct (environment_error _) eqn:Ee; [done|].
  destruct (popen l') eqn:Ep; [done..|]. intros [= <- <- <-]. eauto.
Qed.

(** ** Properties *)

(** C7. A process is started only for a plan that the gateway forwarded as approved:
    its arguments are those of the plan and are the only ones whose text is the
    one that was shown, its directory, agent and session are those of the plan,
    the directory lies, links followed, in an allowed root, the environment is
    the node's safe part with variables of the request that name no credential,
    and arguments and environment keep their limits. *)
Theorem run_is_approved params r l c :
  handle_system_run getenv h params = (r, Some (l, c)) →
  (∃ plan text, get_or_null "systemRunPlan" params = JDict plan ∧ planned plan params (l_argv l) (l_cwd l) ∧
     dget "commandText" plan = Some (JStr text) ∧ ∀ argv, _format_exec_command argv = text → argv = l_argv l) ∧
  approved_envelope params ∧ allowed_cwd (l_cwd l) ∧ allowed_env params (l_env l) ∧
  fits_in (l_argv l) _MAX_ARGV_BYTES ∧ fits_in (map env_item (l_env l)) _MAX_ENV_BYTES.
Proof.
  intros (t & Hr & _)%system_run_inv.
  apply run_request_inv in Hr as ((plan & Hp & Hpl) & He & Hc & Hen & Ha & Hes & _).
  split_and!; try done. exists plan, (_format_exec_command (l_argv l)).
  split_and!; [done|done|by apply Hpl|]. intros argv Hf. by apply format_inj.
Qed.

(** C18. A started process is answered for, as long as the ceiling that the options
    set is one the system's poll can wait for.  The wait is the [timeoutMs] of the
    request, half a minute without one, but at most the ceiling; the answer
    comes after it and at most a second more, whatever the process and its
    descendants do: with the return code and the output, cut to the limit, when
    the process has ended and its pipes were closed in time; with what was read so
    far when only the pipes are still held; and as timed out when it has not
    ended. *)
Theorem run_is_answered params r l c :
  (_max_timeout_ms getenv <= POLL_MAX)%Z →
  handle_system_run getenv h params = (r, Some (l, c)) →
  ∃ raw, default (JInt 30000) (dget "timeoutMs" params) = JInt raw ∧ (0 < raw)%Z ∧
  let t := Z.min raw (_max_timeout_ms getenv) in
  ∃ f, r = Ret (answer_of t f) ∧ (took f <= Z.max t 0 * 1000 + 1000000)%Z ∧
  match exits c with
  | Some (e, code) =>
      if (e <=? t * 1000)%Z then
        timed_out f = false ∧ returncode f = code ∧
        match pipes_closed c with
        | Some q => if (q <=? t * 1000)%Z
                    then output_incomplete f = false ∧ (stdout f, stderr f) = written_by c q
                    else output_incomplete f = true ∧ (stdout f, stderr f) = written_by c (Z.max (t * 1000) 0)
        | None => output_incomplete f = true ∧ (stdout f, stderr f) = written_by c (Z.max (t * 1000) 0)
        end
      else timed_out f = true
  | None => timed_out f = true
  end.
Proof.
  intros Hmax (t & Hr & _ & _ & ->)%system_run_inv.
  apply run_request_inv in Hr as (_ & _ & _ & _ & _ & _ & (raw & Hpos & Hraw & ->)).
  exists raw. split; [done|]. split; [done|]. cbv zeta. set (t := Z.min raw _).
  destruct (Z.ltb_spec POLL_MAX t); [lia|].
  exists (wait_for c (t * 1000)). split; [done|]. clearbody t.
  assert (Hx : (Z.max t 0 * 1000 = Z.max (t * 1000) 0)%Z) by lia. rewrite Hx.
  unfold wait_for, before, _KILL_DRAIN_TIMEOUT.
  destruct (exits c) as [[e code]|], (pipes_closed c) as [q|], (freed_after_kill c) as [w|]; cbn [default andb];
    repeat (case_match; simplify_eq; try done);
    repeat match goal with H : (_ && _) = true |- _ => apply andb_true_iff in H as [? ?] end;
    repeat match goal with H : (_ <=? _)%Z = true |- _ => apply Z.leb_le in H | H : (_ <=? _)%Z = false |- _ => apply Z.leb_gt in H end;
    cbn [took timed_out returncode output_incomplete stdout stderr]; rewrite <- ?surjective_pairing; split_and?; try done; simpl; lia.
Qed.
End facts.

(** ** Resolving a resolved path *)

Definition names_ok (p : list pystr) : Prop := Forall (λ n, lstat_error n = None) p.
Definition walk_names (w : walk) : Prop :=
  w_querying w = true → names_ok (w_path w) ∧ ∀ l p, w_seen w !! l = Some (Some p) → names_ok p.
Lemma walk_step_names fs w w' : walk_names w → walk_step fs w = Ret w' → walk_names w'.
Proof.
  unfold walk_names, walk_step. destruct w as [[|[n|l] rest] p seen q]; simpl.
  - by intros Hn [= <-].
  - intros Hn. destruct (real_part n); simpl; [|by intros [= <-]].
    case_bool_decide.
    { intros [= <-] Hq. destruct (Hn Hq) as [Hp Hs]. split; [|done]. simpl.
      destruct (removelast_prefix p) as [r Hr]. rewrite Hr in Hp. by apply Forall_app in Hp as [? _]. }
    destruct q; simpl; [|by intros [= <-]]. destruct (Hn eq_refl) as [Hp Hs].
    destruct (lstat_error n) eqn:El; [done|].
    destruct (fs !! (p ++ [n])) as [t|].
    + destruct (seen !! (p ++ [n])) as [[s|]|] eqn:Hse; intros [= <-]; simpl; try done.
      * intros _. split; [by eapply Hs|done].
      * intros _. split; [by destruct (startswith t [SL]); [constructor|]|].
        intros l x. destruct (decide (p ++ [n] = l)) as [<-|?]; [by rewrite lookup_insert_eq|].
        rewrite lookup_insert_ne by done. apply Hs.
    + intros [= <-] _. simpl. split; [|done]. apply Forall_app. split; [done|]. by constructor.
  - intros Hn [= <-] Hq. destruct (Hn Hq) as [Hp Hs]. simpl. split; [done|].
    intros k x. destruct (decide (l = k)) as [<-|?];
      [rewrite lookup_insert_eq; by intros [= <-]|rewrite lookup_insert_ne by done; apply Hs].
Qed.
Lemma walk_run_names fuel fs w w' : walk_names w → walk_run fuel fs w = Ret w' → walk_names w'.
Proof.
  revert w. induction fuel as [|f IH]; intros w Hw; simpl; destruct (w_rest w) eqn:Er; try by intros [= <-].
  intros (w1 & Hs & Hr)%rbind_Ret. eapply IH; [|done]. by eapply walk_step_names.
Qed.
Lemma walk_run_clean fs fuel ws cur seen :
  clean ws → names_ok ws → link_free fs (cur ++ ws) → length ws ≤ fuel →
  walk_run fuel fs (Walk (map Part ws) cur seen true) = Ret (Walk [] (cur ++ ws) seen true).
Proof.
  revert cur fuel. induction ws as [|n ws IH]; intros cur fuel Hc Hn Hl Hf.
  { rewrite app_nil_r. by destruct fuel. }
  destruct fuel as [|fuel]; [simpl in Hf; lia|]. apply Forall_cons in Hc as [(Hn1 & Hn2 & Hn3 & _) Hc].
  apply Forall_cons in Hn as [Ho Hn]. cbn [walk_run w_rest map]. unfold walk_step. cbn [w_rest w_path w_seen w_querying].
  rewrite (proj2 (real_part_spec n)) by done. cbn [negb]. rewrite bool_decide_eq_false_2 by done.
  rewrite Ho, (Hl cur n ws) by done. cbn [rbind].
  rewrite IH; [by rewrite <- app_assoc|done|done|by rewrite <- app_assoc|simpl in Hf; lia].
Qed.
Lemma abs_path_slash ps : startswith (path_str (abs_path ps)) [SL] = true.
Proof. exact (startswith_app [SL] (join [SL] ps)). Qed.
Lemma resolve_fixed fs cwd ps :
  clean ps → names_ok ps → link_free fs ps → resolve fs cwd (path_str (abs_path ps)) = Ret (abs_path ps).
Proof.
  intros Hc Hn Hl. unfold resolve.
  assert (Hp : proper (abs_path ps)).
  { split; [by right; left|]. simpl. eapply Forall_impl; [exact Hc|]. intros w (H1 & H2 & _ & H4).
    split; [by apply real_part_spec|done]. }
  rewrite path_of_str by done. unfold realpath_walk, walk_start.
  rewrite abs_path_slash.
  assert (Hs : ∃ k, split_on SL (path_str (abs_path ps)) = replicate (S k) [] ++ ps).
  { unfold path_str, abs_path. cbn [root parts]. destruct ps as [|n ps]; [by exists 1%nat|].
    exists 0%nat. cbn [app split_on]. change (SL =? SL)%N with true. cbv iota. f_equal.
    apply split_on_join; [done|]. eapply Forall_impl; [exact Hc|]. by intros w (_ & _ & _ & ?). }
  destruct Hs as [k ->]. generalize (links_cost fs). intros extra.
  induction k as [|k IH].
  - cbn [replicate app length map walk_run w_rest Nat.add]. unfold walk_step at 1. cbn [w_rest real_part bool_decide].
    change (real_part []) with false. cbn [negb rbind w_path w_seen w_querying].
    rewrite walk_run_clean; [done..|lia].
  - cbn [replicate app length map walk_run w_rest Nat.add]. unfold walk_step at 1. cbn [w_rest].
    change (real_part []) with false. cbn [negb rbind w_path w_seen w_querying]. exact IH.
Qed.
Lemma resolve_safe_again fs cwd s roots p :
  resolve_safe fs cwd s roots = Ret p → loop_free fs cwd s = true →
  resolve_safe fs cwd (path_str p) roots = Ret p.
Proof.
  intros Hr Hlf. pose proof Hr as Hr0. apply resolve_safe_Ret in Hr as (Hs & Hr & r & Hin & Hrel).
  destruct (resolve_Ret _ _ _ _ Hs Hr) as (w & Hw & -> & _ & Hc & _ & Hq).
  unfold loop_free in Hlf. rewrite Hw in Hlf. destruct (Hq Hlf) as [Hl _].
  assert (Hn : walk_names w).
  { eapply walk_run_names; [|exact Hw]. unfold walk_start. rewrite (path_str_absolute _ Hs). intros _.
    split; [constructor|]. intros l p. cbn [w_seen]. by rewrite lookup_empty. }
  destruct (Hn Hlf) as [Hn' _]. unfold resolve_safe. destruct roots as [|r0 roots]; [done|].
  pose proof (abs_path_slash (w_path w)) as Hab.
  rewrite Hab, (resolve_fixed _ _ _ Hc Hn' Hl). cbn [orb negb rbind].
  rewrite bool_decide_eq_false_2 by (intros E0; by rewrite E0 in Hab). cbn [orb].
  assert (existsb (relative_to (abs_path (w_path w))) (r0 :: roots) = true) as ->; [|done].
  apply existsb_true_exists. by exists r.
Qed.

(** ** A prepared plan *)

Section prepared.
Context `{Unicode} `{Casing} `{Processes}.
Context (getenv : pystr → option pystr) (h : Host).

Definition refuses (e : json) : Prop := ∃ r, e = JDict (("ok"%py, JBool false) :: r).
Lemma argv_refuses v e : _validate_argv v = inr e → refuses e.
Proof. unfold _validate_argv. intros Hv. repeat case_match; simplify_eq; by eexists. Qed.
Lemma text_refuses argv v e : _resolve_command_text argv v = inr e → refuses e.
Proof. unfold _resolve_command_text. intros Hv. repeat case_match; simplify_eq; by eexists. Qed.
Lemma env_refuses v e : _validate_env v = Some e → refuses e.
Proof. unfold _validate_env. intros Hv. repeat case_match; simplify_eq; by eexists. Qed.
Lemma name_refuses n params e : optional_name n params = inr e → refuses e.
Proof. unfold optional_name. intros Hv. repeat case_match; simplify_eq; by eexists. Qed.
Lemma cwd_refuses c e : _validate_cwd h c = Ret (inr e) → refuses e.
Proof.
  unfold _validate_cwd. intros (r & _ & Hc)%rbind_Ret.
  repeat case_match; simplify_eq; by eexists.
Qed.
Lemma argv_same argv v : _validate_argv v = inl argv → v = JList (map JStr argv).
Proof.
  destruct v as [| | | | |l|]; try done. unfold _validate_argv. destruct (strings_of l) as [a|] eqn:Es; [|done].
  intros Hv. assert (a = argv) as -> by (repeat case_match; by simplify_eq). f_equal.
  clear Hv. revert argv Es. induction l as [|j l IH]; intros argv; simpl; [by intros [= <-]|].
  destruct j; try done. destruct (strings_of l) as [r|]; [|done]. intros [= <-]. simpl. f_equal. by apply IH.
Qed.
Lemma name_json n params o : optional_name n params = inl o →
  opt_json o = get_or_null n params ∧ ∀ s, o = Some s → strip s ≠ [].
Proof.
  unfold optional_name. destruct (get_or_null n params); try done; [intros [= <-]; by split|].
  case_bool_decide; [done|]. intros [= <-]. split; [done|]. by intros ? [= <-].
Qed.

(** What a plan that was prepared holds. *)
Definition plan_of (argv : list pystr) (cwd agent session : option pystr) (preview : json) (policy : dict) : dict :=
  [("argv", JList (map JStr argv)); ("cwd", opt_json cwd); ("commandText", JStr (_format_exec_command argv));
   ("commandPreview", preview); ("agentId", opt_json agent); ("sessionKey", opt_json session);
   ("policySnapshot", JDict policy)]%py.
Lemma prepare_inv file params plan rest :
  handle_system_run_prepare h file params = Ret (JDict (("plan"%py, JDict plan) :: rest)) →
  ∃ argv cwd agent session preview policy, plan = plan_of argv cwd agent session preview policy ∧
    _validate_argv (JList (map JStr argv)) = inl argv ∧
    optional_name "agentId" params = inl agent ∧ optional_name "sessionKey" params = inl session ∧
    (∀ p, cwd = Some p → ∃ raw, get_or_null "cwd" params = JStr raw ∧ _validate_cwd h raw = Ret (inl p)).
Proof.
  assert (Hno : ∀ e, refuses e → e ≠ JDict (("plan"%py, JDict plan) :: rest)) by (by intros ? [? ->]).
  unfold handle_system_run_prepare. intros Hp.
  destruct (_validate_argv _) as [argv|e] eqn:Ea; [|injection Hp as Hp; by destruct (Hno e (argv_refuses _ _ Ea))].
  destruct (_resolve_command_text _ _) as [[text pv]|e] eqn:Et;
    [|injection Hp as Hp; by destruct (Hno e (text_refuses _ _ _ Et))].
  destruct (_validate_env _) as [e|] eqn:Ee; [injection Hp as Hp; by destruct (Hno e (env_refuses _ _ Ee))|].
  apply rbind_Ret in Hp as (c & Hc & Hp).
  destruct c as [cwd|e].
  2: { injection Hp as Hp. destruct (Hno e); [|done].
       destruct (optional_name "cwd" params) as [[raw|]|e'] eqn:En; [|done|injection Hc as <-; by eapply name_refuses].
       apply rbind_Ret in Hc as ([q|e'] & Hv & [= ->]). by eapply cwd_refuses. }
  destruct (optional_name "agentId" params) as [agent|e] eqn:Eag; [|injection Hp as Hp; by destruct (Hno e (name_refuses _ _ _ Eag))].
  destruct (optional_name "sessionKey" params) as [session|e] eqn:Ese; [|injection Hp as Hp; by destruct (Hno e (name_refuses _ _ _ Ese))].
  apply rbind_Ret in Hp as (policy & _ & [= <- _]).
  exists argv, cwd, agent, session, (opt_json pv), policy.
  pose proof (argv_same _ _ Ea) as Hargv. rewrite Hargv in Ea.
  apply command_text_inv in Et. cbn [fst] in Et. subst text. split_and!; try done.
  intros p ->. destruct (optional_name "cwd" params) as [[raw|]|e'] eqn:En; [|done..].
  apply rbind_Ret in Hc as ([q|e'] & Hv & [= ->]). exists raw. split; [|done].
  unfold optional_name in En. destruct (get_or_null "cwd" params); try done. by destruct (bool_decide _); simplify_eq.
Qed.

(** The request a gateway forwards for a plan, once it is approved. *)
Definition forwarded (plan : dict) (run_id : pystr) : dict :=
  [("command", get_or_null "argv" plan); ("rawCommand", get_or_null "commandText" plan);
   ("cwd", get_or_null "cwd" plan); ("agentId", get_or_null "agentId" plan);
   ("sessionKey", get_or_null "sessionKey" plan); ("systemRunPlan", JDict plan);
   ("runId", JStr run_id); ("approved", JBool true)]%py.

Lemma validate_cwd_again raw p :
  _validate_cwd h raw = Ret (inl p) → loop_free (host_links h) (host_cwd h) raw = true →
  _validate_cwd h p = Ret (inl p) ∧ strip p ≠ [].
Proof.
  unfold _validate_cwd. intros (roots & Hr & Hv)%rbind_Ret Hl. rewrite Hr. cbn [rbind].
  destruct (resolve_safe _ _ raw roots) as [q|e] eqn:Eq; [|by repeat (case_bool_decide; try done)].
  destruct (host_is_dir h q) eqn:Ed; [|done]. injection Hv as <-.
  rewrite (resolve_safe_again _ _ _ _ _ Eq Hl), Ed. split; [done|].
  pose proof Eq as (Hs & Hr' & _)%resolve_safe_Ret. destruct (resolve_Ret _ _ _ _ Hs Hr') as (w & _ & -> & _).
  intros E0. pose proof (abs_path_slash (w_path w)) as (t & Ht)%startswith_spec. rewrite Ht in E0.
  unfold strip in E0. cbn [app lstrip] in E0. change (is_space SL) with false in E0. cbv iota in E0.
  unfold rstrip in E0. apply (f_equal (@rev N)) in E0. rewrite rev_involutive in E0. cbn [rev] in E0.
  destruct (lstrip_suffix (rev t ++ [SL])) as (pre & Hpre & Hf). rewrite E0, app_nil_r in Hpre.
  rewrite <- Hpre in Hf. apply Forall_app in Hf as [_ [Hf _]%Forall_cons]. done.
Qed.

Lemma forwarded_authorized plan run_id :
  strip run_id ≠ [] → _verify_authorization (forwarded plan run_id) = go plan.
Proof.
  intros Hid. unfold _verify_authorization.
  change (get_or_null "systemRunPlan" (forwarded plan run_id)) with (JDict plan).
  change (get_or_null "runId" (forwarded plan run_id)) with (JStr run_id).
  change (get_or_null "approved" (forwarded plan run_id)) with (JBool true).
  cbv iota. unfold non_blank at 1. rewrite bool_decide_eq_false_2 by done. cbn [negb].
  by rewrite (bool_decide_eq_true_2 (JBool true = JBool true)) by done.
Qed.
Lemma own_text_accepted argv : strip (_format_exec_command argv) = _format_exec_command argv →
  ∃ preview, _resolve_command_text argv (JStr (_format_exec_command argv)) = inl (_format_exec_command argv, preview).
Proof.
  intros Hs. unfold _resolve_command_text. rewrite Hs. cbv zeta.
  rewrite (bool_decide_eq_true_2 (_format_exec_command argv = _format_exec_command argv)) by done.
  cbn [negb andb]. destruct (bool_decide _); by eexists.
Qed.
Lemma forwarded_directory argv cwd agent session preview policy run_id :
  (∀ p, cwd = Some p → _validate_cwd h p = Ret (inl p) ∧ strip p ≠ []) →
  forwarded_cwd h (forwarded (plan_of argv cwd agent session preview policy) run_id) = go cwd.
Proof.
  intros Hc. unfold forwarded_cwd.
  change (get_or_null "cwd" (forwarded _ run_id)) with (opt_json cwd).
  destruct cwd as [p|]; [|done]. destruct (Hc p eq_refl) as [Hv Hs]. cbn [opt_json].
  rewrite bool_decide_eq_false_2 by done. by rewrite Hv.
Qed.
Lemma forwarded_identifiers argv cwd agent session preview policy run_id :
  strip run_id ≠ [] → (∀ s, agent = Some s → strip s ≠ []) → (∀ s, session = Some s → strip s ≠ []) →
  first_error (map (λ f, _validate_optional_identifier (get_or_null f
    (forwarded (plan_of argv cwd agent session preview policy) run_id)) f) identifier_fields) = None.
Proof.
  intros Hid Ha Hs. apply first_error_None. cbn [identifier_fields map].
  assert (Hok : ∀ o f, (∀ s, o = Some s → strip s ≠ []) → _validate_optional_identifier (opt_json o) f = None).
  { intros [s|] f Ho; [|done]. cbn. by rewrite bool_decide_eq_false_2 by (by apply Ho). }
  repeat constructor; [by apply (Hok agent)|by apply (Hok session)|by apply (Hok (Some run_id)); intros ? [= <-]].
Qed.
Lemma forwarded_consistent argv cwd agent session preview policy run_id :
  let plan := plan_of argv cwd agent session preview policy in
  _verify_plan_consistency plan argv cwd (_format_exec_command argv) (forwarded plan run_id) = None.
Proof.
  intros plan. apply first_error_None. repeat constructor.
  all: apply (proj2 (expect_None _ _)), bool_decide_eq_true_2; reflexivity.
Qed.
Lemma size_fits items limit a b : fits_in items limit → size_error items limit a b = None.
Proof. intros (n & Hn & Hl). unfold size_error. rewrite Hn. by rewrite (proj2 (N.ltb_ge limit n)). Qed.

(** C15. A plan the node prepared is one the node runs: the request a gateway forwards
    for it, with no environment of the caller, passes every check and starts its
    arguments in its directory, as long as the files have not changed, no loop
    of links was met on the way to the directory, the text of the command has no
    outer blanks, and the arguments and the node's own environment keep their
    limits. *)
Theorem prepared_plan_runs file params plan rest run_id :
  handle_system_run_prepare h file params = Ret (JDict (("plan"%py, JDict plan) :: rest)) →
  strip run_id ≠ [] →
  (∀ raw, get_or_null "cwd" params = JStr raw → loop_free (host_links h) (host_cwd h) raw = true) →
  (∀ argv, get_or_null "argv" plan = JList (map JStr argv) →
     strip (_format_exec_command argv) = _format_exec_command argv ∧ fits_in argv _MAX_ARGV_BYTES) →
  fits_in (map env_item (_base_env getenv)) _MAX_ENV_BYTES →
  ∃ argv cwd, get_or_null "argv" plan = JList (map JStr argv) ∧ get_or_null "cwd" plan = opt_json cwd ∧
    run_request getenv h (forwarded plan run_id)
    = Ret (inl ({| l_argv := argv; l_cwd := cwd; l_env := _base_env getenv |},
                Z.min _DEFAULT_TIMEOUT_MS (_max_timeout_ms getenv))).
Proof.
  intros Hp Hid Hloop Hargv Hbase.
  apply prepare_inv in Hp as (argv & cwd & agent & session & preview & policy & -> & Hv & Hag & Hse & Hcwd).
  destruct (Hargv argv eq_refl) as [Hstrip Hfits].
  exists argv, cwd. split; [done|]. split; [done|].
  set (plan := plan_of argv cwd agent session preview policy) in *.
  unfold run_request. change (get_or_null "command" (forwarded plan run_id)) with (JList (map JStr argv)). rewrite Hv.
  cbn [lift_sum and_then rbind]. rewrite forwarded_authorized by done. cbn [go and_then rbind].
  change (get_or_null "rawCommand" (forwarded plan run_id)) with (JStr (_format_exec_command argv)).
  destruct (own_text_accepted argv Hstrip) as [pv ->]. cbn [lift_sum and_then rbind].
  change (_validate_env (get_or_null "env" (forwarded plan run_id))) with (@None json). cbn [check_].
  assert (forwarded_cwd h (forwarded plan run_id) = go cwd) as ->.
  { apply forwarded_directory. intros p ->. destruct (Hcwd p eq_refl) as (raw & Hraw & Hval).
    eapply validate_cwd_again; [exact Hval|by apply Hloop]. }
  cbn [go and_then rbind].
  assert (first_error (map (λ f, _validate_optional_identifier (get_or_null f (forwarded plan run_id)) f) identifier_fields)
          = None) as -> by (by apply forwarded_identifiers; [|eapply name_json|eapply name_json]).
  cbn [check_ fst].
  assert (_verify_plan_consistency plan argv cwd (_format_exec_command argv) (forwarded plan run_id) = None) as ->
    by apply forwarded_consistent.
  cbn [check_]. rewrite (size_fits _ _ _ _ Hfits). cbn [check_].
  change (_merge_env getenv (caller_env (forwarded plan run_id))) with (Some (_base_env getenv)). cbv iota.
  rewrite (size_fits _ _ _ _ Hbase). done.
Qed.
End prepared.

(** ** Output *)

Ltac comparing :=
  match goal with
  | |- context [(?a <? ?b)%N] => destruct (N.ltb_spec a b); try lia
  | |- context [(?a =? ?b)%N] => destruct (N.eqb_spec a b); try lia
  | |- context [(?a <=? ?b)%N] => destruct (N.leb_spec a b); try lia
  end; cbn [orb andb negb].
(** Output that is the UTF-8 of a text is returned as that text. *)
Theorem text_output_kept s bs :
  Forall (λ c, c < 1114112)%N s → utf8 s = Some bs → decode_replace bs = s.
Proof.
  revert bs. induction s as [|c s IH]; intros bs Hs; [by intros [= <-]|].
  apply Forall_cons in Hs as [Hc Hs]. intros (u & us & Hu & Hus & -> & _)%utf8_cons.
  specialize (IH us Hs Hus). unfold utf8_char in Hu. cbv beta in Hc.
  pose proof (N.div_mod c 64 ltac:(done)) as E1. pose proof (N.mod_lt c 64 ltac:(done)) as L1.
  destruct (N.ltb_spec c 128).
  { injection Hu as <-. cbn [app decode_replace]. rewrite (proj2 (N.ltb_lt c 128)) by done. by rewrite IH. }
  destruct (N.ltb_spec c 2048).
  { injection Hu as <-. assert (2 <= c / 64 < 32)%N as [? ?] by (split; [apply N.div_le_lower_bound|apply N.Div0.div_lt_upper_bound]; lia).
    generalize dependent (c / 64)%N. intros q; intros. generalize dependent (c mod 64)%N. intros r; intros.
    cbn [app decode_replace]. unfold second_ok, is_cont. repeat comparing.
    all: rewrite IH; f_equal; lia. }
  destruct (is_surrogate c) eqn:Esur; [done|].
  pose proof (N.div_mod (c / 64) 64 ltac:(done)) as E2. pose proof (N.mod_lt (c / 64) 64 ltac:(done)) as L2.
  rewrite N.Div0.div_div in E2. change (64 * 64)%N with 4096%N in E2.
  destruct (N.ltb_spec c 65536).
  { injection Hu as <-.
    assert (c / 4096 < 16)%N by (apply N.Div0.div_lt_upper_bound; lia).
    assert (Hsur : (c < 55296 \/ 57343 < c)%N).
    { unfold is_surrogate in Esur. apply andb_false_iff in Esur as [?%N.leb_gt|?%N.leb_gt]; lia. }
    generalize dependent (c / 4096)%N. intros p; intros. generalize dependent (c / 64 mod 64)%N. intros q; intros.
    generalize dependent (c mod 64)%N. intros r; intros.
    cbn [app decode_replace]. unfold second_ok, is_cont. repeat comparing.
    all: rewrite IH; f_equal; lia. }
  injection Hu as <-.
  pose proof (N.div_mod (c / 4096) 64 ltac:(done)) as E3. pose proof (N.mod_lt (c / 4096) 64 ltac:(done)) as L3.
  rewrite N.Div0.div_div in E3. change (4096 * 64)%N with 262144%N in E3.
  assert (c / 262144 < 5)%N by (apply N.Div0.div_lt_upper_bound; lia).
  generalize dependent (c / 262144)%N. intros o; intros. generalize dependent (c / 4096 mod 64)%N. intros p; intros.
  generalize dependent (c / 64 mod 64)%N. intros q; intros. generalize dependent (c mod 64)%N. intros r; intros.
  cbn [app decode_replace]. unfold second_ok, is_cont. repeat comparing.
  all: rewrite IH; f_equal; lia.
Qed.

(** ** Where text and checks part *)

(** The canonical text of a command can be refused as its own raw text: it is
    compared without outer blanks, and Python counts the separators 28 to 31 as
    blanks, which the quoting, made for JavaScript, leaves bare. *)
Theorem canonical_text_refused `{Unicode} :
  let argv := ["echo"%py; [31%N]] in
  ∃ e, _resolve_command_text argv (JStr (_format_exec_command argv)) = inr e.
Proof. eexists. vm_compute. reflexivity. Qed.
(** A variable whose name holds an equals sign passes every check; the start
    raises, and the request is not answered as refused. *)
Theorem odd_name_escapes `{Unicode} `{Processes} l t :
  l_env l = [("A=B", "c")]%py → run_process l t = (Raise (Exn "ValueError" "illegal environment variable name"), None).
Proof. intros E0. unfold run_process. by rewrite E0. Qed.

(** ** Witnesses *)

#[local] Instance every_char_prints : Unicode := {| uni_printable := λ _, true; uni_decimal := λ _, None |}.
#[local] Existing Instance ascii_casing.
(** A child that writes and exits, and leaves its pipes to a descendant. *)
Definition short_child : Child :=
  {| exits := Some (5000, 0)%Z; pipes_closed := None; written_by := λ _, ([111; 107; 255]%N, []);
     freed_after_kill := None |}.
#[local] Instance one_process : Processes := {| popen := λ _, Started short_child |}.
Definition demo_getenv (name : pystr) : option pystr := if bool_decide (name = "PATH"%py) then Some "/bin"%py else None.
Definition demo_host : Host :=
  {| host_roots := Ret [path_of "/config"]; host_cwd := []; host_links := {[ ["config"; "w"]%py := "www"%py ]};
     host_is_dir := λ _, true |}.
Definition demo_prepare : dict :=
  [("command", JList [JStr "ls"; JStr "a b"]); ("cwd", JStr "/config/w"); ("agentId", JStr "main")]%py.
Definition plan_in (r : res json) : dict :=
  match r with Ret (JDict d) => as_dict (get_or_null "plan" d) | _ => [] end.
Definition demo_plan : dict := plan_in (handle_system_run_prepare demo_host None demo_prepare).
Definition demo_run := handle_system_run demo_getenv demo_host (forwarded demo_plan "r1").
Definition demo_launch : Launch :=
  {| l_argv := ["ls"; "a b"]%py; l_cwd := Some "/config/www"%py; l_env := [("PATH", "/bin")]%py |}.

Lemma strings_inj (a b : list pystr) : map JStr a = map JStr b → a = b.
Proof. revert b. induction a as [|x a IH]; intros [|y b]; try done. intros [= -> ?]. f_equal. by apply IH. Qed.
Example run_is_approved_witness :
  (∃ plan text, get_or_null "systemRunPlan" (forwarded demo_plan "r1") = JDict plan ∧
     planned plan (forwarded demo_plan "r1") (l_argv demo_launch) (l_cwd demo_launch) ∧
     dget "commandText" plan = Some (JStr text) ∧ ∀ argv, _format_exec_command argv = text → argv = l_argv demo_launch) ∧
  approved_envelope (forwarded demo_plan "r1") ∧ allowed_cwd demo_host (l_cwd demo_launch) ∧
  allowed_env demo_getenv (forwarded demo_plan "r1") (l_env demo_launch) ∧
  fits_in (l_argv demo_launch) _MAX_ARGV_BYTES ∧ fits_in (map env_item (l_env demo_launch)) _MAX_ENV_BYTES.
Proof.
  apply (run_is_approved demo_getenv demo_host (forwarded demo_plan "r1") demo_run.1 demo_launch short_child).
  vm_compute. reflexivity.
Defined.
(** With three milliseconds to run in, a process of five is timed out. *)
Definition hurried : dict := forwarded demo_plan "r1" ++ [("timeoutMs"%py, JInt 3)].
Example run_is_answered_witness :
  let run := handle_system_run demo_getenv demo_host hurried in
  ∃ f, run.1 = Ret (answer_of 3 f) ∧ (took f <= 1003000)%Z ∧ timed_out f = true.
Proof.
  intros run.
  destruct (run_is_answered demo_getenv demo_host hurried run.1 demo_launch short_child)
    as (raw & Hraw & _ & f & Hr & Ht & Hf).
  - vm_compute. discriminate.
  - vm_compute. reflexivity.
  - assert (E : default (JInt 30000) (dget "timeoutMs" hurried) = JInt 3) by (vm_compute; reflexivity).
    rewrite E in Hraw. injection Hraw as <-.
    assert (Em : Z.min 3 (_max_timeout_ms demo_getenv) = 3%Z) by (vm_compute; reflexivity).
    rewrite Em in Hr, Ht, Hf. exists f. split; [exact Hr|]. split; [exact Ht|exact Hf].
Defined.
Example prepared_plan_runs_witness :
  ∃ argv cwd, get_or_null "argv" demo_plan = JList (map JStr argv) ∧ get_or_null "cwd" demo_plan = opt_json cwd ∧
    run_request demo_getenv demo_host (forwarded demo_plan "r1")
    = Ret (inl ({| l_argv := argv; l_cwd := cwd; l_env := _base_env demo_getenv |},
                Z.min _DEFAULT_TIMEOUT_MS (_max_timeout_ms demo_getenv))).
Proof.
  refine (prepared_plan_runs demo_getenv demo_host None demo_prepare demo_plan
            [("execPolicy", JDict [("security", JStr "deny"); ("ask", JStr "on-miss")]);
             ("allowAlwaysCoverage", JDict [("complete", JBool false); ("patterns", JList [])])]%py "r1" _ _ _ _ _).
  - vm_compute. reflexivity.
  - done.
  - intros raw [= <-]. vm_compute. reflexivity.
  - intros argv E0. assert (argv = ["ls"; "a b"]%py) as ->.
    { change (get_or_null "argv" demo_plan) with (JList (map JStr ["ls"; "a b"]%py)) in E0. injection E0 as E0.
      by apply strings_inj. }
    split; [vm_compute; reflexivity|]. exists 7%N. split; [vm_compute; reflexivity|done].
  - exists 10%N. split; [vm_compute; reflexivity|done].
Defined.
Example text_output_kept_witness : decode_replace [206; 177; 33]%N = [945; 33]%N.
Proof. apply (text_output_kept [945; 33]%N); [by repeat constructor|reflexivity]. Defined.
