(* ===== verification/HttpApi.v ===== *)
(** [http_api.py]: the local HTTP API: the bearer check in front of every route, the
    hand-over of the local token to the integration, the two commands, the Assist
    turns and the image description.

    A request is what [aiohttp] has parsed: the method, the path, the address of
    the peer, the header and what reading the body gives.  A handler answers, or
    goes on with a call of the relay; the call's outcome then makes the answer.
    An exception that leaves a handler is answered by [aiohttp] with status 500. *)

From stdpp Require Import base list gmap.
From Stdlib Require Import NArith ZArith Lia.
From S2P Require Import Prelude PyStr PyCase PyFloat Json JsonParse JsonFlat SafePath SafeFd Config Authz Policy Turn.
From S2P Require Import Scrub Dispatch Relay RelayTurn Pairing PrivateFiles Identity NodeConfig Vision Connection.

Record Request := {
  r_method : pystr; r_path : pystr;
  r_remote : option pystr;
  r_authorization : pystr;               (* [""] without the header *)
  r_body : option (res json);            (* the JSON of the body; none to be read *)
  r_content_length : option Z;
  r_chunks : list (list N);              (* the body as it is read piece by piece *)
  r_at : Z;                              (* the monotonic clock, in microseconds *)
  r_time : pystr }.                      (* the text of the wall clock *)

(** The calls of the relay a handler waits for. *)
Inductive relay_call :=
| RelayTurn (conversation_id text language : pystr) (authz : TurnAuthz)
| StreamTurn (conversation_id text language : pystr) (authz : TurnAuthz) (client_caps : list pystr)
| DescribeImage (source image mime prompt agent_id : pystr) (timeout : pyfloat) (model : pystr).
Inductive reply :=
| Response (status : Z) (payload : json) (bearer : bool)
| HttpError (status : Z)                 (* an exception of [aiohttp.web] *)
| StreamError (code : pystr) (status : Z)
| CallsRelay (relay : N) (c : relay_call).

Definition _HTTP_CALLER : Caller := Caller_operator "http-api".
Definition _UNAUTHED_PATHS : list pystr :=
  ["/health"; "/v1/health"; "/v1/conversation/info"; "/v1/bootstrap"; "/v1/bootstrap/claim"].
Definition BOOTSTRAP_WINDOW_SECONDS : Z := 300.
Definition _HTTP_COMMAND_ALLOWLIST : list pystr := ["ping"; "system.which"].
Definition _VISION_MAX_BODY_BYTES : Z := Z.of_N MAX_IMAGE_BYTES * 4 / 3 + 64 * 1024.
Definition _VISION_STATUS : list (pystr * Z) :=
  [("INVALID_REQUEST"%py, 400%Z); ("INVALID_PARAMS"%py, 400%Z); ("INVALID_MODEL"%py, 400%Z); ("UNSUPPORTED_MIME"%py, 415%Z);
   ("IMAGE_TOO_LARGE"%py, 413%Z); ("SUPERSEDED"%py, 409%Z); ("TIMEOUT"%py, 504%Z); ("NOT_PAIRED"%py, 503%Z);
   ("OPERATOR_NOT_CONNECTED"%py, 503%Z); ("RELAY_NOT_INITIALISED"%py, 503%Z); ("INTERNAL_ERROR"%py, 500%Z)].

(** ** The runtime *)

Record NodeRuntime := {
  config : NodeConfig;
  bootstrap_token : pystr;
  bootstrap_claim_token : pystr;
  bootstrap_claimed_token : pystr;
  rt_pairing : PairingState;
  startup_time : Z;
  rt_shared : Shared }.
Definition set_config v (rt : NodeRuntime) :=
  Build_NodeRuntime v (bootstrap_token rt) (bootstrap_claim_token rt) (bootstrap_claimed_token rt) (rt_pairing rt)
    (startup_time rt) (rt_shared rt).
Definition set_bootstrap_token v (rt : NodeRuntime) :=
  Build_NodeRuntime (config rt) v (bootstrap_claim_token rt) (bootstrap_claimed_token rt) (rt_pairing rt)
    (startup_time rt) (rt_shared rt).
Definition set_claim_token v (rt : NodeRuntime) :=
  Build_NodeRuntime (config rt) (bootstrap_token rt) v (bootstrap_claimed_token rt) (rt_pairing rt)
    (startup_time rt) (rt_shared rt).
Definition set_claimed_token v (rt : NodeRuntime) :=
  Build_NodeRuntime (config rt) (bootstrap_token rt) (bootstrap_claim_token rt) v (rt_pairing rt)
    (startup_time rt) (rt_shared rt).
Definition set_rt_disk d (rt : NodeRuntime) :=
  Build_NodeRuntime (config rt) (bootstrap_token rt) (bootstrap_claim_token rt) (bootstrap_claimed_token rt) (rt_pairing rt)
    (startup_time rt) (set_disk d (rt_shared rt)).
Definition rt_disk (rt : NodeRuntime) : disk := disk_of (rt_shared rt).
Definition gateway_connected (rt : NodeRuntime) : bool := node_connected (rt_shared rt) || operator_connected (rt_shared rt).
Definition is_paired (rt : NodeRuntime) : bool := bool_decide (rt_pairing rt = PAIRED).
(** [runtime = NodeRuntime(config, bootstrap_token=...)] *)
Definition new_runtime (c : NodeConfig) (token : pystr) (now : Z) (h : Shared) : NodeRuntime :=
  Build_NodeRuntime c token [] [] UNKNOWN now h.
Definition set_local_token (token : pystr) (c : NodeConfig) : NodeConfig :=
  Build_NodeConfig (addon_mode c) (gateway_url c) (pairing_token c) (node_name c) (hass_url c) (hass_token c)
    (supervisor_token c) (data_dir c) token (identity c) (reset_pairing c) (reset_bootstrap c)
    (vision_timeout_seconds c) (vision_model c).

Section api.
Context `{Unicode} `{Casing} `{Categories} `{WideText} `{Os} `{!Gateway}.
Context {W : Type} (handlers : pystr → @handler W).

(** What a handler changes: the runtime and the state of the commands. *)
Record World := { runtime : NodeRuntime; commands : @DState W }.
Definition on_runtime (f : NodeRuntime → NodeRuntime) (w : World) : World :=
  {| runtime := f (runtime w); commands := commands w |}.
Definition error_answer (status : Z) (code : pystr) : reply :=
  Response status (JDict [("ok", JBool false); ("error", JStr code)]%py) false.

(** ** The bearer check *)

(** The scheme and the token of the header; [None] when the header is not one of a
    bearer. *)
Definition bearer_of (header : pystr) : option pystr :=
  let '(scheme, presented) := partition_at 32 header in
  if bool_decide (py_lower scheme = "bearer"%py) && negb (bool_decide (presented = []))
  then Some presented else None.
Definition same_token (a b : pystr) : res bool :=
  match utf8 a, utf8 b with
  | Some x, Some y => Ret (bool_decide (x = y))
  | _, _ => Raise (Exn "UnicodeEncodeError" "surrogates not allowed")
  end.
Definition unauthorized_answer (code : pystr) (hint : list (pystr * json)) : reply :=
  Response 401 (JDict ([("ok", JBool false); ("error", JStr code)]%py ++ hint)) true.
Definition no_token_hint : pystr :=
  "Local API token is not configured. Set `local_api_token` in the add-on options (or " ++
  "`OPENCLAW_LOCAL_API_TOKEN` standalone) before calling the local API.".
Definition _bearer_auth_middleware (handle : Request → World → res reply * World) (r : Request) (w : World)
    : res reply * World :=
  let expected := local_api_token (config (runtime w)) in
  if elem (r_path r) _UNAUTHED_PATHS then handle r w
  else if bool_decide (expected = [])
  then (Ret (unauthorized_answer "NO_TOKEN_CONFIGURED" [("response"%py, JStr no_token_hint)]), w)
  else
    match bearer_of (r_authorization r) with
    | None => (Ret (unauthorized_answer "UNAUTHORIZED" []), w)
    | Some presented =>
        match same_token presented expected with
        | Raise e => (Raise e, w)
        | Ret true => handle r w
        | Ret false => (Ret (error_answer 403 "FORBIDDEN"), w)
        end
    end.

(** ** Bodies *)

Definition _json_body (r : Request) : res dict + Z :=
  match r_body r with
  | None | Some (Ret JNull) => inl (Ret [])
  | Some (Ret (JDict d)) => inl (Ret d)
  | Some (Ret _) => inr 400%Z
  | Some (Raise e) => inl (Raise e)
  end.
(** [with_body r k]: a body that is no object is answered 400. *)
Definition with_body (r : Request) (w : World) (k : dict → res reply * World) : res reply * World :=
  match _json_body r with
  | inl (Ret body) => k body
  | inl (Raise e) => (Raise e, w)
  | inr status => (Ret (HttpError status), w)
  end.
(** The pieces of the body up to the limit; [None] when it is passed. *)
Fixpoint read_limited (limit total : Z) (chunks : list (list N)) : option (list N) :=
  match chunks with
  | [] => Some []
  | chunk :: chunks =>
      let total := (total + Z.of_nat (length chunk))%Z in
      if (limit <? total)%Z then None
      else match read_limited limit total chunks with Some rest => Some (chunk ++ rest) | None => None end
  end.
Inductive limited := Body (d : dict) | TooLarge | NotAnObject | Malformed.
Definition body_of (bytes : list N) : limited :=
  match bytes with
  | [] => Body []
  | _ =>
      match json_text bytes with
      | None => Malformed
      | Some text => match loads text with
                     | Raise _ => Malformed
                     | Ret JNull => Body []
                     | Ret (JDict d) => Body d
                     | Ret _ => NotAnObject
                     end
      end
  end.
Definition _json_body_limited (r : Request) (limit : Z) : limited :=
  if match r_content_length r with Some n => (limit <? n)%Z | None => false end then TooLarge
  else match read_limited limit 0 (r_chunks r) with Some bytes => body_of bytes | None => TooLarge end.

(** ** Status *)

Definition state_name (s : PairingState) : pystr :=
  match s with UNKNOWN => "UNKNOWN" | PENDING => "PENDING" | PAIRED => "PAIRED" | ERROR => "ERROR" end.
Definition is_set (s : pystr) : json := JBool (negb (bool_decide (s = []))).
Definition count {A} (l : list A) : json := JInt (Z.of_nat (length l)).
(** [asdict] of the configuration, without its secrets. *)
Definition _safe_config (c : NodeConfig) : json :=
  JDict [("addon_mode", JBool (addon_mode c)); ("gateway_url", JStr (gateway_url c));
         ("pairing_token", is_set (pairing_token c)); ("node_name", JStr (node_name c)); ("hass_url", JStr (hass_url c));
         ("hass_token", is_set (hass_token c)); ("supervisor_token", is_set (supervisor_token c));
         ("data_dir", JStr (path_str (data_dir c))); ("local_api_token", is_set (local_api_token c));
         ("identity", JDict [("super_admin_count", count (elements (super_admins (identity c))));
                             ("user_agent_map_count", count (user_agent_map (identity c)));
                             ("default_agent_id_configured", is_set (default_agent_id (identity c)));
                             ("actor_signing_configured", is_set (local_api_token c));
                             ("forbidden_commands_roles",
                                JList (map JStr (sorted_strs (dkeys (forbidden_commands (identity c))))));
                             ("addon_lifecycle_denylist_count", count (elements (addon_lifecycle_denylist (identity c))))]%py);
         ("reset_pairing", JStr (reset_pairing c)); ("reset_bootstrap", JBool (reset_bootstrap c));
         ("vision_timeout_seconds", JFloat (vision_timeout_seconds c)); ("vision_model", JStr (vision_model c))]%py.
Definition health (rt : NodeRuntime) : reply :=
  Response 200 (JDict [("ok", JBool true); ("version", JStr version); ("addon_mode", JBool (addon_mode (config rt)));
                       ("pairing_state", JStr (ascii_lower (state_name (rt_pairing rt)))); ("paired", JBool (is_paired rt));
                       ("config", _safe_config (config rt))]%py) false.
Definition conversation_info (rt : NodeRuntime) : reply :=
  Response 200 (JDict [("ok", JBool true); ("version", JStr version); ("paired", JBool (is_paired rt));
                       ("pairing_state", JStr (state_name (rt_pairing rt)));
                       ("gateway_connected", JBool (gateway_connected rt)); ("supports_streaming", JBool true);
                       ("streaming_endpoint", JStr "/v1/conversation/stream"); ("supports_vision", JBool true)]%py) false.

(** ** Commands *)

Definition no_such_command (command : pystr) : reply :=
  Response 404 (JDict [("ok", JBool false); ("error", JStr "UNKNOWN_COMMAND"); ("command", JStr command)]%py) false.
Definition run_command (command : pystr) (params : dict) (w : World) : res json * World :=
  let '(st, r) := dispatch_async handlers command params _HTTP_CALLER (commands w) in
  (r, {| runtime := runtime w; commands := st |}).
Definition command_ping (r : Request) (w : World) : res reply * World :=
  with_body r w (λ params,
    match run_command "ping" params w with
    | (Ret result, w) => (Ret (Response 200 result false), w)
    | (Raise e, w) => (Raise e, w)
    end).
Definition command_dispatch (command : pystr) (r : Request) (w : World) : res reply * World :=
  if negb (elem command _HTTP_COMMAND_ALLOWLIST) then (Ret (no_such_command command), w)
  else
    with_body r w (λ params,
      match run_command command params w with
      | (Ret result, w) => (Ret (Response 200 (JDict [("ok", JBool true); ("result", result)]%py) false), w)
      | (Raise e, w) =>
          if bool_decide (exn_type e = "UnknownCommandError"%py)
          then (Ret (no_such_command (match collect_codes (JDict params) with Ret codes => scrub_str command codes | _ => command end)), w)
          else (Raise e, w)
      end).

(** ** The hand-over of the local token *)

(** [ip_address(remote) in IPv4Network("172.30.32.0/23")]: four decimal octets
    without leading zeros; an IPv6 address is in no IPv4 network. *)
Definition octet (s : pystr) : option N :=
  match s with
  | [] => None
  | [48%N] => Some 0%N
  | 48%N :: _ => None
  | _ => if forallb is_digit s && (length s <=? 3)%nat then
           let n := undigits 10 0 (map (λ c, c - 48)%N s) in
           if (n <=? 255)%N then Some n else None
         else None
  end.
Definition ipv4 (s : pystr) : option N :=
  match map octet (split_on 46 s) with
  | [Some a; Some b; Some c; Some d] => Some (((a * 256 + b) * 256 + c) * 256 + d)%N
  | _ => None
  end.
Definition _SUPERVISOR_NETWORK : N := ((172 * 256 + 30) * 256 + 32) * 256.
Definition _is_supervisor_network (remote : option pystr) : bool :=
  match remote with
  | Some ((_ :: _) as s) => match ipv4 s with Some n => (n / 512 =? _SUPERVISOR_NETWORK / 512)%N | None => false end
  | _ => false
  end.

Definition consumed_name : pystr := "bootstrap-consumed".
Definition claimed_name : pystr := "bootstrap-claimed".
Definition dir_parts (rt : NodeRuntime) : list pystr := parts (data_dir (config rt)).
(** [exists() or is_symlink()] of a marker. *)
Definition marked (rt : NodeRuntime) (name : pystr) : bool :=
  is_symlink (rt_disk rt) (dir_parts rt) name || path_exists (rt_disk rt) (dir_parts rt ++ [name]).
Definition _write_bootstrap_consumed (rt : NodeRuntime) (name time_text : pystr) : SafeFd.out unit * disk :=
  _write_private_file (rt_disk rt) (dir_parts rt) name (time_text ++ [NL]).
(** [except OSError], of which the refusal of a link is one. *)
Definition is_oserror (e : fserr) : bool :=
  match e with
  | OsError _ _ => true
  | PyError x => bool_decide (exn_type x = "_UnsafePathError"%py)
  | _ => false
  end.
Definition fserr_exn (e : fserr) : exn :=
  match e with PyError x => x | _ => Exn "OSError" [] end.
Definition detailed (status : Z) (code detail : pystr) : reply :=
  Response status (JDict [("ok", JBool false); ("error", JStr code); ("detail", JStr detail)]%py) false.
(** A marker is written; a failure other than an [OSError] raises. *)
Definition mark (name time_text : pystr) (w : World) (k : World → res reply * World) : res reply * World :=
  let '(r, d) := _write_bootstrap_consumed (runtime w) name time_text in
  let w := on_runtime (set_rt_disk d) w in
  match r with
  | Err e => if is_oserror e then k w else (Raise (fserr_exn e), w)
  | Ok _ => k w
  end.
Definition bootstrap (r : Request) (w : World) : res reply * World :=
  let rt := runtime w in
  if addon_mode (config rt) && negb (_is_supervisor_network (r_remote r)) then (Ret (HttpError 404), w)
  else if (BOOTSTRAP_WINDOW_SECONDS * 1000000 <? r_at r - startup_time rt)%Z
  then (Ret (detailed 410 "BOOTSTRAP_EXPIRED" ("Bootstrap window (300s) has closed. Restart the add-on to open a fresh window.")), w)
  else if marked rt consumed_name
  then (Ret (detailed 410 "BOOTSTRAP_CONSUMED" ("The bootstrap token has already been fetched. " ++
               "Set reset_bootstrap=true in add-on options and restart to re-open.")), w)
  else if bool_decide (bootstrap_token rt = [])
  then (Ret (detailed 404 "BOOTSTRAP_DISABLED" ("Bootstrap is only available when local_api_token is not " ++
               "set explicitly. Configure the integration token manually.")), w)
  else
    let token := bootstrap_token rt in
    mark consumed_name (r_time r) w (λ w,
      (Ret (Response 200 (JDict [("ok", JBool true); ("token", JStr token);
                                 ("claim_endpoint", JStr "/v1/bootstrap/claim")]%py) false),
       on_runtime (λ rt, set_claim_token token (set_bootstrap_token [] rt)) w)).
Definition token_answer (token : pystr) : reply :=
  Response 200 (JDict [("ok", JBool true); ("token", JStr token)]%py) false.
(** The rotation, once the bearer is accepted. [fresh] is the text of
    [secrets.token_urlsafe]. *)
Definition claim_rotation (fresh : pystr) (r : Request) (w : World) : res reply * World :=
  let rt := runtime w in
  if negb (path_exists (rt_disk rt) (dir_parts rt ++ [consumed_name])) || is_symlink (rt_disk rt) (dir_parts rt) consumed_name
  then (Ret (detailed 409 "BOOTSTRAP_NOT_CONSUMED" "Fetch /v1/bootstrap before claiming a rotated token."), w)
  else if marked rt claimed_name
  then (Ret (detailed 409 "BOOTSTRAP_ALREADY_CLAIMED" "The bootstrap token has already been rotated."), w)
  else
    let '(o, d) := rotate_local_api_token (rt_disk rt) (dir_parts rt) fresh in
    let w := on_runtime (set_rt_disk d) w in
    match o with
    | Err e => if is_oserror e then (Ret (detailed 500 "BOOTSTRAP_ROTATION_FAILED" "Could not rotate the local API token."), w)
               else (Raise (fserr_exn e), w)
    | Ok token =>
        let w := on_runtime (λ rt, set_claimed_token token (set_config (set_local_token token (config rt)) rt)) w in
        mark claimed_name (r_time r) w (λ w, (Ret (token_answer token), w))
    end.
Definition bootstrap_claim (fresh : pystr) (r : Request) (w : World) : res reply * World :=
  let rt := runtime w in
  match bearer_of (r_authorization r) with
  | None => (Ret (unauthorized_answer "UNAUTHORIZED" []), w)
  | Some presented =>
      let announced := if bool_decide (bootstrap_claim_token rt = []) then Ret false
                       else same_token presented (bootstrap_claim_token rt) in
      match announced with
      | Raise e => (Raise e, w)
      | Ret true =>
          if bool_decide (bootstrap_claimed_token rt = []) then claim_rotation fresh r w
          else (Ret (token_answer (bootstrap_claimed_token rt)), w)
      | Ret false =>
          match same_token presented (local_api_token (config rt)) with
          | Raise e => (Raise e, w)
          | Ret true => claim_rotation fresh r w
          | Ret false => (Ret (error_answer 403 "FORBIDDEN"), w)
          end
      end
  end.


(** ** The snapshot of Home Assistant *)

(** What a request to Home Assistant gives: a response, with the JSON of its body,
    or a failure of the client.  [TimeoutError], [ClientError] and [OSError] are
    failures; another exception leaves the handler. *)
Inductive fetch_failure := Unreachable (detail : pystr) | Escapes (e : exn).
Record fetched := { http_status : Z; http_json : json + fetch_failure }.
Definition http_ok (f : fetched) : bool := (http_status f <? 400)%Z.
Fixpoint rstrip_slash (rev_s : pystr) : pystr :=
  match rev_s with 47%N :: rest => rstrip_slash rest | _ => rev_s end.
Definition fetched_json (f : fetched) (default_ : json) : json + fetch_failure :=
  if http_ok f then http_json f else inl default_.
Definition snapshot_failed (e : fetch_failure) : res reply :=
  match e with
  | Unreachable detail => Ret (detailed 503 "HA_REST_UNREACHABLE" detail)
  | Escapes e => Raise e
  end.
(** [get url token] *)
Definition ha_snapshot (get : pystr → pystr → fetched + fetch_failure) (rt : NodeRuntime) : res reply :=
  let c := config rt in
  let token := or_str (supervisor_token c) (hass_token c) in
  if bool_decide (hass_url c = []) || bool_decide (token = []) then
    Ret (Response 503 (JDict [("ok", JBool false); ("error", JStr "HA_TOKEN_OR_URL_MISSING");
                              ("addon_mode", JBool (addon_mode c))]%py) false)
  else
    let base := rev (rstrip_slash (rev (hass_url c))) in
    match get (base ++ "/api/config") token, get (base ++ "/api/states") token with
    | inr e, _ | _, inr e => snapshot_failed e
    | inl config_res, inl states_res =>
        match fetched_json config_res (JDict []) with
        | inr e => snapshot_failed e
        | inl ha_config =>
            match fetched_json states_res (JList []) with
            | inr e => snapshot_failed e
            | inl states =>
                let both := http_ok config_res && http_ok states_res in
                let entities := match states with JList l => l | _ => [] end in
                Ret (Response (if both then 200 else 503)
                  (JDict [("ok", JBool both);
                          ("ha_version", match ha_config with JDict d => get_or_null "version" d | _ => JNull end);
                          ("entity_count", count entities); ("sample_entity", match entities with x :: _ => x | [] => JNull end);
                          ("config_status", JInt (http_status config_res));
                          ("states_status", JInt (http_status states_res))]%py) false)
            end
        end
    end.

(** ** Assist turns *)

Definition _assist_error (rt : NodeRuntime) (msg echo : pystr) : reply :=
  Response 200 (JDict [("ok", JBool false); ("paired", JBool (is_paired rt)); ("gateway_connected", JBool (gateway_connected rt));
                       ("response", JStr msg); ("echo", JStr echo)]%py) false.
(** What both ways to ask take from the body, once it is accepted: the text, the
    conversation, the language and the authorization of the turn. *)
Definition turn_request (rt : NodeRuntime) (now : Z) (body : dict) : res (pystr * pystr * pystr * TurnAuthz) :=
  let? actor := actor_from_signed_body now body (local_api_token (config rt)) in
  Ret (strip (str_get "text" [] body), str_get "conversation_id" [] body, str_get "language" "en" body,
       resolve_turn_authz (identity (config rt)) actor).
Definition assist_turn (now : Z) (r : Request) (w : World) : res reply * World :=
  with_body r w (λ body,
    let rt := runtime w in
    (let? (text, conversation_id, language, authz) := turn_request rt now body in
     Ret (if negb (is_paired rt) then
            _assist_error rt ("OpenClaw Node is installed and reachable, but it is not paired " ++
                              "to the OpenClaw gateway yet. Pair the node, then retry Assist.") text
          else if negb (operator_connected (rt_shared rt)) then
            _assist_error rt ("OpenClaw Node is paired but the operator gateway connection " ++
                              "(required for ChatRelay) is not currently up.") text
          else match chat_relay (rt_shared rt) with
          | None => _assist_error rt "OpenClaw Node is connected but the chat relay is not initialised." text
          | Some relay =>
              if bool_decide (text = []) then _assist_error rt ("Empty text " ++ [8212%N] ++ " nothing to relay.") text
              else if bool_decide (conversation_id = []) then
                _assist_error rt ("Missing conversation_id " ++ [8212%N] ++ " the HA integration must send one.") text
              else CallsRelay relay (RelayTurn conversation_id text language authz)
          end), w)).

(** How a call of the relay ends: an exception that is not its own counts as broken. *)
Inductive relayed (A : Type) := Replied (a : A) | Refused (e : ChatRelayError) | Broke.
#[global] Arguments Replied {A} a.
#[global] Arguments Refused {A} e.
#[global] Arguments Broke {A}.
Definition turn_answer (ok : bool) (response echo : pystr) (error : list (pystr * json)) : json :=
  JDict ([("ok", JBool ok); ("paired", JBool true); ("gateway_connected", JBool true); ("response", JStr response);
          ("echo", JStr echo)]%py ++ error).
(** The rest of [assist_turn], behind the call. *)
Definition assist_answer (echo : pystr) (o : relayed pystr) : reply :=
  match o with
  | Replied text => Response 200 (turn_answer true text echo []) false
  | Refused e =>
      Response 502 (turn_answer false (or_str (default [] (relay_remedy e)) ("Relay error: " ++ relay_code e)) echo
                      [("error"%py, JStr (relay_code e))]) false
  | Broke => Response 500 (turn_answer false "Internal relay error." echo [("error"%py, JStr "INTERNAL_ERROR")]) false
  end.

(** ** Streams *)

Definition _stream_error (code : pystr) (status : Z) : reply := StreamError code status.
Definition caps_of (body : dict) : list pystr :=
  match get_or_null "client_caps" body with
  | JList l => omap (λ c, match c with JStr s => Some s | _ => None end) l
  | _ => []
  end.
Definition assist_turn_stream (now : Z) (r : Request) (w : World) : res reply * World :=
  with_body r w (λ body,
    let rt := runtime w in
    (let? (text, conversation_id, language, authz) := turn_request rt now body in
     Ret (if negb (is_paired rt) then _stream_error "NOT_PAIRED" 502
          else if negb (operator_connected (rt_shared rt)) then _stream_error "OPERATOR_NOT_CONNECTED" 502
          else match chat_relay (rt_shared rt) with
          | None => _stream_error "RELAY_NOT_INITIALISED" 502
          | Some relay =>
              if bool_decide (text = []) then _stream_error "EMPTY_TEXT" 400
              else if bool_decide (conversation_id = []) then _stream_error "MISSING_CONVERSATION_ID" 400
              else CallsRelay relay (StreamTurn conversation_id text language authz (caps_of body))
          end), w)).
(** [json.dumps] of an object of texts, integers and booleans. *)
Definition json_object (d : dict) : pystr := "{" ++ join ", " (map (spaced " ") d) ++ "}".
Definition phase_name (p : tool_phase) : pystr := match p with phase_start => "start" | phase_end => "end" end.
Definition chunk_dict (o : RelayTurn.out) : dict :=
  match o with
  | OKeepalive => [("keepalive"%py, JBool true)]
  | OFrame f =>
      [("tool_progress", JBool true); ("phase", JStr (phase_name (frame_phase f))); ("name", JStr (frame_name f));
       ("seq", JInt (frame_seq f))]%py
      ++ match frame_id f with [] => [] | id => [("id"%py, JStr id)] end
  | OText s => [("delta"%py, JStr s)]
  end.
Definition end_dict (o : relayed unit) : dict :=
  match o with
  | Replied _ => [("done"%py, JBool true)]
  | Refused e =>
      ("error"%py, JStr (relay_code e))
      :: match default [] (relay_remedy e) with [] => [] | m => [("message"%py, JStr m)] end
  | Broke => [("error"%py, JStr "INTERNAL_ERROR")]
  end.
(** The lines that are literals are written without a blank. *)
Definition chunk_json (o : RelayTurn.out) : pystr :=
  match o with OKeepalive => dumps_compact (JDict (chunk_dict o)) | _ => json_object (chunk_dict o) end.
Definition end_json (o : relayed unit) : pystr :=
  match o with Refused _ => json_object (end_dict o) | _ => dumps_compact (JDict (end_dict o)) end.
(** The body of a stream: the lines of what the turn yields, and of its end. *)
Definition stream_body (chunks : list RelayTurn.out) (o : relayed unit) : pystr :=
  concat (map (λ c, chunk_json c ++ [NL]) chunks) ++ end_json o ++ [NL].

(** ** Images *)

Definition _vision_error (code : pystr) : reply :=
  Response (default 502%Z (dget code _VISION_STATUS))
    (JDict [("ok", JBool false); ("error", JStr code);
            ("message", JStr (default (default [] (dget "VISION_FAILED" ERROR_MESSAGES)) (dget code ERROR_MESSAGES)))]%py) false.
Definition vision_describe (r : Request) (w : World) : reply :=
  let rt := runtime w in
  match _json_body_limited r _VISION_MAX_BODY_BYTES with
  | Malformed | NotAnObject => _vision_error "INVALID_REQUEST"
  | TooLarge => _vision_error "IMAGE_TOO_LARGE"
  | Body body =>
      match get_or_null "image_base64" body, get_or_null "mime" body with
      | JStr ((_ :: _) as image), JStr mime =>
          if negb (elem mime SUPPORTED_MIMES) then _vision_error "UNSUPPORTED_MIME"
          else if (Z.of_N MAX_IMAGE_BYTES <? decoded_size image)%Z then _vision_error "IMAGE_TOO_LARGE"
          else
            match build_prompt (get_or_null "style" body) (get_or_null "instructions" body) with
            | inr e => _vision_error (v_code e)
            | inl prompt =>
                let source := sanitize_text (get_or_null "source" body) MAX_SOURCE_CHARS in
                match validate_model_ref (vision_model (config rt)) with
                | inr e => _vision_error (v_code e)
                | inl model =>
                    if negb (is_paired rt) then _vision_error "NOT_PAIRED"
                    else if negb (operator_connected (rt_shared rt)) then _vision_error "OPERATOR_NOT_CONNECTED"
                    else match chat_relay (rt_shared rt) with
                    | None => _vision_error "RELAY_NOT_INITIALISED"
                    | Some relay =>
                        CallsRelay relay (DescribeImage source image mime prompt (resolve_agent_id (identity (config rt)) None)
                                            (vision_timeout_seconds (config rt)) model)
                    end
                end
            end
      | JStr (_ :: _), _ => _vision_error "UNSUPPORTED_MIME"
      | _, _ => _vision_error "INVALID_REQUEST"
      end
  end.
(** [_call]: the call a flight makes. *)
Definition describe_call (image mime prompt agent_id : pystr) (timeout : pyfloat) (model : pystr) : res (calls json) :=
  let? ms := plugin_timeout_ms timeout in Ret (describe_image image mime prompt agent_id ms model).
(** The rest of it, behind the single flight. *)
Definition vision_answer (o : VisionError + relayed dict) : reply :=
  match o with
  | inl e => _vision_error (v_code e)
  | inr (Refused e) => _vision_error (classify_gateway_error (relay_code e) (relay_message e))
  | inr Broke => _vision_error "INTERNAL_ERROR"
  | inr (Replied result) =>
      match get_or_null "text" result with
      | JStr s => match strip s with
                  | [] => _vision_error "VISION_UNAVAILABLE"
                  | text => Response 200 (JDict [("ok", JBool true); ("text", JStr text)]%py) false
                  end
      | _ => _vision_error "VISION_UNAVAILABLE"
      end
  end.

(** ** The application *)

Inductive endpoint :=
| Health | Ping | Dispatch_command (command : pystr) | Snapshot | Assist | AssistStream | Info | Bootstrap | Claim | Describe.
Definition routes : list (pystr * (pystr * endpoint)) :=
  [("/health", ("GET", Health)); ("/v1/health", ("GET", Health)); ("/commands/ping", ("POST", Ping));
   ("/v1/commands/ping", ("POST", Ping)); ("/ha/snapshot", ("GET", Snapshot)); ("/v1/ha/snapshot", ("GET", Snapshot));
   ("/assist/turn", ("POST", Assist)); ("/v1/conversation", ("POST", Assist));
   ("/v1/conversation/stream", ("POST", AssistStream)); ("/v1/conversation/info", ("GET", Info));
   ("/v1/bootstrap", ("GET", Bootstrap)); ("/v1/bootstrap/claim", ("POST", Claim));
   ("/v1/vision/describe", ("POST", Describe))]%py.
Definition _COMMANDS_PREFIX : pystr := "/v1/commands/".
(** A resource that is read answers HEAD too; a variable part takes any characters
    but the end of a line. *)
Definition method_fits (method expected : pystr) : bool :=
  bool_decide (method = expected) || (bool_decide (method = "HEAD"%py) && bool_decide (expected = "GET"%py)).
Definition route (method path : pystr) : endpoint + Z :=
  let fixed := match dget path routes with
               | Some (expected, e) => if method_fits method expected then inl e else inr 405%Z
               | None => inr 404%Z
               end in
  match fixed with
  | inl e => inl e
  | inr status =>
      if startswith path _COMMANDS_PREFIX then
        match drop (length _COMMANDS_PREFIX) path with
        | [] => inr status
        | command => if existsb (N.eqb NL) command then inr status
                     else if method_fits method "POST" then inl (Dispatch_command command) else inr 405%Z
        end
      else inr status
  end.
(** What an instant is for a request: the clock of the signatures, the text of a
    fresh token, and the answers of Home Assistant. *)
Record moment := { m_now : Z; m_fresh : pystr; m_get : pystr → pystr → fetched + fetch_failure }.
Definition run_endpoint (m : moment) (r : Request) (w : World) : res reply * World :=
  match route (r_method r) (r_path r) with
  | inr status => (Ret (HttpError status), w)
  | inl Health => (Ret (health (runtime w)), w)
  | inl Ping => command_ping r w
  | inl (Dispatch_command command) => command_dispatch command r w
  | inl Snapshot => (ha_snapshot (m_get m) (runtime w), w)
  | inl Assist => assist_turn (m_now m) r w
  | inl AssistStream => assist_turn_stream (m_now m) r w
  | inl Info => (Ret (conversation_info (runtime w)), w)
  | inl Bootstrap => bootstrap r w
  | inl Claim => bootstrap_claim (m_fresh m) r w
  | inl Describe => (Ret (vision_describe r w), w)
  end.
(** [create_app]: every request goes through the middleware. *)
Definition application (m : moment) (r : Request) (w : World) : res reply * World :=
  _bearer_auth_middleware (run_endpoint m) r w.
(** Requests one after the other. *)
Fixpoint serve_requests (requests : list (moment * Request)) (w : World) : list (Request * res reply) * World :=
  match requests with
  | [] => ([], w)
  | (m, r) :: requests =>
      let '(answer, w) := application m r w in
      let '(answers, w) := serve_requests requests w in
      ((r, answer) :: answers, w)
  end.
End api.

(** ** The bearer check *)

Section access.
Context `{Unicode} `{Casing} `{Categories} `{WideText} `{Os} `{!Gateway}.
Context {W : Type} (handlers : pystr → @handler W).
Implicit Types w : @World W.

Definition token_of w : pystr := local_api_token (config (runtime w)).
(** The refusals of a node with a token. *)
Definition refusals : list (res reply) :=
  [Ret (unauthorized_answer "UNAUTHORIZED" []); Ret (error_answer 403 "FORBIDDEN")].
(** A header whose bearer, if it has one, can be encoded. *)
Definition readable (header : pystr) : Prop := ∀ p, bearer_of header = Some p → is_Some (utf8 p).

Lemma bearer_nonempty header p : bearer_of header = Some p → p ≠ [].
Proof.
  unfold bearer_of. destruct (partition_at _ _) as [scheme presented].
  destruct (bool_decide (presented = [])) eqn:E; [by rewrite andb_false_r|].
  apply bool_decide_eq_false in E. destruct (_ && _); [by intros [= <-]|done].
Qed.
Lemma same_token_spec a b :
  match same_token a b with
  | Ret same => same = bool_decide (a = b) ∧ is_Some (utf8 a) ∧ is_Some (utf8 b)
  | Raise e => e = Exn "UnicodeEncodeError" "surrogates not allowed"
  end.
Proof.
  unfold same_token. destruct (utf8 a) as [x|] eqn:Ea; [|done]. destruct (utf8 b) as [y|] eqn:Eb; [|done].
  split; [|eauto]. apply bool_decide_ext. split; [intros ->; by eapply utf8_inj|congruence].
Qed.
Lemma same_token_refl a : is_Some (utf8 a) → same_token a a = Ret true.
Proof. unfold same_token. intros [x ->]. by rewrite bool_decide_true. Qed.

Lemma token_text_encodes t : token_text t → is_Some (utf8 t).
Proof.
  intros [_ Ht]. rewrite utf8_ascii; [done|]. eapply Forall_impl; [exact Ht|]. by intros c [? _].
Qed.

Lemma stranger_refused m r w :
  elem (r_path r) _UNAUTHED_PATHS = false → token_of w ≠ [] → is_Some (utf8 (token_of w)) →
  bearer_of (r_authorization r) ≠ Some (token_of w) →
  (application handlers m r w).2 = w ∧
  (readable (r_authorization r) → (application handlers m r w).1 ∈ refusals).
Proof.
  intros Hp Hn Hu Hb. unfold application, _bearer_auth_middleware. rewrite Hp. fold (token_of w).
  rewrite bool_decide_false by done.
  destruct (bearer_of (r_authorization r)) as [presented|] eqn:E; [|split; [done|by left]].
  pose proof (same_token_spec presented (token_of w)) as Hs.
  destruct (same_token _ _) as [same|e] eqn:Es.
  - destruct Hs as [-> _]. rewrite bool_decide_false by congruence. split; [done|by right; left].
  - split; [done|]. intros Hr. destruct (Hr _ E) as [x Hx], Hu as [y Hy].
    unfold same_token in Es. by rewrite Hx, Hy in Es.
Qed.

(** C9. Only the holder of the local token is served, on a node that has one.  On
    every path but the five public ones, a request whose header does not carry
    exactly the token reaches no endpoint and changes nothing, and is answered
    with one of two fixed refusals when its bearer can be encoded (a lone
    surrogate in it is an internal error instead); a request whose header carries
    the token is what the endpoint makes of it. *)
Theorem strangers_are_refused m r w :
  elem (r_path r) _UNAUTHED_PATHS = false → token_of w ≠ [] → is_Some (utf8 (token_of w)) →
  (bearer_of (r_authorization r) ≠ Some (token_of w) →
   (application handlers m r w).2 = w ∧
   (readable (r_authorization r) → (application handlers m r w).1 ∈ refusals)) ∧
  (bearer_of (r_authorization r) = Some (token_of w) → application handlers m r w = run_endpoint handlers m r w).
Proof.
  intros Hp Hn Hu. split; [by apply stranger_refused|]. intros Hb. unfold application, _bearer_auth_middleware. rewrite Hp.
  fold (token_of w). rewrite Hb. rewrite bool_decide_false by done. by rewrite same_token_refl.
Qed.

(** ** The commands of the API *)

Lemma dispatch_async_agree (h1 h2 : pystr → @handler W) command params caller st :
  h1 command = h2 command → dispatch_async h1 command params caller st = dispatch_async h2 command params caller st.
Proof.
  intros E. unfold dispatch_async. destruct (collect_codes _); [|done]. unfold lookup_handler. by rewrite E.
Qed.

(** The API runs two commands, [ping] and [system.which]: whatever the handlers of
    the others are, the answers of any requests and what they leave behind are the
    same. *)
Theorem api_runs_two_commands handlers' requests w :
  (∀ c, c ∈ _HTTP_COMMAND_ALLOWLIST → handlers c = handlers' c) →
  serve_requests handlers requests w = serve_requests handlers' requests w.
Proof.
  intros E.
  assert (Hrun : ∀ c params v, c ∈ _HTTP_COMMAND_ALLOWLIST →
    run_command handlers c params v = run_command handlers' c params v).
  { intros c params v Hc. unfold run_command. rewrite (dispatch_async_agree handlers handlers') by auto. done. }
  assert (Hping : ∀ r v, command_ping handlers r v = command_ping handlers' r v).
  { intros r v. unfold command_ping, with_body. destruct (_json_body r) as [[body|]|]; [|done..].
    by rewrite Hrun by (by left). }
  assert (Hdispatch : ∀ c r v, command_dispatch handlers c r v = command_dispatch handlers' c r v).
  { intros c r v. unfold command_dispatch, elem. case_bool_decide as Hc; [|done]. cbn [negb]. unfold with_body.
    destruct (_json_body r) as [[body|]|]; [|done..]. by rewrite Hrun. }
  assert (Happ : ∀ m r v, application handlers m r v = application handlers' m r v).
  { intros m r v. unfold application, _bearer_auth_middleware.
    assert (run_endpoint handlers m r v = run_endpoint handlers' m r v) as ->; [|done].
    unfold run_endpoint. destruct (route _ _) as [[]|]; auto. }
  revert w. induction requests as [|[m r] requests IH]; intros w; [done|]. cbn [serve_requests]. rewrite Happ.
  destruct (application handlers' m r w) as [answer v]. by rewrite IH.
Qed.

(** ** The token is announced once *)

(** A request that was given the token. *)
Definition announces (a : Request * res reply) : bool :=
  bool_decide (r_path a.1 = "/v1/bootstrap"%py) && match a.2 with Ret (Response 200 _ _) => true | _ => false end.
(** A request that may be given it. *)
Definition may_announce w (r : Request) : Prop :=
  (addon_mode (config (runtime w)) = true → _is_supervisor_network (r_remote r) = true) ∧
  (r_at r - startup_time (runtime w) ≤ BOOTSTRAP_WINDOW_SECONDS * 1000000)%Z ∧ bootstrap_token (runtime w) ≠ [].
(** What no request changes, and that no request brings a token back. *)
Record stays w w' : Prop := {
  stays_mode : addon_mode (config (runtime w')) = addon_mode (config (runtime w));
  stays_start : startup_time (runtime w') = startup_time (runtime w);
  stays_token : bootstrap_token (runtime w') = bootstrap_token (runtime w) ∨ bootstrap_token (runtime w') = [] }.
Lemma stays_refl w : stays w w.
Proof. split; auto. Qed.
Lemma stays_trans a b c : stays a b → stays b c → stays a c.
Proof. intros [? ? [Hb|Hb]] [? ? [Hc|Hc]]; split; try congruence; rewrite ?Hc, ?Hb; auto. Qed.
Lemma stays_on_runtime f w :
  (∀ rt, addon_mode (config (f rt)) = addon_mode (config rt) ∧ startup_time (f rt) = startup_time rt ∧
         (bootstrap_token (f rt) = bootstrap_token rt ∨ bootstrap_token (f rt) = [])) → stays w (on_runtime f w).
Proof. intros Hf. destruct (Hf (runtime w)) as (? & ? & ?). by split. Qed.
Lemma stays_mark name time_text w (k : World → res reply * World) :
  (∀ v, stays w v → runtime v = set_rt_disk (rt_disk (runtime v)) (runtime w) → stays w (k v).2) →
  stays w (mark name time_text w k).2.
Proof.
  intros Hk. unfold mark. destruct (_write_bootstrap_consumed _ _ _) as [o d].
  set (v := on_runtime (set_rt_disk d) w).
  assert (Hv : stays w v) by (apply stays_on_runtime; auto).
  destruct o; [by apply Hk|]. destruct (is_oserror e); [by apply Hk|done].
Qed.
Lemma stays_runtime w w' : runtime w' = runtime w → stays w w'.
Proof. intros E. split; rewrite E; auto. Qed.
Lemma with_body_runtime r w k :
  (∀ body, runtime (k body).2 = runtime w) → runtime (with_body r w k).2 = runtime w.
Proof. intros Hk. unfold with_body. by destruct (_json_body r) as [[]|]. Qed.
Lemma run_command_runtime c params w : runtime (run_command handlers c params w).2 = runtime w.
Proof. unfold run_command. by destruct (dispatch_async _ _ _ _ _). Qed.
Lemma bootstrap_stays r w : stays w (bootstrap r w).2.
Proof.
  unfold bootstrap. repeat (case_match; [apply stays_refl|]). apply stays_mark. intros v Hv _. cbn [snd].
  eapply stays_trans; [exact Hv|]. apply stays_on_runtime. intros rt. split_and!; [done..|by right].
Qed.
Lemma rotation_stays fresh r w : stays w (claim_rotation fresh r w).2.
Proof.
  unfold claim_rotation. repeat (case_match; [apply stays_refl|]).
  destruct (rotate_local_api_token _ _ _) as [o d]. set (v := on_runtime (set_rt_disk d) w).
  assert (Hv : stays w v) by (apply stays_on_runtime; auto).
  destruct o as [token|e]; [|by case_match].
  eapply stays_trans; [exact Hv|]. eapply stays_trans; [|apply stays_mark; intros x Hx _; exact Hx].
  apply stays_on_runtime. auto.
Qed.
Lemma claim_stays fresh r w : stays w (bootstrap_claim fresh r w).2.
Proof.
  unfold bootstrap_claim. destruct (bearer_of _) as [p|]; [|apply stays_refl].
  destruct (if bool_decide _ then _ else _) as [[]|]; [| |apply stays_refl].
  - case_match; [apply rotation_stays|apply stays_refl].
  - destruct (same_token _ _) as [[]|]; [apply rotation_stays|apply stays_refl..].
Qed.
Lemma endpoint_stays m r w : stays w (run_endpoint handlers m r w).2.
Proof.
  unfold run_endpoint. destruct (route _ _) as [[| |command| | | | | | |]|]; try apply stays_refl.
  - apply stays_runtime, with_body_runtime. intros body. pose proof (run_command_runtime "ping" body w) as E.
    by destruct (run_command _ _ _ _) as [[] ?].
  - unfold command_dispatch. case_match; [apply stays_refl|]. apply stays_runtime, with_body_runtime. intros body.
    pose proof (run_command_runtime command body w) as E. destruct (run_command _ _ _ _) as [[] ?]; [done|]. by case_match.
  - apply stays_runtime, with_body_runtime. done.
  - apply stays_runtime, with_body_runtime. done.
  - apply bootstrap_stays.
  - apply claim_stays.
Qed.
Lemma app_stays m r w : stays w (application handlers m r w).2.
Proof.
  unfold application, _bearer_auth_middleware. case_match; [apply endpoint_stays|]. case_match; [apply stays_refl|].
  destruct (bearer_of _); [|apply stays_refl]. destruct (same_token _ _) as [[]|]; [apply endpoint_stays|apply stays_refl..].
Qed.
Lemma bootstrap_announces r w :
  match (bootstrap r w).1 with Ret (Response 200 _ _) => True | _ => False end →
  may_announce w r ∧ bootstrap_token (runtime (bootstrap r w).2) = [].
Proof.
  unfold bootstrap, may_announce, detailed. destruct (addon_mode _ && _) eqn:Ea; [done|].
  destruct (Z.ltb_spec (BOOTSTRAP_WINDOW_SECONDS * 1000000) (r_at r - startup_time (runtime w))) as [Hz|Hz]; [done|].
  destruct (marked _ _); [done|]. case_bool_decide as Ht; [done|]. unfold mark.
  destruct (_write_bootstrap_consumed _ _ _) as [o d]. intros Hd. split.
  - split_and!; [|done..]. intros Hm. rewrite Hm in Ea. by apply negb_false_iff in Ea.
  - destruct o as [u|e]; [done|]. by destruct (is_oserror e).
Qed.
Lemma app_announces m r w :
  announces (r, (application handlers m r w).1) = true →
  may_announce w r ∧ bootstrap_token (runtime (application handlers m r w).2) = [].
Proof.
  unfold announces. cbn [fst snd]. case_bool_decide as Hp; [|done]. cbn [andb].
  unfold application, _bearer_auth_middleware. rewrite Hp.
  assert (elem "/v1/bootstrap" _UNAUTHED_PATHS = true) as -> by (vm_compute; reflexivity).
  unfold run_endpoint. rewrite Hp.
  assert (route (r_method r) "/v1/bootstrap" = inl Bootstrap ∨ route (r_method r) "/v1/bootstrap" = inr 405%Z) as [-> | ->].
  { unfold route. assert (dget "/v1/bootstrap" routes = Some ("GET"%py, Bootstrap)) as -> by (vm_compute; reflexivity).
    destruct (method_fits _ _); [by left|right]. reflexivity. }
  - intros Ha. apply bootstrap_announces. by repeat (case_match; try done).
  - done.
Qed.

Lemma nothing_to_announce requests w :
  bootstrap_token (runtime w) = [] → List.filter announces (serve_requests handlers requests w).1 = [].
Proof.
  revert w. induction requests as [|[m r] requests IH]; intros w Hw; [done|]. cbn [serve_requests].
  pose proof (app_announces m r w) as Ha. pose proof (app_stays m r w) as [_ _ Hs].
  destruct (application handlers m r w) as [answer w']. cbn [fst snd] in *.
  specialize (IH w' ltac:(destruct Hs; congruence)). destruct (serve_requests handlers requests w') as [answers w''].
  cbn [fst List.filter]. destruct (announces (r, answer)) eqn:E; [|done].
  destruct (Ha eq_refl) as [(_ & _ & Hne) _]. done.
Qed.

(** C21. The token is announced at most once in the life of a process, whatever
    requests it gets, from whom and in what order: only to a request that comes
    from the Supervisor's network when the node is an add-on, within the window
    after the start, and only while there is one to announce. *)
Theorem token_announced_once requests w :
  length (List.filter announces (serve_requests handlers requests w).1) ≤ 1 ∧
  ∀ a, a ∈ (serve_requests handlers requests w).1 → announces a = true → may_announce w a.1.
Proof.
  revert w. induction requests as [|[m r] requests IH]; intros w; [split; [simpl; lia|by intros a ?%elem_of_nil]|]. cbn [serve_requests].
  pose proof (app_announces m r w) as Ha. pose proof (app_stays m r w) as [Hm Ht Hs].
  destruct (application handlers m r w) as [answer w']. cbn [fst snd] in *.
  specialize (IH w'). pose proof (nothing_to_announce requests w') as Hnone. destruct (serve_requests handlers requests w') as [answers w''].
  cbn [fst List.filter] in *. destruct IH as [Hlen Hall]. split.
  - destruct (announces (r, answer)) eqn:E; [|done]. cbn [length]. rewrite Hnone; [done|by apply Ha].
  - intros a [->|Hin]%elem_of_cons Hann; [by apply Ha|].
    destruct (Hall a Hin Hann) as (Hn1 & Hn2 & Hn3). rewrite Hm in Hn1. rewrite Ht in Hn2.
    split_and!; [done..|]. destruct Hs; congruence.
Qed.

(** ** The markers on the disk *)

Definition data_ok w : Prop := dir_ok (rt_disk (runtime w)) (dir_parts (runtime w)).
Definition reads_tokens w : Prop := os_fault (SysRead (token_file (dir_parts (runtime w)))) = None.

Lemma rt_disk_set d rt : rt_disk (set_rt_disk d rt) = d.
Proof. done. Qed.
Lemma consumed_clean : clean_part consumed_name.
Proof. split_and!; [discriminate..|]. apply (bool_decide_unpack (SL ∉ consumed_name)). vm_compute. exact I. Qed.
Lemma unmarked_absent d dir name :
  dir_ok d dir → clean_part name → is_symlink d dir name = false → path_exists d (dir ++ [name]) = false →
  d !! (dir ++ [name]) = None.
Proof.
  intros [Hw Hc Hl Hd] Hn. unfold is_symlink, path_exists.
  assert (namei lookup_budget d [] dir = inr dir) as -> by (apply (namei_reaches _ _ []); [done..|exact (mk_is_Some _ _ Hd)]).
  cbv iota beta. rewrite node_at_snoc. destruct (d !! (dir ++ [name])) as [x|] eqn:E; [|done]. intros Hx He.
  rewrite (namei_reaches _ _ []) in He; [done|done|by apply clean_snoc| |].
  - apply link_free_snoc; [done|]. rewrite links_of_lookup, E. by destruct x.
  - exists x. etransitivity; [apply node_at_snoc|exact E].
Qed.

(** The window does not open again with a restart: behind a request that was given
    the token, when no call of the operating system fails, no process that starts
    on the data directory announces a token, be it a new one. *)
Theorem restart_announces_nothing r r' w (v : @World W) payload bearer :
  data_ok w → (∀ c, os_fault c = None) → Forall (λ c, (c < 128)%N) (r_time r) →
  (bootstrap r w).1 = Ret (Response 200 payload bearer) →
  rt_disk (runtime v) = rt_disk (runtime (bootstrap r w).2) → dir_parts (runtime v) = dir_parts (runtime w) →
  ∃ status code detail, (bootstrap r' v).1 = Ret (detailed status code detail) ∨ (bootstrap r' v).1 = Ret (HttpError 404).
Proof.
  intros Hok Hf Ht Hb Hdisk Hdir.
  assert (Hm : marked (runtime v) consumed_name = true).
  { revert Hb Hdisk. unfold bootstrap. destruct (addon_mode _ && _); [done|]. destruct (_ <? _)%Z; [done|].
    destruct (marked _ _) eqn:Em; [done|]. case_bool_decide; [done|]. unfold mark.
    destruct (_write_bootstrap_consumed _ _ _) as [o d] eqn:Ew. intros _ Hdisk.
    assert (Ed : rt_disk (runtime v) = d) by (destruct o as [|e]; [done|by destruct (is_oserror e)]). clear Hdisk.
    unfold marked in Em |- *. apply orb_false_iff in Em as [Es Ee]. rewrite Hdir, Ed.
    pose proof (unmarked_absent _ _ _ Hok consumed_clean Es Ee) as Habs.
    destruct (ascii_encodable (r_time r ++ [NL])) as (bytes & Hu & _).
    { apply Forall_app. split; [done|by apply Forall_singleton]. }
    unfold _write_bootstrap_consumed, _write_private_file in Ew.
    rewrite mkdirs_there in Ew by apply Hok. cbv beta iota in Ew. rewrite app_nil_l in Ew. unfold _open_private_fd, open_trunc, encode_text in Ew.
    rewrite node_at_snoc, Habs, Hu in Ew. unfold sys, write_all in Ew. rewrite !Hf, insert_insert_eq in Ew. injection Ew as _ <-.
    destruct (plain_file_reads (<[dir_parts (runtime w) ++ [consumed_name] := File bytes]> (rt_disk (runtime w)))
                (dir_parts (runtime w)) consumed_name bytes) as (-> & _).
    - apply dir_ok_insert; [exact Hok|]. by rewrite Habs.
    - apply consumed_clean.
    - apply lookup_insert_eq.
    - by rewrite orb_true_r. }
  unfold bootstrap. rewrite Hm. destruct (addon_mode _ && _); [by exists 0%Z, [], []; right|].
  destruct (_ <? _)%Z; eexists _, _, _; by left.
Qed.

(** ** The token is rotated *)

Lemma mark_answer name time_text w a (a' : reply) w' :
  mark name time_text w (λ w, (Ret a, w)) = (Ret a', w') →
  a' = a ∧ ∃ d, runtime w' = set_rt_disk d (runtime w) ∧
    ∃ o, _write_bootstrap_consumed (runtime w) name time_text = (o, d).
Proof.
  unfold mark. destruct (_write_bootstrap_consumed _ _ _) as [o d]. destruct o as [|e]; [|destruct (is_oserror e)];
    intros [= <- <-]; split; try done; exists d; eauto.
Qed.
Lemma rotation_spec fresh r w token w' :
  data_ok w → reads_tokens w → token_text fresh → claim_rotation fresh r w = (Ret (token_answer token), w') →
  token = fresh ∧ token_of w' = fresh ∧ bootstrap_claimed_token (runtime w') = fresh ∧
  bootstrap_claim_token (runtime w') = bootstrap_claim_token (runtime w) ∧
  stored_token (rt_disk (runtime w')) (dir_parts (runtime w)) = Ok (Some fresh).
Proof.
  intros Hok Hr Ht. unfold claim_rotation. destruct (_ || _); [done|]. destruct (marked _ _); [done|].
  unfold rotate_local_api_token. destruct (_write_token _ _ _) as [[[]|e] d] eqn:Ew; [|by case_match].
  set (v := on_runtime _ (on_runtime _ w)). intros Hm. apply mark_answer in Hm as ([= ->] & d' & E & o & Em).
  unfold token_of. rewrite E. split_and!; [done..|]. rewrite rt_disk_set.
  destruct (private_file_kept _ _ _ claimed_name _ _ _ Hok Ew) as [Hok' _].
  destruct (private_file_kept _ _ _ _TOKEN_FILENAME _ _ _ Hok' Em) as [Hok'' Hkept].
  destruct (write_private_file_spec _ _ _ _ _ _ Hok Ew) as [[? _]|(bytes & _ & Hd & Hu)]; [done|].
  eapply stored_token_plain; [exact Hok''|done|by apply Hu| |exact Hr].
  unfold token_file. rewrite Hkept by discriminate. subst d. apply lookup_insert_eq.
Qed.
Lemma claim_cases fresh r w answer w' :
  bootstrap_claim fresh r w = (Ret answer, w') →
  (∃ presented, bearer_of (r_authorization r) = Some presented ∧
     (presented = bootstrap_claim_token (runtime w) ∨ presented = token_of w) ∧
     (claim_rotation fresh r w = (Ret answer, w') ∨
      bootstrap_claimed_token (runtime w) ≠ [] ∧ answer = token_answer (bootstrap_claimed_token (runtime w)) ∧ w' = w))
  ∨ w' = w ∧ ∀ token, answer ≠ token_answer token.
Proof.
  unfold bootstrap_claim. destruct (bearer_of _) as [p|]; [|intros [= <- <-]; by right].
  pose proof (same_token_spec p (bootstrap_claim_token (runtime w))) as Hc.
  pose proof (same_token_spec p (local_api_token (config (runtime w)))) as Hl.
  destruct (if bool_decide _ then _ else _) as [[]|] eqn:Ea; [| |done].
  - assert (p = bootstrap_claim_token (runtime w)) as Hp.
    { case_bool_decide; [done|]. rewrite Ea in Hc. destruct Hc as [Hb _]. symmetry in Hb. by apply bool_decide_eq_true in Hb. }
    clear Ea Hc Hl. case_bool_decide as Hn; [intros E|intros [= <- <-]]; left; exists p; split_and!; auto.
  - destruct (same_token p (local_api_token _)) as [[]|]; [|intros [= <- <-]; by right|done].
    destruct Hl as [Hb _]. symmetry in Hb. apply bool_decide_eq_true in Hb. intros E. left. exists p. split_and!; auto.
Qed.

(** C10. The hand-over.  A claim that is answered with a token, the first of a process,
    was made by a holder of the announced token or of the local one.  The token of
    the answer is a fresh one: from now on the local token, which the next start
    loads, so that the old one opens no path any more but the public ones. *)
Theorem token_is_handed_over fresh r w token w' :
  data_ok w → reads_tokens w → token_text fresh → bootstrap_claimed_token (runtime w) = [] →
  bootstrap_claim fresh r w = (Ret (token_answer token), w') →
  (bearer_of (r_authorization r) = Some (bootstrap_claim_token (runtime w)) ∨ bearer_of (r_authorization r) = Some (token_of w)) ∧
  token = fresh ∧ token_of w' = fresh ∧
  stored_token (rt_disk (runtime w')) (dir_parts (runtime w)) = Ok (Some fresh) ∧
  (∀ m r', elem (r_path r') _UNAUTHED_PATHS = false → token_of w ≠ fresh →
     bearer_of (r_authorization r') = Some (token_of w) →
     (application handlers m r' w').2 = w' ∧
     (is_Some (utf8 (token_of w)) → (application handlers m r' w').1 ∈ refusals)).
Proof.
  intros Hok Hr Ht Hnone Hc.
  destruct (claim_cases _ _ _ _ _ Hc) as [(p & Hp & Hwho & [Hrot|(Hne & _)])|[_ Hno]]; [|done|by destruct (Hno token)].
  destruct (rotation_spec _ _ _ _ _ Hok Hr Ht Hrot) as (-> & Htok & Hclaimed & Hann & Hst).
  split; [rewrite Hp; destruct Hwho as [-> | ->]; auto|]. split_and!; [done..|].
  intros m r' Hpath Hne Hb. destruct (stranger_refused m r' w' Hpath) as [Hw Hr']; rewrite ?Htok;
    [by apply Ht|by apply token_text_encodes|congruence|]. split; [done|].
  intros Hu. apply Hr'. intros p' E. rewrite Hb in E. by injection E as <-.
Qed.

(** Once the token has been handed over, a claim with the announced token is
    answered with the rotated token again, and changes nothing. *)
Theorem announced_token_keeps_its_claim fresh r w token w' fresh' r' :
  data_ok w → reads_tokens w → token_text fresh → bootstrap_claimed_token (runtime w) = [] →
  bootstrap_claim fresh r w = (Ret (token_answer token), w') →
  bearer_of (r_authorization r') = Some (bootstrap_claim_token (runtime w)) →
  is_Some (utf8 (bootstrap_claim_token (runtime w))) →
  bootstrap_claim fresh' r' w' = (Ret (token_answer fresh), w').
Proof.
  intros Hok Hr Ht Hnone Hc Hb Hu.
  destruct (claim_cases _ _ _ _ _ Hc) as [(p & Hp & Hwho & [Hrot|(Hne & _)])|[_ Hno]]; [|done|by destruct (Hno token)].
  destruct (rotation_spec _ _ _ _ _ Hok Hr Ht Hrot) as (-> & Htok & Hclaimed & Hann & Hst).
  unfold bootstrap_claim. rewrite Hb, Hann, Hclaimed.
  apply bearer_nonempty in Hb. rewrite bool_decide_false by done. rewrite same_token_refl by done.
  destruct Ht as [Hf _]. by rewrite bool_decide_false.
Qed.
End access.

(** ** Streams *)

Section streams.

(** Texts the gateway can have sent, and a number that is not endless. *)
Definition chunk_ok (o : RelayTurn.out) : Prop := flat (chunk_dict o).
Definition end_ok (o : relayed unit) : Prop := flat (end_dict o).

Lemma object_reads d : d ≠ [] → flat d → NoDup (dkeys d) → loads (json_object d) = Ret (JDict d).
Proof. intros. apply (loads_spaced [] " " " " []); by repeat constructor. Qed.
Lemma object_line d : flat d → NL ∉ json_object d.
Proof.
  intros Hd. assert (Hv : Forall visible (json_object d)).
  { unfold json_object. apply Forall_app_2; [by apply visible_literal|]. apply Forall_app_2; [|by apply visible_literal].
    apply join_visible; [by apply visible_literal|]. apply Forall_fmap. eapply Forall_impl; [exact Hd|].
    intros kv [_ Ha]. by apply spaced_visible; [apply visible_literal|]. }
  intros Hin. rewrite Forall_forall in Hv. destruct (Hv _ Hin) as [Hlo _]. by vm_compute in Hlo.
Qed.
Lemma compact_line d : flat d → NL ∉ dumps_compact (JDict d).
Proof. intros Hd Hin. apply flat_visible in Hd. rewrite Forall_forall in Hd. destruct (Hd _ Hin) as [Hlo _]. by vm_compute in Hlo. Qed.
Lemma chunk_keys o : chunk_dict o ≠ [] ∧ NoDup (dkeys (chunk_dict o)).
Proof.
  destruct o as [s| |f]; (split; [done|]); try (apply (bool_decide_unpack (NoDup _)); vm_compute; exact I).
  cbn [chunk_dict]. by destruct (frame_id f); apply (bool_decide_unpack (NoDup _)); vm_compute.
Qed.
Lemma end_keys o : end_dict o ≠ [] ∧ NoDup (dkeys (end_dict o)).
Proof.
  destruct o as [u|e|]; (split; [done|]); try (apply (bool_decide_unpack (NoDup _)); vm_compute; exact I).
  cbn [end_dict]. by destruct (default [] (relay_remedy e)); apply (bool_decide_unpack (NoDup _)); vm_compute.
Qed.
Lemma chunk_reads o : chunk_ok o → loads (chunk_json o) = Ret (JDict (chunk_dict o)) ∧ NL ∉ chunk_json o.
Proof.
  intros Ho. destruct (chunk_keys o) as [Hne Hn].
  destruct o; [|split; [exact (loads_flat _ Hne Ho Hn)|by apply compact_line]|]; split;
    [by apply object_reads|by apply object_line|by apply object_reads|by apply object_line].
Qed.
Lemma end_reads o : end_ok o → loads (end_json o) = Ret (JDict (end_dict o)) ∧ NL ∉ end_json o.
Proof.
  intros Ho. destruct (end_keys o) as [Hne Hn].
  destruct o; [split; [exact (loads_flat _ Hne Ho Hn)|by apply compact_line]| |
               split; [exact (loads_flat _ Hne Ho Hn)|by apply compact_line]].
  split; [by apply object_reads|by apply object_line].
Qed.

(** The client reads back what was sent.  Cut at its line ends, the body of a
    stream is one JSON object for each chunk of the turn, in order, then exactly
    one that ends the stream, and no more: whatever the texts hold, line ends,
    quotes and braces included. *)
Theorem stream_reads_back chunks o :
  Forall chunk_ok chunks → end_ok o →
  let lines := split_on NL (stream_body chunks o) in
  last lines = Some [] ∧
  map loads (removelast lines) = map (λ c, Ret (JDict (chunk_dict c))) chunks ++ [Ret (JDict (end_dict o))].
Proof.
  intros Hc Ho lines.
  assert (lines = map chunk_json chunks ++ [end_json o; []]) as ->.
  { unfold lines, stream_body. destruct (end_reads o Ho) as [_ Hend].
    induction Hc as [|c chunks Hc _ IH]; cbn [map concat]; [by rewrite !app_nil_l, split_on_app|].
    rewrite <- !app_assoc. cbn [app]. rewrite split_on_app by apply (chunk_reads c Hc). by rewrite IH. }
  rewrite (app_assoc _ [end_json o] [[]] : map chunk_json chunks ++ [end_json o; []] = _).
  rewrite last_snoc, removelast_last. split; [done|]. rewrite map_app. cbn [map].
  destruct (end_reads o Ho) as [-> _]. f_equal. rewrite map_map. apply map_ext_in. intros c Hin.
  rewrite Forall_forall in Hc. apply list_elem_of_In in Hin. by destruct (chunk_reads c (Hc c Hin)) as [-> _].
Qed.
End streams.

(** ** What the answers say *)

Section answers.
Context `{Unicode} `{Casing} `{Categories} `{WideText} `{Os} `{!Gateway}.
Context {W : Type}.
Implicit Types w : @World W.

(** Two configurations that differ in their secrets, in who the identities are,
    and in nothing else: of a secret only whether it is set is the same. *)
Definition same_set (a b : pystr) : Prop := a = [] ↔ b = [].
Record look_alike (c d : NodeConfig) : Prop := {
  alike_public : addon_mode c = addon_mode d ∧ gateway_url c = gateway_url d ∧ node_name c = node_name d ∧
                 hass_url c = hass_url d ∧ data_dir c = data_dir d ∧ reset_pairing c = reset_pairing d ∧
                 reset_bootstrap c = reset_bootstrap d ∧ vision_timeout_seconds c = vision_timeout_seconds d ∧
                 vision_model c = vision_model d;
  alike_secrets : same_set (pairing_token c) (pairing_token d) ∧ same_set (hass_token c) (hass_token d) ∧
                  same_set (supervisor_token c) (supervisor_token d) ∧ same_set (local_api_token c) (local_api_token d);
  alike_identity : size (super_admins (identity c)) = size (super_admins (identity d)) ∧
                   length (user_agent_map (identity c)) = length (user_agent_map (identity d)) ∧
                   same_set (default_agent_id (identity c)) (default_agent_id (identity d)) ∧
                   dkeys (forbidden_commands (identity c)) = dkeys (forbidden_commands (identity d)) ∧
                   size (addon_lifecycle_denylist (identity c)) = size (addon_lifecycle_denylist (identity d)) }.
Lemma is_set_same a b : same_set a b → is_set a = is_set b.
Proof. intros E. unfold is_set. by rewrite (bool_decide_ext _ _ E). Qed.
Lemma count_same {A B} (l : list A) (k : list B) : length l = length k → count l = count k.
Proof. unfold count. by intros ->. Qed.

(** The public paths tell nobody a secret: the answers of [/health] and of
    [/v1/conversation/info] are the same for two nodes whose configurations differ
    only in the values of their secrets and in their users and agents. *)
Theorem status_reveals_no_secret rt rt' :
  look_alike (config rt) (config rt') → rt_pairing rt = rt_pairing rt' → gateway_connected rt = gateway_connected rt' →
  health rt = health rt' ∧ conversation_info rt = conversation_info rt'.
Proof.
  intros [(E1 & E2 & E3 & E4 & E5 & E6 & E7 & E8 & E9) (S1 & S2 & S3 & S4) (I1 & I2 & I3 & I4 & I5)] Hp Hg.
  unfold health, conversation_info, _safe_config, is_paired. rewrite Hp, Hg. split; [|done].
  rewrite (is_set_same _ _ S1), (is_set_same _ _ S2), (is_set_same _ _ S3), (is_set_same _ _ S4), (is_set_same _ _ I3).
  rewrite (count_same _ _ I2), (count_same _ _ (I1 : length (elements _) = length (elements _))),
    (count_same _ _ (I5 : length (elements _) = length (elements _))).
  congruence.
Qed.

(** An image request is refused with a text of the node's own: whatever the
    gateway, a plugin or the node raised, what the caller gets is a code with the
    message the code has in the table, and the message and remedy of the error do
    not show but by the choice of the code. *)
Definition curated (a : reply) : Prop :=
  ∃ status code msg, a = Response status (JDict [("ok", JBool false); ("error", JStr code); ("message", JStr msg)]%py) false ∧
    msg ∈ map snd ERROR_MESSAGES ∧ (400 ≤ status < 600)%Z.
Lemma vision_error_curated code : curated (_vision_error code).
Proof.
  exists (default 502%Z (dget code _VISION_STATUS)), code. eexists. split; [reflexivity|]. split.
  - destruct (dget code ERROR_MESSAGES) as [msg|] eqn:E; cbn [default].
    + apply dget_elem in E. apply list_elem_of_fmap. by exists (code, msg).
    + apply (bool_decide_unpack (_ ∈ _)). vm_compute. exact I.
  - destruct (dget code _VISION_STATUS) as [status|] eqn:E; [|done]. apply dget_elem in E. cbn [default].
    assert (Hall : Forall (λ kv : pystr * Z, 400 ≤ kv.2 < 600)%Z _VISION_STATUS) by (repeat constructor; done).
    rewrite Forall_forall in Hall. exact (Hall _ E).
Qed.
Lemma vision_requested r w : curated (vision_describe r w) ∨ ∃ relay c, vision_describe r w = CallsRelay relay c.
Proof.
  unfold vision_describe. repeat (case_match; try (left; apply vision_error_curated)). eauto.
Qed.
Theorem vision_errors_are_curated r w o :
  (curated (vision_describe r w) ∨ ∃ relay c, vision_describe r w = CallsRelay relay c) ∧
  (curated (vision_answer o) ∨
   ∃ d text, o = inr (Replied d) ∧ dget "text" d = Some (JStr text) ∧ strip text ≠ [] ∧
     vision_answer o = Response 200 (JDict [("ok", JBool true); ("text", JStr (strip text))]%py) false).
Proof.
  split; [apply vision_requested|]. unfold vision_answer.
  destruct o as [e|[d|e|]]; try (left; apply vision_error_curated).
  unfold get_or_null. destruct (dget "text" d) as [[]|] eqn:E; try (left; apply vision_error_curated).
  cbv iota beta delta [default from_option id]. destruct (strip s) eqn:Es; [left; apply vision_error_curated|]. right. exists d, s. rewrite Es. done.
Qed.
End answers.

(** ** Witnesses *)

#[local] Instance every_char_prints : Unicode := {| uni_printable := λ _, true; uni_decimal := λ _, None |}.
#[local] Existing Instance ascii_casing.
#[local] Instance ascii_controls : Categories :=
  {| category_other := λ c, ((c <? 32) || (c =? 127))%N; category_other_ascii := λ _ _, eq_refl |}.
#[local] Instance utf8_only : WideText := {| wide_decode := λ _ _, None |}.
#[local] Instance sound_os : Os := {| os_fault := λ _, None; os_openat2 := true; os_partial := 0; os_fd := 3 |}.
#[local] Instance counted : Gateway :=
  {| uuid := λ n, "u" ++ str_of_nat n; clock := λ n, Z.of_nat n; monotonic := λ n, Z.of_nat n;
     send_fault := λ _, None; version := "1" |}.
Definition demo_config : NodeConfig :=
  {| addon_mode := true; gateway_url := "wss://g"; pairing_token := "pair"; node_name := []; hass_url := []; hass_token := [];
     supervisor_token := []; data_dir := path_of "/data"; local_api_token := "old"; identity := identity_default;
     reset_pairing := "none"; reset_bootstrap := false; vision_timeout_seconds := DEFAULT_VISION_TIMEOUT_SECONDS; vision_model := [] |}.
Definition demo_shared : Shared :=
  {| disk_of := list_to_map [(["data"%py], Dir); (["data"%py; "local-api-token"%py], File [111; 108; 100; 10]%N)];
     relays := ∅; chat_relay := None; node_connected := false; operator_connected := false |}.
Definition demo_world : @World nat :=
  {| runtime := new_runtime demo_config "old" 0 demo_shared; commands := {| world := 0; CURRENT_CALLER := None |} |}.
Definition request (method path header : pystr) : Request :=
  {| r_method := method; r_path := path; r_remote := Some "172.30.33.7"%py; r_authorization := header; r_body := None;
     r_content_length := None; r_chunks := []; r_at := 1000000; r_time := "1.5" |}.
Definition demo_moment : moment := {| m_now := 0; m_fresh := "new"; m_get := λ _ _, inr (Unreachable []) |}.
Definition counting (c : pystr) : @handler nat := Sync (λ n _ _, (S n, Ret (JStr c))).
Definition locked (c : pystr) : @handler nat :=
  if elem c _HTTP_COMMAND_ALLOWLIST then counting c else Sync (λ n _ _, (n, Ret JNull)).

Lemma demo_data : data_ok demo_world.
Proof.
  assert (Hg : good_root (disk_of demo_shared) (abs_path ["data"%py])) by (apply good_rootb_spec; vm_compute; reflexivity).
  destruct Hg as (_ & Hc & Hl). split; [|exact Hc|exact Hl|vm_compute; reflexivity].
  apply disk_wfb_spec. vm_compute. reflexivity.
Qed.
Lemma demo_token (t : pystr) : t ≠ [] → forallb (λ c, (c <? 128)%N && negb (is_space c)) t = true → token_text t.
Proof.
  intros Hn Ht. split; [done|]. apply Forall_forall. intros c Hc. rewrite forallb_true_forall in Ht. specialize (Ht c Hc).
  apply andb_prop in Ht as [Hlt Hs]. split; [by apply N.ltb_lt|by apply negb_true_iff].
Qed.

Example strangers_are_refused_witness :
  let guess := request "POST" "/v1/commands/ping" "Bearer guess" in
  let held := request "POST" "/v1/commands/ping" "Bearer old" in
  (application counting demo_moment guess demo_world).1 ∈ refusals ∧
  application counting demo_moment held demo_world = run_endpoint counting demo_moment held demo_world.
Proof.
  intros guess held. split.
  - apply (strangers_are_refused counting demo_moment guess demo_world).
    + vm_compute. reflexivity.
    + vm_compute. discriminate.
    + vm_compute. eexists. reflexivity.
    + vm_compute. discriminate.
    + intros p Hp. vm_compute in Hp. injection Hp as <-. vm_compute. eexists. reflexivity.
  - apply (strangers_are_refused counting demo_moment held demo_world).
    + vm_compute. reflexivity.
    + vm_compute. discriminate.
    + vm_compute. eexists. reflexivity.
    + vm_compute. reflexivity.
Defined.
Example api_runs_two_commands_witness :
  let requests := [(demo_moment, request "POST" "/v1/commands/fs.write" "Bearer old");
                   (demo_moment, request "POST" "/v1/commands/ping" "Bearer old")] in
  serve_requests counting requests demo_world = serve_requests locked requests demo_world ∧
  world (commands (serve_requests counting requests demo_world).2) = 1.
Proof.
  split; [|vm_compute; reflexivity]. apply (api_runs_two_commands counting locked).
  intros c Hc. unfold locked, elem. by rewrite bool_decide_true.
Defined.
Example token_announced_once_witness :
  let answers := (serve_requests counting [(demo_moment, request "GET" "/v1/bootstrap" ""); (demo_moment, request "GET" "/v1/bootstrap" "")]
                    demo_world).1 in
  length (List.filter announces answers) = 1 ∧ length (List.filter announces answers) ≤ 1.
Proof. split; [vm_compute; reflexivity|]. apply (token_announced_once counting). Defined.
Example restart_announces_nothing_witness :
  let after := (bootstrap (request "GET" "/v1/bootstrap" "") demo_world).2 in
  let restarted := {| runtime := new_runtime demo_config "other" 0 (rt_shared (runtime after)); commands := commands after |} in
  ∃ status code detail,
    (bootstrap (request "GET" "/v1/bootstrap" "") restarted).1 = Ret (detailed status code detail) ∨
    (bootstrap (request "GET" "/v1/bootstrap" "") restarted).1 = Ret (HttpError 404).
Proof.
  intros after restarted.
  apply (restart_announces_nothing (request "GET" "/v1/bootstrap" "") (request "GET" "/v1/bootstrap" "") demo_world restarted
           (JDict [("ok", JBool true); ("token", JStr "old"); ("claim_endpoint", JStr "/v1/bootstrap/claim")]%py) false).
  - apply demo_data.
  - reflexivity.
  - repeat constructor.
  - vm_compute. reflexivity.
  - reflexivity.
  - reflexivity.
Defined.
(** Behind the announcement, the claim. *)
Definition demo_announced : @World nat := (bootstrap (request "GET" "/v1/bootstrap" "") demo_world).2.
Definition demo_claim : Request := request "POST" "/v1/bootstrap/claim" "Bearer old".
Definition announced_marker : list pystr := ["data"; "bootstrap-consumed"]%py.
Lemma demo_announced_data : data_ok demo_announced.
Proof.
  destruct (write_private_file_spec (rt_disk (runtime demo_world)) (dir_parts (runtime demo_world)) consumed_name ("1.5" ++ [NL])
              (Ok tt) (rt_disk (runtime demo_announced)) demo_data) as [[Hno _]|(bytes & Hp & E & _)].
  - assert (E : (_write_private_file (rt_disk (runtime demo_world)) (dir_parts (runtime demo_world)) consumed_name ("1.5" ++ [NL])).1
                = Ok tt) by (vm_compute; reflexivity).
    rewrite <- E. apply surjective_pairing.
  - done.
  - unfold data_ok. rewrite E. by apply dir_ok_insert; [apply demo_data|].
Qed.
Example token_is_handed_over_witness :
  let w' := (bootstrap_claim "new" demo_claim demo_announced).2 in
  (bootstrap_claim "new" demo_claim demo_announced).1 = Ret (token_answer "new") ∧ token_of w' = "new"%py ∧
  (application counting demo_moment (request "POST" "/v1/commands/ping" "Bearer old") w').1 ∈ refusals.
Proof.
  intros w'. assert (E : (bootstrap_claim "new" demo_claim demo_announced).1 = Ret (token_answer "new")) by (vm_compute; reflexivity).
  split; [exact E|].
  assert (E' : bootstrap_claim "new" demo_claim demo_announced = (Ret (token_answer "new"), w')) by (rewrite <- E; apply surjective_pairing).
  destruct (token_is_handed_over counting "new" demo_claim demo_announced "new" w') as (_ & _ & Ht & _ & Hold).
  - exact demo_announced_data.
  - reflexivity.
  - apply demo_token; [discriminate|vm_compute; reflexivity].
  - vm_compute. reflexivity.
  - exact E'.
  - split; [exact Ht|].
    apply Hold; [vm_compute; reflexivity|vm_compute; discriminate|vm_compute; reflexivity|vm_compute; eexists; reflexivity].
Defined.
Example stream_reads_back_witness :
  let chunks := [OText (34%N :: NL :: "}"); OKeepalive;
                 OFrame {| frame_phase := phase_start; frame_name := "search"; frame_id := []; frame_seq := 1 |}] in
  last (split_on NL (stream_body chunks (Refused (relay_error "TIMEOUT" "late")))) = Some [].
Proof.
  intros chunks. apply (stream_reads_back chunks (Refused (relay_error "TIMEOUT" "late"))).
  - repeat (apply Forall_cons; split); try (split; [apply scalars_spec; vm_compute; reflexivity|]); try apply Forall_nil;
      try exact I; try (apply scalars_spec; vm_compute; reflexivity). apply Nat.leb_le. vm_compute. reflexivity.
  - apply Forall_cons; split; [split; apply scalars_spec; vm_compute; reflexivity|by apply Forall_nil].
Defined.
Example status_reveals_no_secret_witness :
  health (runtime demo_world) = health (set_config (set_local_token "another" demo_config) (runtime demo_world)).
Proof.
  apply (status_reveals_no_secret (runtime demo_world) (set_config (set_local_token "another" demo_config) (runtime demo_world)));
    [|reflexivity|reflexivity].
  split; [by split_and!| |by split_and!]. split_and!; split; discriminate || done.
Defined.
