(* ===== verification/Startup.v ===== *)
(** [__main__.py]: what a start of the node does before its three tasks run: the
    resets the options ask for, the migration of an old token, the local token,
    the names of the identity options, and the two gateway clients.

    An exception that leaves a step ends the start. *)

From stdpp Require Import base list gmap sorting.
From Stdlib Require Import NArith ZArith Lia.
From S2P Require Import Prelude PyStr PyCase PyFloat Json JsonParse SafePath SafeFd Config Authz Relay Pairing PrivateFiles Identity.
From S2P Require Import Dispatch NodeConfig Vision Connection HttpApi.

(** ** Files *)

Section files.
Context `{Os}.

(** Where a file that is not there is created: behind the links at its name. *)
Fixpoint created_at (budget : nat) (d : disk) (dir : list pystr) (name : pystr) : errno + list pystr :=
  match node_at d (dir ++ [name]), budget with
  | Some (Link _), O => inl ELOOP
  | Some (Link t), S b =>
      let ps := split_on SL t in
      match namei lookup_budget d (if startswith t [SL] then [] else dir) (removelast ps), last ps with
      | inl e, _ => inl e
      | inr loc, Some n => if real_part n && negb (bool_decide (n = ".."%py)) then created_at b d loc n else inl EISDIR
      | inr _, None => inl ENOENT
      end
  | _, _ => inr (dir ++ [name])
  end.
(** [open(path, "w")] *)
Definition open_write (d : disk) (dir : list pystr) (name : pystr) : out (list pystr * disk) :=
  let found :=
    match namei lookup_budget d [] (dir ++ [name]) with
    | inl ENOENT => match namei lookup_budget d [] dir with inl e => inl e | inr loc => created_at lookup_budget d loc name end
    | found => found
    end in
  match found with
  | inl e => Err (OsError e NoName)
  | inr loc =>
      sys (SysCreate loc) NoName
        match node_at d loc with Some Dir => inl EISDIR | _ => inr (loc, <[loc := File []]> d) end
  end.
(** [Path.write_text] *)
Definition write_text (d : disk) (dir : list pystr) (name text : pystr) : out unit * disk :=
  match open_write d dir name with
  | Err e => (Err e, d)
  | Ok (loc, d) => match encode_text text with Err e => (Err e, d) | Ok bytes => write_all d loc bytes end
  end.
(** [Path.read_text] *)
Definition read_text (d : disk) (ps : list pystr) : out pystr := let# bytes := read_file d ps in decode_bytes bytes.
(** [Path.unlink] *)
Definition unlink_path (d : disk) (dir : list pystr) (name : pystr) : out disk :=
  match namei lookup_budget d [] dir with
  | inl e => Err (OsError e NoName)
  | inr loc => sys (SysUnlink (loc ++ [name])) NoName (sys_unlink d (loc ++ [name]))
  end.
End files.

Section start.
Context `{Unicode} `{Casing} `{WideText} `{Os} `{Ed25519} `{!Gateway}.

(** [except OSError]: the text of another error leaves. *)
Definition escapes {A} (r : out A) : option fserr :=
  match r with Err (OsError _ _) | Ok _ => None | Err e => Some e end.

(** ** The resets *)

Definition _RESET_CONSUMED_FILENAME : pystr := "reset-consumed".
(** [cwd] is the working directory of the process. *)
Definition _safe_to_unlink_under (d : disk) (cwd : list pystr) (p data_dir : path) : res bool :=
  let? resolved := SafePath.resolve (links_of d) cwd (path_str p) in
  Ret (relative_to resolved data_dir && negb (is_symlink d (path_file p).1 (path_file p).2)).
(** The loop over the targets: whether every removal went well. *)
Fixpoint wipe (cwd : list pystr) (data_dir : path) (targets : list path) (d : disk) : out bool * disk :=
  match targets with
  | [] => (Ok true, d)
  | p :: targets =>
      match _safe_to_unlink_under d cwd p data_dir with
      | Raise e => (Err (PyError e), d)
      | Ret safe =>
          if safe && path_exists d (parts p) then
            match unlink_path d (path_file p).1 (path_file p).2 with
            | Ok d => wipe cwd data_dir targets d
            | Err _ => let '(r, d) := wipe cwd data_dir targets d in (let# _ := r in Ok false, d)
            end
          else wipe cwd data_dir targets d
      end
  end.
Definition reset_targets (c : NodeConfig) : list path :=
  [device_token_path c; device_token_path_for c "node"; device_token_path_for c "operator"]
  ++ (if bool_decide (reset_pairing c = "token"%py) then [] else [key_path c]).
(** The marker of a mode that was carried out. *)
Definition consumed_mode (d : disk) (c : NodeConfig) : out (option pystr) :=
  let dir := parts (data_dir c) in
  if path_exists d (dir ++ [_RESET_CONSUMED_FILENAME]) then
    match read_text d (dir ++ [_RESET_CONSUMED_FILENAME]) with
    | Ok text => Ok (Some (strip text))
    | Err (OsError _ _) => Ok None
    | Err e => Err e
    end
  else Ok None.
Definition _reset_pairing_state (cwd : list pystr) (c : NodeConfig) (d : disk) : out unit * disk :=
  let mode := reset_pairing c in
  let dir := parts (data_dir c) in
  if bool_decide (mode = "none"%py) then
    if path_exists d (dir ++ [_RESET_CONSUMED_FILENAME]) && negb (is_symlink d dir _RESET_CONSUMED_FILENAME)
    then (Ok tt, match unlink_path d dir _RESET_CONSUMED_FILENAME with Ok d => d | Err _ => d end)
    else (Ok tt, d)
  else if negb (elem mode ["token"; "identity"]%py) then (Ok tt, d)
  else
    match consumed_mode d c with
    | Err e => (Err e, d)
    | Ok consumed =>
        if bool_decide (consumed = Some mode) then (Ok tt, d)
        else
          match SafePath.resolve (links_of d) cwd (path_str (data_dir c)) with
          | Raise e => (Err (PyError e), d)
          | Ret resolved =>
              match wipe cwd resolved (reset_targets c) d with
              | (Err e, d) => (Err e, d)
              | (Ok false, d) => (Ok tt, d)
              | (Ok true, d) =>
                  let '(r, d) := write_text d dir _RESET_CONSUMED_FILENAME (mode ++ [NL]) in
                  (match escapes r with Some e => Err e | None => Ok tt end, d)
              end
          end
    end.
Definition clear_marker (c : NodeConfig) (name : pystr) (d : disk) : disk :=
  let dir := parts (data_dir c) in
  if negb (path_exists d (dir ++ [name])) && negb (is_symlink d dir name) then d
  else if is_symlink d dir name then d
  else match unlink_path d dir name with Ok d => d | Err _ => d end.
Definition _reset_bootstrap_state (c : NodeConfig) (d : disk) : disk :=
  if reset_bootstrap c then clear_marker c claimed_name (clear_marker c consumed_name d) else d.

(** ** Tokens *)

Definition _migrate_legacy_device_token (c : NodeConfig) (d : disk) : out unit * disk :=
  let legacy := path_file (device_token_path c) in
  let target := path_file (device_token_path_for c "node") in
  if negb (path_exists d (parts (device_token_path c))) || path_exists d (parts (device_token_path_for c "node"))
  then (Ok tt, d)
  else if is_symlink d legacy.1 legacy.2 then (Ok tt, d)
  else
    match read_text d (parts (device_token_path c)) with
    | Err (OsError _ _) => (Ok tt, d)
    | Err e => (Err e, d)
    | Ok text =>
        match strip text with
        | [] => (Ok tt, match unlink_path d legacy.1 legacy.2 with Ok d => d | Err _ => d end)
        | token =>
            match _atomic_write_token d target.1 target.2 token with
            | (Err e, d) => (match escapes (Err (A := unit) e) with Some e => Err e | None => Ok tt end, d)
            | (Ok _, d) => (Ok tt, match unlink_path d legacy.1 legacy.2 with Ok d => d | Err _ => d end)
            end
        end
    end.
(** [None] as the empty text, which is what the client makes of it. *)
Definition _initial_device_token (c : NodeConfig) (role : pystr) (d : disk) : out pystr :=
  let ps := parts (device_token_path_for c role) in
  let# persisted := if path_exists d ps then let# text := read_text d ps in Ok (strip text) else Ok [] in
  Ok (or_str persisted (pairing_token c)).

(** ** Names of users *)

Definition login_name (d : dict) : list pystr :=
  match get_or_null "username" d with JStr s => match strip s with [] => [] | n => [n] end | _ => [] end.
(** [dict.fromkeys] *)
Fixpoint distinct (l seen : list pystr) : list pystr :=
  match l with
  | [] => []
  | x :: l => if elem x seen then distinct l seen else x :: distinct l (x :: seen)
  end.
Definition _ha_user_name_candidates (raw : dict) : list pystr :=
  distinct
    (login_name raw ++
     match get_or_null "credentials" raw with
     | JList l => concat (map (λ credential, match credential with
                                             | JDict c => match get_or_null "data" c with JDict data => login_name data | _ => [] end
                                             | _ => [] end) l)
     | _ => []
     end) [].
Definition setdefault (k v : pystr) (d : list (pystr * pystr)) : list (pystr * pystr) :=
  if dmem k d then d else d ++ [(k, v)].
Definition user_names (raw : json) : list (pystr * pystr) :=
  match raw with
  | JDict entry =>
      match get_or_null "id" entry with
      | JStr id => match strip id with
                   | [] => []
                   | id => map (λ name, (py_casefold name, id)) (_ha_user_name_candidates entry)
                   end
      | _ => []
      end
  | _ => []
  end.
Definition _ha_user_id_by_name (result : json) : list (pystr * pystr) :=
  let raw_users := match result with JDict d => match dget "users" d with Some users => users | None => result end | _ => result end in
  match raw_users with
  | JList l => fold_left (λ users kv, setdefault kv.1 kv.2 users) (concat (map user_names l)) []
  | _ => []
  end.
Definition set_identity_users (admins : gset pystr) (agents : list (pystr * pystr)) (c : NodeConfig) : NodeConfig :=
  let i := identity c in
  Build_NodeConfig (addon_mode c) (gateway_url c) (pairing_token c) (node_name c) (hass_url c) (hass_token c)
    (supervisor_token c) (data_dir c) (local_api_token c)
    {| super_admins := admins; user_agent_map := agents; default_agent_id := default_agent_id i;
       user_role_agent_id := user_role_agent_id i; admin_role_agent_id := admin_role_agent_id i;
       forbidden_commands := forbidden_commands i; addon_lifecycle_denylist := addon_lifecycle_denylist i |}
    (reset_pairing c) (reset_bootstrap c) (vision_timeout_seconds c) (vision_model c).
(** The id of a name; an empty one counts as none. *)
Definition user_of (users : list (pystr * pystr)) (name : pystr) : option pystr :=
  match dget (py_casefold name) users with Some ((_ :: _) as id) => Some id | _ => None end.
Fixpoint resolve_agents (users : list (pystr * pystr)) (agents acc : list (pystr * pystr)) : list (pystr * pystr) :=
  match agents with
  | [] => acc
  | (name, agent) :: agents =>
      resolve_agents users agents (match user_of users name with Some id => dset id agent acc | None => acc end)
  end.
Definition sorted_items (l : list (pystr * pystr)) : list (pystr * pystr) :=
  omap (λ k, match dget k l with Some v => Some (k, v) | None => None end) (sorted_strs (dkeys l)).
(** [listed] is what [ha_ws_call("config/auth/list")] gives; [None] when it fails
    with an error of the client or a timeout. *)
Definition _resolve_identity_usernames (listed : res (option json)) (c : NodeConfig) : res NodeConfig :=
  let admins := sorted_set (super_admins (identity c)) in
  let agents := sorted_items (user_agent_map (identity c)) in
  match admins, agents with
  | [], [] => Ret c
  | _, _ =>
      let? listed := listed in
      match listed with
      | None => Ret (set_identity_users ∅ [] c)
      | Some result =>
          let users := _ha_user_id_by_name result in
          Ret (set_identity_users (list_to_set (omap (user_of users) admins)) (resolve_agents users agents []) c)
      end
  end.

(** ** The runtime and the clients *)

Definition gateway_client (c : NodeConfig) (i : DeviceIdentity) (cwd : list pystr) (role : pystr) (scopes caps commands : list pystr)
    : Client :=
  let operator := bool_decide (role = "operator"%py) in
  {| c_config := c; c_identity := i; c_cwd := cwd; c_role := role; c_scopes := scopes; c_caps := caps; c_commands := commands;
     c_chat_relay_enabled := operator; c_invoke_dispatch_enabled := negb operator;
     c_token_persist_path := device_token_path_for c role; c_pair_fallback_enabled := negb operator; c_has_runtime := true |}.
Definition no_connections (d : disk) : Shared :=
  {| disk_of := d; relays := ∅; chat_relay := None; node_connected := false; operator_connected := false |}.
(** The runtime, and each client with its first token. [caps] and [commands] are
    those of the client's defaults. *)
Definition build_runtime (c : NodeConfig) (i : DeviceIdentity) (bootstrap_token : pystr) (now : Z) (cwd caps commands : list pystr)
    (d : disk) : out (NodeRuntime * (Client * pystr) * (Client * pystr)) :=
  let# node_token := _initial_device_token c "node" d in
  let# operator_token := _initial_device_token c "operator" d in
  Ok (new_runtime c bootstrap_token now (no_connections d),
      (gateway_client c i cwd "node" [] caps commands, node_token),
      (gateway_client c i cwd "operator" _OPERATOR_SCOPES ["tool-events"%py] [], operator_token)).

(** [_main] up to the start of the tasks.  [fresh] and [key] are a fresh token and
    a fresh key, [now] the monotonic clock. *)
Definition local_token (c : NodeConfig) (fresh : pystr) (d : disk) : out (NodeConfig * pystr) * disk :=
  match local_api_token c with
  | [] =>
      match load_or_generate_local_api_token d (parts (data_dir c)) fresh with
      | (Ok (token, _), d) => (Ok (set_local_token token c, token), d)
      | (Err e, d) => if is_oserror e then (Ok (c, []), d) else (Err e, d)
      end
  | _ => (Ok (c, []), d)
  end.
Definition start_node (c : NodeConfig) (listed : res (option json)) (cwd caps commands : list pystr) (fresh : pystr)
    (key : private_key) (now : Z) (d : disk) : out (NodeRuntime * (Client * pystr) * (Client * pystr)) * disk :=
  match _reset_pairing_state cwd c d with
  | (Err e, d) => (Err e, d)
  | (Ok _, d) =>
      match _migrate_legacy_device_token c (_reset_bootstrap_state c d) with
      | (Err e, d) => (Err e, d)
      | (Ok _, d) =>
          match local_token c fresh d with
          | (Err e, d) => (Err e, d)
          | (Ok (c, bootstrap_token), d) =>
              match _resolve_identity_usernames listed c with
              | Raise e => (Err (PyError e), d)
              | Ret c =>
                  match load_or_generate d (path_file (key_path c)).1 (path_file (key_path c)).2 key with
                  | (Err e, d) => (Err e, d)
                  | (Ok (i, _), d) => (build_runtime c i bootstrap_token now cwd caps commands d, d)
                  end
              end
          end
      end
  end.
Definition _main (getenv : pystr → option pystr) (addon : bool) (home : path) (listed : res (option json))
    (cwd caps commands : list pystr) (fresh : pystr) (key : private_key) (now : Z) (d : disk)
    : out (NodeRuntime * (Client * pystr) * (Client * pystr)) * disk :=
  match load_config getenv addon home with
  | Raise e => (Err (PyError e), d)
  | Ret c => start_node c listed cwd caps commands fresh key now d
  end.
End start.

(** ** Files of the data directory *)

Section directory.
Context `{Os}.

Lemma dir_ok_delete d dir name :
  dir_ok d dir → d !! (dir ++ [name]) ≠ Some Dir → dir_ok (delete (dir ++ [name]) d) dir.
Proof.
  intros [Hw Hc Hl Hd] Hp. set (p := dir ++ [name]) in *. split; [|done| |].
  - apply disk_wf_delete; [done|]. unfold p. by rewrite node_at_snoc.
  - intros q m u E. rewrite links_of_lookup. destruct (decide (q ++ [m] = p)) as [->|Hq]; [by rewrite lookup_delete_eq|].
    rewrite lookup_delete_ne by done. rewrite <- links_of_lookup. by eapply Hl.
  - assert (p ≠ dir).
    { intros E. apply (f_equal length) in E. unfold p in E. rewrite length_app in E. simpl in E. lia. }
    destruct dir as [|a dir]; [done|]. simpl in *. by rewrite lookup_delete_ne.
Qed.
Lemma dir_reached d dir : dir_ok d dir → namei lookup_budget d [] dir = inr dir.
Proof. intros [Hw Hc Hl Hd]. apply (namei_reaches _ _ []); [done..|exact (mk_is_Some _ _ Hd)]. Qed.
Lemma unlink_path_Ok d dir name d' :
  dir_ok d dir → unlink_path d dir name = Ok d' →
  d' = delete (dir ++ [name]) d ∧ d !! (dir ++ [name]) ≠ Some Dir.
Proof.
  intros Hok. unfold unlink_path. rewrite dir_reached by done. intros Hs%sys_Ok. unfold sys_unlink in Hs.
  rewrite node_at_snoc in Hs. by destruct (d !! (dir ++ [name])) as [[]|]; simplify_eq.
Qed.
Lemma unlink_path_file d dir name bytes :
  dir_ok d dir → d !! (dir ++ [name]) = Some (File bytes) → os_fault (SysUnlink (dir ++ [name])) = None →
  unlink_path d dir name = Ok (delete (dir ++ [name]) d).
Proof.
  intros Hok Hp Hf. unfold unlink_path. rewrite dir_reached by done. unfold sys, sys_unlink.
  rewrite Hf, node_at_snoc, Hp. done.
Qed.
(** A name that is not taken: the walk ends there. *)
Lemma namei_absent b d cur ps n :
  clean ps → clean_part n → link_free (links_of d) (cur ++ ps) → disk_wf d → node_at d (cur ++ ps) = Some Dir →
  d !! ((cur ++ ps) ++ [n]) = None → namei b d cur (ps ++ [n]) = inl ENOENT.
Proof.
  intros Hc (Hn1 & Hn2 & Hn3 & _) Hl Hw. revert cur Hl. induction ps as [|m ps IH]; intros cur Hl Hd Hn.
  - rewrite app_nil_r in *. assert (real_part n = true) as Hr by (by apply real_part_spec).
    rewrite <- node_at_snoc in Hn. by destruct b; simpl; rewrite Hd, Hr, Hn, bool_decide_eq_false_2 by done.
  - apply Forall_cons in Hc as [(Hm1 & Hm2 & Hm3 & _) Hc].
    assert (Hr : real_part m = true) by (by apply real_part_spec).
    assert (Hcur : node_at d cur = Some Dir) by (eapply ancestor_dir; [done|exact (mk_is_Some _ _ Hd)]).
    rewrite (cons_middle m cur ps), app_assoc in Hl, Hd, Hn.
    assert (Hx : node_at d (cur ++ [m]) = Some Dir).
    { destruct ps as [|k ps]; [by rewrite app_nil_r in Hd|]. eapply ancestor_dir; [done|exact (mk_is_Some _ _ Hd)]. }
    specialize (IH Hc (cur ++ [m]) Hl Hd Hn). cbn [app].
    destruct b; simpl in *; rewrite Hcur, Hr; cbn [negb]; rewrite bool_decide_eq_false_2 by done; rewrite Hx; exact IH.
Qed.

(** What a text file written at a name that is no link changes. *)
Lemma open_write_plain d dir name :
  dir_ok d dir → clean_part name → plain_node (d !! (dir ++ [name])) →
  open_write d dir name = sys (SysCreate (dir ++ [name])) NoName (inr (dir ++ [name], <[dir ++ [name] := File []]> d)).
Proof.
  intros Hok Hn Hp. unfold open_write. destruct (d !! (dir ++ [name])) as [x|] eqn:E.
  - destruct x as [bytes| |]; [|done..].
    assert (Hat : node_at d (dir ++ [name]) = Some (File bytes)) by (by rewrite node_at_snoc).
    destruct Hok as [Hw Hc Hl Hd]. rewrite (namei_reaches _ _ []); [cbn [app]; by rewrite Hat|done|by apply clean_snoc| |].
    + apply link_free_snoc; [done|]. rewrite links_of_lookup. by rewrite E.
    + exact (mk_is_Some _ _ Hat).
  - rewrite (namei_absent _ d [] dir name) by (done || apply Hok). rewrite dir_reached by done.
    unfold created_at, lookup_budget. rewrite node_at_snoc, E. by rewrite node_at_snoc, E.
Qed.
Lemma write_text_spec d dir name text r d' :
  dir_ok d dir → clean_part name → plain_node (d !! (dir ++ [name])) → write_text d dir name text = (r, d') →
  (r ≠ Ok tt ∧ d' = d) ∨
  ∃ bytes, d' = <[dir ++ [name] := File bytes]> d ∧ (r = Ok tt → utf8 text = Some bytes).
Proof.
  intros Hok Hn Hp. unfold write_text. rewrite open_write_plain by done.
  destruct (sys _ _ _) as [[loc d1]|e] eqn:Eo; [|intros [= <- <-]; by left].
  apply sys_Ok in Eo. injection Eo as <- <-. unfold encode_text.
  destruct (utf8 text) as [bytes|]; [|intros [= <- <-]; right; by exists []].
  destruct (write_all _ _ _) as [w d2] eqn:Ew. intros [= <- <-].
  apply write_all_spec in Ew as [[-> ->]|(e & junk & -> & ->)]; rewrite insert_insert_eq; right; by eexists.
Qed.

(** A plain absolute path resolves to itself. *)
Definition readable (ps : list pystr) : Prop := Forall (λ n, lstat_error n = None) ps.
Lemma walk_run_plain fs raw cur seen f :
  let ps := List.filter real_part raw in
  clean ps → link_free fs (cur ++ ps) → readable ps → length raw ≤ f →
  walk_run f fs (Walk (map Part raw) cur seen true) = Ret (Walk [] (cur ++ ps) seen true).
Proof.
  revert cur f. induction raw as [|n raw IH]; intros cur f ps Hc Hl Hr Hf.
  { unfold ps. simpl. rewrite app_nil_r. by destruct f. }
  destruct f as [|f]; [simpl in Hf; lia|]. unfold ps in *. cbn [map walk_run w_rest walk_step List.filter] in *.
  destruct (real_part n) eqn:En; cbn [negb].
  - apply Forall_cons in Hc as [(_ & _ & Hn & _) Hc]. apply Forall_cons in Hr as [Hrn Hr].
    rewrite bool_decide_eq_false_2 by done. cbn [w_querying w_path w_seen negb]. rewrite Hrn.
    rewrite (Hl cur n (List.filter real_part raw) eq_refl). cbn [rbind].
    rewrite (cons_middle n cur (List.filter real_part raw)), app_assoc in Hl |- *. apply IH; [done..|simpl in Hf; lia].
  - cbn [rbind w_path w_seen w_querying]. apply IH; [done..|simpl in Hf; lia].
Qed.
Lemma clean_proper ps : clean ps → proper (abs_path ps).
Proof.
  intros Hc. split; [by right; left|]. eapply Forall_impl; [exact Hc|].
  intros w (H1' & H2' & _ & H4'). split; [by apply real_part_spec|done].
Qed.
Lemma resolve_linkless fs cwd ps :
  clean ps → link_free fs ps → readable ps → SafePath.resolve fs cwd (path_str (abs_path ps)) = Ret (abs_path ps).
Proof.
  intros Hc Hl Hr. unfold SafePath.resolve. rewrite path_of_str by (by apply clean_proper).
  pose proof (split_path_str (abs_path ps) (clean_proper ps Hc) ltac:(done)) as Hs. cbn [parts abs_path] in Hs.
  unfold realpath_walk, walk_start.
  assert (startswith (path_str (abs_path ps)) [SL] = true) as -> by (apply startswith_spec; destruct ps; by eexists).
  rewrite walk_run_plain; rewrite ?Hs; [done..|]. lia.
Qed.
End directory.

(** ** The reset of the pairing *)

Section resets.
Context `{Os}.
Implicit Types (c : NodeConfig) (d : disk).

Definition at_dir c (n : pystr) : path := Path (root (data_dir c)) (parts (data_dir c) ++ [n]).
Definition dir_of c : list pystr := parts (data_dir c).
Definition token_names : list pystr := ["device-token"; "device-token.node"; "device-token.operator"].
(** The files a reset may remove, and all it may change. *)
Definition reset_names c : list pystr :=
  if bool_decide (reset_pairing c = "token"%py) then token_names else token_names ++ ["node-key.json"%py].
Definition reset_files c : list pystr :=
  _RESET_CONSUMED_FILENAME :: (if elem (reset_pairing c) ["token"; "identity"]%py then reset_names c else []).
Lemma reset_targets_names c : reset_targets c = map (at_dir c) (reset_names c).
Proof. unfold reset_targets, reset_names. by case_bool_decide. Qed.
Lemma at_dir_file c n : path_file (at_dir c n) = (dir_of c, n).
Proof. unfold path_file, path_parent, path_name, at_dir. cbn [parts]. by rewrite removelast_last, last_snoc. Qed.
Definition file_at c n : list pystr := dir_of c ++ [n].
Lemma file_at_ne c n m : n ≠ m → file_at c n ≠ file_at c m.
Proof. intros Hn E. by apply app_inj_tail in E as [_ ->]. Qed.

(** A data directory to work on. *)
Record data_dir_ok c d : Prop := {
  dd_root : root (data_dir c) = [SL]; dd_readable : readable (dir_of c); dd_dir : dir_ok d (dir_of c) }.
Lemma data_dir_abs c : root (data_dir c) = [SL] → data_dir c = abs_path (dir_of c).
Proof. unfold dir_of. destruct (data_dir c). cbn. by intros ->. Qed.
Lemma resolved_dir c d cwd :
  data_dir_ok c d → SafePath.resolve (links_of d) cwd (path_str (data_dir c)) = Ret (data_dir c).
Proof. intros [Hr Hrd Hd]. rewrite (data_dir_abs c Hr). by apply resolve_linkless; [apply Hd|apply Hd|]. Qed.
Definition good_name (n : pystr) : Prop := clean_part n ∧ lstat_error n = None.
Lemma good_names c : Forall good_name (_RESET_CONSUMED_FILENAME :: reset_names c).
Proof.
  assert (Hall : forallb (λ n, clean_partb n && bool_decide (lstat_error n = None))
                   (_RESET_CONSUMED_FILENAME :: token_names ++ ["node-key.json"%py]) = true) by (vm_compute; reflexivity).
  rewrite forallb_true_forall in Hall.
  assert (Hgood : ∀ n, n ∈ _RESET_CONSUMED_FILENAME :: token_names ++ ["node-key.json"%py] → good_name n).
  { intros n Hn. specialize (Hall n Hn). apply andb_prop in Hall as [Hc Hl]. split; [|by apply bool_decide_eq_true in Hl].
    unfold clean_partb in Hc. rewrite !andb_true_iff, !negb_true_iff, !bool_decide_eq_false, real_part_spec in Hc.
    destruct Hc as [[[] ] ]. by split_and!. }
  apply Forall_forall. intros n Hn. apply Hgood. unfold reset_names in Hn. case_bool_decide; [|done].
  apply elem_of_cons in Hn as [->|Hn]; [by left|]. right. by apply elem_of_app; left.
Qed.

Lemma wipe_confined c cwd names d r d' :
  data_dir_ok c d → wipe cwd (data_dir c) (map (at_dir c) names) d = (r, d') →
  data_dir_ok c d' ∧ ∀ p, p ∉ map (file_at c) names → d' !! p = d !! p.
Proof.
  revert d r d'. induction names as [|n names IH]; intros d r d' Hok; cbn [map wipe]; [by intros [= _ <-]|].
  assert (Hsame : ∀ d1 r1 d2, d1 = d ∨ d1 = delete (file_at c n) d ∧ d !! file_at c n ≠ Some Dir →
    wipe cwd (data_dir c) (map (at_dir c) names) d1 = (r1, d2) →
    data_dir_ok c d2 ∧ ∀ p, p ∉ file_at c n :: map (file_at c) names → d2 !! p = d !! p).
  { intros d1 r1 d2 Hd1 Hw. assert (Hok1 : data_dir_ok c d1).
    { destruct Hd1 as [->|[-> Hnd]]; [done|]. destruct Hok. split; [done..|]. by apply dir_ok_delete. }
    destruct (IH _ _ _ Hok1 Hw) as [Hok2 Hrest]. split; [done|].
    intros p [Hpn Hp]%not_elem_of_cons. rewrite Hrest by done. destruct Hd1 as [->|[-> _]]; [done|]. by rewrite lookup_delete_ne. }
  rewrite at_dir_file. destruct (_safe_to_unlink_under _ _ _ _) as [safe|]; [|intros [= _ <-]; eauto].
  cbn [fst snd]. destruct (safe && _); [|intros Hw; eapply Hsame; eauto].
  destruct (unlink_path d (dir_of c) n) as [d1|e] eqn:Eu.
  - apply unlink_path_Ok in Eu as [-> Hnd]; [|apply Hok]. intros Hw. eapply Hsame; eauto.
  - destruct (wipe _ _ _ _) as [r1 d1] eqn:Ew. intros [= _ <-]. eapply Hsame; eauto.
Qed.
(** The files are removed when nothing stands in the way. *)
Definition removed c (names : list pystr) d : disk := fold_left (λ d n, delete (file_at c n) d) names d.
Lemma removed_lookup c names d p : removed c names d !! p = if decide (p ∈ map (file_at c) names) then None else d !! p.
Proof.
  unfold removed. revert d. induction names as [|n names IH]; intros d; cbn [fold_left map]; [done|]. rewrite IH.
  destruct (decide (p = file_at c n)) as [->|Hp].
  - rewrite (decide_True (P := file_at c n ∈ file_at c n :: _)) by (by left). case_decide; [done|apply lookup_delete_eq].
  - rewrite lookup_delete_ne by done. destruct (decide (p ∈ map (file_at c) names)) as [Hin|Hin].
    + by rewrite decide_True by (by right).
    + rewrite decide_False; [done|]. by intros [?|?]%elem_of_cons.
Qed.
Lemma plain_target c cwd d n :
  data_dir_ok c d → good_name n → plain_node (d !! file_at c n) →
  _safe_to_unlink_under d cwd (at_dir c n) (data_dir c) = Ret true ∧
  path_exists d (file_at c n) = match d !! file_at c n with Some _ => true | None => false end.
Proof.
  intros [Hr Hrd Hok] [Hn Hl] Hp.
  assert (Hat : at_dir c n = abs_path (file_at c n)) by (unfold at_dir; by rewrite Hr).
  assert (Hlf : link_free (links_of d) (file_at c n)).
  { apply link_free_snoc; [apply Hok|]. rewrite links_of_lookup. fold (file_at c n). by destruct (d !! file_at c n) as [[]|]. }
  assert (Hsym : is_symlink d (dir_of c) n = false).
  { unfold is_symlink. rewrite (dir_reached _ _ Hok), node_at_snoc. fold (file_at c n). by destruct (d !! file_at c n) as [[]|]. }
  split.
  - unfold _safe_to_unlink_under. rewrite at_dir_file. cbn [fst snd]. rewrite Hsym, Hat.
    rewrite resolve_linkless; [|by apply clean_snoc; [apply Hok|]|done|].
    + cbn [rbind]. rewrite andb_true_r. f_equal. apply relative_to_spec. rewrite (data_dir_abs c Hr). split; [done|].
      by exists [n].
    + unfold readable, file_at. apply Forall_app. split; [done|]. by apply Forall_singleton.
  - destruct (d !! file_at c n) as [[bytes| |]|] eqn:E; [|done..|].
    + exact (proj1 (plain_file_reads _ _ _ _ Hok Hn E)).
    + unfold path_exists, file_at. by rewrite (namei_absent _ d [] (dir_of c) n) by (done || apply Hok).
Qed.
Lemma wipe_plain c cwd names d :
  data_dir_ok c d → (∀ s, os_fault s = None) → Forall good_name names →
  (∀ n, n ∈ names → plain_node (d !! file_at c n)) →
  wipe cwd (data_dir c) (map (at_dir c) names) d = (Ok true, removed c names d).
Proof.
  intros Hok Hf. revert d Hok. induction names as [|n names IH]; intros d Hok Hg Hp; [done|]. cbn [map wipe].
  apply Forall_cons in Hg as [Hn Hg]. destruct (plain_target c cwd d n Hok Hn (Hp n ltac:(by left))) as [-> Hex].
  rewrite at_dir_file. cbn [andb fst snd]. change (parts (at_dir c n)) with (file_at c n). rewrite Hex.
  unfold removed. cbn [fold_left]. destruct (d !! file_at c n) as [x|] eqn:E.
  - specialize (Hp n ltac:(by left)) as Hpn. rewrite E in Hpn. destruct x as [bytes| |]; [|done..].
    rewrite (unlink_path_file _ _ _ bytes) by (apply Hok || done || apply Hf).
    apply IH; [|done|].
    + destruct Hok. split; [done..|]. apply dir_ok_delete; [done|]. change (d !! file_at c n ≠ Some Dir). by rewrite E.
    + intros m Hm. destruct (decide (file_at c m = file_at c n)) as [->|Hne].
      * unfold file_at. by rewrite lookup_delete_eq.
      * unfold file_at in *. rewrite lookup_delete_ne by congruence. apply Hp. by right.
  - rewrite delete_id by done. apply IH; [done..|]. intros m Hm. apply Hp. by right.
Qed.
End resets.

Section reset_theorems.
Context `{Os}.
Implicit Types (c : NodeConfig) (d : disk).

Lemma data_dir_ok_written c d name bytes :
  data_dir_ok c d → plain_node (d !! file_at c name) → data_dir_ok c (<[file_at c name := File bytes]> d).
Proof. intros [] Hp. split; [done..|]. by apply dir_ok_insert. Qed.
Lemma write_mark_confined c d mode r d' :
  data_dir_ok c d → plain_node (d !! file_at c _RESET_CONSUMED_FILENAME) →
  write_text d (dir_of c) _RESET_CONSUMED_FILENAME mode = (r, d') →
  ∀ p, p ≠ file_at c _RESET_CONSUMED_FILENAME → d' !! p = d !! p.
Proof.
  intros Hok Hp Hw p Hne. pose proof (good_names c) as [[Hn _] _]%Forall_cons.
  destruct (write_text_spec _ _ _ _ _ _ (dd_dir _ _ Hok) Hn Hp Hw) as [[_ ->]|(bytes & -> & _)]; [done|].
  by rewrite lookup_insert_ne.
Qed.

Lemma mark_is_no_target c : file_at c _RESET_CONSUMED_FILENAME ∉ map (file_at c) (reset_names c).
Proof.
  intros (n & E & Hn)%list_elem_of_fmap. apply app_inj_tail in E as [_ <-]. revert Hn. unfold reset_names.
  case_bool_decide; apply (bool_decide_unpack (_ ∉ _)); vm_compute; exact I.
Qed.

(** A reset stays within its files.  Whatever the mode, whatever fails and
    wherever links lie, as long as the marker itself is none: nothing but the
    marker and the files of the mode changes, and the key of the identity is one
    of them in the mode that says so only. *)
Theorem reset_is_confined c cwd d r d' :
  data_dir_ok c d → plain_node (d !! file_at c _RESET_CONSUMED_FILENAME) →
  _reset_pairing_state cwd c d = (r, d') →
  (∀ p, p ∉ map (file_at c) (reset_files c) → d' !! p = d !! p) ∧
  (reset_pairing c ≠ "identity"%py → d' !! file_at c "node-key.json" = d !! file_at c "node-key.json").
Proof.
  intros Hok Hp Hr.
  assert (Hall : ∀ p, p ∉ map (file_at c) (reset_files c) → d' !! p = d !! p).
  { intros p Hpn. unfold reset_files in Hpn. revert Hr. unfold _reset_pairing_state.
    apply not_elem_of_cons in Hpn as [Hne Hpn].
    destruct (bool_decide (reset_pairing c = "none"%py)).
    { destruct (_ && _); [|by intros [= _ <-]]. destruct (unlink_path _ _ _) as [d1|] eqn:Eu; [|by intros [= _ <-]].
      apply unlink_path_Ok in Eu as [-> _]; [|apply Hok]. intros [= _ <-]. by rewrite lookup_delete_ne. }
    destruct (elem (reset_pairing c) ["token"; "identity"]%py); cbn [negb]; [|by intros [= _ <-]].
    destruct (consumed_mode d c) as [m|]; [|by intros [= _ <-]]. case_bool_decide; [by intros [= _ <-]|].
    rewrite (resolved_dir c d cwd Hok), reset_targets_names.
    destruct (wipe _ _ _ _) as [w d1] eqn:Ew. destruct (wipe_confined _ _ _ _ _ _ Hok Ew) as [Hok1 Hsame].
    destruct w as [[]|]; [|intros [= _ <-]; by apply Hsame..].
    destruct (write_text _ _ _ _) as [o d2] eqn:Eo. intros [= _ <-].
    assert (Hp1 : plain_node (d1 !! file_at c _RESET_CONSUMED_FILENAME)).
    { rewrite Hsame; [done|apply mark_is_no_target]. }
    rewrite (write_mark_confined c d1 _ o d2 Hok1 Hp1 Eo p Hne). by apply Hsame. }
  split; [exact Hall|]. intros Hm. apply Hall. unfold reset_files, reset_names.
  intros [E|Hin]%elem_of_cons; [by apply app_inj_tail in E as [_ E]|]. unfold elem in Hin.
  case_bool_decide as Hmode; [|by apply elem_of_nil in Hin].
  rewrite bool_decide_eq_true_2 in Hin.
  - apply list_elem_of_fmap in Hin as (n & E & Hn). apply app_inj_tail in E as [_ <-].
    revert Hn. apply (bool_decide_unpack (_ ∉ _)). vm_compute. exact I.
  - apply elem_of_cons in Hmode as [E|Hmode]; [exact E|]. apply elem_of_cons in Hmode as [E|Hmode]; [by destruct (Hm E)|].
    by apply elem_of_nil in Hmode.
Qed.

Lemma mode_text mode : elem mode ["token"; "identity"]%py = true →
  ∃ bytes, utf8 (mode ++ [NL]) = Some bytes ∧ decode_bytes bytes = Ok (mode ++ [NL]) ∧ strip (mode ++ [NL]) = mode ∧ mode ≠ "none"%py.
Proof.
  unfold elem. intros Hm%bool_decide_eq_true.
  assert (Hgo : ∀ w : pystr, utf8 (w ++ [NL]) = Some (w ++ [NL]) → decode_bytes (w ++ [NL]) = Ok (w ++ [NL]) →
    strip (w ++ [NL]) = w → w ≠ "none"%py →
    ∃ bytes, utf8 (w ++ [NL]) = Some bytes ∧ decode_bytes bytes = Ok (w ++ [NL]) ∧ strip (w ++ [NL]) = w ∧ w ≠ "none"%py) by eauto.
  apply elem_of_cons in Hm as [->|Hm]; [apply Hgo; vm_compute; reflexivity || discriminate|].
  apply elem_of_cons in Hm as [->|Hm]; [apply Hgo; vm_compute; reflexivity || discriminate|by apply elem_of_nil in Hm].
Qed.
Lemma consumed_is c d mode bytes :
  data_dir_ok c d → os_fault (SysRead (file_at c _RESET_CONSUMED_FILENAME)) = None →
  d !! file_at c _RESET_CONSUMED_FILENAME = Some (File bytes) → decode_bytes bytes = Ok (mode ++ [NL]) →
  strip (mode ++ [NL]) = mode → consumed_mode d c = Ok (Some mode).
Proof.
  intros Hok Hf Hb Hd Hs. pose proof (good_names c) as [[Hn _] _]%Forall_cons.
  destruct (plain_file_reads _ _ _ _ (dd_dir _ _ Hok) Hn Hb) as (He & _ & Hr).
  unfold consumed_mode. fold (dir_of c). fold (file_at c _RESET_CONSUMED_FILENAME) in *. unfold file_at in *.
  rewrite He. unfold read_text. rewrite (Hr Hf). cbn [obind]. by rewrite Hd, Hs.
Qed.

(** C22. A reset is carried out once.  Where nothing stands in its way, it removes the
    files of its mode and notes that it did.  From then on, whatever the node has
    stored since, a start with the same mode changes nothing; one with the mode
    "none" forgets the note, and nothing else. *)
Theorem reset_happens_once c c0 cwd d m :
  elem (reset_pairing c) ["token"; "identity"]%py = true → data_dir_ok c d → (∀ s, os_fault s = None) →
  (∀ n, n ∈ _RESET_CONSUMED_FILENAME :: reset_names c → plain_node (d !! file_at c n)) →
  consumed_mode d c = Ok m → m ≠ Some (reset_pairing c) →
  reset_pairing c0 = "none"%py → data_dir c0 = data_dir c →
  ∃ d1, _reset_pairing_state cwd c d = (Ok tt, d1) ∧ data_dir_ok c d1 ∧
    (∀ n, n ∈ reset_names c → d1 !! file_at c n = None) ∧
    ∀ d2, data_dir_ok c d2 → d2 !! file_at c _RESET_CONSUMED_FILENAME = d1 !! file_at c _RESET_CONSUMED_FILENAME →
      _reset_pairing_state cwd c d2 = (Ok tt, d2) ∧
      _reset_pairing_state cwd c0 d2 = (Ok tt, delete (file_at c _RESET_CONSUMED_FILENAME) d2).
Proof.
  intros Hmode Hok Hf Hplain Hm Hne H0 Hdir0. destruct (mode_text _ Hmode) as (bytes & Hu & Hd & Hs & Hnone).
  pose proof (good_names c) as Hgood. set (mark := file_at c _RESET_CONSUMED_FILENAME).
  set (d0 := removed c (reset_names c) d). set (d1 := <[mark := File bytes]> d0).
  assert (Hw : wipe cwd (data_dir c) (map (at_dir c) (reset_names c)) d = (Ok true, d0)).
  { apply wipe_plain; [done..|by apply Forall_cons in Hgood as [_ ?]|]. intros n Hn. apply Hplain. by right. }
  destruct (wipe_confined _ _ _ _ _ _ Hok Hw) as [Hok0 Hsame].
  assert (Hp0 : plain_node (d0 !! mark)).
  { unfold mark. rewrite Hsame; [apply Hplain; by left|apply mark_is_no_target]. }
  exists d1. split_and!.
  - unfold _reset_pairing_state. rewrite bool_decide_eq_false_2 by done. rewrite Hmode, Hm. cbn [negb].
    rewrite bool_decide_eq_false_2 by done. rewrite (resolved_dir c d cwd Hok), reset_targets_names, Hw.
    unfold write_text. fold (dir_of c).
    rewrite open_write_plain; [|apply Hok0|by apply Forall_cons in Hgood as [[? _] _]|exact Hp0].
    unfold sys. rewrite Hf. unfold encode_text. rewrite Hu. unfold write_all. rewrite Hf.
    fold (file_at c _RESET_CONSUMED_FILENAME). fold mark. by rewrite insert_insert_eq.
  - by apply data_dir_ok_written.
  - intros n Hn. unfold d1. rewrite lookup_insert_ne.
    + unfold d0. rewrite removed_lookup, decide_True; [done|]. apply list_elem_of_fmap. by exists n.
    + intros E. apply (mark_is_no_target c). apply list_elem_of_fmap. exists n. split; [exact E|done].
  - intros d2 Hok2 Hmark. unfold d1 in Hmark. rewrite lookup_insert_eq in Hmark. split.
    + unfold _reset_pairing_state. rewrite bool_decide_eq_false_2 by done. rewrite Hmode. cbn [negb].
      rewrite (consumed_is c d2 (reset_pairing c) bytes) by (done || apply Hf). by rewrite bool_decide_eq_true_2.
    + unfold _reset_pairing_state. rewrite H0, bool_decide_eq_true_2 by done. rewrite Hdir0. fold (dir_of c).
      pose proof Hgood as [[Hn _] _]%Forall_cons.
      destruct (plain_file_reads _ _ _ _ (dd_dir _ _ Hok2) Hn Hmark) as (-> & -> & _). cbn [negb andb].
      by rewrite (unlink_path_file _ _ _ bytes) by (apply Hok2 || done || apply Hf).
Qed.
End reset_theorems.

(** ** Names and tokens *)

Section identities.
Context `{Casing}.
Implicit Types c : NodeConfig.

(** The entry of a user in what Home Assistant lists: its id, and its login names. *)
Definition listed_users (result : json) : list json :=
  match (match result with JDict d => match dget "users" d with Some users => users | None => result end | _ => result end) with
  | JList l => l
  | _ => []
  end.
Definition names_user (result : json) (name id : pystr) : Prop :=
  ∃ entry raw_id login, JDict entry ∈ listed_users result ∧ dget "id" entry = Some (JStr raw_id) ∧ id = strip raw_id ∧ id ≠ [] ∧
    login ∈ _ha_user_name_candidates entry ∧ py_casefold login = py_casefold name.

Lemma setdefault_elem kvs : ∀ acc (x : pystr * pystr),
  x ∈ fold_left (λ users kv, setdefault kv.1 kv.2 users) kvs acc → x ∈ acc ∨ x ∈ kvs.
Proof.
  induction kvs as [|[k v] kvs IH]; intros acc x; cbn [fold_left]; [by left|].
  intros [Hx|Hx]%IH; [|by right; right]. unfold setdefault in Hx. cbn [fst snd] in Hx. destruct (dmem k acc); [by left|].
  apply elem_of_app in Hx as [Hx|Hx]; [by left|]. apply list_elem_of_singleton in Hx as ->. right. by left.
Qed.
Lemma user_of_listed result name id :
  user_of (_ha_user_id_by_name result) name = Some id → names_user result name id.
Proof.
  unfold user_of. destruct (dget _ _) as [[|a rest]|] eqn:E; try done. intros [= <-].
  apply dget_elem in E. unfold _ha_user_id_by_name in E.
  assert (Hin : (py_casefold name, a :: rest) ∈ concat (map user_names (listed_users result))).
  { unfold listed_users. destruct (match result with JDict _ => _ | _ => _ end); try by apply elem_of_nil in E.
    apply setdefault_elem in E as [E|E]; [by apply elem_of_nil in E|done]. }
  apply list_elem_of_In, in_concat in Hin as (l & Hl & Hin). apply in_map_iff in Hl as (raw & <- & Hraw).
  apply list_elem_of_In in Hin, Hraw. unfold user_names in Hin. destruct raw as [| | | | | |entry]; try by apply elem_of_nil in Hin.
  unfold get_or_null in Hin. destruct (dget "id" entry) as [[| | | |raw_id| |]|] eqn:Eid; try (exfalso; by apply elem_of_nil in Hin).
  cbv beta iota delta [id default from_option] in Hin. destruct (strip raw_id) as [|b s] eqn:Es; [by apply elem_of_nil in Hin|].
  apply list_elem_of_fmap in Hin as (login & [= Hlogin <- <-] & Hin).
  exists entry, raw_id, login. rewrite Es. by split_and!.
Qed.

Lemma resolve_agents_elem users agents : ∀ acc x,
  x ∈ resolve_agents users agents acc → x ∈ acc ∨ ∃ name, (name, x.2) ∈ agents ∧ user_of users name = Some x.1.
Proof.
  induction agents as [|[name agent] agents IH]; intros acc x; cbn [resolve_agents]; [by left|].
  intros [Hx|(n & Hn & Hu)]%IH; [|right; exists n; split; [by right|done]].
  destruct (user_of users name) as [id|] eqn:E; [|by left].
  apply elem_of_dset in Hx as [->|Hx]; [|by left]. right. exists name. split; [by left|done].
Qed.
Lemma sorted_items_elem l x : x ∈ sorted_items l → x ∈ l.
Proof.
  unfold sorted_items. intros (k & _ & Hk)%list_elem_of_omap. destruct (dget k l) as [v|] eqn:E; [|done].
  injection Hk as <-. by apply dget_elem.
Qed.
Lemma sorted_set_elem (s : gset pystr) x : x ∈ sorted_set s → x ∈ s.
Proof. unfold sorted_set, sorted_strs. rewrite merge_sort_Permutation. by intros ?%elem_of_elements. Qed.

(** Privilege comes from Home Assistant's own users only.  Behind the resolution,
    every super admin is the id of a listed user who logs in by a configured name,
    and so is every user an agent is assigned to; when the list cannot be had,
    there are none.  A name that nobody has gives nothing. *)
Theorem resolution_fails_closed listed c c' :
  _resolve_identity_usernames listed c = Ret c' →
  (∀ id, id ∈ super_admins (identity c') →
     ∃ result name, listed = Ret (Some result) ∧ name ∈ super_admins (identity c) ∧ names_user result name id) ∧
  (∀ id agent, (id, agent) ∈ user_agent_map (identity c') →
     ∃ result name, listed = Ret (Some result) ∧ (name, agent) ∈ user_agent_map (identity c) ∧ names_user result name id).
Proof.
  unfold _resolve_identity_usernames.
  assert (Hmain : (let? listed := listed in
      match listed with
      | None => Ret (set_identity_users ∅ [] c)
      | Some result =>
          let users := _ha_user_id_by_name result in
          Ret (set_identity_users (list_to_set (omap (user_of users) (sorted_set (super_admins (identity c)))))
                 (resolve_agents users (sorted_items (user_agent_map (identity c))) []) c)
      end) = Ret c' →
    (∀ id, id ∈ super_admins (identity c') →
       ∃ result name, listed = Ret (Some result) ∧ name ∈ super_admins (identity c) ∧ names_user result name id) ∧
    (∀ id agent, (id, agent) ∈ user_agent_map (identity c') →
       ∃ result name, listed = Ret (Some result) ∧ (name, agent) ∈ user_agent_map (identity c) ∧ names_user result name id)).
  { intros ([result|] & -> & [= <-])%rbind_Ret; [|split; [by intros id ?%elem_of_empty|by intros id agent ?%elem_of_nil]].
    split.
    - cbn [identity set_identity_users super_admins]. intros id (name & Hn & Hu)%elem_of_list_to_set%list_elem_of_omap.
      exists result, name. split_and!; [done|by apply sorted_set_elem|by apply user_of_listed].
    - cbn [identity set_identity_users user_agent_map]. intros id agent [Hx|(name & Hn & Hu)]%resolve_agents_elem; [by apply elem_of_nil in Hx|].
      exists result, name. split_and!; [done|by apply sorted_items_elem|by apply user_of_listed]. }
  destruct (sorted_set (super_admins (identity c))) eqn:Ea; [|exact Hmain].
  destruct (sorted_items (user_agent_map (identity c))) eqn:Es; [|exact Hmain].
  intros [= <-]. split.
  - intros id Hid. exfalso. apply elem_of_elements in Hid.
    assert (Hp : sorted_set (super_admins (identity c)) ≡ₚ elements (super_admins (identity c))) by apply merge_sort_Permutation.
    rewrite <- Hp, Ea in Hid. by apply elem_of_nil in Hid.
  - intros id agent Hin. exfalso.
    assert (Hk : id ∈ sorted_strs (dkeys (user_agent_map (identity c)))).
    { unfold sorted_strs. rewrite merge_sort_Permutation. apply list_elem_of_fmap. by exists (id, agent). }
    assert (Hg : is_Some (dget id (user_agent_map (identity c)))).
    { clear -Hin. induction (user_agent_map (identity c)) as [|[k v] l IH]; [by apply elem_of_nil in Hin|].
      cbn [dget]. case_decide; [by eexists|]. apply elem_of_cons in Hin as [[= <- <-]|Hin]; [done|by apply IH]. }
    destruct Hg as [v Hv]. assert (Hx : (id, v) ∈ sorted_items (user_agent_map (identity c))).
    { apply list_elem_of_omap. exists id. split; [done|]. by rewrite Hv. }
    rewrite Es in Hx. by apply elem_of_nil in Hx.
Qed.
End identities.

(** ** The start as a whole *)

Section starts.
Context `{Unicode} `{Casing} `{Categories} `{WideText} `{Os} `{Ed25519} `{!Gateway}.
Implicit Types (c : NodeConfig) (d : disk).

Lemma resolution_keeps listed c c' :
  _resolve_identity_usernames listed c = Ret c' →
  local_api_token c' = local_api_token c ∧ data_dir c' = data_dir c ∧ pairing_token c' = pairing_token c.
Proof.
  unfold _resolve_identity_usernames.
  destruct (sorted_set _), (sorted_items _); [by intros [= <-]|..];
    intros ([result|] & _ & [= <-])%rbind_Ret; done.
Qed.
Lemma build_runtime_Ok c i token now cwd caps commands d rt clients1 clients2 :
  build_runtime c i token now cwd caps commands d = Ok (rt, clients1, clients2) →
  rt = new_runtime c token now (no_connections d).
Proof. unfold build_runtime. repeat (destruct (_initial_device_token _ _ _); cbn [obind]; [|done]). by intros [= <- _ _]. Qed.

(** A token the operator has chosen is never announced.  When the options name a
    local token, no request to the API of a node so started is ever given a token
    by the bootstrap endpoint, whatever markers lie on the disk and whatever the
    requests are. *)
Theorem configured_token_never_announced {W} (handlers : pystr → @handler W) c listed cwd caps commands fresh key now d rt n o d'
    requests st :
  local_api_token c ≠ [] →
  start_node c listed cwd caps commands fresh key now d = (Ok (rt, n, o), d') →
  local_api_token (config rt) = local_api_token c ∧
  List.filter announces (serve_requests handlers requests {| runtime := rt; HttpApi.commands := st |}).1 = [].
Proof.
  intros Ht. unfold start_node.
  destruct (_reset_pairing_state cwd c d) as [[]d1]; [|done].
  destruct (_migrate_legacy_device_token _ _) as [[] d2]; [|done].
  unfold local_token. destruct (local_api_token c) as [|ch tl] eqn:E; [done|].
  destruct (_resolve_identity_usernames listed c) as [c'|] eqn:Er; [|done]. apply resolution_keeps in Er as (Etok & _ & _).
  destruct (load_or_generate _ _ _ _) as [[[i ?]|] d3]; [|done]. intros [= Eb _].
  apply build_runtime_Ok in Eb as ->. split; [cbn; congruence|]. by apply nothing_to_announce.
Qed.

(** ** Restarts *)

Hypothesis pem_round_trip : ∀ key, from_pem (to_pem key) = Ret (Some key).
Hypothesis pem_text : ∀ key, JsonFlat.scalars (to_pem key).
Hypothesis raw_bytes : ∀ key, Forall Base64.is_byte (public_raw key).
Hypothesis calm : ∀ s, os_fault s = None.

Lemma stored_token_at d dir bytes :
  dir_ok d dir → d !! token_file dir = Some (File bytes) →
  stored_token d dir = (let# text := decode_bytes bytes in Ok (match strip text with [] => None | token => Some token end)).
Proof.
  intros Hok Hp. destruct (plain_file_reads _ _ _ _ Hok token_filename_clean Hp) as (He & Hs & Hr).
  unfold stored_token. rewrite He, Hs, (Hr (calm _)). done.
Qed.
Lemma stored_token_file d dir t :
  dir_ok d dir → stored_token d dir = Ok (Some t) → ∃ bytes, d !! token_file dir = Some (File bytes).
Proof.
  intros Hok. unfold stored_token. fold (token_file dir).
  destruct (path_exists d (token_file dir)) eqn:He; [|done]. unfold is_symlink. rewrite (dir_reached _ _ Hok), node_at_snoc.
  fold (token_file dir). destruct (d !! token_file dir) as [x|] eqn:Ex.
  - destruct x as [bytes| |t']; [eauto| |done]. cbn [negb andb].
    assert (Hn : namei lookup_budget d [] (token_file dir) = inr (token_file dir)).
    { apply (namei_reaches _ _ []); [apply Hok|apply clean_snoc; [apply Hok|apply token_filename_clean]| |].
      - apply link_free_snoc; [apply Hok|]. rewrite links_of_lookup. fold (token_file dir). by rewrite Ex.
      - exists Dir. unfold token_file in *. etransitivity; [apply node_at_snoc|exact Ex]. }
    unfold read_file. rewrite Hn. unfold token_file at 2. rewrite node_at_snoc. fold (token_file dir). rewrite Ex.
    unfold sys. by rewrite calm.
  - unfold path_exists in He. unfold token_file in He, Ex.
    rewrite (namei_absent _ d [] dir) in He; [done|apply Hok|apply token_filename_clean|apply Hok|apply Hok|apply Hok|exact Ex].
Qed.
Lemma token_kept_beside d d' dir name t :
  name ≠ _TOKEN_FILENAME → dir_ok d dir → dir_ok d' dir → (∀ n, n ≠ name → d' !! (dir ++ [n]) = d !! (dir ++ [n])) →
  stored_token d dir = Ok (Some t) → stored_token d' dir = Ok (Some t).
Proof.
  intros Hn Hok Hok' Hk Hs. destruct (stored_token_file d dir t Hok Hs) as [bytes Hb].
  rewrite (stored_token_at d dir bytes Hok Hb) in Hs. rewrite (stored_token_at d' dir bytes Hok'); [done|].
  unfold token_file in *. by rewrite Hk.
Qed.
(** What the two loads leave: the disk they are loaded from again. *)
Lemma local_token_again c fresh d c' token d' :
  dir_ok d (dir_of c) → token_text fresh → local_token c fresh d = (Ok (c', token), d') → token ≠ [] →
  c' = set_local_token token c ∧ local_api_token c = [] ∧ dir_ok d' (dir_of c) ∧ stored_token d' (dir_of c) = Ok (Some token) ∧
  ∀ n, n ≠ _TOKEN_FILENAME → d' !! file_at c n = d !! file_at c n.
Proof.
  intros Hok Ht. unfold local_token. destruct (local_api_token c) eqn:E; [|by intros [= _ <- _]].
  unfold load_or_generate_local_api_token. fold (dir_of c).
  destruct (stored_token d (dir_of c)) as [[t|]|e] eqn:Es.
  - intros [= <- <- <-] _. done.
  - destruct (_write_token d (dir_of c) fresh) as [[u|e] d1] eqn:Ew; [|by case_match; intros [= _ <- _]].
    intros [= <- <- <-] _. destruct u. destruct (write_private_file_spec _ _ _ _ _ _ Hok Ew) as [[? _]|(bytes & Hp & -> & Hu)]; [done|].
    assert (Hok' := dir_ok_insert _ _ _ bytes Hok Hp). split_and!; [done..| |].
    + apply (stored_token_plain _ _ _ bytes); [done..|by apply Hu|by apply lookup_insert_eq|apply calm].
    + intros n Hn. unfold file_at. apply lookup_insert_ne. intros E'. by apply app_inj_tail in E' as [_ E'].
  - case_match; [by intros [= _ <- _]|done].
Qed.
Lemma identity_again c key d i created d' :
  dir_ok d (dir_of c) → load_or_generate d (dir_of c) "node-key.json" key = (Ok (i, created), d') →
  dir_ok d' (dir_of c) ∧ (∀ n, n ≠ "node-key.json"%py → d' !! file_at c n = d !! file_at c n) ∧
  ∀ key', load_or_generate d' (dir_of c) "node-key.json" key' = (Ok (i, false), d').
Proof.
  intros Hok. unfold load_or_generate. destruct (path_exists d _) eqn:Ee.
  - destruct (load_identity d _) as [j|] eqn:Ej; [|done]. intros [= <- <- <-]. split_and!; [done..|]. intros key'. by rewrite Ee, Ej.
  - destruct (save_identity key d _ _) as [[u|] d1] eqn:Es; [|done]. intros [= <- <- <-]. destruct u.
    destruct (write_private_file_spec _ _ _ _ _ _ Hok Es) as [[? _]|(bytes & Hp & -> & Hu)]; [done|]. specialize (Hu eq_refl).
    assert (Hok' := dir_ok_insert _ _ _ bytes Hok Hp). split_and!; [done| |].
    + intros n Hn. unfold file_at. apply lookup_insert_ne. intros E'. by apply app_inj_tail in E' as [_ E'].
    + intros key'. assert (Hk : clean_part "node-key.json").
      { pose proof (good_names {| addon_mode := true; gateway_url := []; pairing_token := []; node_name := []; hass_url := []; hass_token := [];
           supervisor_token := []; data_dir := data_dir c; local_api_token := []; identity := identity_default;
           reset_pairing := "identity"; reset_bootstrap := false; vision_timeout_seconds := FNan; vision_model := [] |}) as Hg.
        rewrite Forall_forall in Hg. apply Hg. apply (bool_decide_unpack (_ ∈ _)). vm_compute. exact I. }
      destruct (plain_file_reads _ _ _ bytes Hok' Hk (lookup_insert_eq _ _ _)) as (He & _ & Hr).
      rewrite He. unfold load_identity. rewrite (Hr (calm _)). cbn [obind].
      rewrite (identity_read_back pem_round_trip pem_text raw_bytes key); [done|].
      destruct (ascii_encodable (identity_text key)) as (b & Hb & Hd).
      { eapply Forall_impl; [apply identity_text_plain|by intros x []]. }
      congruence.
Qed.

Lemma absent_at c d n : dir_ok d (dir_of c) → clean_part n → d !! file_at c n = None → path_exists d (file_at c n) = false.
Proof.
  intros Hok Hn Hd. unfold path_exists, file_at. by rewrite (namei_absent _ d [] (dir_of c) n) by (done || apply Hok).
Qed.
(** A start with nothing to reset and nothing to migrate. *)
Record settled_start c d : Prop := {
  ss_dir : dir_ok d (dir_of c); ss_reset : reset_pairing c = "none"%py; ss_bootstrap : reset_bootstrap c = false;
  ss_mark : d !! file_at c _RESET_CONSUMED_FILENAME = None; ss_legacy : d !! file_at c "device-token" = None }.
Lemma settled_steps c cwd d : settled_start c d →
  _reset_pairing_state cwd c d = (Ok tt, d) ∧ _migrate_legacy_device_token c (_reset_bootstrap_state c d) = (Ok tt, d).
Proof.
  intros [Hok Hr Hb Hm Hl]. split.
  - unfold _reset_pairing_state. rewrite Hr, bool_decide_eq_true_2 by done. fold (dir_of c). fold (file_at c _RESET_CONSUMED_FILENAME).
    pose proof (good_names c) as [[Hn _] _]%Forall_cons. by rewrite absent_at.
  - unfold _reset_bootstrap_state. rewrite Hb. unfold _migrate_legacy_device_token.
    change (parts (device_token_path c)) with (file_at c "device-token"). rewrite absent_at; [done|done| |done].
    split_and!; [discriminate..|]. apply (bool_decide_unpack (SL ∉ _)). vm_compute. exact I.
Qed.

(** C23. A restart finds the node as it was.  Where there is nothing to reset and
    nothing to migrate, a start without a chosen token loads or makes the local
    token and the device identity; the next start has the same token, the same
    identity and the same first tokens of the two clients, whatever it would have
    made itself, and changes nothing on the disk; the list of users is taken to be the same. *)
Theorem restart_is_stable c listed cwd caps commands fresh key now d rt n o d' fresh' key' now' :
  settled_start c d → token_text fresh →
  start_node c listed cwd caps commands fresh key now d = (Ok (rt, n, o), d') → bootstrap_token rt ≠ [] →
  start_node c listed cwd caps commands fresh' key' now' d' =
    (Ok (new_runtime (config rt) (bootstrap_token rt) now' (rt_shared rt), n, o), d') ∧
  local_api_token (config rt) = bootstrap_token rt.
Proof.
  intros Hset Ht. pose proof (ss_dir _ _ Hset) as Hok. unfold start_node.
  destruct (settled_steps c cwd d Hset) as [-> ->].
  destruct (local_token c fresh d) as [[[c1 token]|] d1] eqn:El; [|done].
  destruct (_resolve_identity_usernames listed c1) as [c2|] eqn:Er; [|done].
  assert (Hkey : path_file (key_path c2) = (parts (data_dir c2), "node-key.json"%py))
    by (unfold path_file, path_parent, path_name, key_path; cbn [parts]; by rewrite removelast_last, last_snoc).
  rewrite Hkey. cbn [fst snd]. destruct (load_or_generate d1 _ _ key) as [[[i created]|] d2] eqn:Ei; [|done].
  intros [= Eb <-] Hne. pose proof (build_runtime_Ok _ _ _ _ _ _ _ _ _ _ _ Eb) as ->. cbn [bootstrap_token new_runtime] in *.
  destruct (local_token_again _ _ _ _ _ _ Hok Ht El Hne) as (-> & Hempty & Hok1 & Hst & Hk1).
  pose proof (resolution_keeps _ _ _ Er) as (Etok & Edir & _). cbn in Etok, Edir. rewrite Edir in Ei. fold (dir_of c) in Ei.
  destruct (identity_again c key d1 i created d2 Hok1 Ei) as (Hok2 & Hk2 & Hagain).
  assert (Hset2 : settled_start c d2).
  { destruct Hset. split; [done..| |]; rewrite Hk2, Hk1 by discriminate; done. }
  destruct (settled_steps c cwd d2 Hset2) as [-> ->].
  assert (Hst2 : stored_token d2 (dir_of c) = Ok (Some token)).
  { apply (token_kept_beside d1 d2 (dir_of c) "node-key.json"); try done. }
  assert (local_token c fresh' d2 = (Ok (set_local_token token c, token), d2)) as ->.
  { unfold local_token. rewrite Hempty. unfold load_or_generate_local_api_token. fold (dir_of c). by rewrite Hst2. }
  rewrite Er, Hkey. cbn [fst snd]. rewrite Edir. fold (dir_of c). rewrite Hagain. split; [|by rewrite <- Etok].
  f_equal. unfold build_runtime in *. cbn [config new_runtime rt_shared].
  repeat (destruct (_initial_device_token _ _ _); cbn [obind] in *; [|done]). injection Eb as <- <-. done.
Qed.
End starts.

(** ** Witnesses *)

#[local] Instance every_char_prints : Unicode := {| uni_printable := λ _, true; uni_decimal := λ _, None |}.
#[local] Existing Instance ascii_casing.
#[local] Instance ascii_controls : Categories :=
  {| category_other := λ c, ((c <? 32) || (c =? 127))%N; category_other_ascii := λ _ _, eq_refl |}.
#[local] Instance utf8_only : WideText := {| wide_decode := λ _ _, None |}.
#[local] Instance sound_os : Os := {| os_fault := λ _, None; os_openat2 := true; os_partial := 0; os_fd := 3 |}.
Lemma sound_os_calm (s : syscall) : os_fault s = None.
Proof. done. Qed.
#[local] Instance named_keys : Ed25519 :=
  {| private_key := bool; public_raw := λ k, [if k then 1 else 0]%N; ed_sign := λ _ m, m;
     to_pem := λ k, if k then "K1" else "K0"; from_pem := λ s, Ret (Some (bool_decide (s = "K1"%py))) |}.
Definition first_key : private_key := true.
Definition other_key : private_key := false.
Lemma keys_read_back (key : private_key) : from_pem (to_pem key) = Ret (Some key).
Proof. unfold private_key, named_keys in key. by destruct key. Qed.
Lemma keys_are_text (key : private_key) : JsonFlat.scalars (to_pem key).
Proof. unfold private_key, named_keys in key. destruct key; apply plain_scalars; repeat constructor. Qed.
Lemma keys_are_bytes (key : private_key) : Forall Base64.is_byte (public_raw key).
Proof. unfold private_key, named_keys in key. destruct key; repeat constructor. Qed.
#[local] Instance counted : Gateway :=
  {| uuid := λ n, "u" ++ str_of_nat n; clock := λ n, Z.of_nat n; monotonic := λ n, Z.of_nat n;
     send_fault := λ _, None; version := "1" |}.
(** A node whose options name the user "Ann" as a super admin. *)
Definition start_config (mode token : pystr) : NodeConfig :=
  {| addon_mode := true; gateway_url := "wss://g"; pairing_token := "pair"; node_name := []; hass_url := []; hass_token := [];
     supervisor_token := []; data_dir := path_of "/data"; local_api_token := token;
     identity := {| super_admins := {["Ann"%py]}; user_agent_map := [("Ann", "butler")]%py; default_agent_id := default_agent_id identity_default;
                    user_role_agent_id := user_role_agent_id identity_default; admin_role_agent_id := admin_role_agent_id identity_default;
                    forbidden_commands := forbidden_commands identity_default;
                    addon_lifecycle_denylist := addon_lifecycle_denylist identity_default |};
     reset_pairing := mode; reset_bootstrap := false; vision_timeout_seconds := DEFAULT_VISION_TIMEOUT_SECONDS; vision_model := [] |}.
Definition start_users : json :=
  JList [JDict [("id", JStr "u-1"); ("name", JStr "Ann"); ("username", JStr "root")];
         JDict [("id", JStr "u-2"); ("username", JNull); ("credentials", JList [JDict [("data", JDict [("username", JStr "ann")])]])]]%py.
Definition start_disk : disk := list_to_map [(["data"%py], Dir)].
Definition paired_disk : disk :=
  list_to_map [(["data"%py], Dir); (["data"%py; "device-token.node"%py], File [116]%N); (["data"%py; "node-key.json"%py], File [123]%N)].

Lemma start_dir_ok d : good_rootb d (abs_path ["data"%py]) = true → disk_wfb d = true → d !! ["data"%py] = Some Dir →
  dir_ok d ["data"%py].
Proof. intros (_ & Hc & Hl)%good_rootb_spec Hw%disk_wfb_spec Hd. by split. Qed.
Lemma start_data_dir mode token d : dir_ok d ["data"%py] → data_dir_ok (start_config mode token) d.
Proof. intros Hd. split; [reflexivity| |exact Hd]. repeat constructor. Qed.
Lemma paired_ok : dir_ok paired_disk ["data"%py].
Proof. apply start_dir_ok; vm_compute; reflexivity. Qed.

Example reset_is_confined_witness :
  let after := (_reset_pairing_state [] (start_config "token" []) paired_disk).2 in
  after !! ["data"%py; "device-token.node"%py] = None ∧ after !! ["data"%py; "node-key.json"%py] = Some (File [123]%N).
Proof.
  intros after. split; [vm_compute; reflexivity|].
  destruct (reset_is_confined (start_config "token" []) [] paired_disk (Ok tt) after) as [_ Hkey].
  - apply start_data_dir, paired_ok.
  - exact I.
  - unfold after. assert (E : (_reset_pairing_state [] (start_config "token" []) paired_disk).1 = Ok tt) by (vm_compute; reflexivity).
    rewrite <- E. apply surjective_pairing.
  - exact (Hkey ltac:(vm_compute; discriminate)).
Defined.
Example reset_happens_once_witness :
  ∃ d1, _reset_pairing_state [] (start_config "identity" []) paired_disk = (Ok tt, d1) ∧
    d1 !! ["data"%py; "node-key.json"%py] = None ∧ _reset_pairing_state [] (start_config "identity" []) d1 = (Ok tt, d1).
Proof.
  destruct (reset_happens_once (start_config "identity" []) (start_config "none" []) [] paired_disk None) as (d1 & E & Hok & Hno & Hagain).
  - reflexivity.
  - apply start_data_dir, paired_ok.
  - reflexivity.
  - apply Forall_forall. repeat constructor.
  - vm_compute. reflexivity.
  - discriminate.
  - reflexivity.
  - reflexivity.
  - exists d1. split_and!; [exact E| |].
    + apply Hno. apply (bool_decide_unpack (_ ∈ _)). vm_compute. exact I.
    + destruct (Hagain d1 Hok eq_refl) as [E1 _]. exact E1.
Defined.
Lemma same_list (a b : json) : Ret (Some a) = Ret (Some b) → b = a.
Proof. by intros [=]. Qed.
Example resolution_fails_closed_witness :
  ∃ c', _resolve_identity_usernames (Ret (Some start_users)) (start_config "none" []) = Ret c' ∧
    user_agent_map (identity c') = [("u-2", "butler")]%py ∧
    ∃ name, name ∈ super_admins (identity (start_config "none" [])) ∧ names_user start_users name "u-2".
Proof.
  exists (set_identity_users {["u-2"%py]} [("u-2", "butler")]%py (start_config "none" [])).
  assert (E : _resolve_identity_usernames (Ret (Some start_users)) (start_config "none" [])
              = Ret (set_identity_users {["u-2"%py]} [("u-2", "butler")]%py (start_config "none" []))) by (vm_compute; reflexivity).
  split_and!; [exact E|reflexivity|].
  destruct (resolution_fails_closed _ _ _ E) as [Hadmins _].
  destruct (Hadmins "u-2"%py) as (result & name & Hl & Hn & Hu).
  { change ("u-2"%py ∈ ({["u-2"%py]} : gset pystr)). by apply elem_of_singleton. }
  apply same_list in Hl as ->. exact (ex_intro _ name (conj Hn Hu)).
Defined.
(** No list, no privilege. *)
Example unlisted_users : _resolve_identity_usernames (Ret None) (start_config "none" []) = Ret (set_identity_users ∅ [] (start_config "none" [])).
Proof. vm_compute. reflexivity. Qed.

Definition ask_bootstrap : Request :=
  {| r_method := "GET"; r_path := "/v1/bootstrap"; r_remote := Some "172.30.33.7"%py; r_authorization := []; r_body := None;
     r_content_length := None; r_chunks := []; r_at := 1; r_time := "1.5" |}.
Definition quiet_moment : moment := {| m_now := 0; m_fresh := "new"; m_get := λ _ _, inr (Unreachable []) |}.
Definition idle (c : pystr) : @handler nat := Sync (λ n _ _, (n, Ret JNull)).
Example configured_token_never_announced_witness :
  let started := start_node (start_config "none" "chosen") (Ret (Some start_users)) [] [] [] "fresh" first_key 0 start_disk in
  match started.1 with
  | Ok (rt, _, _) =>
      List.filter announces (serve_requests idle [(quiet_moment, ask_bootstrap)]
        {| runtime := rt; HttpApi.commands := {| world := 0; CURRENT_CALLER := None |} |}).1 = []
  | Err _ => False
  end.
Proof.
  intros started. destruct (started.1) as [[[rt n] o]|] eqn:E; [|by vm_compute in E].
  apply (configured_token_never_announced idle (start_config "none" "chosen") (Ret (Some start_users)) [] [] [] "fresh" first_key 0 start_disk
           rt n o started.2).
  - discriminate.
  - rewrite <- E. apply surjective_pairing.
Defined.
Example restart_is_stable_witness :
  let started := start_node (start_config "none" []) (Ret (Some start_users)) [] [] [] "fresh" first_key 0 start_disk in
  match started.1 with
  | Ok (rt, n, o) =>
      bootstrap_token rt = "fresh"%py ∧
      start_node (start_config "none" []) (Ret (Some start_users)) [] [] [] "other" other_key 5 started.2 =
        (Ok (new_runtime (config rt) "fresh" 5 (rt_shared rt), n, o), started.2)
  | Err _ => False
  end.
Proof.
  intros started. destruct (started.1) as [[[rt n] o]|] eqn:E; [|by vm_compute in E].
  assert (Ht : bootstrap_token rt = "fresh"%py).
  { assert (Hx : match started.1 with Ok (rt, _, _) => bootstrap_token rt | Err _ => [] end = "fresh"%py) by (vm_compute; reflexivity).
    by rewrite E in Hx. }
  split; [exact Ht|]. rewrite <- Ht at 1.
  apply (restart_is_stable keys_read_back keys_are_text keys_are_bytes sound_os_calm
           (start_config "none" []) (Ret (Some start_users)) [] [] [] "fresh" first_key 0 start_disk).
  - split; [apply start_dir_ok; vm_compute; reflexivity|reflexivity|reflexivity|vm_compute; reflexivity|vm_compute; reflexivity].
  - split; [discriminate|]. repeat constructor.
  - rewrite <- E. apply surjective_pairing.
  - by rewrite Ht.
Defined.

(** The reset writes its note through a link: a link at its name has another file
    written over. *)
Example reset_note_follows_links :
  let d := <[["data"%py; "reset-consumed"%py] := Link "/etc/passwd"]> (<[["etc"%py] := Dir]> (<[["etc"%py; "passwd"%py] := File [114]%N]> start_disk)) in
  let '(r, d') := _reset_pairing_state [] (start_config "token" []) d in
  r = Ok tt ∧ d' !! ["etc"%py; "passwd"%py] = Some (File ("token"%py ++ [NL])).
Proof. vm_compute. split; reflexivity. Qed.
(** A note that is no text ends the start. *)
Example broken_note_ends_the_start :
  let d := <[["data"%py; "reset-consumed"%py] := File [255]%N]> start_disk in
  match (_reset_pairing_state [] (start_config "token" []) d).1 with Err (OsError _ _) => False | Err _ => True | Ok _ => False end.
Proof. vm_compute. exact I. Qed.
