(* ===== verification/UrlQuote.v ===== *)
(** [urllib.parse.quote], and the two ways [commands/ha.py] puts a value of the
    caller into a URL. *)

From stdpp Require Import base list.
From Stdlib Require Import NArith ZArith Lia.
From S2P Require Import Prelude PyStr Json JsonParse SafeFd BackupStore.

Definition upper_hex (d : N) : N := (if d <? 10 then 48 + d else 55 + d)%N.
(** The bytes that are never quoted. *)
Definition unreserved (b : N) : bool :=
  (is_lower b || is_digit b || ((65 <=? b) && (b <=? 90)) || (b =? 95) || (b =? 46) || (b =? 45) || (b =? 126))%N.
Definition quote_byte (safe : list N) (b : N) : pystr :=
  if unreserved b || bool_decide (b ∈ safe) then [b] else [37; upper_hex (b / 16); upper_hex (b mod 16)]%N.
(** [quote(value, safe=safe)] *)
Definition quote (safe : list N) (value : pystr) : res pystr :=
  match utf8 value with
  | Some bytes => Ret (concat (map (quote_byte safe) bytes))
  | None => Raise (Exn "UnicodeEncodeError" "surrogates not allowed")
  end.
Definition _DOT_SEGMENTS : list pystr := ["."; ".."].
(** [None] is Python's. *)
Definition _encode_path_segment (value : pystr) : res (option pystr) :=
  if bool_decide (value ∈ _DOT_SEGMENTS) then Ret None
  else let? segment := quote ":+." value in Ret (Some segment).
Definition _encode_query_value (value : pystr) : res pystr := quote ":," value.

(** ** Reading it back *)

(** What a server makes of a quoted text. *)
Definition hex_value (c : N) : option N :=
  (if (48 <=? c) && (c <=? 57) then Some (c - 48) else if (65 <=? c) && (c <=? 70) then Some (c - 55)
   else if (97 <=? c) && (c <=? 102) then Some (c - 87) else None)%N.
Fixpoint unquote (s : pystr) : list N :=
  match s with
  | [] => []
  | c :: s1 =>
      match s1 with
      | h :: l :: s3 =>
          match hex_value h, hex_value l with
          | Some a, Some b => if (c =? 37)%N then (a * 16 + b)%N :: unquote s3 else c :: unquote s1
          | _, _ => c :: unquote s1
          end
      | _ => c :: unquote s1
      end
  end.
(** In the query a plus sign is a blank. *)
Definition unquote_plus (s : pystr) : list N := unquote (map (λ c, if (c =? 43)%N then 32%N else c) s).
Definition query_char (c : N) : bool := unreserved c || bool_decide (c ∈ [37; 58; 44]%N).
Definition segment_char (c : N) : bool := unreserved c || bool_decide (c ∈ [37; 58; 43; 46]%N).

Lemma upper_hex_value d : (d < 16)%N → hex_value (upper_hex d) = Some d.
Proof.
  intros Hd. unfold hex_value, upper_hex. destruct (N.ltb_spec d 10).
  - rewrite (proj2 (N.leb_le 48 _)), (proj2 (N.leb_le _ 57)) by lia. cbn [andb]. f_equal. lia.
  - rewrite (proj2 (N.leb_gt (55 + d) 57)), andb_false_r by lia.
    rewrite (proj2 (N.leb_le 65 _)), (proj2 (N.leb_le _ 70)) by lia. cbn [andb]. f_equal. lia.
Qed.
Lemma upper_hex_unreserved d : (d < 16)%N → unreserved (upper_hex d) = true.
Proof.
  intros Hd. unfold unreserved, upper_hex, is_lower, is_digit. destruct (N.ltb_spec d 10).
  - rewrite (proj2 (N.leb_le 48 _)), (proj2 (N.leb_le _ 57)) by lia. cbn [andb]. by rewrite !orb_true_r.
  - rewrite (proj2 (N.leb_le 65 _)), (proj2 (N.leb_le _ 90)) by lia. cbn [andb]. by rewrite !orb_true_r.
Qed.
(** A byte that stays is no percent sign. *)
Lemma unquote_quoted safe bytes : 37%N ∉ safe → Forall (λ b, (b < 256)%N) bytes →
  unquote (concat (map (quote_byte safe) bytes)) = bytes.
Proof.
  intros Hs Hb. induction Hb as [|b bytes Hb Hbs IH]; [done|]. cbn [map concat].
  unfold quote_byte at 1. destruct (unreserved b || bool_decide (b ∈ safe)) eqn:E.
  - assert (Hne : (b =? 37)%N = false).
    { apply N.eqb_neq. intros ->. cbn in E. by apply bool_decide_eq_true in E. }
    cbn [app unquote]. rewrite IH. destruct (concat _) as [|h [|l s3]]; [done..|].
    destruct (hex_value h), (hex_value l); rewrite ?Hne; done.
  - cbn [app unquote]. rewrite !upper_hex_value by (apply N.Div0.div_lt_upper_bound || apply N.mod_lt; lia).
    cbn [N.eqb Pos.eqb]. rewrite IH. f_equal. pose proof (N.Div0.div_mod b 16). lia.
Qed.
Lemma quoted_chars safe bytes : Forall (λ b, (b < 256)%N) bytes →
  Forall (λ c, unreserved c || bool_decide (c ∈ 37%N :: safe) = true) (concat (map (quote_byte safe) bytes)).
Proof.
  intros Hb. induction Hb as [|b bytes Hb Hbs IH]; [constructor|]. cbn [map concat]. apply Forall_app. split; [|done].
  unfold quote_byte. destruct (unreserved b || bool_decide (b ∈ safe)) eqn:E.
  - apply Forall_singleton. destruct (unreserved b); [done|]. cbn [orb] in *. apply bool_decide_eq_true in E.
    apply bool_decide_eq_true. by right.
  - apply Forall_cons; split; [|apply Forall_cons; split; [|apply Forall_singleton]];
      [by rewrite bool_decide_eq_true_2, orb_true_r by left|by rewrite upper_hex_unreserved by (apply N.Div0.div_lt_upper_bound; lia)|
      by rewrite upper_hex_unreserved by (apply N.mod_lt; lia)].
Qed.

(** A value of the caller stays one segment of the path.  What is sent for it has
    none of the characters that end a segment or a path, is no reference to
    another directory, and decodes to the value; only the two such references
    themselves are turned down, and a text that is no Unicode. *)
Theorem segment_round_trip value :
  Forall valid_char value →
  match _encode_path_segment value with
  | Ret (Some segment) =>
      decode (unquote segment) = Some value ∧ Forall (λ c, segment_char c = true) segment ∧ segment ∉ _DOT_SEGMENTS
  | Ret None => value ∈ _DOT_SEGMENTS
  | Raise _ => utf8 value = None
  end.
Proof.
  intros Hv. unfold _encode_path_segment. destruct (bool_decide_reflect (value ∈ _DOT_SEGMENTS)) as [|Hd]; [done|].
  unfold quote. destruct (utf8 value) as [bytes|] eqn:E; [|done]. cbn [rbind].
  assert (Hb : Forall (λ b, (b < 256)%N) bytes) by (eapply BackupStore.utf8_bytes; [by eapply BackupStore.utf8_scalars|done]).
  assert (Hq : unquote (concat (map (quote_byte ":+.") bytes)) = bytes).
  { apply unquote_quoted; [|done]. apply (bool_decide_unpack (37%N ∉ _)). vm_compute. exact I. }
  assert (Hback : decode (unquote (concat (map (quote_byte ":+.") bytes))) = Some value) by (rewrite Hq; by apply decode_encode).
  split_and!; [done| |].
  - apply (quoted_chars ":+."). done.
  - intros Hin. apply Hd. apply elem_of_cons in Hin as [Es|Hin]; [|apply list_elem_of_singleton in Hin as Es];
      rewrite Es in Hback; vm_compute in Hback; injection Hback as <-; [left|right; left].
Qed.

(** A value of a query parameter stays one: what is sent has none of the
    characters that part parameters, names and values, and decodes to the value,
    with a plus sign read as a blank. *)
Lemma plus_free s : Forall (λ c, query_char c = true) s → map (λ c, if (c =? 43)%N then 32%N else c) s = s.
Proof.
  induction 1 as [|c s Hc Hs IH]; [done|]. cbn [map]. rewrite IH. destruct (N.eqb_spec c 43) as [->|]; [by vm_compute in Hc|done].
Qed.
Lemma query_value_round_trip value sent :
  Forall valid_char value → _encode_query_value value = Ret sent →
  decode (unquote_plus sent) = Some value ∧ Forall (λ c, query_char c = true) sent.
Proof.
  intros Hv. unfold _encode_query_value, quote. destruct (utf8 value) as [bytes|] eqn:E; [|done]. intros [= <-].
  assert (Hb : Forall (λ b, (b < 256)%N) bytes) by (eapply BackupStore.utf8_bytes; [by eapply BackupStore.utf8_scalars|done]).
  assert (Hc : Forall (λ c, query_char c = true) (concat (map (quote_byte ":,") bytes))) by (by apply (quoted_chars ":,")).
  split; [|done]. unfold unquote_plus. rewrite plus_free, unquote_quoted; [by apply decode_encode| |done|done].
  apply (bool_decide_unpack (37%N ∉ _)). vm_compute. exact I.
Qed.

(** The query of a URL: its parameters, with their values. *)
Definition read_parameter (part : pystr) : pystr * list N :=
  let '(name, value) := partition_at 61 part in (name, unquote_plus value).
Definition read_query (query : pystr) : list (pystr * list N) := map read_parameter (split_on 38 query).
Definition parameter (name value : pystr) : pystr := name ++ "=" ++ value.
Definition name_char (c : N) : bool := (is_lower c || (c =? 95))%N.
Lemma query_char_part c : query_char c = true → c ≠ 38%N ∧ c ≠ 61%N.
Proof. intros Hc. split; intros ->; by vm_compute in Hc. Qed.
Lemma name_char_part c : name_char c = true → c ≠ 38%N ∧ c ≠ 61%N.
Proof. intros Hc. split; intros ->; by vm_compute in Hc. Qed.
Lemma partition_at_name (c : N) (a b : pystr) : c ∉ a → partition_at c (a ++ c :: b) = (a, b).
Proof.
  induction a as [|x a IH]; cbn [app partition_at]; [by rewrite N.eqb_refl|]. intros [Hx Ha]%not_elem_of_cons.
  rewrite (proj2 (N.eqb_neq x c)) by congruence. by rewrite IH.
Qed.
Lemma read_query_join l :
  l ≠ [] → Forall (λ nv, Forall (λ c, name_char c = true) nv.1 ∧ Forall (λ c, query_char c = true) nv.2) l →
  read_query (join "&" (map (λ nv, parameter nv.1 nv.2) l)) = map (λ nv, (nv.1, unquote_plus nv.2)) l.
Proof.
  intros Hne Hl. unfold read_query. rewrite (SafeFd.split_on_join 38).
  - rewrite List.map_map. induction Hl as [|[n v] l [Hn Hv] Hl IH]; [done|]. cbn [map fst snd]. f_equal.
    + unfold read_parameter, parameter. change ("=" ++ v) with (61%N :: v). rewrite partition_at_name; [done|].
      intros H61. rewrite Forall_forall in Hn. by apply Hn, name_char_part in H61 as [_ ?].
    + destruct l as [|nv l]; [done|]. by apply IH.
  - by destruct l.
  - rewrite Forall_map. eapply Forall_impl; [exact Hl|]. intros [n v] [Hn Hv] H38. cbn [fst snd] in *.
    unfold parameter in H38. rewrite Forall_forall in Hn, Hv. apply elem_of_app in H38 as [H38|H38].
    + by apply Hn, name_char_part in H38 as [? _].
    + apply elem_of_cons in H38 as [?|H38]; [done|]. by apply Hv, query_char_part in H38 as [? _].
Qed.

Example segment_round_trip_witness :
  ∃ segment, _encode_path_segment "a/../b?c" = Ret (Some segment) ∧ decode (unquote segment) = Some "a/../b?c"%py.
Proof.
  eexists. split; [vm_compute; reflexivity|].
  apply (segment_round_trip "a/../b?c"). repeat constructor.
Defined.
