(* ===== verification/HaClient.v ===== *)
(** [ha_client.py]: the requests to Home Assistant and to the Supervisor.

    A client runs against the history of what it has asked so far; the answers of
    the HTTP library are a parameter over that history. *)

From stdpp Require Import base list gmap.
From Stdlib Require Import NArith ZArith Lia.
From S2P Require Import Prelude PyStr PyCase PyFloat Json JsonParse SystemRun.

(** ** The HTTP library *)

(** One thing asked of it: a request, a web socket, a message on that socket.
    Redirects are its own. *)
Inductive call :=
| Request (method url : pystr) (headers : list (pystr * pystr)) (body : option json)
| Connect (url : pystr)
| Send (message : json).
(** What comes of it: a value, [aiohttp.ClientError] with its text, a timeout, or
    another exception. *)
Inductive fetch (A : Type) := Got (a : A) | Fault (detail : pystr) | Late | Broken (e : exn).
Arguments Got {A} a.
Arguments Fault {A} detail.
Arguments Late {A}.
Arguments Broken {A} e.
(** A response: [body_text] and [body_json] are what [text()] and [json()] give;
    [chunks], then [chunks_end], what the body gives in pieces. *)
Record response := {
  status : Z; content_type : pystr; url_path : pystr; body_text : fetch pystr; body_json : fetch json;
  chunks : list (list N); chunks_end : fetch unit }.
(** The answer to the last call of a history; the message that arrives next. *)
Class Aiohttp := {
  respond : list call → fetch response;
  connected : list call → fetch unit;
  receive : list call → fetch json }.

(** ** Clients *)

(** What a client ends with: a value, an [HAClientError], [TimeoutError], or
    another exception. *)
Inductive ha (A : Type) := Done (a : A) | Failed (code message : pystr) | Timeout | Crash (e : exn).
Arguments Done {A} a.
Arguments Failed {A} code message.
Arguments Timeout {A}.
Arguments Crash {A} e.
Definition H (A : Type) : Type := list call → ha A * list call.
Definition hret {A} (a : A) : H A := λ s, (Done a, s).
Definition hfail {A} (code message : pystr) : H A := λ s, (Failed code message, s).
Definition hbind {A B} (m : H A) (f : A → H B) : H B :=
  λ s, match m s with
       | (Done a, s) => f a s
       | (Failed c msg, s) => (Failed c msg, s)
       | (Timeout, s) => (Timeout, s)
       | (Crash e, s) => (Crash e, s)
       end.
Notation "'let^' x ':=' m 'in' k" := (hbind m (λ x, k))
  (at level 10, x pattern, m at level 100, k at level 200) : res_scope.
(** [except aiohttp.ClientError] *)
Definition caught {A} (prefix : pystr) (f : fetch A) : H A :=
  λ s, (match f with
        | Got a => Done a
        | Fault detail => Failed "HA_NETWORK" (prefix ++ detail)
        | Late => Timeout
        | Broken e => Crash e
        end, s).

Section client.
Context `{Unicode} `{Casing} `{Aiohttp}.
(** The environment, and whether [/data] is a directory one can write to. *)
Context (getenv : pystr → option pystr) (data_mount : bool).

Definition request_to (prefix : pystr) (c : call) : H response :=
  λ s, caught prefix (respond (s ++ [c])) (s ++ [c]).
Definition connect_to (prefix url : pystr) : H unit :=
  λ s, caught prefix (connected (s ++ [Connect url])) (s ++ [Connect url]).
Definition send_json (j : json) : H unit := λ s, (Done tt, s ++ [Send j]).
Definition receive_json (prefix : pystr) : H json := λ s, caught prefix (receive s) s.

Definition _SUPERVISOR_TEXT_MAX_BYTES : N := 1048576.
Definition _SUPERVISOR_JSON_MAX_BYTES : N := 1048576.

Definition env_text (name : pystr) : pystr := default [] (getenv name).
Definition _is_addon_mode : bool :=
  match env_text "SUPERVISOR_TOKEN" with [] => data_mount | _ => true end.
Definition _ha_url : H pystr :=
  match env_text "SUPERVISOR_TOKEN" with
  | _ :: _ => hret "http://supervisor/core"%py
  | [] =>
      if _is_addon_mode then hret (default "http://homeassistant"%py (getenv "HASS_URL"))
      else match env_text "HASS_URL" with
           | [] => hfail "HA_NOT_CONFIGURED" "HASS_URL is not set"
           | url => hret url
           end
  end.
Definition _ha_token : H pystr :=
  match env_text "SUPERVISOR_TOKEN", env_text "HASS_TOKEN" with
  | (_ :: _) as token, _ => hret token
  | [], (_ :: _) as token => hret token
  | [], [] =>
      if _is_addon_mode
      then hfail "HA_NOT_CONFIGURED"
             ("Running in add-on mode but SUPERVISOR_TOKEN is missing and HASS_TOKEN is not set. Set HASS_TOKEN or check add-on config "
              ++ "flags (hassio_api/homeassistant_api/auth_api).")
      else hfail "HA_NOT_CONFIGURED" "No HA token configured"
  end.
Definition bearer (token : pystr) : pystr * pystr := ("Authorization"%py, "Bearer " ++ token).
Definition json_content : pystr * pystr := ("Content-Type", "application/json")%py.
Definition _headers : H (list (pystr * pystr)) :=
  let^ token := _ha_token in hret [bearer token; json_content].

Definition _http_error_message (service : pystr) (status : Z) (body : pystr) : pystr :=
  let snippet := strip (take 512 body) in
  let returned := service ++ " returned " ++ str_of_Z status in
  if contains (py_lower snippet) "<html" || contains (py_lower snippet) "<!doctype html"
  then returned ++ " (HTML error page suppressed)"
  else match snippet with [] => returned | _ => returned ++ ": " ++ snippet end.

Definition ha_network : pystr := "Network error contacting HA: ".
Definition _decode (resp : response) : H json :=
  if (status resp =? 401)%Z then hfail "HA_AUTH" "HA rejected the bearer token (401)"
  else if (status resp =? 404)%Z then hfail "HA_NOT_FOUND" ("HA returned 404 for " ++ url_path resp)
  else if (400 <=? status resp)%Z then
    let^ text := caught ha_network (body_text resp) in
    hfail "HA_HTTP_ERROR" (_http_error_message "HA" (status resp) text)
  else if contains (content_type resp) "json" then caught ha_network (body_json resp)
  else let^ text := caught ha_network (body_text resp) in hret (JStr text).

(** [rstrip("/")], and the first [http] of a base as [ws]. *)
Fixpoint drop_slashes (rev_s : pystr) : pystr :=
  match rev_s with 47%N :: rest => drop_slashes rest | _ => rev_s end.
Definition trim_slashes (s : pystr) : pystr := rev (drop_slashes (rev s)).
(** [s.replace(old, new)], [old] not empty *)
Fixpoint replace_all (fuel : nat) (s old new : pystr) : pystr :=
  match fuel, s with
  | _, [] => []
  | O, _ => s
  | S fuel, c :: s' =>
      if startswith s old then new ++ replace_all fuel (drop (length old) s) old new
      else c :: replace_all fuel s' old new
  end.
Definition replace_str (s old new : pystr) : pystr := replace_all (length s) s old new.

Definition ha_request (method path : pystr) (body : option json) : H json :=
  let^ base := _ha_url in
  let^ headers := _headers in
  let^ resp := request_to ha_network (Request method (trim_slashes base ++ path) headers body) in
  _decode resp.
Definition ha_get (path : pystr) : H json := ha_request "GET" path None.
Definition ha_post (path : pystr) (body : option json) : H json := ha_request "POST" path body.
Definition ha_delete (path : pystr) : H json := ha_request "DELETE" path None.

(** [request.update(payload)] *)
Definition update_dict (d payload : dict) : dict := fold_left (λ d kv, dset kv.1 kv.2 d) payload d.
(** [j.get(k)]; only an object has it. *)
Definition get_attr {A} (j : json) (f : dict → H A) : H A :=
  match j with JDict d => f d | _ => λ s, (Crash (Exn "AttributeError" "get"), s) end.
Definition ws_network : pystr := "WS network error: ".
Definition ws_url (base : pystr) : pystr :=
  replace_str (replace_str (trim_slashes base) "https://" "wss://") "http://" "ws://" ++ "/api/websocket".
Definition type_is (d : dict) (t : pystr) : bool := json_eqb (get_or_null "type" d) (JStr t).
Definition ws_answer (resp : json) : H json :=
  get_attr resp (λ d,
    if truthy (default (JBool false) (dget "success" d)) then hret (get_or_null "result" d)
    else get_attr (default (JDict []) (dget "error" d)) (λ err,
           hfail ("HA_" ++ py_upper (str_get "code" "WS_ERROR" err)) (str_get "message" "WS call failed" err))).
Definition ha_ws_call (msg_type : pystr) (payload : dict) : H json :=
  let^ base := _ha_url in
  let^ token := _ha_token in
  let^ _ := connect_to ws_network (ws_url base) in
  let^ first := receive_json ws_network in
  let^ _ := get_attr first (λ d,
    if type_is d "auth_required" then hret tt
    else hfail "HA_WS_ERROR" ("Expected auth_required, got " ++ py_repr (get_or_null "type" d))) in
  let^ _ := send_json (JDict [("type", JStr "auth"); ("access_token", JStr token)]%py) in
  let^ auth_resp := receive_json ws_network in
  let^ _ := get_attr auth_resp (λ d,
    if type_is d "auth_ok" then hret tt else hfail "HA_AUTH" "WS authentication rejected") in
  let^ _ := send_json (JDict (update_dict [("id", JInt 1); ("type", JStr msg_type)]%py payload)) in
  let^ resp := receive_json ws_network in
  ws_answer resp.

(** ** The Supervisor *)

Definition supervisor_network : pystr := "Network error contacting Supervisor: ".
(** A request to the Supervisor, up to its status. *)
Definition supervisor_request (method path : pystr) (headers : pystr → list (pystr * pystr)) (body : option json) : H response :=
  match env_text "SUPERVISOR_TOKEN" with
  | [] => hfail "SUPERVISOR_UNAVAILABLE" "Supervisor API requires SUPERVISOR_TOKEN; not set in this environment."
  | token =>
      let^ resp := request_to supervisor_network (Request method ("http://supervisor" ++ path) (headers token) body) in
      if (status resp =? 401)%Z then hfail "HA_AUTH" "Supervisor rejected the token (401)"
      else if (status resp =? 404)%Z then hfail "HA_NOT_FOUND" ("Supervisor returned 404 for " ++ path)
      else if (400 <=? status resp)%Z then
        let^ text := caught supervisor_network (body_text resp) in
        hfail "HA_HTTP_ERROR" (_http_error_message "Supervisor" (status resp) text)
      else hret resp
  end.
Definition size (bytes : list N) : N := N.of_nat (length bytes).
(** The last [max] bytes of what has come. *)
Definition keep_tail (max : N) (tail chunk : list N) : list N :=
  let tail := tail ++ chunk in drop (N.to_nat (size tail - max)) tail.
Definition supervisor_get_text (path : pystr) (max_bytes : N) : H pystr :=
  let^ resp := supervisor_request "GET" path (λ token, [bearer token]) None in
  let tail := fold_left (keep_tail max_bytes) (chunks resp) [] in
  let^ _ := caught supervisor_network (chunks_end resp) in
  hret (decode_replace tail).
(** The whole body, as long as it is no longer than [max]. *)
Fixpoint read_bounded (max : N) (cs : list (list N)) (buf : list N) : option (list N) :=
  match cs with
  | [] => Some buf
  | c :: cs => if (max <? size (buf ++ c))%N then None else read_bounded max cs (buf ++ c)
  end.
Definition bounded_body (path : pystr) (max_bytes : N) (resp : response) : H (list N) :=
  match read_bounded max_bytes (chunks resp) [] with
  | None => hfail "HA_RESPONSE_TOO_LARGE" ("Supervisor response for " ++ path ++ " exceeded " ++ str_of_N max_bytes ++ " bytes")
  | Some buf => let^ _ := caught supervisor_network (chunks_end resp) in hret buf
  end.
Definition decode_json (path : pystr) (buf : list N) : H json :=
  match decode buf with
  | Some text => match loads text with
                 | Ret j => hret j
                 | Raise _ => hfail "HA_BAD_RESPONSE" ("Supervisor returned non-JSON body for " ++ path)
                 end
  | None => hfail "HA_BAD_RESPONSE" ("Supervisor returned non-JSON body for " ++ path)
  end.
Definition supervisor_get_json (path : pystr) (max_bytes : N) : H json :=
  let^ resp := supervisor_request "GET" path (λ token, [bearer token]) None in
  let^ buf := bounded_body path max_bytes resp in
  decode_json path buf.
Definition supervisor_post_json (path : pystr) (body : option json) (max_bytes : N) : H json :=
  let^ resp := supervisor_request "POST" path (λ token, [bearer token; json_content]) body in
  let^ buf := bounded_body path max_bytes resp in
  match buf with [] => hret (JDict []) | _ => decode_json path buf end.
End client.

(** ** What a client asks *)

(** Whatever has been asked before, what [m] asks satisfies [P]. *)
Definition asks {A} (P : call → Prop) (m : H A) : Prop :=
  ∀ s, ∃ new, (m s).2 = s ++ new ∧ Forall P new.
Create HintDb asks.
Lemma asks_ret {A} P (a : A) : asks P (hret a).
Proof. intros s. exists []. by rewrite app_nil_r. Qed.
Lemma asks_fail {A} P c msg : asks P (hfail (A := A) c msg).
Proof. intros s. exists []. by rewrite app_nil_r. Qed.
Lemma asks_crash {A} P e : asks P (λ s, (Crash (A := A) e, s)).
Proof. intros s. exists []. by rewrite app_nil_r. Qed.
Lemma asks_caught {A} P prefix (f : fetch A) : asks P (caught prefix f).
Proof. intros s. exists []. by rewrite app_nil_r. Qed.
Lemma asks_bind {A B} P (m : H A) (f : A → H B) : asks P m → (∀ a, asks P (f a)) → asks P (hbind m f).
Proof.
  intros Hm Hf s. unfold hbind. destruct (Hm s) as (new & E & Hn). destruct (m s) as [[a| | |] s1]; cbn [snd] in E; subst s1; eauto.
  destruct (Hf a (s ++ new)) as (new' & E & Hn'). exists (new ++ new'). rewrite E, app_assoc. split; [done|by apply Forall_app].
Qed.
Lemma asks_get_attr {A} P j (f : dict → H A) : (∀ d, asks P (f d)) → asks P (get_attr j f).
Proof. intros Hf. destruct j; cbn [get_attr]; try apply asks_crash. apply Hf. Qed.
#[export] Hint Resolve asks_ret asks_fail asks_crash asks_caught asks_bind asks_get_attr : asks.
Ltac asks_step :=
  match goal with
  | |- ∀ _, _ => intro
  | |- asks _ (hbind _ _) => apply asks_bind
  | |- asks _ (get_attr _ _) => apply asks_get_attr
  | |- asks _ (if ?b then _ else _) => destruct b
  | |- asks _ (match ?x with _ => _ end) => destruct x
  | |- asks _ _ => solve [auto with asks]
  end.
Ltac asks_tac := repeat asks_step.
(** A result behind a bind. *)
Lemma hbind_Done {A B} (m : H A) (f : A → H B) s b s2 :
  hbind m f s = (Done b, s2) → ∃ a s1, m s = (Done a, s1) ∧ f a s1 = (Done b, s2).
Proof. unfold hbind. destruct (m s) as [[a| | |] s1]; naive_solver. Qed.

Section client_facts.
Context `{Unicode} `{Casing} `{Aiohttp}.
Context (getenv : pystr → option pystr) (data_mount : bool).
Abbreviation supervisor_token := (env_text getenv "SUPERVISOR_TOKEN").

Lemma asks_request (P : call → Prop) prefix c : P c → asks P (request_to prefix c).
Proof. intros Hc s. exists [c]. split; [done|by constructor]. Qed.
Lemma asks_connect (P : call → Prop) prefix url : P (Connect url) → asks P (connect_to prefix url).
Proof. intros Hc s. exists [Connect url]. split; [done|by constructor]. Qed.
Lemma asks_send (P : call → Prop) j : P (Send j) → asks P (send_json j).
Proof. intros Hc s. exists [Send j]. split; [done|by constructor]. Qed.
Lemma asks_receive P prefix : asks P (receive_json prefix).
Proof. intros s. exists []. by rewrite app_nil_r. Qed.
Hint Resolve asks_receive : asks.
Lemma asks_ha_url P : asks P (_ha_url getenv data_mount).
Proof. unfold _ha_url. asks_tac. Qed.
Lemma asks_ha_token P : asks P (_ha_token getenv data_mount).
Proof. unfold _ha_token. asks_tac. Qed.
Lemma asks_headers P : asks P (_headers getenv data_mount).
Proof. unfold _headers. apply asks_bind; [apply asks_ha_token|auto with asks]. Qed.
Lemma asks_decode P resp : asks P (_decode resp).
Proof. unfold _decode. asks_tac. Qed.
Hint Resolve asks_ha_url asks_ha_token asks_headers asks_decode : asks.

(** The base and the token, once they are known. *)
Definition base_of : ha pystr := (_ha_url getenv data_mount []).1.
Definition token_of : ha pystr := (_ha_token getenv data_mount []).1.
Lemma ha_url_pure s : _ha_url getenv data_mount s = (base_of, s).
Proof. unfold base_of, _ha_url, hret, hfail. by repeat case_match. Qed.
Lemma ha_token_pure s : _ha_token getenv data_mount s = (token_of, s).
Proof. unfold token_of, _ha_token, hret, hfail. by repeat case_match. Qed.
Lemma asks_ha_request (P : call → Prop) method path body :
  (∀ base token, base_of = Done base → token_of = Done token →
     P (Request method (trim_slashes base ++ path) [bearer token; json_content] body)) →
  asks P (ha_request getenv data_mount method path body).
Proof.
  intros Hp s. unfold ha_request, hbind at 1. rewrite ha_url_pure.
  destruct base_of as [base| | |] eqn:Eb; try (exists []; by rewrite app_nil_r).
  unfold hbind at 1, _headers, hbind at 1. rewrite ha_token_pure.
  destruct token_of as [token| | |] eqn:Et; try (exists []; by rewrite app_nil_r).
  apply asks_bind; [apply asks_request; auto|apply asks_decode].
Qed.
(** A web socket call asks nothing, or connects and then asks. *)
Lemma ws_call_shape (P : call → Prop) msg_type payload :
  (∀ token, token_of = Done token →
     P (Send (JDict [("type", JStr "auth"); ("access_token", JStr token)]%py)) ∧
     P (Send (JDict (update_dict [("id", JInt 1); ("type", JStr msg_type)]%py payload)))) →
  ∀ s, ∃ new, (ha_ws_call getenv data_mount msg_type payload s).2 = s ++ new ∧
    (new = [] ∨ ∃ base token rest, base_of = Done base ∧ token_of = Done token ∧
       new = Connect (ws_url base) :: rest ∧ Forall P rest).
Proof.
  intros Hp s. unfold ha_ws_call, hbind at 1. rewrite ha_url_pure.
  destruct base_of as [base| | |] eqn:Eb; try (exists []; rewrite app_nil_r; split; [done|by left]).
  unfold hbind at 1. rewrite ha_token_pure.
  destruct token_of as [token| | |] eqn:Et; try (exists []; rewrite app_nil_r; split; [done|by left]).
  destruct (Hp token eq_refl) as (Ha & Hs).
  match goal with |- context [hbind (connect_to ws_network (ws_url base)) ?k s] =>
    assert (Hk : asks P (k tt)) end.
  { apply asks_bind; [auto with asks|intros first].
    apply asks_bind; [asks_tac|intros _]. apply asks_bind; [by apply asks_send|intros _]. apply asks_bind; [auto with asks|intros auth].
    apply asks_bind; [asks_tac|intros _]. apply asks_bind; [by apply asks_send|intros _].
    apply asks_bind; [auto with asks|intros resp]. unfold ws_answer. asks_tac. }
  unfold hbind at 1, connect_to, caught.
  destruct (connected _) as [[]|detail| |e]; [|exists [Connect (ws_url base)]; split; [done|]; right; exists base, token, []; by split_and!..].
  destruct (Hk (s ++ [Connect (ws_url base)])) as (rest & E & Hr).
  exists (Connect (ws_url base) :: rest). split; [rewrite E, <- app_assoc; done|].
  right. exists base, token, rest. by split_and!.
Qed.
Lemma asks_ha_ws_call (P : call → Prop) msg_type payload :
  (∀ base token, base_of = Done base → token_of = Done token →
     P (Connect (ws_url base)) ∧ P (Send (JDict [("type", JStr "auth"); ("access_token", JStr token)]%py)) ∧
     P (Send (JDict (update_dict [("id", JInt 1); ("type", JStr msg_type)]%py payload)))) →
  asks P (ha_ws_call getenv data_mount msg_type payload).
Proof.
  intros Hp s.
  destruct (ws_call_shape (λ c, ∀ base token, base_of = Done base → token_of = Done token → P c) msg_type payload)
    with (s := s) as (new & E & Hn).
  - intros token Ht. split; intros base token' Hb Ht'; rewrite Ht in Ht'; injection Ht' as <-; by eapply Hp.
  - exists new. split; [done|]. destruct Hn as [->|(base & token & rest & Hb & Ht & -> & Hr)]; [constructor|].
    constructor; [by eapply Hp|]. eapply Forall_impl; [exact Hr|]. eauto.
Qed.
Lemma asks_supervisor_request (P : call → Prop) method path headers body :
  (supervisor_token ≠ [] → P (Request method ("http://supervisor" ++ path) (headers supervisor_token) body)) →
  asks P (supervisor_request getenv method path headers body).
Proof.
  intros Hp. unfold supervisor_request. destruct supervisor_token as [|c t] eqn:E; [auto with asks|].
  apply asks_bind; [apply asks_request; by apply Hp|asks_tac].
Qed.
Lemma asks_supervisor_get_text (P : call → Prop) path max :
  (supervisor_token ≠ [] → P (Request "GET" ("http://supervisor" ++ path) [bearer supervisor_token] None)) →
  asks P (supervisor_get_text getenv path max).
Proof. intros Hp. apply asks_bind; [by apply asks_supervisor_request|asks_tac]. Qed.
Lemma asks_body P path max resp : asks P (bounded_body path max resp).
Proof. unfold bounded_body. asks_tac. Qed.
Lemma asks_decode_json P path buf : asks P (decode_json path buf).
Proof. unfold decode_json. asks_tac. Qed.
Hint Resolve asks_body asks_decode_json : asks.
Lemma asks_supervisor_get_json (P : call → Prop) path max :
  (supervisor_token ≠ [] → P (Request "GET" ("http://supervisor" ++ path) [bearer supervisor_token] None)) →
  asks P (supervisor_get_json getenv path max).
Proof. intros Hp. apply asks_bind; [by apply asks_supervisor_request|asks_tac]. Qed.
Lemma asks_supervisor_post_json (P : call → Prop) path body max :
  (supervisor_token ≠ [] → P (Request "POST" ("http://supervisor" ++ path) [bearer supervisor_token; json_content] body)) →
  asks P (supervisor_post_json getenv path body max).
Proof. intros Hp. apply asks_bind; [by apply asks_supervisor_request|asks_tac]. Qed.
End client_facts.

Section client_theorems.
Context `{Unicode} `{Casing} `{Aiohttp}.
Context (getenv : pystr → option pystr) (data_mount : bool).
Abbreviation supervisor_token := (env_text getenv "SUPERVISOR_TOKEN").
Implicit Types s : list call.

(** Everything that is asked goes to the Supervisor's host: each request, each
    connection, and each message, which goes out on the connection made last. *)
Fixpoint homeward (socket : option pystr) (cs : list call) : Prop :=
  match cs with
  | [] => True
  | Request _ url _ _ :: cs => startswith url "http://supervisor/" = true ∧ homeward socket cs
  | Connect url :: cs => startswith url "ws://supervisor/" = true ∧ homeward (Some url) cs
  | Send _ :: cs => (∃ url, socket = Some url ∧ startswith url "ws://supervisor/" = true) ∧ homeward socket cs
  end.
(** What [m] asks, from before its own first connection on. *)
Definition stays_home {A} (m : H A) : Prop := ∀ s, ∃ new, (m s).2 = s ++ new ∧ homeward None new.
Definition is_request (c : call) : Prop := match c with Request _ url _ _ => startswith url "http://supervisor/" = true | _ => False end.
Definition is_send (c : call) : Prop := match c with Send _ => True | _ => False end.
Lemma requests_homeward cs socket : Forall is_request cs → homeward socket cs.
Proof. induction 1 as [|c cs Hc _ IH]; [done|]. by destruct c. Qed.
Lemma sends_homeward cs url : startswith url "ws://supervisor/" = true → Forall is_send cs → homeward (Some url) cs.
Proof. intros Hu. induction 1 as [|c cs Hc _ IH]; [done|]. destruct c; try done. split; [eauto|done]. Qed.
Lemma requests_stay_home {A} (m : H A) : asks is_request m → stays_home m.
Proof. intros Hm s. destruct (Hm s) as (new & E & Hn). exists new. split; [done|]. by apply requests_homeward. Qed.
(** A request without the token [t]. *)
Definition without (t : pystr) (c : call) : Prop :=
  match c with
  | Request _ _ headers _ => bearer t ∉ headers
  | Connect _ => True
  | Send m => m ≠ JDict [("type", JStr "auth"); ("access_token", JStr t)]%py
  end.

Lemma base_of_supervised : supervisor_token ≠ [] → base_of getenv data_mount = Done "http://supervisor/core"%py.
Proof. unfold base_of, _ha_url. by destruct supervisor_token. Qed.
Lemma startswith_chain (p q s : pystr) : startswith p q = true → startswith (p ++ s) q = true.
Proof. intros [t ->]%startswith_spec. apply startswith_spec. exists (t ++ s). by rewrite app_assoc. Qed.

(** C19. The client keeps the Supervisor's token with the Supervisor.  Where the
    token is set, whatever the client's functions ask of Home Assistant goes to
    the Supervisor's host, whatever [HASS_URL] says: each request, each
    connection, and each message by the connection it goes out on, among them
    the one that carries the token.  What they ask of the Supervisor itself goes
    there too, and nothing is asked of it where the token is not set. *)
Theorem supervisor_token_stays_home :
  (supervisor_token ≠ [] →
     (∀ method path body, stays_home (ha_request getenv data_mount method path body)) ∧
     (∀ msg_type payload, stays_home (ha_ws_call getenv data_mount msg_type payload))) ∧
  ∀ path body max, startswith path "/" = true →
    (stays_home (supervisor_get_text getenv path max) ∧
     stays_home (supervisor_get_json getenv path max) ∧
     stays_home (supervisor_post_json getenv path body max)) ∧
    (supervisor_token = [] → ∀ s,
     (supervisor_get_text getenv path max s).2 = s ∧ (supervisor_get_json getenv path max s).2 = s ∧
     (supervisor_post_json getenv path body max s).2 = s).
Proof.
  split.
  - intros Ht. pose proof (base_of_supervised Ht) as Hb. split.
    + intros method path body. apply requests_stay_home, asks_ha_request. intros base token E _. rewrite Hb in E. injection E as <-.
      cbn [is_request]. by apply startswith_chain.
    + intros msg_type payload s. destruct (ws_call_shape getenv data_mount is_send msg_type payload) with (s := s)
        as (new & E & Hn); [done|]. exists new. split; [done|].
      destruct Hn as [->|(base & token & rest & Eb & _ & -> & Hr)]; [done|]. rewrite Hb in Eb. injection Eb as <-.
      split; [vm_compute; reflexivity|]. apply sends_homeward; [vm_compute; reflexivity|done].
  - intros path body max Hp. apply startswith_spec in Hp as [t ->]. split.
    + split_and!; apply requests_stay_home;
        [apply asks_supervisor_get_text|apply asks_supervisor_get_json|apply asks_supervisor_post_json];
        (intros _; cbn [is_request]; apply startswith_spec; by exists t).
    + intros Hno s. unfold supervisor_get_text, supervisor_get_json, supervisor_post_json, supervisor_request, hbind.
      rewrite Hno. by split_and!.
Qed.

(** ** Bodies within bounds *)

Lemma keep_tail_spec max cs : ∀ all tail,
  tail = drop (N.to_nat (size all - max)) all →
  fold_left (keep_tail max) cs tail = drop (N.to_nat (size (all ++ concat cs) - max)) (all ++ concat cs).
Proof.
  induction cs as [|c cs IH]; intros all tail ->; cbn [fold_left concat]; [by rewrite app_nil_r|].
  rewrite (IH (all ++ c)); [by rewrite app_assoc|]. unfold keep_tail, size in *.
  rewrite length_app, length_drop. set (k := N.to_nat (N.of_nat (length all) - max)).
  assert (Hk : k ≤ length all) by lia.
  replace (drop k all ++ c) with (drop k (all ++ c)) by (by rewrite drop_app_le). rewrite drop_drop. f_equal.
  rewrite length_app. lia.
Qed.
Lemma read_bounded_spec max cs : ∀ buf, (size buf ≤ max)%N →
  read_bounded max cs buf = if (size (buf ++ concat cs) <=? max)%N then Some (buf ++ concat cs) else None.
Proof.
  induction cs as [|c cs IH]; intros buf Hb; cbn [read_bounded concat].
  - rewrite app_nil_r. by rewrite (proj2 (N.leb_le _ _) Hb).
  - destruct (N.ltb_spec max (size (buf ++ c))) as [Hlt|Hle].
    + assert (Hno : (max < size (buf ++ c ++ concat cs))%N) by (unfold size in *; rewrite !length_app in *; lia).
      by rewrite (proj2 (N.leb_gt _ _) Hno).
    + by rewrite IH, app_assoc.
Qed.
Lemma supervisor_request_Done method path headers body s resp s' :
  supervisor_request getenv method path headers body s = (Done resp, s') →
  respond s' = Got resp ∧ (status resp < 400)%Z ∧
  s' = s ++ [Request method ("http://supervisor" ++ path) (headers supervisor_token) body].
Proof.
  unfold supervisor_request. destruct supervisor_token as [|c t]; [done|].
  intros (resp' & s1 & Er & Hd)%hbind_Done. unfold request_to, caught in Er. destruct (respond _) as [x| | |] eqn:E; [|done..].
  injection Er as <- <-. destruct (status x =? 401)%Z; [done|]. destruct (status x =? 404)%Z; [done|].
  destruct (Z.leb_spec 400 (status x)).
  - apply hbind_Done in Hd as (? & ? & _ & Hd). done.
  - injection Hd as <- <-. done.
Qed.

(** A text from the Supervisor is the end of what was sent: its last [max] bytes,
    however it was cut into pieces; what is kept on the way is never more than
    that and the piece that arrives. *)
Theorem supervisor_text_is_the_tail path max s text s' :
  supervisor_get_text getenv path max s = (Done text, s') →
  ∃ resp tail, respond s' = Got resp ∧ (status resp < 400)%Z ∧
    text = decode_replace tail ∧ tail `suffix_of` concat (chunks resp) ∧
    size tail = N.min max (size (concat (chunks resp))) ∧
    ∀ k, (size (fold_left (keep_tail max) (take k (chunks resp)) []) ≤ max)%N.
Proof.
  unfold supervisor_get_text. intros (resp & s1 & Hr & Hd)%hbind_Done.
  apply supervisor_request_Done in Hr as (Hr & Hs & _). apply hbind_Done in Hd as (u & s2 & Hc & Hd).
  unfold caught in Hc. destruct (chunks_end resp) eqn:Ee; try done. injection Hc as <- <-. injection Hd as <- <-.
  assert (Hall : ∀ cs, fold_left (keep_tail max) cs [] = drop (N.to_nat (size (concat cs) - max)) (concat cs))
    by (intros cs; by rewrite (keep_tail_spec max cs [] [])).
  exists resp, (fold_left (keep_tail max) (chunks resp) []). rewrite Hall. split_and!; [done..| | |].
  - exists (take (N.to_nat (size (concat (chunks resp)) - max)) (concat (chunks resp))). by rewrite take_drop.
  - unfold size. rewrite length_drop. lia.
  - intros k. rewrite Hall. unfold size. rewrite length_drop. lia.
Qed.

(** JSON from the Supervisor is read whole or not at all: a body of more bytes than
    allowed is refused whatever it holds, another is what [json.loads] makes of it. *)
Theorem supervisor_json_within_bounds path max s resp :
  supervisor_token ≠ [] →
  let s' := s ++ [Request "GET" ("http://supervisor" ++ path) [bearer supervisor_token] None] in
  respond s' = Got resp → (status resp < 400)%Z → chunks_end resp = Got tt →
  let body := concat (chunks resp) in
  supervisor_get_json getenv path max s =
    ((if (size body <=? max)%N
      then match decode body with
           | Some text => match loads text with
                          | Ret j => Done j
                          | Raise _ => Failed "HA_BAD_RESPONSE" ("Supervisor returned non-JSON body for " ++ path)
                          end
           | None => Failed "HA_BAD_RESPONSE" ("Supervisor returned non-JSON body for " ++ path)
           end
      else Failed "HA_RESPONSE_TOO_LARGE" ("Supervisor response for " ++ path ++ " exceeded " ++ str_of_N max ++ " bytes")), s').
Proof.
  intros Ht s' Hr Hs He body. unfold supervisor_get_json, supervisor_request. destruct supervisor_token as [|c t] eqn:E; [done|].
  fold s'. unfold hbind, request_to. fold s'. unfold caught. rewrite Hr.
  rewrite !(proj2 (Z.eqb_neq _ _)) by lia. rewrite (proj2 (Z.leb_gt _ _)) by lia. cbn [hret].
  unfold hret, bounded_body. rewrite read_bounded_spec by (unfold size; cbn; lia). cbn [app]. fold body.
  destruct (size body <=? max)%N; [|done]. unfold hbind, caught, hret. rewrite He. unfold decode_json.
  destruct (decode body) as [text|]; [|done]. by destruct (loads text).
Qed.

(** An error text is bounded, and depends on the first 512 characters of the body
    only; a page of HTML among them is left out. *)
Lemma length_lstrip (x : pystr) : length (lstrip x) ≤ length x.
Proof. induction x as [|c x IH]; cbn [lstrip]; [done|]. destruct (is_space c); simpl; lia. Qed.
Lemma length_strip_le (x : pystr) : length (strip x) ≤ length x.
Proof.
  unfold strip, rstrip. rewrite length_rev. etrans; [apply length_lstrip|]. rewrite length_rev. apply length_lstrip.
Qed.
Theorem error_text_is_bounded service st body :
  _http_error_message service st body = _http_error_message service st (take 512 body) ∧
  length (_http_error_message service st body) ≤ length service + length (str_of_Z st) + 544 ∧
  (contains (py_lower (strip (take 512 body))) "<html" = true →
   _http_error_message service st body = service ++ " returned " ++ str_of_Z st ++ " (HTML error page suppressed)").
Proof.
  unfold _http_error_message. rewrite take_take. change (min 512 512) with 512. split_and!; [done| |].
  - pose proof (length_strip_le (take 512 body)) as Hl. rewrite length_take in Hl.
    set (snippet := strip (take 512 body)) in *. clearbody snippet.
    destruct (_ || _); [rewrite !length_app; cbn [length]; lia|].
    destruct snippet as [|c w]; rewrite !length_app; cbn [length] in *; lia.
  - intros ->. by rewrite <- !app_assoc.
Qed.

(** ** The conversation with the web socket *)

(** The frames of a call, in their order: the socket, the token, the request. *)
Definition ws_frames (base token msg_type : pystr) (payload : dict) : list call :=
  [Connect (ws_url base); Send (JDict [("type", JStr "auth"); ("access_token", JStr token)]%py);
   Send (JDict (update_dict [("id", JInt 1); ("type", JStr msg_type)]%py payload))].
Definition ws_sent (s frames : list call) (k : nat) : list call := s ++ take k frames.
Lemma ws_sent_S s frames k x : frames !! k = Some x → ws_sent s frames k ++ [x] = ws_sent s frames (S k).
Proof. intros Hk. unfold ws_sent. by rewrite (take_S_r _ _ _ Hk), app_assoc. Qed.
Definition greets (f : fetch json) (t : pystr) : Prop := ∃ d, f = Got (JDict d) ∧ get_or_null "type" d = JStr t.
Lemma type_is_spec d t : type_is d t = true → get_or_null "type" d = JStr t.
Proof. unfold type_is. destruct (get_or_null "type" d); try done. cbn [json_eqb]. by intros ->%bool_decide_eq_true. Qed.

Lemma ws_turns msg_type payload s r s' :
  ha_ws_call getenv data_mount msg_type payload s = (r, s') →
  (s' = s ∧ ∀ j, r ≠ Done j) ∨
  ∃ base token, base_of getenv data_mount = Done base ∧ token_of getenv data_mount = Done token ∧
    let frames := ws_frames base token msg_type payload in
    ((s' = ws_sent s frames 1 ∧ ∀ j, r ≠ Done j) ∨
    (greets (receive (ws_sent s frames 1)) "auth_required" ∧ s' = ws_sent s frames 2 ∧ ∀ j, r ≠ Done j) ∨
    (greets (receive (ws_sent s frames 1)) "auth_required" ∧ greets (receive (ws_sent s frames 2)) "auth_ok" ∧ s' = ws_sent s frames 3 ∧
     ∀ j, r = Done j → ∃ d, receive (ws_sent s frames 3) = Got (JDict d) ∧ j = get_or_null "result" d ∧
                         truthy (default (JBool false) (dget "success" d)) = true)).
Proof.
  unfold ha_ws_call, hbind at 1. rewrite ha_url_pure. destruct (base_of getenv data_mount) as [base| | |] eqn:Eb; try (intros [= <- <-]; by left).
  unfold hbind at 1. rewrite ha_token_pure. destruct (token_of getenv data_mount) as [token| | |] eqn:Et; try (intros [= <- <-]; by left).
  intros Hrun. right. exists base, token. do 2 (split; [done|]). set (frames := ws_frames base token msg_type payload). revert Hrun.
  unfold connect_to, receive_json, send_json, get_attr, caught, hbind, hret, hfail.
  change (s ++ [Connect (ws_url base)]) with (ws_sent s frames 1).
  destruct (connected (ws_sent s frames 1)); [|by intros [= <- <-]; left..].
  destruct (receive (ws_sent s frames 1)) as [j1| | |] eqn:E1; [|by intros [= <- <-]; left..].
  destruct j1 as [| | | | | |d1]; [by intros [= <- <-]; left..|].
  destruct (type_is d1 "auth_required") eqn:Et1; [|by intros [= <- <-]; left]. apply type_is_spec in Et1.
  assert (Hg1 : greets (Got (JDict d1)) "auth_required") by (by exists d1). intros Hrun. right. revert Hrun.
  rewrite (ws_sent_S s frames 1 _ eq_refl).
  destruct (receive (ws_sent s frames 2)) as [j2| | |] eqn:E2; [|by intros [= <- <-]; left..].
  destruct j2 as [| | | | | |d2]; [by intros [= <- <-]; left..|].
  destruct (type_is d2 "auth_ok") eqn:Et2; [|by intros [= <- <-]; left]. apply type_is_spec in Et2.
  intros Hrun. right. split_and!; [done|by exists d2|..]; revert Hrun;
    rewrite (ws_sent_S s frames 2 _ eq_refl);
    (destruct (receive (ws_sent s frames 3)) as [j3| | |] eqn:E3; [|by intros [= <- <-]..]);
    (destruct j3 as [| | | | | |d3]; [by intros [= <- <-]..|]); cbn [ws_answer get_attr];
    (destruct (truthy _) eqn:Es; [intros [= <- <-]|destruct (default _ (dget "error" d3)); by intros [= <- <-]]).
  - done.
  - intros j [= <-]. by exists d3.
Qed.

(** The token goes out only to a server that asks for it, and the request only to
    one that took the token: what was sent is a beginning of the three frames, each
    behind the message that calls for it.  A result is what a successful response
    to the request holds. *)
Theorem ws_speaks_in_turn msg_type payload s r s' :
  ha_ws_call getenv data_mount msg_type payload s = (r, s') →
  (s' = s ∧ ∀ j, r ≠ Done j) ∨
  ∃ base token, base_of getenv data_mount = Done base ∧ token_of getenv data_mount = Done token ∧
    let frames := ws_frames base token msg_type payload in
    ((s' = ws_sent s frames 1 ∧ ∀ j, r ≠ Done j) ∨
    (greets (receive (ws_sent s frames 1)) "auth_required" ∧ s' = ws_sent s frames 2 ∧ ∀ j, r ≠ Done j) ∨
    (greets (receive (ws_sent s frames 1)) "auth_required" ∧ greets (receive (ws_sent s frames 2)) "auth_ok" ∧ s' = ws_sent s frames 3 ∧
     ∀ j, r = Done j → ∃ d, receive (ws_sent s frames 3) = Got (JDict d) ∧ j = get_or_null "result" d ∧
                         truthy (default (JBool false) (dget "success" d)) = true)).
Proof. apply ws_turns. Qed.
End client_theorems.

(** ** Witnesses *)

#[local] Instance every_char_prints : Unicode := {| uni_printable := λ _, true; uni_decimal := λ _, None |}.
#[local] Existing Instance ascii_casing.
Definition hello : json := JDict [("type", JStr "auth_required")]%py.
Definition welcome : json := JDict [("type", JStr "auth_ok")]%py.
Definition success (result : json) : json := JDict [("success", JBool true); ("result", result)]%py.
(** A server that answers every request with [j], and every web socket with a
    conversation that ends with the result [j]. *)
Definition answering (j : json) : Aiohttp :=
  {| respond := λ _, Got {| status := 200; content_type := "application/json"; url_path := "/"; body_text := Got (dumps_compact j);
                            body_json := Got j; chunks := [take 3 (dumps_compact j); drop 3 (dumps_compact j)]; chunks_end := Got tt |};
     connected := λ _, Got tt;
     receive := λ s, Got (match last s with
                          | Some (Connect _) => hello
                          | Some (Send (JDict (("type", JStr "auth"%py)%py :: _))) => welcome
                          | _ => success j
                          end) |}.
Definition supervised (name : pystr) : option pystr :=
  if bool_decide (name = "SUPERVISOR_TOKEN"%py) then Some "s3cret"%py
  else if bool_decide (name = "HASS_URL"%py) then Some "http://elsewhere"%py else None.
#[local] Instance demo_server : Aiohttp := answering (JList [JInt 1; JInt 2]).

Example supervisor_token_stays_home_witness :
  (ha_get supervised true "/api/states" []).2 =
    [Request "GET" "http://supervisor/core/api/states" [bearer "s3cret"; json_content] None] ∧
  (ha_ws_call supervised true "get_states" [] []).2 =
    [Connect "ws://supervisor/core/api/websocket"; Send (JDict [("type", JStr "auth"); ("access_token", JStr "s3cret")]);
     Send (JDict [("id", JInt 1); ("type", JStr "get_states")])]%py ∧
  stays_home (ha_ws_call supervised true "get_states" []).
Proof.
  split; [vm_compute; reflexivity|]. split; [vm_compute; reflexivity|].
  apply (supervisor_token_stays_home supervised true). vm_compute. discriminate.
Defined.
Example supervisor_text_is_the_tail_witness :
  ∃ resp tail, respond (supervisor_get_text supervised "/core/logs" 4 []).2 = Got resp ∧ tail `suffix_of` concat (chunks resp) ∧
    size tail = N.min 4 (size (concat (chunks resp))) ∧ decode_replace tail = "1,2]"%py.
Proof.
  destruct (supervisor_text_is_the_tail supervised "/core/logs" 4 [] "1,2]" (supervisor_get_text supervised "/core/logs" 4 []).2)
    as (resp & tail & Hr & _ & Ht & Hs & Hl & _).
  - vm_compute. reflexivity.
  - exists resp, tail. split_and!; [exact Hr|exact Hs|exact Hl|by symmetry].
Defined.
Example supervisor_json_within_bounds_witness :
  (supervisor_get_json supervised "/info" 4 []).1 = Failed "HA_RESPONSE_TOO_LARGE" "Supervisor response for /info exceeded 4 bytes".
Proof.
  rewrite (supervisor_json_within_bounds supervised "/info" 4 []
             {| status := 200; content_type := "application/json"; url_path := "/"; body_text := Got (dumps_compact (JList [JInt 1; JInt 2]));
                body_json := Got (JList [JInt 1; JInt 2]); chunks := ["[1,"; "2]"]%py; chunks_end := Got tt |}).
  - vm_compute. reflexivity.
  - vm_compute. discriminate.
  - vm_compute. reflexivity.
  - cbn. lia.
  - reflexivity.
Defined.
Example error_text_is_bounded_witness :
  _http_error_message "HA" 502 "<HTML><body>" = "HA returned 502 (HTML error page suppressed)"%py.
Proof. apply (error_text_is_bounded "HA" 502 "<HTML><body>"). vm_compute. reflexivity. Defined.
Example ws_speaks_in_turn_witness :
  let run := ha_ws_call supervised true "config/area_registry/list" [] [] in
  run.1 = Done (JList [JInt 1; JInt 2]) ∧ length run.2 = 3 ∧
  ∃ d, receive run.2 = Got (JDict d) ∧ JList [JInt 1; JInt 2] = get_or_null "result" d.
Proof.
  intros run. assert (E1 : run.1 = Done (JList [JInt 1; JInt 2])) by (vm_compute; reflexivity).
  split_and!; [exact E1|vm_compute; reflexivity|].
  destruct (ws_speaks_in_turn supervised true "config/area_registry/list" [] [] run.1 run.2) as [[_ Hno]|(base & token & _ & _ & Hcases)].
  - apply surjective_pairing.
  - by destruct (Hno _ E1).
  - destruct Hcases as [[_ Hno]|[(_ & _ & Hno)|(_ & _ & Hs & Hd)]]; [by destruct (Hno _ E1)..|].
    destruct (Hd _ E1) as (d & Hd1 & Hd2 & _). exists d. rewrite Hs. split; [exact Hd1|exact Hd2].
Defined.
