(* ===== verification/HaCommands.v ===== *)
(** [commands/ha.py]: the commands that read and control Home Assistant and the
    add-ons of its Supervisor. *)

From stdpp Require Import base list gmap sorting.
From Stdlib Require Import NArith ZArith Lia.
From S2P Require Import Prelude PyStr PyCase PyFloat Json JsonParse PyInt Fnmatch Config Authz Policy Canonical Mutation Params SafePath.
From S2P Require Import BackupStore Scrub Dispatch Handler NodeConfig UrlQuote HaClient.

(** ** The state of a command

    What has been asked of Home Assistant, and the approval markers used. *)
Record hass := { asked : list call; used : used_ids }.
Definition K (A : Type) : Type := hass → outcome A * hass.
Definition kgo {A} (a : A) : K A := λ w, (Go a, w).
Definition kanswer {A} (j : json) : K A := λ w, (Answer j, w).
Definition kthrow {A} (e : exn) : K A := λ w, (Throw e, w).
Definition kbind {A B} (m : K A) (f : A → K B) : K B :=
  λ w, match m w with
       | (Go a, w) => f a w
       | (Answer j, w) => (Answer j, w)
       | (Throw e, w) => (Throw e, w)
       end.
Notation "'let+' x ':=' m 'in' k" := (kbind m (λ x, k))
  (at level 10, x pattern, m at level 100, k at level 200) : res_scope.
Definition kres {A} (r : res A) : K A := match r with Ret a => kgo a | Raise e => kthrow e end.
(** [if not b: return j] *)
Definition demand (b : bool) (j : json) : K unit := if b then kgo tt else kanswer j.
Definition refuse (invalid : option json) : K unit := match invalid with Some j => kanswer j | None => kgo tt end.
Definition finish (m : K json) (w : hass) : res json * hass :=
  match m w with
  | (Go j, w) | (Answer j, w) => (Ret j, w)
  | (Throw e, w) => (Raise e, w)
  end.
(** A client's request, with what it ends with; and with [except HAClientError]. *)
Definition attempt {A} (m : H A) : K (ha A) :=
  λ w, let '(r, s) := m (asked w) in (Go r, {| asked := s; used := used w |}).
Definition TimeoutError : exn := Exn "TimeoutError" [].
Definition ended {A} (r : ha A) : K A :=
  match r with
  | Done a => kgo a
  | Failed code message => kanswer (error_dict code message)
  | Timeout => kthrow TimeoutError
  | Crash e => kthrow e
  end.
Definition fetching {A} (m : H A) : K A := let+ r := attempt m in ended r.

Definition _error (code message : pystr) : json := error_dict code message.
Definition bad_response (message : pystr) : json := _error "HA_BAD_RESPONSE" message.
Definition expect_list (j : json) (message : pystr) : K (list json) :=
  match j with JList l => kgo l | _ => kanswer (bad_response message) end.
Definition expect_dict (j : json) (message : pystr) : K dict :=
  match j with JDict d => kgo d | _ => kanswer (bad_response message) end.
Definition count_of (l : list json) : json := JInt (Z.of_nat (length l)).
Definition counted (name : pystr) (l : list json) : json :=
  JDict [("ok", JBool true); ("count", count_of l); (name, JList l)]%py.

(** ** Filters *)

Definition ENTITY_REGISTRY_FILTERS : list pystr := ["domain"; "platform"; "area_id"; "device_id"].
Definition DEVICE_REGISTRY_FILTERS : list pystr := ["area_id"; "config_entry_id"].
Definition LIST_STATES_FILTERS : list pystr := ["domain"; "entity_filter"].
Definition LOGBOOK_PARAMS : list pystr := ["start_time"; "end_time"; "entity_id"].
Definition HISTORY_TIME_PARAMS : list pystr := ["start_time"; "end_time"].
Definition HISTORY_EXTRA_PARAMS : list pystr :=
  ["entity_ids"; "minimal_response"; "no_attributes"; "significant_changes_only"].

Definition text_at (k : pystr) (d : dict) : option pystr := match dget k d with Some (JStr s) => Some s | _ => None end.
Definition _filter_value (value : json) : pystr := match value with JStr s => strip s | _ => [] end.
Definition blank (value : json) : bool := bool_decide (_filter_value value = []).
Definition filter_param_error (params : dict) (names extra : list pystr) : option json :=
  let allowed : gset pystr := list_to_set (names ++ extra) in
  match unknown_keys params allowed with
  | _ :: _ as unknown =>
      Some (_error "INVALID_PARAM" ("unknown parameter(s): " ++ join ", " unknown ++ "; allowed: " ++ join ", " (sorted_set allowed)))
  | [] =>
      match List.find (λ name, match dget name params with Some v => blank v | None => false end) names with
      | Some name => Some (_error "INVALID_PARAM" (name ++ " must be a non-empty string when supplied"))
      | None => None
      end
  end.
Definition filter_of (k : pystr) (params : dict) : pystr := _filter_value (get_or_null k params).
(** A filter that is empty does not constrain. *)
Definition field_is (k value : pystr) (entry : dict) : bool :=
  bool_decide (value = []) || json_eqb (get_or_null k entry) (JStr value).
Definition under_domain (domain : pystr) (entry : dict) : bool :=
  bool_decide (domain = []) || match text_at "entity_id" entry with Some id => startswith id (domain ++ ".") | None => false end.
Definition on_dict (f : dict → bool) (entry : json) : bool := match entry with JDict d => f d | _ => false end.
Definition filter_entity_registry (entries : list json) (params : dict) : list json :=
  let domain := filter_of "domain" params in
  let platform := filter_of "platform" params in
  let area_id := filter_of "area_id" params in
  let device_id := filter_of "device_id" params in
  if forallb (λ v, bool_decide (v = [])) [domain; platform; area_id; device_id] then entries
  else List.filter (on_dict (λ entry, under_domain domain entry && field_is "platform" platform entry &&
                                      field_is "area_id" area_id entry && field_is "device_id" device_id entry)) entries.
Definition contributed_by (config_entry_id : pystr) (device : dict) : bool :=
  bool_decide (config_entry_id = []) ||
  match get_or_null "config_entries" device with JList owning => existsb (λ x, json_eqb x (JStr config_entry_id)) owning | _ => false end.
Definition filter_device_registry (devices : list json) (params : dict) : list json :=
  let area_id := filter_of "area_id" params in
  let config_entry_id := filter_of "config_entry_id" params in
  if bool_decide (area_id = []) && bool_decide (config_entry_id = []) then devices
  else List.filter (on_dict (λ device, field_is "area_id" area_id device && contributed_by config_entry_id device)) devices.
Definition _filter_by_domain (records : list json) (params : dict) : list json :=
  match filter_of "domain" params with
  | [] => records
  | domain => List.filter (on_dict (λ record, json_eqb (get_or_null "domain" record) (JStr domain))) records
  end.
(** A comprehension that asks each entry with [get]. *)
Fixpoint select (f : dict → bool) (l : list json) : res (list json) :=
  match l with
  | [] => Ret []
  | JDict d :: l => let? l := select f l in Ret (if f d then JDict d :: l else l)
  | _ :: _ => Raise (Exn "AttributeError" "get")
  end.
Definition id_matches (f : pystr → bool) (s : dict) : bool := match text_at "entity_id" s with Some id => f id | None => false end.

Fixpoint _service_data_equal (left right : json) : bool :=
  match left, right with
  | JDict a, JDict b =>
      bool_decide ((list_to_set (dkeys a) : gset pystr) = list_to_set (dkeys b)) &&
      forallb (λ kv, match dget kv.1 b with Some v => _service_data_equal kv.2 v | None => false end) a
  | JList a, JList b =>
      (fix equal (a b : list json) : bool :=
         match a, b with
         | [], [] => true
         | x :: a, y :: b => _service_data_equal x y && equal a b
         | _, _ => false
         end) a b
  | _, _ =>
      Bool.eqb (is_bool left) (is_bool right) &&
      match num_of left, num_of right with
      | Some m, Some n => num_eqb m n
      | _, _ => json_eqb left right
      end
  end.
Example service_data_numbers :
  _service_data_equal (JInt 1) (JFloat (FFin false 1 0)) = true ∧
  _service_data_equal (JInt 1) (JBool true) = false ∧
  _service_data_equal (JFloat FNan) (JFloat FNan) = false.
Proof. done. Qed.
Definition _canonical_service_component (params : dict) (key : pystr) : option pystr :=
  match dget key params with
  | Some (JStr raw) => if _SERVICE_NAME (strip raw) then Some (strip raw) else None
  | _ => None
  end.

(** ** The commands *)

(** Whether a read is still going on when the time for observing is over. *)
Class Deadline := { overdue : list call → bool }.

Section commands.
Context `{Unicode} `{Casing} `{WideText} `{Aiohttp} `{!Deadline}.
(** The environment, the caller of the command and the clock, rounded up. *)
Context (getenv : pystr → option pystr) (data_mount : bool) (caller : option Caller) (now : Z).
Abbreviation get := (ha_get getenv data_mount).
Abbreviation post := (ha_post getenv data_mount).
Abbreviation ws := (ha_ws_call getenv data_mount).
Abbreviation get_text := (supervisor_get_text getenv).
Abbreviation get_json := (λ path, supervisor_get_json getenv path _SUPERVISOR_JSON_MAX_BYTES).
Abbreviation post_json := (λ path, supervisor_post_json getenv path None _SUPERVISOR_JSON_MAX_BYTES).

Definition keys (l : list pystr) : gset pystr := list_to_set l.
Definition checked (params : dict) (allowed : list pystr) : K unit := refuse (strict_keys_error params (keys allowed) ∅).
(** A valid marker, or an exemption. *)
Definition with_approval (command action : pystr) (params : dict) : K unit :=
  λ w, let '(denied, _, u) := consume_approval_marker caller now command action params (used w) in
       (match denied with Some j => Answer j | None => Go tt end, {| asked := asked w; used := u |}).
(** What is read behind a segment of the caller's. *)
Definition segment_or (value message : pystr) : K pystr :=
  let+ segment := kres (_encode_path_segment value) in
  match segment with Some s => kgo s | None => kanswer (_error "INVALID_PARAM" message) end.

(** *** Reading states *)

Definition handle_ha_list_states (params : dict) : K json :=
  let+ _ := refuse (filter_param_error params LIST_STATES_FILTERS []) in
  let+ raw := fetching (get "/api/states") in
  let+ states := expect_list raw "Expected list from /api/states" in
  let+ states := match text_at "domain" params with
                 | Some domain => kres (select (id_matches (λ id, startswith id (domain ++ "."))) states)
                 | None => kgo states
                 end in
  let+ states := match text_at "entity_filter" params with
                 | Some pattern => kres (select (id_matches (λ id, fnmatchcase id pattern)) states)
                 | None => kgo states
                 end in
  kgo (counted "states" states).
Definition handle_ha_get_state (params : dict) : K json :=
  let+ _ := checked params ["entity_id"%py] in
  let entity_id := str_get "entity_id" [] params in
  let+ _ := demand (negb (bool_decide (entity_id = []))) (_error "MISSING_PARAM" "entity_id is required") in
  let+ segment := segment_or entity_id "entity_id must not be a bare '.' or '..' path segment" in
  let+ state := fetching (get ("/api/states/" ++ segment)) in
  let+ state := expect_dict state "Expected dict from /api/states/<entity_id>" in
  kgo (JDict [("ok", JBool true); ("state", JDict state)]%py).

(** *** Lists *)

Definition handle_ha_list_areas (params : dict) : K json :=
  let+ _ := checked params [] in
  let+ result := fetching (ws "config/area_registry/list" []) in
  let+ areas := expect_list result "Expected list from area_registry/list" in
  kgo (counted "areas" areas).
Definition handle_ha_list_devices (params : dict) : K json :=
  let+ _ := refuse (filter_param_error params DEVICE_REGISTRY_FILTERS []) in
  let+ result := fetching (ws "config/device_registry/list" []) in
  let+ devices := expect_list result "Expected list from device_registry/list" in
  kgo (counted "devices" (filter_device_registry devices params)).
Definition handle_ha_list_services (params : dict) : K json :=
  let+ _ := refuse (filter_param_error params ["domain"%py] []) in
  let+ raw := fetching (get "/api/services") in
  let+ services := expect_list raw "Expected list from /api/services" in
  kgo (counted "services" (_filter_by_domain services params)).
Definition handle_ha_get_config (params : dict) : K json :=
  let+ _ := checked params [] in
  let+ raw := fetching (get "/api/config") in
  let+ config := expect_dict raw "Expected dict from /api/config" in
  kgo (JDict [("ok", JBool true); ("config", JDict config)]%py).
Definition handle_ha_list_events (params : dict) : K json :=
  let+ _ := checked params [] in
  let+ raw := fetching (get "/api/events") in
  let+ events := expect_list raw "Expected list from /api/events" in
  kgo (counted "events" events).
Definition handle_ha_list_config_entries (params : dict) : K json :=
  let+ _ := refuse (filter_param_error params ["domain"%py] []) in
  let+ raw := fetching (get "/api/config/config_entries/entry") in
  let+ entries := expect_list raw "Expected list from /api/config/config_entries/entry" in
  kgo (counted "entries" (_filter_by_domain entries params)).
Definition handle_ha_list_entity_registry (params : dict) : K json :=
  let+ _ := refuse (filter_param_error params ENTITY_REGISTRY_FILTERS []) in
  let+ result := fetching (ws "config/entity_registry/list" []) in
  let+ entities := expect_list result "Expected list from entity_registry/list" in
  kgo (counted "entities" (filter_entity_registry entities params)).

(** *** Logs *)

Fixpoint splitlines (s : pystr) : list pystr :=
  match s with
  | [] => []
  | 13%N :: 10%N :: s => [] :: splitlines s
  | c :: s => if line_break c then [] :: splitlines s
              else match splitlines s with [] => [[c]] | l :: ls => (c :: l) :: ls end
  end.
Definition last_lines (n : Z) (body : pystr) : list pystr :=
  let lines := splitlines body in drop (length lines - Z.to_nat n) lines.
Definition clamp_lines (n : Z) : Z := Z.max 1 (Z.min n 5000).
Definition log_answer (fields : dict) (lines : list pystr) : json :=
  JDict ([("ok", JBool true)] ++ fields ++ [("lines", JInt (Z.of_nat (length lines))); ("log", JStr (join [NL] lines))])%py.
Definition handle_ha_core_logs (params : dict) : K json :=
  let+ _ := checked params ["lines"%py] in
  match default (JInt 200) (dget "lines" params) with
  | JInt n =>
      let+ body := fetching (get_text "/core/logs" _SUPERVISOR_TEXT_MAX_BYTES) in
      kgo (log_answer [] (last_lines (clamp_lines n) body))
  | _ => kanswer (_error "INVALID_PARAM" "lines must be an integer")
  end.

(** *** Calendar, logbook and history *)

Definition nonempty_text (j : json) : bool := match j with JStr (_ :: _) => true | _ => false end.
Definition text_list (j : json) : bool := match j with JList (_ :: _ as l) => forallb nonempty_text l | _ => false end.
Definition handle_ha_calendar_get_events (params : dict) : K json :=
  let+ _ := checked params ["entity_id"; "start_date_time"; "end_date_time"]%py in
  let entity_id := get_or_null "entity_id" params in
  let start_date_time := get_or_null "start_date_time" params in
  let end_date_time := get_or_null "end_date_time" params in
  let+ _ := demand (nonempty_text entity_id || text_list entity_id)
              (_error "INVALID_PARAM" "entity_id must be a non-empty string or list of strings") in
  let+ _ := demand (nonempty_text start_date_time) (_error "MISSING_PARAM" "start_date_time is required") in
  let+ _ := demand (nonempty_text end_date_time) (_error "MISSING_PARAM" "end_date_time is required") in
  let body := JDict [("entity_id", entity_id); ("start_date_time", start_date_time); ("end_date_time", end_date_time)]%py in
  let+ raw := fetching (post "/api/services/calendar/get_events?return_response" (Some body)) in
  let+ response := expect_dict raw "Expected dict from calendar.get_events" in
  kgo (JDict [("ok", JBool true); ("response", JDict response)]%py).

(** [path], with the start of the period behind it. *)
Definition from_start (path : pystr) (params : dict) : K pystr :=
  match str_get "start_time" [] params with
  | [] => kgo path
  | start =>
      let+ segment := segment_or start "start_time must not be a bare '.' or '..' path segment" in
      kgo (path ++ "/" ++ segment)
  end.
Definition query_part (name value : pystr) : K (list pystr) :=
  match value with
  | [] => kgo []
  | _ => let+ encoded := kres (_encode_query_value value) in kgo [name ++ "=" ++ encoded]
  end.
Definition with_query (path : pystr) (parts : list pystr) : pystr :=
  match parts with [] => path | _ => path ++ "?" ++ join "&" parts end.
Definition handle_ha_logbook (params : dict) : K json :=
  let+ _ := refuse (filter_param_error params LOGBOOK_PARAMS []) in
  let+ path := from_start "/api/logbook" params in
  let+ end_part := query_part "end_time" (str_get "end_time" [] params) in
  let+ entity_part := query_part "entity" (str_get "entity_id" [] params) in
  let+ raw := fetching (get (with_query path (end_part ++ entity_part))) in
  let+ entries := expect_list raw "Expected list from /api/logbook" in
  kgo (counted "entries" entries).

(** *** Reads that are waited for a short time *)

Definition _MAX_ENTITY_STATE_FETCHES : nat := 10.
Definition encoded_ids (ids : list pystr) : res (list (pystr * pystr)) :=
  fold_right (λ id acc,
    let? segment := _encode_path_segment id in
    let? acc := acc in
    Ret (match segment with Some s => (id, s) :: acc | None => acc end)) (Ret []) (take _MAX_ENTITY_STATE_FETCHES ids).
(** One read; [None] when it is not over in time. *)
Definition probe (path : pystr) : H (option (ha json)) :=
  λ s, let '(r, s) := get path s in (Done (if overdue s then None else Some r), s).
Fixpoint probes (paths : list pystr) : H (list (option (ha json))) :=
  match paths with
  | [] => hret []
  | p :: paths => let^ r := probe p in let^ rs := probes paths in hret (r :: rs)
  end.
Definition state_path (segment : pystr) : pystr := "/api/states/" ++ segment.
Definition probed (paths : list pystr) : K (list (option (ha json))) :=
  let+ r := attempt (probes paths) in ended r.
Definition not_found (r : option (ha json)) : bool :=
  match r with Some (Failed code _) => bool_decide (code = "HA_NOT_FOUND"%py) | _ => false end.
Definition _missing_entity_ids (entity_ids : list pystr) : K (list pystr) :=
  let+ ids := kres (encoded_ids entity_ids) in
  let+ results := probed (map (λ x, state_path x.2) ids) in
  kgo (map (λ x, x.1.1) (List.filter (λ x, not_found x.2) (combine ids results))).
Definition found_state (r : option (ha json)) : option json :=
  match r with Some (Done (JDict d)) => Some (JDict d) | _ => None end.
Definition texts_of (l : list json) : list pystr := omap (λ j, match j with JStr s => Some s | _ => None end) l.

Definition history_ids (params : dict) : K (option (list pystr)) :=
  match dget "entity_ids" params with
  | None => kgo None
  | Some raw =>
      match raw with
      | JList (_ :: _ as l) =>
          if forallb (λ e, negb (blank e)) l then kgo (Some (texts_of l))
          else kanswer (_error "INVALID_PARAM" "entity_ids must be a non-empty list of non-empty strings")
      | _ => kanswer (_error "INVALID_PARAM" "entity_ids must be a non-empty list of non-empty strings")
      end
  end.
Fixpoint flag_parts (flags : list pystr) (params : dict) : K (list pystr) :=
  match flags with
  | [] => kgo []
  | flag :: flags =>
      match dget flag params with
      | Some (JBool b) => let+ parts := flag_parts flags params in kgo (if b then flag :: parts else parts)
      | Some _ => kanswer (_error "INVALID_PARAM" (flag ++ " must be a boolean"))
      | None => flag_parts flags params
      end
  end.
Definition handle_ha_history (params : dict) : K json :=
  let+ _ := refuse (filter_param_error params HISTORY_TIME_PARAMS HISTORY_EXTRA_PARAMS) in
  let+ path := from_start "/api/history/period" params in
  let+ end_part := query_part "end_time" (str_get "end_time" [] params) in
  let+ entity_ids := history_ids params in
  let+ ids_part := match entity_ids with
                   | Some ids => let+ encoded := kres (_encode_query_value (join "," ids)) in kgo ["filter_entity_id=" ++ encoded]
                   | None => kgo []
                   end in
  let+ flags := flag_parts ["minimal_response"; "no_attributes"; "significant_changes_only"]%py params in
  let+ raw := fetching (get (with_query path (end_part ++ ids_part ++ flags))) in
  let+ history := expect_list raw "Expected list from /api/history/period" in
  match history, entity_ids with
  | [], Some ids =>
      let+ missing := _missing_entity_ids ids in
      match missing with
      | [] => kgo (counted "history" history)
      | _ => kanswer (_error "HA_NOT_FOUND" ("unknown entity_id(s): " ++ join ", " missing))
      end
  | _, _ => kgo (counted "history" history)
  end.

(** *** Service calls *)

Definition _CALL_SERVICE_PARAMS : list pystr := ["domain"; "service"; "target"; "data"; "service_data"].
Definition _CALL_SERVICE_TARGET_PARAMS : list pystr := ["entity_id"; "area_id"; "device_id"].
Definition _unencodable_target (target : dict) : bool :=
  existsb (λ kv, existsb (λ item, match item with JStr s => match utf8 s with None => true | Some _ => false end | _ => false end)
                   (match kv.2 with JList l => l | v => [v] end)) target.
(** The states of what was named, when the service call told of none; a failure
    here is not one of the call. *)
Definition observed (ids : list pystr) : K (list json) :=
  match encoded_ids ids with
  | Raise _ => kgo []
  | Ret segments => let+ results := probed (map (λ x, state_path x.2) segments) in kgo (omap found_state results)
  end.
Definition named_ids (target : dict) : list pystr :=
  let raw := get_or_null "entity_id" target in
  List.filter (λ id, negb (bool_decide (id = [])))
    (texts_of (match raw with JStr _ => [raw] | JList l => l | _ => [] end)).
Definition _with_observed_states (changed : list json) (target : dict) : K json :=
  match changed with
  | _ :: _ => kgo (JDict [("ok", JBool true); ("changed_states", JList changed)]%py)
  | [] =>
      let ids := named_ids target in
      let composite := truthy (get_or_null "area_id" target) || truthy (get_or_null "device_id" target) in
      let+ states := match ids with [] => kgo [] | _ => observed ids end in
      let complete := negb (bool_decide (ids = [])) && (length states =? length ids)%nat &&
                      (length ids <=? _MAX_ENTITY_STATE_FETCHES)%nat && negb composite in
      kgo (JDict [("ok", JBool true); ("changed_states", JList states); ("changed_states_complete", JBool complete);
                  ("targeted_entity_count", JInt (Z.of_nat (length ids)))]%py)
  end.
Definition or_none (body : dict) : option json := match body with [] => None | _ => Some (JDict body) end.
Definition missing_text (k : pystr) (params : dict) : bool :=
  match dget k params with None => true | Some v => json_eqb v (JStr []) end.
Definition target_of (params : dict) : K dict :=
  match get_or_null "target" params with
  | JNull => kgo []
  | JDict target =>
      let+ _ := match unknown_keys target (keys _CALL_SERVICE_TARGET_PARAMS) with
                | [] => kgo tt
                | unknown => kanswer (_error "INVALID_PARAM" ("unknown target parameter(s): " ++ join ", " unknown))
                end in
      let+ _ := match sorted_strs (dkeys (List.filter (λ kv, is_null kv.2) target)) with
                | [] => kgo tt
                | nulls => kanswer (_error "INVALID_PARAM" ("target parameter(s) must not be null; omit instead: " ++ join ", " nulls))
                end in
      let+ _ := demand (match dget "entity_id" target with Some (JList l) => forallb nonempty_text l | _ => true end)
                  (_error "INVALID_PARAM" "entity_id list members must be non-empty strings") in
      kgo target
  | _ => kanswer (_error "INVALID_PARAM" "target must be a dict")
  end.
Definition service_data_of (params : dict) : K dict :=
  let+ _ := match List.find (λ k, match dget k params with Some v => negb (is_dict v) | None => false end) ["data"; "service_data"]%py with
            | Some k => kanswer (_error "INVALID_PARAM" (k ++ " must be a dict"))
            | None => kgo tt
            end in
  let+ _ := match dget "data" params, dget "service_data" params with
            | Some a, Some b => demand (_service_data_equal a b) (_error "INVALID_PARAM" "data and service_data must agree when both are supplied")
            | _, _ => kgo tt
            end in
  kgo match dget "data" params with
      | Some (JDict d) => d
      | _ => match dget "service_data" params with Some (JDict d) => d | _ => [] end
      end.
Definition handle_ha_call_service (params : dict) : K json :=
  let+ _ := checked params _CALL_SERVICE_PARAMS in
  let+ _ := demand (negb (missing_text "domain" params)) (_error "MISSING_PARAM" "domain is required") in
  let+ _ := demand (negb (missing_text "service" params)) (_error "MISSING_PARAM" "service is required") in
  match _canonical_service_component params "domain", _canonical_service_component params "service" with
  | Some domain, Some service =>
      let+ target := target_of params in
      let+ data := service_data_of params in
      let+ _ := demand (negb (_unencodable_target target)) (_error "INVALID_PARAM" "target strings must be valid UTF-8 text") in
      let+ _ := match _interim_service_denial domain service with
                | Some denial => kanswer (_error "SERVICE_DENIED"
                                            ("ha.call_service denies " ++ domain ++ "." ++ service ++ ": " ++ denial))
                | None => kgo tt
                end in
      let+ body := match normalise_service_code domain (update_dict (update_dict [] data) target) with
                   | Ret body => kgo body
                   | Raise e => kanswer (_error "INVALID_PARAM" (exn_msg e))
                   end in
      let+ result := fetching (post ("/api/services/" ++ domain ++ "/" ++ service) (or_none body)) in
      let+ changed := expect_list result "Expected changed-state list from service call" in
      _with_observed_states changed target
  | _, _ => kanswer (_error "INVALID_PARAM" "domain and service must be lowercase [a-z0-9_]+ names")
  end.

(** *** Lights *)

Definition _LIGHT_TARGET_KEYS : list pystr := ["entity_id"; "area_id"; "device_id"].
Definition _LIGHT_DATA : list pystr := ["brightness"; "brightness_pct"; "color_temp_kelvin"; "rgb_color"; "transition"].
Definition present (names : list pystr) (params : dict) : dict :=
  omap (λ k, match dget k params with Some v => Some (k, v) | None => None end) names.
Definition _build_light_target (params : dict) : K dict :=
  let target := List.filter (λ kv, negb (is_null kv.2)) (present _LIGHT_TARGET_KEYS params) in
  let+ _ := demand (negb (bool_decide (dkeys target = []))) (_error "MISSING_PARAM" "one of entity_id, area_id, or device_id is required") in
  let+ _ := match dget "entity_id" target with
            | Some (JList l) => demand (forallb nonempty_text l) (_error "MISSING_PARAM" "entity_id list members must be non-empty strings")
            | Some (JStr _) | None => kgo tt
            | Some _ => kanswer (_error "MISSING_PARAM" "entity_id must be a string or list of strings")
            end in
  kgo target.
Definition light_service (service : pystr) (data_keys : list pystr) (params : dict) : K json :=
  let+ _ := checked params (_LIGHT_TARGET_KEYS ++ data_keys) in
  let+ target := _build_light_target params in
  let+ _ := demand (negb (_unencodable_target target)) (_error "INVALID_PARAM" "target strings must be valid UTF-8 text") in
  let body := update_dict (present data_keys params) target in
  let+ result := fetching (post ("/api/services/light/" ++ service) (or_none body)) in
  _with_observed_states (match result with JList l => l | _ => [] end) target.
Definition handle_ha_light_turn_on (params : dict) : K json := light_service "turn_on" _LIGHT_DATA params.
Definition handle_ha_light_turn_off (params : dict) : K json := light_service "turn_off" ["transition"%py] params.

(** *** Automations, and the check of the configuration *)

Definition _LIST_AUTOMATIONS_ALLOWED_PARAMS : list pystr := ["include_traces"; "entity_filter"; "state_filter"].
Definition _MAX_AUTOMATION_FILTER_LENGTH : nat := 256.
(** A filter: absent, or a text that is not empty. *)
Definition optional_text (k : pystr) (params : dict) : K (option pystr) :=
  match get_or_null k params with
  | JNull => kgo None
  | JStr ((_ :: _) as s) => kgo (Some s)
  | _ => kanswer (_error "INVALID_PARAM" (k ++ " must be a non-empty string"))
  end.
Definition not_too_long (k : pystr) (value : option pystr) : K unit :=
  match value with
  | Some s => demand (length s <=? _MAX_AUTOMATION_FILTER_LENGTH)%nat (_error "INVALID_PARAM" (k ++ " exceeds 256 chars"))
  | None => kgo tt
  end.
Definition selected_automation (entity_filter state_filter : option pystr) (state : dict) : bool :=
  id_matches (λ id, startswith id "automation." && match entity_filter with Some p => fnmatchcase id p | None => true end) state &&
  match state_filter with Some s => json_eqb (get_or_null "state" state) (JStr s) | None => true end.
(** [(auto.get("attributes") or {}).get("id")] *)
Definition automation_id (auto : dict) : K json :=
  let attributes := get_or_null "attributes" auto in
  match attributes with
  | JDict a => kgo (get_or_null "id" a)
  | _ => if truthy attributes then kthrow (Exn "AttributeError" "get") else kgo JNull
  end.
Definition with_traces (auto : json) : K json :=
  match auto with
  | JDict a =>
      let+ id := automation_id a in
      let+ traces :=
        if truthy id then
          let+ r := attempt (ws "trace/list" [("domain", JStr "automation"); ("item_id", JStr (py_str id))]%py) in
          match r with
          | Failed _ _ => kgo (JList [])
          | r => let+ traces := ended r in kgo (match traces with JList l => JList l | _ => JList [] end)
          end
        else kgo (JList []) in
      kgo (JDict (dset "traces" traces a))
  | _ => kgo auto
  end.
Fixpoint mapped (f : json → K json) (l : list json) : K (list json) :=
  match l with
  | [] => kgo []
  | j :: l => let+ j := f j in let+ l := mapped f l in kgo (j :: l)
  end.
Definition handle_ha_list_automations (params : dict) : K json :=
  let+ _ := checked params _LIST_AUTOMATIONS_ALLOWED_PARAMS in
  let+ include_traces := match default (JBool false) (dget "include_traces" params) with
                         | JBool b => kgo b
                         | _ => kanswer (_error "INVALID_PARAM" "include_traces must be a bool")
                         end in
  let+ entity_filter := optional_text "entity_filter" params in
  let+ _ := demand (match entity_filter with Some p => startswith p "automation." | None => true end)
              (_error "INVALID_PARAM" "entity_filter must be scoped to the 'automation.' domain") in
  let+ _ := not_too_long "entity_filter" entity_filter in
  let+ state_filter := optional_text "state_filter" params in
  let+ _ := not_too_long "state_filter" state_filter in
  let+ raw := fetching (get "/api/states") in
  let+ states := expect_list raw "Expected list from /api/states" in
  let automations := List.filter (on_dict (selected_automation entity_filter state_filter)) states in
  let+ automations := if include_traces then mapped with_traces automations else kgo automations in
  kgo (counted "automations" automations).
Definition handle_ha_check_config (params : dict) : K json :=
  let+ _ := checked params [] in
  let+ raw := fetching (post "/api/config/core/check_config" None) in
  let+ raw := expect_dict raw "Expected dict from /api/config/core/check_config" in
  kgo (JDict [("ok", JBool true); ("result", default (JStr "unknown") (dget "result" raw));
              ("errors", get_or_null "errors" raw); ("warnings", get_or_null "warnings" raw)]%py).

(** *** Add-ons *)

Definition _ADDON_SLUG_MAX_LEN : nat := 128.
Definition slug_char (c : N) : bool := (is_lower c || is_digit c || (c =? 95) || (c =? 45))%N.
(** [_ADDON_SLUG_RE.match(slug)]: the dollar sign lets a last line end pass. *)
Definition _ADDON_SLUG_RE (slug : pystr) : bool :=
  let slug := match rev slug with 10%N :: r => rev r | _ => slug end in
  match slug with
  | c :: s => (is_lower c || is_digit c) && forallb slug_char s
  | [] => false
  end.
Definition _valid_addon_slug (slug : pystr) : bool :=
  negb (bool_decide (slug = [])) && (length slug <=? _ADDON_SLUG_MAX_LEN)%nat && _ADDON_SLUG_RE slug.
Definition slug_of (params : dict) : K pystr :=
  let slug := strip (str_get "slug" [] params) in
  let+ _ := demand (negb (bool_decide (slug = []))) (_error "MISSING_PARAM" "slug is required") in
  let+ _ := demand (_valid_addon_slug slug) (_error "INVALID_PARAM" ("invalid addon slug: " ++ repr_str slug)) in
  kgo slug.
Definition _parse_slug_env (name : pystr) : res (gset pystr) :=
  let? parsed := _parse_string_list_env getenv name [] in Ret (list_to_set (map py_casefold parsed)).
Definition _CORE_ADDON_PREFIX : pystr := "core_".
Definition _addon_lifecycle_policy_error (slug : pystr) : res (option json) :=
  if startswith slug _CORE_ADDON_PREFIX
  then Ret (Some (_error "PERMISSION_DENIED" ("addon lifecycle denied for core slug: " ++ slug)))
  else
    let? listed := _parse_slug_env "OPENCLAW_ADDON_LIFECYCLE_DENYLIST" in
    let denylist : gset pystr := DEFAULT_ADDON_LIFECYCLE_DENYLIST ∪ listed in
    Ret (if bool_decide (py_casefold slug ∈ denylist)
         then Some (_error "PERMISSION_DENIED" ("addon lifecycle denied for slug: " ++ slug)) else None).
Definition addon_path (slug action : pystr) : pystr := "/addons/" ++ slug ++ "/" ++ action.
Definition _addon_state (slug : pystr) : H pystr :=
  let^ raw := get_json (addon_path slug "info") in
  hret match raw with
       | JDict d => match get_or_null "data" d with
                    | JDict data => match get_or_null "state" data with JStr s => s | _ => [] end
                    | _ => []
                    end
       | _ => []
       end.
Definition unknown_outcome (command : pystr) : json :=
  _error "OUTCOME_UNKNOWN"
    (command ++ " timed out waiting for Supervisor; the action may or may not "
     ++ "have happened. Do not retry automatically. ha.addon_info reports a "
     ++ "current snapshot, not action history: after a restart it cannot "
     ++ "distinguish completed from not, and after an update only a changed "
     ++ "version shows it completed.").
Definition lifecycle_answer (slug state : pystr) (changed : bool) : json :=
  JDict [("ok", JBool true); ("slug", JStr slug); ("state", JStr state); ("changed", JBool changed)]%py.
Definition _LIFECYCLE_KEYS : list pystr := ["slug"; APPROVAL_PARAM].
Definition _handle_addon_lifecycle (params : dict) (command action : pystr) (desired_state : option pystr) : K json :=
  let+ slug := slug_of params in
  let+ policy_error := kres (_addon_lifecycle_policy_error slug) in
  let+ _ := refuse policy_error in
  let+ _ := checked params _LIFECYCLE_KEYS in
  let+ _ := with_approval command [] params in
  let+ before := fetching (_addon_state slug) in
  if bool_decide (desired_state = Some before) then kgo (lifecycle_answer slug before false)
  else
    let+ r := attempt (let^ _ := post_json (addon_path slug action) in _addon_state slug) in
    match r with
    | Timeout => kanswer (unknown_outcome command)
    | r => let+ after := ended r in kgo (lifecycle_answer slug after true)
    end.
Definition handle_ha_addon_start (params : dict) : K json := _handle_addon_lifecycle params "ha.addon_start" "start" (Some "started"%py).
Definition handle_ha_addon_stop (params : dict) : K json := _handle_addon_lifecycle params "ha.addon_stop" "stop" (Some "stopped"%py).
Definition handle_ha_addon_restart (params : dict) : K json := _handle_addon_lifecycle params "ha.addon_restart" "restart" None.
Definition handle_ha_addon_update (params : dict) : K json := _handle_addon_lifecycle params "ha.addon_update" "update" None.

Definition _ADDON_LOGS_MAX_BYTES : N := 1048576.
Definition _ADDON_DOC_MAX_BYTES : N := 1048576.
Definition handle_ha_addon_logs (params : dict) : K json :=
  let+ _ := checked params ["slug"; "lines"]%py in
  let+ slug := slug_of params in
  let+ lines := match py_int (default (JInt 200) (dget "lines" params)) with
                | Ret n => kgo (clamp_lines n)
                | Raise e => if elem (exn_type e) ["TypeError"; "ValueError"]%py
                             then kanswer (_error "INVALID_PARAM" "lines must be an integer") else kthrow e
                end in
  let+ body := fetching (get_text (addon_path slug "logs") _ADDON_LOGS_MAX_BYTES) in
  kgo (log_answer [("slug"%py, JStr slug)] (last_lines lines body)).

(** The fields of a list, with [None] for one that is not there. *)
Definition fields_of (names : list pystr) (data : dict) : json := JDict (map (λ k, (k, get_or_null k data)) names).
Definition data_of (raw : json) (expected missing : pystr) : K dict :=
  let+ raw := expect_dict raw expected in expect_dict (get_or_null "data" raw) missing.
Definition _ADDON_FIELDS : list pystr := ["slug"; "name"; "state"; "version"; "version_latest"; "update_available"].
Definition handle_ha_list_addons (params : dict) : K json :=
  let+ _ := checked params [] in
  let+ raw := fetching (get_json "/addons") in
  let+ data := data_of raw "Expected dict from Supervisor /addons" "Supervisor /addons response missing 'data'" in
  let+ addons := expect_list (get_or_null "addons" data) "Supervisor /addons 'data.addons' is not a list" in
  kgo (counted "addons" (omap (λ entry, match entry with JDict d => Some (fields_of _ADDON_FIELDS d) | _ => None end) addons)).
Definition _ADDON_INFO_FIELDS : list pystr :=
  ["slug"; "name"; "state"; "description"; "version"; "version_latest"; "update_available"; "boot"; "startup"; "stage"; "arch";
   "machine"; "ingress"; "ingress_port"].
Definition _ADDON_STATS_FIELDS : list pystr :=
  ["cpu_percent"; "memory_usage"; "memory_limit"; "memory_percent"; "network_rx"; "network_tx"; "blk_read"; "blk_write"].
(** An add-on's data behind [action], cut to [names]. *)
Definition addon_fields (action name : pystr) (names : list pystr) (params : dict) : K json :=
  let+ _ := checked params ["slug"%py] in
  let+ slug := slug_of params in
  let+ raw := fetching (get_json (addon_path slug action)) in
  let+ data := data_of raw ("Expected dict from Supervisor /addons/<slug>/" ++ action)
                 ("Supervisor /addons/<slug>/" ++ action ++ " response missing 'data'") in
  kgo (JDict [("ok"%py, JBool true); ("slug"%py, JStr slug); (name, fields_of names data)]).
Definition handle_ha_addon_info (params : dict) : K json := addon_fields "info" "info" _ADDON_INFO_FIELDS params.
Definition handle_ha_addon_stats (params : dict) : K json := addon_fields "stats" "stats" _ADDON_STATS_FIELDS params.
Definition addon_text (name : pystr) (params : dict) : K json :=
  let+ _ := checked params ["slug"%py] in
  let+ slug := slug_of params in
  let+ body := fetching (get_text (addon_path slug name) _ADDON_DOC_MAX_BYTES) in
  kgo (JDict [("ok"%py, JBool true); ("slug"%py, JStr slug); (name, JStr body)]).
Definition handle_ha_addon_changelog (params : dict) : K json := addon_text "changelog" params.
Definition handle_ha_addon_documentation (params : dict) : K json := addon_text "documentation" params.

Definition _SUPERVISOR_INFO_FIELDS : list pystr :=
  ["arch"; "machine"; "supervisor"; "homeassistant"; "hassos"; "operating_system"; "docker"; "channel"].
Definition _SUPERVISOR_INFO_MAX_VALUE_LEN : nat := 128.
Definition _supervisor_info_value (value : json) : json :=
  match value with JStr s => if (length s <=? _SUPERVISOR_INFO_MAX_VALUE_LEN)%nat then value else JNull | _ => JNull end.
Definition handle_ha_supervisor_info (params : dict) : K json :=
  let+ _ := checked params [] in
  let+ r := attempt (get_json "/info") in
  let+ raw := match r with
              | Failed code _ => kanswer (_error code "Supervisor /info request failed")
              | r => ended r
              end in
  let+ data := data_of raw "Expected dict from Supervisor /info" "Supervisor /info response missing 'data'" in
  kgo (JDict [("ok"%py, JBool true);
              ("info"%py, JDict (map (λ k, (k, _supervisor_info_value (get_or_null k data))) _SUPERVISOR_INFO_FIELDS))]).

(** *** Reload and update *)

Definition handle_ha_reload_config (params : dict) : K json :=
  let+ _ := checked params ["domain"%py; APPROVAL_PARAM] in
  let+ _ := match get_or_null "domain" params with
            | JNull => kgo tt
            | JStr raw =>
                let requested := strip raw in
                demand (bool_decide (requested = []) || bool_decide (requested = "core"%py))
                  (_error "UNSUPPORTED"
                     ("ha.reload_config only reloads core config; domain=" ++ repr_str requested ++ " is not "
                      ++ "implemented. Supply domain='core' or omit it."))
            | _ => kanswer (_error "INVALID_PARAM" "domain must be a string when supplied")
            end in
  let+ _ := with_approval "ha.reload_config" [] params in
  let+ _ := fetching (post "/api/services/homeassistant/reload_core_config" None) in
  kgo (JDict [("ok", JBool true); ("domain", JStr "core")]%py).

Definition update_timed_out : json :=
  _error "OUTCOME_UNKNOWN"
    ("ha.update_install timed out waiting for Home Assistant; the update may "
     ++ "still be running. Check the update entity's state (in_progress, "
     ++ "installed_version) with a read-only command. Do not retry.").
Definition handle_ha_update_install (params : dict) : K json :=
  let+ _ := checked params ["entity_id"%py; "backup"%py; "version"%py; APPROVAL_PARAM] in
  let entity_id := strip (str_get "entity_id" [] params) in
  let+ _ := demand (negb (bool_decide (entity_id = []))) (_error "MISSING_PARAM" "entity_id is required") in
  let+ _ := demand (startswith entity_id "update.")
              (_error "INVALID_PARAM" ("entity_id must be in the update.* domain, got: " ++ repr_str entity_id)) in
  let+ backup := match get_or_null "backup" params with
                 | JNull => kgo []
                 | JBool b => kgo [("backup"%py, JBool b)]
                 | _ => kanswer (_error "INVALID_PARAM" "backup must be a boolean")
                 end in
  let version := match get_or_null "version" params with JNull => [] | v => [("version"%py, JStr (py_str v))] end in
  let+ _ := with_approval "ha.update_install" [] params in
  let+ r := attempt (post "/api/services/update/install" (Some (JDict ([("entity_id"%py, JStr entity_id)] ++ backup ++ version)))) in
  match r with
  | Timeout => kanswer update_timed_out
  | r =>
      let+ result := ended r in
      kgo (JDict [("ok", JBool true); ("entity_id", JStr entity_id);
                  ("changed_states", JList (match result with JList l => l | _ => [] end))]%py)
  end.

(** The handlers, by the names they are registered under. *)
Definition ha_handlers : list (pystr * (dict → K json)) :=
  [("ha.list_states", handle_ha_list_states); ("ha.get_state", handle_ha_get_state); ("ha.call_service", handle_ha_call_service);
   ("ha.list_areas", handle_ha_list_areas); ("ha.list_devices", handle_ha_list_devices); ("ha.list_services", handle_ha_list_services);
   ("ha.get_config", handle_ha_get_config); ("ha.list_events", handle_ha_list_events);
   ("ha.list_config_entries", handle_ha_list_config_entries); ("ha.core_logs", handle_ha_core_logs);
   ("ha.calendar_get_events", handle_ha_calendar_get_events); ("ha.list_entity_registry", handle_ha_list_entity_registry);
   ("ha.logbook", handle_ha_logbook); ("ha.history", handle_ha_history); ("ha.reload_config", handle_ha_reload_config);
   ("ha.light_turn_on", handle_ha_light_turn_on); ("ha.light_turn_off", handle_ha_light_turn_off);
   ("ha.list_automations", handle_ha_list_automations); ("ha.check_config", handle_ha_check_config);
   ("ha.addon_logs", handle_ha_addon_logs); ("ha.list_addons", handle_ha_list_addons); ("ha.addon_info", handle_ha_addon_info);
   ("ha.addon_stats", handle_ha_addon_stats); ("ha.addon_changelog", handle_ha_addon_changelog);
   ("ha.addon_documentation", handle_ha_addon_documentation); ("ha.supervisor_info", handle_ha_supervisor_info);
   ("ha.addon_start", handle_ha_addon_start); ("ha.addon_stop", handle_ha_addon_stop); ("ha.addon_restart", handle_ha_addon_restart);
   ("ha.addon_update", handle_ha_addon_update); ("ha.update_install", handle_ha_update_install)]%py.
End commands.
