(* ===== verification/HaEffects.v ===== *)
(** What the commands of [commands/ha.py] ask of Home Assistant and of the
    Supervisor: which of them only read, which wait for an approval, and what a
    call of a service, through the dispatcher and its gate, amounts to. *)

From stdpp Require Import base list gmap sorting.
From Stdlib Require Import NArith ZArith Lia.
From S2P Require Import Prelude PyStr PyCase PyFloat Json JsonParse PyInt Fnmatch Config Authz Policy Canonical Mutation Params SafePath.
From S2P Require Import BackupStore Scrub Dispatch Handler NodeConfig UrlQuote HaClient HaCommands.

(** ** What a command asks *)

(** Whatever the state is, what [m] asks of Home Assistant satisfies [P]. *)
Definition asking {A} (P : call → Prop) (m : K A) : Prop :=
  ∀ w, ∃ new, asked (m w).2 = asked w ++ new ∧ Forall P new.
(** No marker is used by [m]. *)
Definition spends_nothing {A} (m : K A) : Prop := ∀ w, used (m w).2 = used w.
(** Nothing at all is changed by [m]. *)
Definition idle {A} (m : K A) : Prop := ∀ w, (m w).2 = w.
Create HintDb commands.

Lemma idle_go {A} (a : A) : idle (kgo a).
Proof. done. Qed.
Lemma idle_answer {A} j : idle (kanswer (A := A) j).
Proof. done. Qed.
Lemma idle_throw {A} e : idle (kthrow (A := A) e).
Proof. done. Qed.
Lemma idle_res {A} (r : res A) : idle (kres r).
Proof. by destruct r. Qed.
Lemma idle_demand b j : idle (demand b j).
Proof. by destruct b. Qed.
Lemma idle_refuse r : idle (refuse r).
Proof. by destruct r. Qed.
Lemma idle_ended {A} (r : ha A) : idle (ended r).
Proof. by destruct r. Qed.
Lemma idle_list j msg : idle (expect_list j msg).
Proof. by destruct j. Qed.
Lemma idle_dict j msg : idle (expect_dict j msg).
Proof. by destruct j. Qed.
Lemma idle_bind {A B} (m : K A) (f : A → K B) : idle m → (∀ a, idle (f a)) → idle (kbind m f).
Proof.
  intros Hm Hf w. specialize (Hm w). unfold kbind. destruct (m w) as [[a|j|e] w1]; cbn [snd] in *; subst w1; [apply Hf|done..].
Qed.
#[export] Hint Resolve idle_go idle_answer idle_throw idle_res idle_demand idle_refuse idle_ended idle_list idle_dict : commands.
Ltac idle_tac :=
  repeat match goal with
  | |- ∀ _, _ => intro
  | |- idle (kbind _ _) => apply idle_bind
  | |- idle (if ?b then _ else _) => destruct b
  | |- idle (match ?x with _ => _ end) => destruct x
  | |- idle _ => solve [auto with commands]
  end.
Lemma idle_asking {A} P (m : K A) : idle m → asking P m.
Proof. intros Hm w. exists []. by rewrite Hm, app_nil_r. Qed.
Lemma idle_spends {A} (m : K A) : idle m → spends_nothing m.
Proof. intros Hm w. by rewrite Hm. Qed.
Lemma asking_attempt {A} P (m : H A) : asks P m → asking P (attempt m).
Proof. intros Hm w. unfold attempt. destruct (Hm (asked w)) as (new & E & Hn). destruct (m (asked w)) as [r s]. by exists new. Qed.
Lemma spends_attempt {A} (m : H A) : spends_nothing (attempt m).
Proof. intros w. unfold attempt. by destruct (m (asked w)). Qed.
Lemma asking_bind {A B} P (m : K A) (f : A → K B) : asking P m → (∀ a, asking P (f a)) → asking P (kbind m f).
Proof.
  intros Hm Hf w. unfold kbind. destruct (Hm w) as (new & E & Hn). destruct (m w) as [[a|j|e] w1]; cbn [snd] in *; [|by exists new..].
  destruct (Hf a w1) as (new' & E' & Hn'). exists (new ++ new'). rewrite E', E, app_assoc. split; [done|by apply Forall_app].
Qed.
Lemma spends_bind {A B} (m : K A) (f : A → K B) : spends_nothing m → (∀ a, spends_nothing (f a)) → spends_nothing (kbind m f).
Proof. intros Hm Hf w. specialize (Hm w). unfold kbind. destruct (m w) as [[a|j|e] w1]; cbn [snd] in *; [rewrite <- Hm; apply Hf|done..]. Qed.
Lemma asking_fetching {A} P (m : H A) : asks P m → asking P (fetching m).
Proof. intros Hm. apply asking_bind; [by apply asking_attempt|]. intros r. apply idle_asking, idle_ended. Qed.
Lemma spends_fetching {A} (m : H A) : spends_nothing (fetching m).
Proof. apply spends_bind; [apply spends_attempt|]. intros r. apply idle_spends, idle_ended. Qed.
Lemma asking_weaken {A} (P Q : call → Prop) (m : K A) : (∀ c, P c → Q c) → asking P m → asking Q m.
Proof. intros HPQ Hm w. destruct (Hm w) as (new & E & Hn). exists new. split; [done|]. eapply Forall_impl; eauto. Qed.
Lemma finish_world m w : (finish m w).2 = (m w).2.
Proof. unfold finish. by destruct (m w) as [[]]. Qed.
#[export] Hint Resolve idle_asking idle_spends spends_attempt spends_fetching : commands.
Ltac command_tac lemmas :=
  repeat match goal with
  | |- ∀ _, _ => intro
  | |- asking _ (kbind _ _) => apply asking_bind
  | |- spends_nothing (kbind _ _) => apply spends_bind
  | |- _ => lemmas
  | |- asking _ (fetching _) => apply asking_fetching
  | |- asking _ (attempt _) => apply asking_attempt
  | |- asking _ (if ?b then _ else _) => destruct b
  | |- spends_nothing (if ?b then _ else _) => destruct b
  | |- asking _ (match ?x with _ => _ end) => destruct x
  | |- spends_nothing (match ?x with _ => _ end) => destruct x
  | |- asking _ _ => solve [auto with commands]
  | |- spends_nothing _ => solve [auto with commands]
  | |- asks _ _ => solve [auto with commands]
  end.

Lemma kbind_Go {A B} (m : K A) (f : A → K B) w : (∃ a w1, m w = (Go a, w1) ∧ kbind m f w = f a w1) ∨
  (kbind m f w).2 = (m w).2 ∧ ∀ b, (kbind m f w).1 ≠ Go b.
Proof. unfold kbind. destruct (m w) as [[a|j|e] w1]; [left; eauto|by right..]. Qed.
Lemma kbind_idle {A B} (m : K A) (f : A → K B) w : idle m →
  (∃ a, m w = (Go a, w) ∧ kbind m f w = f a w) ∨ (kbind m f w).2 = w.
Proof. intros Hm. specialize (Hm w). unfold kbind. destruct (m w) as [[a|j|e] w1]; cbn [snd] in *; subst w1; [left; eauto|by right..]. Qed.
Lemma attempt_asked {A} (m : H A) w : (attempt m w).2 = {| asked := (m (asked w)).2; used := used w |}.
Proof. unfold attempt. by destruct (m (asked w)). Qed.
Lemma fetching_asked {A} (m : H A) w : (fetching m w).2 = {| asked := (m (asked w)).2; used := used w |}.
Proof.
  unfold fetching, kbind. rewrite <- attempt_asked. destruct (attempt m w) as [[r|j|e] w1]; cbn [snd]; [apply idle_ended|done..].
Qed.
(** A step that changes nothing either ends the command, or is passed. *)
Tactic Notation "pass_idle" uconstr(lem) "as" simple_intropattern(a) simple_intropattern(Ha) :=
  match goal with |- context [kbind ?m ?f ?w] => destruct (kbind_idle m f w lem) as [(a & Ha & ->)| ->]; [|by left] end.

Section command_facts.
Context `{Unicode} `{Casing} `{WideText} `{Aiohttp} `{!Deadline}.
Context (getenv : pystr → option pystr) (data_mount : bool) (caller : option Caller) (now : Z).
Implicit Types (w : hass) (params : dict).

(** What a call that only reads looks like: a GET without a body, or a web socket
    that is asked for a list. *)
Definition list_frames : list pystr :=
  ["config/area_registry/list"; "config/device_registry/list"; "config/entity_registry/list"; "trace/list"].
Definition reads (c : call) : Prop :=
  match c with
  | Request method _ _ body => method = "GET"%py ∧ body = None
  | Connect _ => True
  | Send (JDict d) => dget "type" d = Some (JStr "auth") ∨ ∃ t, t ∈ list_frames ∧ dget "type" d = Some (JStr t)
  | Send _ => False
  end.
Lemma reads_get path : asks reads (ha_get getenv data_mount path).
Proof. apply asks_ha_request. by split. Qed.
Lemma dget_update_other k payload : ∀ d, dget k payload = None → dget k (update_dict d payload) = dget k d.
Proof.
  induction payload as [|[k' v] payload IH]; intros d Hk; [done|]. cbn [update_dict fold_left dget fst snd] in *. case_decide; [done|].
  change (fold_left _ payload _) with (update_dict (dset k' v d) payload). rewrite IH by done. by apply dget_dset_ne.
Qed.
Lemma reads_ws t payload : t ∈ list_frames → dget "type" payload = None → asks reads (ha_ws_call getenv data_mount t payload).
Proof.
  intros Ht Hp. apply asks_ha_ws_call. intros base token _ _. split_and!; [done|by left|right].
  exists t. split; [done|]. by rewrite dget_update_other.
Qed.
Lemma reads_text path max : asks reads (supervisor_get_text getenv path max).
Proof. by apply asks_supervisor_get_text. Qed.
Lemma reads_json path max : asks reads (supervisor_get_json getenv path max).
Proof. by apply asks_supervisor_get_json. Qed.
Hint Resolve reads_get reads_text reads_json : commands.

Lemma idle_checked params allowed : idle (checked params allowed).
Proof. apply idle_refuse. Qed.
Lemma idle_segment value msg : idle (segment_or value msg).
Proof. unfold segment_or. idle_tac. Qed.
Hint Resolve idle_checked idle_segment : commands.
Lemma idle_from_start path params : idle (from_start path params).
Proof. unfold from_start. idle_tac. Qed.
Lemma idle_query_part name value : idle (query_part name value).
Proof. unfold query_part. idle_tac. Qed.
Lemma idle_history_ids params : idle (history_ids params).
Proof. unfold history_ids. idle_tac. Qed.
Lemma idle_flags flags params : idle (flag_parts flags params).
Proof. induction flags as [|f flags IH]; cbn [flag_parts]; idle_tac; done. Qed.
Lemma idle_optional k params : idle (optional_text k params).
Proof. unfold optional_text. idle_tac. Qed.
Lemma idle_too_long k v : idle (not_too_long k v).
Proof. unfold not_too_long. idle_tac. Qed.
Lemma idle_automation a : idle (automation_id a).
Proof. unfold automation_id. idle_tac. Qed.
Lemma idle_slug params : idle (slug_of params).
Proof. unfold slug_of. idle_tac. Qed.
Lemma idle_data raw a b : idle (data_of raw a b).
Proof. unfold data_of. idle_tac. Qed.
Lemma idle_target params : idle (target_of params).
Proof. unfold target_of. idle_tac. Qed.
Lemma idle_service_data params : idle (service_data_of params).
Proof. unfold service_data_of. idle_tac. Qed.
Lemma idle_light_target params : idle (_build_light_target params).
Proof. unfold _build_light_target. idle_tac. Qed.
Hint Resolve idle_from_start idle_query_part idle_history_ids idle_flags idle_optional idle_too_long idle_automation idle_slug idle_data
  idle_target idle_service_data idle_light_target : commands.

Lemma asks_probes (P : call → Prop) paths : (∀ p, p ∈ paths → asks P (ha_get getenv data_mount p)) →
  asks P (probes getenv data_mount paths).
Proof.
  induction paths as [|p paths IH]; intros Hp; cbn [probes]; [apply asks_ret|].
  apply asks_bind; [|intros r; apply asks_bind; [apply IH; intros q Hq; apply Hp; by right|intros rs; apply asks_ret]].
  intros s. unfold probe. destruct (Hp p ltac:(by left) s) as (new & E & Hn). destruct (ha_get _ _ _ _) as [r s1]. by exists new.
Qed.
Lemma reads_probed paths : asking reads (probed getenv data_mount paths).
Proof. unfold probed. command_tac ltac:(fail). apply asks_probes. intros p _. apply reads_get. Qed.
Lemma probed_spends paths : spends_nothing (probed getenv data_mount paths).
Proof. unfold probed. command_tac ltac:(fail). Qed.
Hint Resolve reads_probed probed_spends : commands.
Lemma reads_traces auto : asking reads (with_traces getenv data_mount auto).
Proof.
  unfold with_traces. command_tac ltac:(fail). apply reads_ws; [|done]. repeat (first [left; reflexivity|right]).
Qed.
Lemma traces_spend auto : spends_nothing (with_traces getenv data_mount auto).
Proof. unfold with_traces. command_tac ltac:(fail). Qed.
Lemma reads_mapped f l : (∀ j, asking reads (f j)) → asking reads (mapped f l).
Proof. intros Hf. induction l as [|j l IH]; cbn [mapped]; command_tac ltac:(first [exact IH|apply Hf]). Qed.
Lemma mapped_spends f l : (∀ j, spends_nothing (f j)) → spends_nothing (mapped f l).
Proof. intros Hf. induction l as [|j l IH]; cbn [mapped]; command_tac ltac:(first [exact IH|apply Hf]). Qed.
Lemma reads_missing ids : asking reads (_missing_entity_ids getenv data_mount ids).
Proof. unfold _missing_entity_ids. command_tac ltac:(fail). Qed.
Lemma missing_spends ids : spends_nothing (_missing_entity_ids getenv data_mount ids).
Proof. unfold _missing_entity_ids. command_tac ltac:(fail). Qed.
Hint Resolve reads_traces traces_spend reads_mapped mapped_spends reads_missing missing_spends : commands.

(** The commands that are said to be read-only. *)
Definition READ_COMMANDS : list pystr :=
  ["ha.list_states"; "ha.get_state"; "ha.list_areas"; "ha.list_devices"; "ha.list_services"; "ha.get_config"; "ha.list_events";
   "ha.list_config_entries"; "ha.core_logs"; "ha.list_entity_registry"; "ha.logbook"; "ha.history"; "ha.list_automations";
   "ha.addon_logs"; "ha.list_addons"; "ha.addon_info"; "ha.addon_stats"; "ha.addon_changelog"; "ha.addon_documentation";
   "ha.supervisor_info"].
Ltac frame_tac := apply reads_ws; [repeat (first [left; reflexivity|right])|reflexivity].
Hint Unfold handle_ha_list_states handle_ha_get_state handle_ha_list_areas handle_ha_list_devices handle_ha_list_services
  handle_ha_get_config handle_ha_list_events handle_ha_list_config_entries handle_ha_core_logs handle_ha_list_entity_registry
  handle_ha_logbook handle_ha_history handle_ha_list_automations handle_ha_addon_logs handle_ha_list_addons handle_ha_addon_info
  handle_ha_addon_stats handle_ha_addon_changelog handle_ha_addon_documentation handle_ha_supervisor_info addon_fields addon_text
  : handlers.
Lemma read_handlers_read name h params :
  (name, h) ∈ ha_handlers getenv data_mount caller now → name ∈ READ_COMMANDS →
  asking reads (h params) ∧ spends_nothing (h params).
Proof.
  intros Hin Hr. unfold ha_handlers in Hin.
  repeat (apply elem_of_cons in Hin as [[= -> ->]|Hin];
    [first [exfalso; revert Hr; apply (bool_decide_unpack (_ ∉ READ_COMMANDS)); vm_compute; exact I
           |clear Hr; autounfold with handlers; split; command_tac ltac:(frame_tac)]|]).
  by apply elem_of_nil in Hin.
Qed.
End command_facts.

Section command_theorems.
Context `{Unicode} `{Casing} `{WideText} `{Aiohttp} `{!Deadline}.
Context (getenv : pystr → option pystr) (data_mount : bool) (caller : option Caller) (now : Z).
Implicit Types (w : hass) (params : dict).
Abbreviation handlers := (ha_handlers getenv data_mount caller now).

(** The commands that are said to be read-only do nothing but read: whatever their
    parameters are and whatever Home Assistant answers, they only send GETs
    without a body and ask a web socket for lists, and use no approval. *)
Theorem read_only_commands_only_read name h params w r w' :
  (name, h) ∈ handlers → name ∈ READ_COMMANDS → finish (h params) w = (r, w') →
  used w' = used w ∧ ∃ new, asked w' = asked w ++ new ∧ Forall reads new.
Proof.
  intros Hin Hr E. destruct (read_handlers_read _ _ _ _ _ _ params Hin Hr) as [Ha Hs].
  pose proof (finish_world (h params) w) as Ew. rewrite E in Ew. cbn [snd] in Ew. subst w'. split; [apply Hs|apply Ha].
Qed.

(** ** Approval *)

(** Nothing is asked by [m] when [command] is not approved. *)
Definition behind_approval {A} (command : pystr) params (m : K A) : Prop :=
  ∀ w denial, (consume_approval_marker caller now command [] params (used w)).1.1 = Some denial → asked (m w).2 = asked w.
Lemma behind_idle {A} command params (m : K A) : idle m → behind_approval command params m.
Proof. intros Hm w denial _. by rewrite Hm. Qed.
Lemma behind_idle_bind {A B} command params (m : K A) (f : A → K B) :
  idle m → (∀ a, behind_approval command params (f a)) → behind_approval command params (kbind m f).
Proof.
  intros Hm Hf w denial Hd. specialize (Hm w). unfold kbind. destruct (m w) as [[a|j|e] w1]; cbn [snd] in *; subst w1; [|done..].
  by eapply Hf.
Qed.
Lemma behind_gate {A} command params (f : unit → K A) :
  behind_approval command params (kbind (with_approval caller now command [] params) f).
Proof.
  intros w denial Hd. unfold kbind, with_approval. destruct (consume_approval_marker _ _ _ _ _ _) as [[d ps] u]. cbn [fst] in Hd. by subst d.
Qed.
Ltac behind_tac :=
  repeat match goal with
  | |- behind_approval _ _ (kbind (with_approval _ _ _ _ _) _) => apply behind_gate
  | |- behind_approval _ _ (kbind _ _) => apply behind_idle_bind; [idle_tac|intros]
  | |- behind_approval _ _ _ => apply behind_idle; idle_tac
  end.
Definition GATED_COMMANDS : list pystr :=
  ["ha.reload_config"; "ha.addon_start"; "ha.addon_stop"; "ha.addon_restart"; "ha.addon_update"; "ha.update_install"].
Hint Resolve idle_checked idle_slug : commands.

(** Nothing is asked of Home Assistant or the Supervisor by a gated command unless
    its approval was accepted: neither the change itself, nor a read ahead of it. *)
Theorem gated_commands_need_approval name h params w denial :
  (name, h) ∈ handlers → name ∈ GATED_COMMANDS →
  (consume_approval_marker caller now name [] params (used w)).1.1 = Some denial →
  asked (finish (h params) w).2 = asked w.
Proof.
  intros Hin Hg. rewrite finish_world. revert w denial. change (behind_approval name params (h params)).
  unfold ha_handlers in Hin.
  repeat (apply elem_of_cons in Hin as [[= -> ->]|Hin];
    [first [exfalso; revert Hg; apply (bool_decide_unpack (_ ∉ GATED_COMMANDS)); vm_compute; exact I
           |clear Hg; unfold handle_ha_reload_config, handle_ha_addon_start, handle_ha_addon_stop, handle_ha_addon_restart,
              handle_ha_addon_update, handle_ha_update_install, _handle_addon_lifecycle; behind_tac]|]).
  by apply elem_of_nil in Hin.
Qed.

(** ** Add-ons *)

Lemma quiet {A} (m : H A) s : asks (λ _, False) m → (m s).2 = s.
Proof. intros Hm. destruct (Hm s) as ([|c new] & E & Hn); [by rewrite E, app_nil_r|by apply Forall_cons in Hn as [? _]]. Qed.
Lemma hbind_quiet {A B} (m : H A) (f : A → H B) s : (∀ a, asks (λ _, False) (f a)) → (hbind m f s).2 = (m s).2.
Proof. intros Hf. unfold hbind. destruct (m s) as [[a| | |] s1]; [apply quiet, Hf|done..]. Qed.
(** The one request to the Supervisor, when there is a token for it. *)
Definition supervisor_asked (method path : pystr) : list call :=
  match env_text getenv "SUPERVISOR_TOKEN" with
  | [] => []
  | token => [Request method ("http://supervisor" ++ path)
                (if bool_decide (method = "POST"%py) then [bearer token; json_content] else [bearer token]) None]
  end.
Lemma supervisor_request_asks method path headers s :
  (∀ token, headers token = if bool_decide (method = "POST"%py) then [bearer token; json_content] else [bearer token]) →
  (supervisor_request getenv method path headers None s).2 = s ++ supervisor_asked method path.
Proof.
  intros Hh. unfold supervisor_request, supervisor_asked. destruct (env_text _ _) as [|c t]; [by rewrite app_nil_r|].
  rewrite hbind_quiet by (asks_tac). unfold request_to. by rewrite <- Hh.
Qed.
Lemma get_json_asks path max s : (supervisor_get_json getenv path max s).2 = s ++ supervisor_asked "GET" path.
Proof.
  unfold supervisor_get_json. rewrite hbind_quiet by (intros; apply asks_bind; [apply asks_body|intros; apply asks_decode_json]).
  by apply supervisor_request_asks.
Qed.
Lemma post_json_asks path max s : (supervisor_post_json getenv path None max s).2 = s ++ supervisor_asked "POST" path.
Proof.
  unfold supervisor_post_json.
  rewrite hbind_quiet by (intros; apply asks_bind; [apply asks_body|intros buf; destruct buf; [apply asks_ret|apply asks_decode_json]]).
  by apply supervisor_request_asks.
Qed.
Lemma addon_state_asks slug s : (_addon_state getenv slug s).2 = s ++ supervisor_asked "GET" (addon_path slug "info").
Proof. unfold _addon_state. rewrite hbind_quiet by (intros; apply asks_ret). apply get_json_asks. Qed.
(** What the policy lets through. *)
Definition addon_permitted (slug : pystr) : Prop :=
  _valid_addon_slug slug = true ∧ startswith slug _CORE_ADDON_PREFIX = false ∧ py_casefold slug ∉ DEFAULT_ADDON_LIFECYCLE_DENYLIST ∧
  ∀ listed, _parse_slug_env getenv "OPENCLAW_ADDON_LIFECYCLE_DENYLIST" = Ret listed → py_casefold slug ∉ listed.
Definition lifecycle_asked (slug action : pystr) (k : nat) : list call :=
  concat (take k [supervisor_asked "GET" (addon_path slug "info"); supervisor_asked "POST" (addon_path slug action);
                  supervisor_asked "GET" (addon_path slug "info")]).
Lemma policy_permits slug : _valid_addon_slug slug = true → _addon_lifecycle_policy_error getenv slug = Ret None → addon_permitted slug.
Proof.
  intros Hv. unfold _addon_lifecycle_policy_error, addon_permitted. destruct (startswith slug _); [done|].
  destruct (_parse_slug_env getenv _) as [listed|]; [|done]. cbn [rbind].
  destruct (bool_decide_reflect (py_casefold slug ∈ DEFAULT_ADDON_LIFECYCLE_DENYLIST ∪ listed)) as [|Hno]; [done|]. intros _.
  apply not_elem_of_union in Hno as [Hd Hl]. split_and!; [done..|]. by intros ? [= <-].
Qed.
Lemma slug_of_Go params w slug w' : slug_of params w = (Go slug, w') →
  slug = strip (str_get "slug" [] params) ∧ _valid_addon_slug slug = true ∧ w' = w.
Proof.
  unfold slug_of, kbind, demand. destruct (bool_decide _); [done|]. cbn [negb kgo].
  destruct (_valid_addon_slug _) eqn:E; [|done]. by intros [= <- <-].
Qed.
Lemma gate_cases {A} command action params (f : unit → K A) w :
  asked (kbind (with_approval caller now command action params) f w).2 = asked w ∨
  ((consume_approval_marker caller now command action params (used w)).1.1 = None ∧
   ∃ u, kbind (with_approval caller now command action params) f w = f tt {| asked := asked w; used := u |}).
Proof.
  unfold kbind, with_approval. destruct (consume_approval_marker _ _ _ _ _ _) as [[[denial|] ps] u]; [by left|right]. split; [done|by exists u].
Qed.
(** What is asked once the approval is accepted. *)
Lemma lifecycle_rest_asks command action desired slug w :
  let rest := (let+ before := fetching (_addon_state getenv slug) in
    if bool_decide (desired = Some before) then kgo (lifecycle_answer slug before false)
    else
      let+ r := attempt (let^ _ := supervisor_post_json getenv (addon_path slug action) None _SUPERVISOR_JSON_MAX_BYTES in _addon_state getenv slug) in
      match r with
      | Timeout => kanswer (unknown_outcome command)
      | r => let+ after := ended r in kgo (lifecycle_answer slug after true)
      end) in
  ∃ k, asked (rest w).2 = asked w ++ lifecycle_asked slug action k.
Proof.
  intros rest. unfold rest. destruct (kbind_Go (fetching (_addon_state getenv slug)) (λ before,
    if bool_decide (desired = Some before) then kgo (lifecycle_answer slug before false)
    else
      let+ r := attempt (let^ _ := supervisor_post_json getenv (addon_path slug action) None _SUPERVISOR_JSON_MAX_BYTES in _addon_state getenv slug) in
      match r with
      | Timeout => kanswer (unknown_outcome command)
      | r => let+ after := ended r in kgo (lifecycle_answer slug after true)
      end) w) as [(before & w1 & Em & ->)|[-> _]].
  - assert (Hw1 : asked w1 = asked w ++ supervisor_asked "GET" (addon_path slug "info")).
    { pose proof (fetching_asked (_addon_state getenv slug) w) as E. rewrite Em in E. cbn [snd] in E. rewrite E. apply addon_state_asks. }
    destruct (bool_decide _).
    { exists 1. unfold lifecycle_asked. cbn [take concat snd kgo]. by rewrite app_nil_r. }
    set (m := hbind _ _). assert (Hrest : ∀ r : ha pystr, idle (match r with
      | Timeout => kanswer (unknown_outcome command)
      | r => let+ after := ended r in kgo (lifecycle_answer slug after true)
      end)) by (intros []; idle_tac).
    assert (Hm : asked (kbind (attempt m) (λ r, match r with
      | Timeout => kanswer (unknown_outcome command)
      | r => let+ after := ended r in kgo (lifecycle_answer slug after true)
      end) w1).2 = (m (asked w1)).2).
    { unfold kbind. pose proof (attempt_asked m w1) as E. destruct (attempt m w1) as [[r|j|e] w2]; cbn [snd] in *; rewrite ?Hrest, E; done. }
    rewrite Hm, Hw1. unfold m, hbind. pose proof (post_json_asks (addon_path slug action) _SUPERVISOR_JSON_MAX_BYTES
      (asked w ++ supervisor_asked "GET" (addon_path slug "info"))) as E.
    destruct (supervisor_post_json _ _ _ _ _) as [[j| | |] s2]; cbn [snd] in E; subst s2.
    + exists 3. rewrite addon_state_asks. unfold lifecycle_asked. cbn [take concat]. by rewrite app_nil_r, <- !app_assoc.
    + exists 2. unfold lifecycle_asked. cbn [take concat snd]. by rewrite app_nil_r, <- !app_assoc.
    + exists 2. unfold lifecycle_asked. cbn [take concat snd]. by rewrite app_nil_r, <- !app_assoc.
    + exists 2. unfold lifecycle_asked. cbn [take concat snd]. by rewrite app_nil_r, <- !app_assoc.
  - exists 1. rewrite fetching_asked. cbn [asked]. rewrite addon_state_asks. unfold lifecycle_asked. cbn [take concat]. by rewrite app_nil_r.
Qed.

(** C20. The life of an add-on.  Starting, stopping, restarting or updating an add-on asks
    the Supervisor for its state, for the one action once, and for its state again,
    or stops before; all of it concerns the add-on of that slug only, which is a
    valid one that is neither a core add-on nor on the denylist, and the approval
    was accepted.  A slug the policy does not permit costs no approval. *)
Theorem lifecycle_stays_with_its_addon command action desired params w r w' :
  finish (_handle_addon_lifecycle getenv caller now params command action desired) w = (r, w') →
  let slug := strip (str_get "slug" [] params) in
  (asked w' = asked w ∧ (used w' ≠ used w → addon_permitted slug)) ∨
  (addon_permitted slug ∧ (consume_approval_marker caller now command [] params (used w)).1.1 = None ∧
   ∃ k, asked w' = asked w ++ lifecycle_asked slug action k).
Proof.
  intros E slug. pose proof (finish_world (_handle_addon_lifecycle getenv caller now params command action desired) w) as Ew.
  rewrite E in Ew. cbn [snd] in Ew. subst w'. clear E. unfold _handle_addon_lifecycle.
  pass_idle (idle_slug params) as slug' Es.
  apply slug_of_Go in Es as (-> & Hv & _). fold slug in Hv |- *.
  pass_idle (idle_res (_addon_lifecycle_policy_error getenv slug)) as policy Ep.
  pass_idle (idle_refuse policy) as [] Er.
  assert (Hp : addon_permitted slug).
  { apply policy_permits; [done|]. destruct (_addon_lifecycle_policy_error getenv slug) as [p|]; [|done]. cbn in Ep. injection Ep as ->.
    by destruct policy. }
  pass_idle (idle_checked params _LIFECYCLE_KEYS) as u _.
  match goal with |- context [kbind (with_approval _ _ _ _ _) ?f w] => destruct (gate_cases command [] params f w) as [Hno|(Hyes & u' & ->)] end.
  - left. by split.
  - right. split_and!; [done..|]. apply (lifecycle_rest_asks command action desired slug {| asked := asked w; used := u' |}).
Qed.
End command_theorems.

(** ** Services *)

Section service_theorems.
Context `{Unicode} `{Casing} `{WideText} `{Aiohttp} `{!Deadline}.
Context (getenv : pystr → option pystr) (data_mount : bool) (caller : option Caller) (now : Z).
Implicit Types (w : hass) (params : dict).

Lemma ha_request_eq method path body s :
  ha_request getenv data_mount method path body s =
    match base_of getenv data_mount, token_of getenv data_mount with
    | Done base, Done token =>
        hbind (request_to ha_network (Request method (trim_slashes base ++ path) [bearer token; json_content] body)) _decode s
    | Done _, Failed c msg | Failed c msg, _ => (Failed c msg, s)
    | Done _, Timeout | Timeout, _ => (Timeout, s)
    | Done _, Crash e | Crash e, _ => (Crash e, s)
    end.
Proof.
  unfold ha_request, _headers. unfold hbind at 1. rewrite ha_url_pure. destruct (base_of getenv data_mount) as [base| | |]; try done.
  unfold hbind at 1 2. rewrite ha_token_pure. by destruct (token_of getenv data_mount).
Qed.
Lemma ha_request_asked method path body s :
  ((ha_request getenv data_mount method path body s).2 = s ∧ ∀ j, (ha_request getenv data_mount method path body s).1 ≠ Done j) ∨
  ∃ base token, base_of getenv data_mount = Done base ∧ token_of getenv data_mount = Done token ∧
    (ha_request getenv data_mount method path body s).2 =
      s ++ [Request method (trim_slashes base ++ path) [bearer token; json_content] body].
Proof.
  rewrite ha_request_eq. destruct (base_of getenv data_mount) as [base| | |]; try by left.
  destruct (token_of getenv data_mount) as [token| | |]; try by left.
  right. exists base, token. split_and!; [done..|]. by rewrite hbind_quiet by (intros; apply asks_decode).
Qed.
Lemma ha_get_few path s : ∃ new, (ha_get getenv data_mount path s).2 = s ++ new ∧ Forall reads new ∧ length new ≤ 1.
Proof.
  unfold ha_get. destruct (ha_request_asked "GET" path None s) as [[-> _]|(base & token & _ & _ & ->)].
  - exists []. rewrite app_nil_r. split_and!; [done|constructor|simpl; lia].
  - eexists. split; [reflexivity|]. split; [by repeat constructor|simpl; lia].
Qed.
Lemma probes_few paths : ∀ s, ∃ new, (probes getenv data_mount paths s).2 = s ++ new ∧ Forall reads new ∧ length new ≤ length paths.
Proof.
  induction paths as [|p paths IH]; intros s; cbn [probes].
  { exists []. rewrite app_nil_r. split_and!; [done|constructor|simpl; lia]. }
  unfold hbind, probe. destruct (ha_get_few p s) as (n1 & E1 & Hr1 & Hl1). destruct (ha_get getenv data_mount p s) as [r s1]. cbn [snd] in E1. subst s1.
  destruct (IH (s ++ n1)) as (n2 & E2 & Hr2 & Hl2). exists (n1 ++ n2).
  destruct (probes getenv data_mount paths (s ++ n1)) as [rs s2]. cbn [snd] in E2. subst s2. rewrite app_assoc.
  destruct rs; (split_and!; [done|by apply Forall_app|rewrite length_app; simpl; lia]).
Qed.
Lemma encoded_ids_few ids l : encoded_ids ids = Ret l → length l ≤ _MAX_ENTITY_STATE_FETCHES.
Proof.
  intros E. enough (length l ≤ length (take _MAX_ENTITY_STATE_FETCHES ids)) as Hl by (rewrite length_take in Hl; lia).
  revert l E. unfold encoded_ids. generalize (take _MAX_ENTITY_STATE_FETCHES ids). clear ids. intros few.
  induction few as [|id few IH]; intros l; cbn [fold_right]; [by intros [= <-]|].
  intros (segment & _ & (acc & Ea & [= <-])%rbind_Ret)%rbind_Ret. specialize (IH acc Ea). destruct segment; simpl; lia.
Qed.
Definition few_reads {A} (m : K A) : Prop :=
  ∀ w, used (m w).2 = used w ∧ ∃ new, asked (m w).2 = asked w ++ new ∧ Forall reads new ∧ length new ≤ _MAX_ENTITY_STATE_FETCHES.
Lemma few_idle {A} (m : K A) : idle m → few_reads m.
Proof. intros Hm w. specialize (Hm w). rewrite !Hm. split; [done|]. exists []. rewrite app_nil_r. split; [reflexivity|]. split; [constructor|]. cbn [length]. lia. Qed.
Lemma few_bind_idle {A B} (m : K A) (f : A → K B) : few_reads m → (∀ a, idle (f a)) → few_reads (kbind m f).
Proof.
  intros Hm Hf w. specialize (Hm w). unfold kbind. destruct (m w) as [[a|j|e] w1]; cbn [snd] in *; [specialize (Hf a w1); by rewrite !Hf|done..].
Qed.
Lemma observed_few ids : few_reads (observed getenv data_mount ids).
Proof.
  unfold observed. destruct (encoded_ids ids) as [segments|] eqn:E; [|apply few_idle, idle_go].
  apply few_bind_idle; [|intros; apply idle_go]. unfold probed. apply few_bind_idle; [|intros; apply idle_ended].
  intros w. rewrite attempt_asked. split; [done|]. cbn [asked].
  destruct (probes_few (map (λ x, state_path x.2) segments) (asked w)) as (new & -> & Hr & Hl). exists new. split_and!; [done..|].
  rewrite length_map in Hl. apply encoded_ids_few in E. lia.
Qed.
Lemma observation_few changed target : few_reads (_with_observed_states getenv data_mount changed target).
Proof.
  destruct changed; cbn [_with_observed_states]; [|apply few_idle, idle_go]. apply few_bind_idle; [|intros; apply idle_go].
  destruct (named_ids target); [apply few_idle, idle_go|apply observed_few].
Qed.

Lemma canonical_component params k : _canonical_service_component params k = service_component params k.
Proof. unfold _canonical_service_component, service_component. by destruct (dget k params) as [[]|]. Qed.
Lemma canonical_name params k s : _canonical_service_component params k = Some s → _SERVICE_NAME s = true.
Proof.
  unfold _canonical_service_component. destruct (dget k params) as [[]|]; try done. destruct (_SERVICE_NAME (strip s0)) eqn:E; [|done].
  by intros [= <-].
Qed.
(** What a call of a service asks: the service once, then at most ten states. *)
Definition service_asked (domain service : pystr) (new : list call) : Prop :=
  ∃ base token body more, base_of getenv data_mount = Done base ∧ token_of getenv data_mount = Done token ∧
    new = Request "POST" (trim_slashes base ++ "/api/services/" ++ domain ++ "/" ++ service) [bearer token; json_content] body :: more ∧
    Forall reads more ∧ length more ≤ _MAX_ENTITY_STATE_FETCHES.
Lemma service_post_asks domain service body (f : json → K json) w :
  (∀ result, few_reads (f result)) →
  let m := kbind (fetching (ha_post getenv data_mount ("/api/services/" ++ domain ++ "/" ++ service) body)) f in
  used (m w).2 = used w ∧ (asked (m w).2 = asked w ∨ ∃ new, asked (m w).2 = asked w ++ new ∧ service_asked domain service new).
Proof.
  intros Hf m. unfold m.
  pose proof (fetching_asked (ha_post getenv data_mount ("/api/services/" ++ domain ++ "/" ++ service) body) w) as E.
  destruct (kbind_Go (fetching (ha_post getenv data_mount ("/api/services/" ++ domain ++ "/" ++ service) body)) f w)
    as [(result & w1 & Em & ->)|[-> _]].
  - rewrite Em in E. cbn [snd] in E. destruct (Hf result w1) as (Hu & more & Ha & Hr & Hl). rewrite Hu, Ha, E. cbn [used asked].
    split; [done|]. unfold ha_post.
    destruct (ha_request_asked "POST" ("/api/services/" ++ domain ++ "/" ++ service) body (asked w)) as [[_ Hno]|(base & token & Hb & Ht & Eq)].
    + exfalso. revert Em. unfold fetching, kbind, attempt, ha_post in *. revert Hno.
      destruct (ha_request _ _ _ _ _ _) as [[j| | |] s1]; cbn [fst ended kgo kanswer kthrow]; [intros Hno; by destruct (Hno j)|done..].
    + right. rewrite Eq, <- app_assoc. eexists. split; [reflexivity|]. exists base, token, body, more. by split_and!.
  - rewrite E. cbn [used asked]. split; [done|]. unfold ha_post.
    destruct (ha_request_asked "POST" ("/api/services/" ++ domain ++ "/" ++ service) body (asked w)) as [[-> _]|(base & token & Hb & Ht & ->)]; [by left|].
    right. eexists. split; [reflexivity|]. exists base, token, body, []. split_and!; [done..|constructor|simpl; lia].
Qed.
Hint Resolve idle_checked idle_target idle_service_data : commands.
(** The end of a service call: the answer, and what was named. *)
Lemma service_end_few target result :
  few_reads (let+ changed := expect_list result "Expected changed-state list from service call" in
             _with_observed_states getenv data_mount changed target).
Proof. destruct result; cbn [expect_list]; try (apply few_idle; by intros w). apply observation_few. Qed.

Lemma call_service_asks params w :
  let m := handle_ha_call_service getenv data_mount params in
  (m w).2 = w ∨
  used (m w).2 = used w ∧
  ∃ domain service new, asked (m w).2 = asked w ++ new ∧ service_asked domain service new ∧
    _SERVICE_NAME domain = true ∧ _SERVICE_NAME service = true ∧ _interim_service_denial domain service = None ∧
    service_for_command "ha.call_service" params = Some (domain ++ "." ++ service).
Proof.
  intros m. unfold m, handle_ha_call_service.
  pass_idle (idle_checked params _CALL_SERVICE_PARAMS) as u1 _.
  pass_idle (idle_demand _ _) as u2 _. pass_idle (idle_demand _ _) as u3 _.
  destruct (_canonical_service_component params "domain") as [domain|] eqn:Ed; [|by left].
  destruct (_canonical_service_component params "service") as [service|] eqn:Es; [|by left].
  pass_idle (idle_target params) as target _. pass_idle (idle_service_data params) as data _.
  pass_idle (idle_demand _ _) as u4 _.
  destruct (_interim_service_denial domain service) as [denial|] eqn:Edeny; [by left|]. cbn [kbind kgo].
  destruct (normalise_service_code _ _) as [body|]; [|by left]. cbn [kbind kgo].
  destruct (service_post_asks domain service (or_none body) _ w (service_end_few target)) as [Hu [Ha|(new & Ha & Hn)]].
  - left. match goal with |- ?x = _ => destruct x as [a u] end. cbn [asked used] in *. subst. by destruct w.
  - right. split; [exact Hu|]. exists domain, service, new. split_and!; [exact Ha|done|by eapply canonical_name..|done|].
    unfold service_for_command. cbn [dget _WRAPPER_SERVICES]. by rewrite <- !canonical_component, Ed, Es.
Qed.

(** A call of a service asks for the one service it names, once, and then reads at
    most ten states; it does so only when both names are names, and the service is
    none that is denied; and it is the very service the effect policy judged the
    call by. *)
Theorem service_called_is_the_judged_one params w r w' :
  finish (handle_ha_call_service getenv data_mount params) w = (r, w') →
  w' = w ∨
  used w' = used w ∧
  ∃ domain service new, asked w' = asked w ++ new ∧ service_asked domain service new ∧
    _SERVICE_NAME domain = true ∧ _SERVICE_NAME service = true ∧ _interim_service_denial domain service = None ∧
    service_for_command "ha.call_service" params = Some (domain ++ "." ++ service).
Proof.
  intros E. pose proof (finish_world (handle_ha_call_service getenv data_mount params) w) as Ew. rewrite E in Ew. cbn [snd] in Ew.
  rewrite Ew. apply call_service_asks.
Qed.
End service_theorems.

(** ** Behind the dispatcher *)

Section dispatched.
Context `{Unicode} `{Casing} `{WideText} `{Aiohttp} `{!Deadline}.
Context (getenv : pystr → option pystr) (data_mount : bool).

(** A command of this file as the dispatcher runs it. *)
Definition run_ha (h : option Caller → dict → K json) : @handler hass :=
  Async (λ w caller params, let '(r, w) := finish (h caller params) w in (w, r)).

Lemma non_operator_allowed c params service :
  caller_role c ≠ operator → check c "ha.call_service" params = None → service_for_command "ha.call_service" params = Some service →
  service_allowed service = true ∧ is_forbidden (caller_forbidden c) "ha.call_service" params = false.
Proof.
  intros Hr Hc Hs. unfold check in Hc. rewrite Hs in Hc. rewrite (bool_decide_eq_false_2 (caller_role c = operator)) in Hc by done.
  cbn [negb andb] in Hc. destruct (classify (Some service)) eqn:Ek; [done|apply classify_auto_allow in Ek|].
  - destruct (bool_decide _ && _); [done|]. by destruct (is_forbidden _ _ _).
  - destruct (bool_decide _ && _); [done|]. destruct (is_forbidden _ _ _); [done|]. by destruct (bool_decide _).
Qed.

(** C3. From a turn to the service: whatever a caller who is not the operator asks of
    [ha.call_service], through the dispatcher and its gate, no service is called
    but one of the table of allowed services that the caller is not forbidden; and
    of the rest of Home Assistant at most ten states are read. *)
Theorem turns_call_allowed_services_only handlers c params st st' r :
  handlers "ha.call_service"%py = run_ha (λ _, handle_ha_call_service getenv data_mount) →
  caller_role c ≠ operator →
  dispatch_async handlers "ha.call_service" params c st = (st', r) →
  asked (world st') = asked (world st) ∨
  ∃ domain service new, asked (world st') = asked (world st) ++ new ∧ service_asked getenv data_mount domain service new ∧
    service_allowed (domain ++ "." ++ service) = true ∧ is_forbidden (caller_forbidden c) "ha.call_service" params = false.
Proof.
  intros Hh Hr. unfold dispatch_async. destruct (collect_codes _) as [codes|]; [|intros [= <- _]; by left].
  assert (lookup_handler handlers "ha.call_service" = Some (run_ha (λ _, handle_ha_call_service getenv data_mount))) as ->.
  { unfold lookup_handler. rewrite <- Hh. assert (elem "ha.call_service"%py _REGISTRY = true) as -> by (vm_compute; reflexivity). done. }
  destruct (check c "ha.call_service" params) as [refusal|] eqn:Ec; [intros [= <- _]; by left|].
  unfold run_ha, run_body. cbn [world CURRENT_CALLER].
  destruct (finish (handle_ha_call_service getenv data_mount params) (world st)) as [r' w'] eqn:Ef. intros [= <- _]. cbn [world].
  pose proof (finish_world (handle_ha_call_service getenv data_mount params) (world st)) as Ew. rewrite Ef in Ew. cbn [snd] in Ew. subst w'.
  destruct (call_service_asks getenv data_mount params (world st)) as [->|(_ & domain & service & new & Ha & Hn & _ & _ & _ & Hs)]; [by left|].
  right. exists domain, service, new. destruct (non_operator_allowed c params _ Hr Ec Hs) as [Hallow Hforbid]. by split_and!.
Qed.
End dispatched.

(** ** Witnesses *)

#[local] Instance every_char_prints : Unicode := {| uni_printable := λ _, true; uni_decimal := λ _, None |}.
#[local] Existing Instance ascii_casing.
#[local] Instance utf8_only : WideText := {| wide_decode := λ _ _, None |}.
#[local] Instance in_time : Deadline := {| overdue := λ _, false |}.
(** A server that tells of one light, whatever is asked. *)
Definition lamp : json := JDict [("entity_id", JStr "light.lamp"); ("state", JStr "on")]%py.
#[local] Instance lamp_server : Aiohttp := answering (JList [lamp]).
Definition at_home (name : pystr) : option pystr := if bool_decide (name = "SUPERVISOR_TOKEN"%py) then Some "s"%py else None.
Definition untouched : hass := {| asked := []; used := [] |}.

Example read_only_commands_only_read_witness :
  let run := finish (handle_ha_list_states at_home false [("domain", JStr "light")]%py) untouched in
  asked run.2 = [Request "GET" "http://supervisor/core/api/states" [bearer "s"; json_content] None] ∧
  used run.2 = [] ∧ ∃ new, asked run.2 = [] ++ new ∧ Forall reads new.
Proof.
  intros run. split; [vm_compute; reflexivity|].
  apply (read_only_commands_only_read at_home false None 10 "ha.list_states" (handle_ha_list_states at_home false)
           [("domain", JStr "light")]%py untouched run.1 run.2).
  - left.
  - left.
  - apply surjective_pairing.
Defined.
Example gated_commands_need_approval_witness :
  asked (finish (handle_ha_update_install at_home false None 10 [("entity_id", JStr "update.core")]%py) untouched).2 = [].
Proof.
  apply (gated_commands_need_approval at_home false None 10 "ha.update_install" (handle_ha_update_install at_home false None 10)
           [("entity_id", JStr "update.core")]%py untouched (require_config_mutation_approval "ha.update_install" [])).
  - do 30 right. left.
  - do 5 right. left.
  - reflexivity.
Defined.
(** An administrator's turn, which may restart an add-on without a marker. *)
Definition admin_caller : Caller := {| caller_role := TurnRole admin; actor_id := "ada"; caller_forbidden := [] |}.
Definition restart_params : dict := [("slug", JStr " a1_mqtt ")]%py.
Example lifecycle_stays_with_its_addon_witness :
  let run := finish (_handle_addon_lifecycle at_home (Some admin_caller) 10 restart_params "ha.addon_restart" "restart" None) untouched in
  length (asked run.2) = 3 ∧ addon_permitted at_home "a1_mqtt" ∧ ∃ k, asked run.2 = asked untouched ++ lifecycle_asked at_home "a1_mqtt" "restart" k.
Proof.
  intros run. assert (E : length (asked run.2) = 3) by (vm_compute; reflexivity). split; [exact E|].
  pose proof (lifecycle_stays_with_its_addon at_home (Some admin_caller) 10 "ha.addon_restart" "restart" None restart_params untouched run.1 run.2
                (surjective_pairing run)) as Hall.
  cbv zeta in Hall. assert (Es : strip (str_get "slug" [] restart_params) = "a1_mqtt"%py) by (vm_compute; reflexivity). rewrite Es in Hall.
  destruct Hall as [[Hno _]|(Hp & _ & k & Hk)]; [exfalso; rewrite Hno in E; revert E; vm_compute; discriminate|].
  split; [exact Hp|]. exists k. exact Hk.
Defined.
Definition lamp_params : dict :=
  [("domain", JStr " light "); ("service", JStr "turn_on"); ("target", JDict [("entity_id", JStr "light.lamp")])]%py.
Example service_called_is_the_judged_one_witness :
  let run := finish (handle_ha_call_service at_home false lamp_params) untouched in
  length (asked run.2) = 1 ∧
  ∃ domain service new, asked run.2 = asked untouched ++ new ∧ service_asked at_home false domain service new ∧
    service_for_command "ha.call_service" lamp_params = Some (domain ++ "." ++ service).
Proof.
  intros run. assert (E : length (asked run.2) = 1) by (vm_compute; reflexivity). split; [exact E|].
  destruct (service_called_is_the_judged_one at_home false lamp_params untouched run.1 run.2) as [Hno|(_ & domain & service & new & Ha & Hs & _ & _ & _ & Hf)].
  - apply surjective_pairing.
  - exfalso. rewrite Hno in E. revert E. vm_compute. discriminate.
  - exists domain, service, new. split; [exact Ha|split; [exact Hs|exact Hf]].
Defined.
Example turns_call_allowed_services_only_witness :
  let handlers := λ _, run_ha (λ _, handle_ha_call_service at_home false) in
  let run := dispatch_async handlers "ha.call_service" lamp_params UNTRUSTED {| world := untouched; CURRENT_CALLER := None |} in
  length (asked (world run.1)) = 1 ∧
  ∃ domain service new, asked (world run.1) = asked untouched ++ new ∧ service_asked at_home false domain service new ∧
    service_allowed (domain ++ "." ++ service) = true.
Proof.
  intros handlers run. assert (E : length (asked (world run.1)) = 1) by (vm_compute; reflexivity). split; [exact E|].
  destruct (turns_call_allowed_services_only at_home false handlers UNTRUSTED lamp_params {| world := untouched; CURRENT_CALLER := None |} run.1 run.2)
    as [Hno|(domain & service & new & Ha & Hs & Hallow & _)].
  - reflexivity.
  - discriminate.
  - apply surjective_pairing.
  - exfalso. rewrite Hno in E. revert E. vm_compute. discriminate.
  - exists domain, service, new. split; [exact Ha|split; [exact Hs|exact Hallow]].
Defined.

(** The number of lines is read with [int]: an infinite one raises, and nothing
    catches it. *)
Example infinite_lines_escape :
  (finish (handle_ha_addon_logs at_home [("slug", JStr "a1_mqtt"); ("lines", JFloat (FInf false))]%py) untouched).1 =
    Raise (Exn "OverflowError" "cannot convert float infinity to integer").
Proof. vm_compute. reflexivity. Qed.
(** A lone surrogate in a segment of the URL raises, too. *)
Example lone_surrogate_escapes :
  ∃ e, (finish (handle_ha_get_state at_home false [("entity_id"%py, JStr [55296%N])]) untouched).1 = Raise e.
Proof. eexists. vm_compute. reflexivity. Qed.
