(* ===== verification/HaAnswers.v ===== *)
(** What the commands of [commands/ha.py] answer: lists cut down to what the
    caller asked for, the URLs of the logbook, and what the Supervisor reveals. *)

From stdpp Require Import base list gmap sorting.
From Stdlib Require Import NArith ZArith Lia.
From S2P Require Import Prelude PyStr PyCase PyFloat Json JsonParse PyInt Fnmatch Config Authz Policy Canonical Mutation Params SafePath.
From S2P Require Import BackupStore Handler NodeConfig UrlQuote HaClient HaCommands HaEffects.

(** ** Filters *)

(** What a filter asks of an entry of the entity registry. *)
Definition satisfies (entry : dict) (filter : pystr * json) : bool :=
  let value := _filter_value filter.2 in
  if bool_decide (filter.1 = "domain"%py)
  then match text_at "entity_id" entry with Some id => startswith id (value ++ ".") | None => false end
  else json_eqb (get_or_null filter.1 entry) (JStr value).
(** The entries that satisfy every filter there is. *)
Definition narrowed (params : dict) (entries : list json) : list json :=
  match params with [] => entries | _ => List.filter (on_dict (λ entry, forallb (satisfies entry) params)) entries end.

Lemma dget_of_elem {V} k (v : V) d : NoDup (dkeys d) → (k, v) ∈ d → dget k d = Some v.
Proof.
  induction d as [|[k' v'] d IH]; intros Hn Hin; [by apply elem_of_nil in Hin|]. cbn [dkeys map dget fst] in *.
  apply NoDup_cons in Hn as [Hk Hn]. apply elem_of_cons in Hin as [[= -> ->]|Hin]; [by rewrite decide_True|].
  rewrite decide_False; [by apply IH|]. intros ->. apply Hk, list_elem_of_fmap. by exists (k', v).
Qed.
Lemma usable_filters params names extra : filter_param_error params names extra = None →
  (∀ k, k ∈ dkeys params → k ∈ names ++ extra) ∧
  ∀ k v, k ∈ names → dget k params = Some v → _filter_value v ≠ [].
Proof.
  unfold filter_param_error. destruct (unknown_keys _ _) eqn:Eu; [|done]. rewrite unknown_keys_nil in Eu.
  destruct (List.find _ names) eqn:Ef; [done|]. intros _. split.
  - intros k Hk. by apply Eu, elem_of_list_to_set in Hk.
  - intros k v Hk Hv Hb. apply find_none with (x := k) in Ef; [|by apply list_elem_of_In]. rewrite Hv in Ef. unfold blank in Ef.
    by rewrite bool_decide_eq_true_2 in Ef.
Qed.
Lemma filter_of_given k v params : dget k params = Some v → filter_of k params = _filter_value v.
Proof. intros E. unfold filter_of, get_or_null. by rewrite E. Qed.
Lemma filter_of_absent k params : dget k params = None → filter_of k params = [].
Proof. intros E. unfold filter_of, get_or_null. by rewrite E. Qed.

Lemma narrowed_by params entries : params ≠ [] →
  narrowed params entries = List.filter (on_dict (λ entry, forallb (satisfies entry) params)) entries.
Proof. by destruct params. Qed.
Lemma first_given (params : dict) : params = [] ∨ ∃ k v, k ∈ dkeys params ∧ dget k params = Some v.
Proof. destruct params as [|[k v] rest]; [by left|right]. exists k, v. cbn. rewrite decide_True by done. split; [by left|done]. Qed.

Section registry.
Context (params : dict).
Hypothesis keys_once : NoDup (dkeys params).
Hypothesis usable : filter_param_error params ENTITY_REGISTRY_FILTERS [] = None.

(** One of the tests of the code is the filter of its name, when that is given. *)
Definition constrains (k : pystr) (test : bool) (entry : dict) : Prop :=
  test = true ↔ ∀ v, dget k params = Some v → satisfies entry (k, v) = true.
Lemma field_constrains k entry : k ∈ ENTITY_REGISTRY_FILTERS → k ≠ "domain"%py →
  constrains k (field_is k (filter_of k params) entry) entry.
Proof.
  intros Hk Hd. unfold constrains, satisfies, field_is. cbn [fst snd]. rewrite (bool_decide_eq_false_2 (k = _)) by done.
  destruct (dget k params) as [v|] eqn:E.
  - rewrite (filter_of_given _ _ _ E). destruct (usable_filters _ _ _ usable) as [_ Hne]. rewrite bool_decide_eq_false_2 by (by eapply Hne).
    cbn [orb]. split; [by intros Ht ? [= <-]|auto].
  - rewrite filter_of_absent by done. by split.
Qed.
Lemma domain_constrains entry : constrains "domain" (under_domain (filter_of "domain" params) entry) entry.
Proof.
  unfold constrains, satisfies, under_domain. cbn [fst snd]. rewrite (bool_decide_eq_true_2 ("domain"%py = _)) by done.
  destruct (dget "domain" params) as [v|] eqn:E.
  - rewrite (filter_of_given _ _ _ E). destruct (usable_filters _ _ _ usable) as [_ Hne].
    rewrite bool_decide_eq_false_2 by (eapply Hne; [by left|done]). cbn [orb]. split; [by intros Ht ? [= <-]|auto].
  - rewrite filter_of_absent by done. by split.
Qed.
Lemma registry_narrowed entries : filter_entity_registry entries params = narrowed params entries.
Proof.
  destruct (usable_filters _ _ _ usable) as [Hkeys Hne]. unfold filter_entity_registry.
  destruct (forallb _ [_; _; _; _]) eqn:Eall.
  - destruct (first_given params) as [->|(k & v & Hin & Hv)]; [done|]. exfalso. apply Hkeys in Hin. rewrite app_nil_r in Hin.
    cbn [forallb] in Eall. rewrite !andb_true_iff, !bool_decide_eq_true in Eall. destruct Eall as (E1 & E2 & E3 & E4 & _).
    apply (Hne k v Hin Hv). rewrite <- (filter_of_given _ _ _ Hv).
    repeat (apply elem_of_cons in Hin as [->|Hin]; [done|]). by apply elem_of_nil in Hin.
  - rewrite narrowed_by by (intros E; by rewrite E in Eall). apply filter_ext. intros [| | | | | |entry]; try done.
    cbn [on_dict]. apply eq_true_iff_eq. rewrite !andb_true_iff.
    assert (Hfield : ∀ k, k ∈ ENTITY_REGISTRY_FILTERS → k ≠ "domain"%py →
      field_is k (filter_of k params) entry = true ↔ ∀ v, dget k params = Some v → satisfies entry (k, v) = true)
      by (intros k; apply (field_constrains k entry)).
    pose proof (domain_constrains entry) as Hdomain. unfold constrains in Hdomain. rewrite Hdomain.
    rewrite !Hfield by (discriminate || (apply (bool_decide_unpack (_ ∈ _)); vm_compute; exact I)).
    rewrite forallb_true_forall. split.
    + intros [[[Hd Hp] Ha] Hi] [k v] Hin. pose proof (dget_of_elem k v params keys_once Hin) as Hv.
      assert (Hk : k ∈ ENTITY_REGISTRY_FILTERS ++ []) by (apply Hkeys, list_elem_of_fmap; by exists (k, v)). rewrite app_nil_r in Hk.
      repeat (apply elem_of_cons in Hk as [->|Hk]; [by auto|]). by apply elem_of_nil in Hk.
    + intros Hall. split_and!; intros v Hv; apply Hall; by apply dget_elem.
Qed.
End registry.

Section answers.
Context `{Unicode} `{Casing} `{WideText} `{Aiohttp} `{!Deadline}.
Context (getenv : pystr → option pystr) (data_mount : bool) (caller : option Caller) (now : Z).
Implicit Types (w : hass) (params : dict).

(** C36. A request to narrow the entity registry is honoured or refused.  When the
    command answers, the caller's parameters are all filters, and the entities are
    exactly those of the registry that satisfy every one of them, in the order of
    the registry. *)
Theorem registry_filters_are_honoured params w answer w' :
  NoDup (dkeys params) →
  finish (handle_ha_list_entity_registry getenv data_mount params) w = (Ret (JDict answer), w') →
  get_or_null "ok" answer = JBool true →
  (∀ k, k ∈ dkeys params → k ∈ ENTITY_REGISTRY_FILTERS) ∧
  ∃ registry, (ha_ws_call getenv data_mount "config/entity_registry/list" [] (asked w)).1 = Done (JList registry) ∧
    JDict answer = counted "entities" (narrowed params registry).
Proof.
  intros Hn. unfold handle_ha_list_entity_registry.
  destruct (filter_param_error params ENTITY_REGISTRY_FILTERS []) as [invalid|] eqn:Ef.
  { cbn [refuse]. intros [= -> _] Hok. exfalso. unfold filter_param_error in Ef.
    destruct (unknown_keys _ _); [destruct (List.find _ _); [|done]|]; injection Ef as <-; by vm_compute in Hok. }
  cbn [refuse]. unfold finish, fetching, attempt, kbind, kgo. cbv beta.
  destruct (ha_ws_call _ _ _ _ _) as [[[| | | | |registry|]| | |] s] eqn:Ews; cbn [ended kgo kanswer kthrow expect_list];
    try (by intros [=]); try (intros [= <- _] Hok; by vm_compute in Hok).
  intros [= E] _. split.
  - intros k Hk. destruct (usable_filters _ _ _ Ef) as [Hkeys _]. specialize (Hkeys k Hk). by rewrite app_nil_r in Hkeys.
  - exists registry. split; [done|]. rewrite <- (registry_narrowed params Hn Ef registry). by rewrite <- E.
Qed.

(** ** URLs *)

(** A segment behind the path that reads as [value]; nothing for no value. *)
Definition segment_reads (value sent : pystr) : Prop :=
  (value = [] ∧ sent = []) ∨
  ∃ segment, sent = "/" ++ segment ∧ decode (unquote segment) = Some value ∧ Forall (λ c, segment_char c = true) segment ∧
    segment ∉ _DOT_SEGMENTS.
(** A query that reads as the fields that are given. *)
Definition given_fields (fields : list (pystr * pystr)) : list (pystr * pystr) :=
  List.filter (λ nv, negb (bool_decide (nv.2 = []))) fields.
Definition query_reads (fields : list (pystr * pystr)) (sent : pystr) : Prop :=
  (given_fields fields = [] ∧ sent = []) ∨
  ∃ query, sent = "?" ++ query ∧ map (λ nv, (nv.1, decode nv.2)) (read_query query) = map (λ nv, (nv.1, Some nv.2)) (given_fields fields).

Lemma from_start_sends path params w p w1 :
  Forall valid_char (str_get "start_time" [] params) → from_start path params w = (Go p, w1) →
  w1 = w ∧ ∃ sent, p = path ++ sent ∧ segment_reads (str_get "start_time" [] params) sent.
Proof.
  unfold from_start. destruct (str_get "start_time" [] params) as [|c t] eqn:E.
  { intros _ [= <- <-]. split; [done|]. exists []. rewrite app_nil_r. by split; [|left]. }
  intros Hv. pose proof (segment_round_trip (c :: t) Hv) as Hseg. unfold segment_or, kbind.
  destruct (_encode_path_segment (c :: t)) as [[segment|]|e]; cbn [kres kgo kanswer kthrow]; [|done..]. intros [= <- <-]. split; [done|].
  exists ("/" ++ segment). split; [done|]. right. exists segment. by destruct Hseg as (? & ? & ?).
Qed.
(** The parts of a query, for the fields that are given. *)
Definition part_of (nv : pystr * pystr) (part : list pystr) : Prop :=
  (nv.2 = [] ∧ part = []) ∨
  ∃ sent, nv.2 ≠ [] ∧ part = [parameter nv.1 sent] ∧ decode (unquote_plus sent) = Some nv.2 ∧ Forall (λ c, query_char c = true) sent.
Lemma query_part_sends name value w part w1 :
  Forall valid_char value → query_part name value w = (Go part, w1) → w1 = w ∧ part_of (name, value) part.
Proof.
  intros Hv. unfold query_part, kbind. destruct value as [|c t]; [intros [= <- <-]; by split; [|left]|].
  destruct (_encode_query_value (c :: t)) as [sent|e] eqn:E; cbn [kres kgo kthrow]; [|done]. intros [= <- <-]. split; [done|right].
  destruct (query_value_round_trip _ _ Hv E) as [Hd Hc]. by exists sent.
Qed.
Lemma query_of_parts path fields parts :
  Forall (λ nv, Forall (λ c, name_char c = true) nv.1) fields → Forall2 part_of fields parts →
  ∃ sent, with_query path (concat parts) = path ++ sent ∧ query_reads fields sent.
Proof.
  intros Hn Hp.
  assert (Hl : ∃ l, concat parts = map (λ nv, parameter nv.1 nv.2) l ∧
    Forall (λ nv, Forall (λ c, name_char c = true) nv.1 ∧ Forall (λ c, query_char c = true) nv.2) l ∧
    map (λ nv, (nv.1, decode (unquote_plus nv.2))) l = map (λ nv, (nv.1, Some nv.2)) (given_fields fields)).
  { induction Hp as [|[name value] part fields parts Hx Hp IH]; [by exists []|]. apply Forall_cons in Hn as [Hname Hn].
    destruct (IH Hn) as (l & E & Hl & Em). unfold given_fields. cbn [List.filter snd concat]. rewrite E.
    destruct Hx as [[Hv ->]|(sent & Hv & -> & Hd & Hc)]; cbn [fst snd] in *.
    - subst value. by exists l.
    - rewrite bool_decide_eq_false_2 by done. exists ((name, sent) :: l). split_and!; [done|by constructor|]. cbn [map fst snd negb].
      by rewrite Hd, Em. }
  destruct Hl as (l & -> & Hl & Em). destruct l as [|nv l].
  - exists []. split; [by rewrite app_nil_r|left]. split; [|done]. by destruct (given_fields fields).
  - exists ("?" ++ join "&" (map (λ nv, parameter nv.1 nv.2) (nv :: l))). split; [done|right]. eexists. split; [reflexivity|].
    rewrite read_query_join by done. rewrite List.map_map. exact Em.
Qed.

(** C35. The logbook is asked for what the caller asked for.  The URL that is sent is
    that of the logbook, with at most one segment and a query behind it: the
    segment reads as the start, the parameters of the query as the end and the
    entity, whatever characters the caller put into them; no value can reach
    another endpoint, or add a parameter. *)
Theorem logbook_url_reads_back params w r w' :
  (∀ k, k ∈ LOGBOOK_PARAMS → Forall valid_char (str_get k [] params)) →
  finish (handle_ha_logbook getenv data_mount params) w = (r, w') →
  asked w' = asked w ∨
  ∃ base headers start query,
    asked w' = asked w ++ [Request "GET" (trim_slashes base ++ ("/api/logbook" ++ start) ++ query) headers None] ∧
    segment_reads (str_get "start_time" [] params) start ∧
    query_reads [("end_time", str_get "end_time" [] params); ("entity", str_get "entity_id" [] params)]%py query.
Proof.
  intros Hv E. pose proof (finish_world (handle_ha_logbook getenv data_mount params) w) as Ew. rewrite E in Ew. cbn [snd] in Ew. subst w'. clear E.
  assert (Hs : ∀ k, bool_decide (k ∈ LOGBOOK_PARAMS) = true → Forall valid_char (str_get k [] params))
    by (intros k Hk%bool_decide_eq_true; by apply Hv).
  unfold handle_ha_logbook.
  pass_idle (idle_refuse _) as u _. pass_idle (idle_from_start _ _) as path Ep.
  destruct (from_start_sends _ _ _ _ _ (Hs "start_time"%py eq_refl) Ep) as (_ & start & -> & Hstart).
  pass_idle (idle_query_part _ _) as end_part Ee. destruct (query_part_sends _ _ _ _ _ (Hs "end_time"%py eq_refl) Ee) as [_ Hend].
  pass_idle (idle_query_part _ _) as entity_part Een. destruct (query_part_sends _ _ _ _ _ (Hs "entity_id"%py eq_refl) Een) as [_ Hentity].
  destruct (query_of_parts ("/api/logbook" ++ start) [("end_time", str_get "end_time" [] params); ("entity", str_get "entity_id" [] params)]%py
              [end_part; entity_part]) as (query & Eq & Hq).
  { repeat constructor. }
  { by apply Forall2_cons; split; [|apply Forall2_cons; split; [|constructor]]. }
  cbn [concat] in Eq. rewrite app_nil_r in Eq. rewrite Eq. set (path := ("/api/logbook" ++ start) ++ query).
  match goal with |- context [kbind ?m ?f w] => assert (Hm : asked (kbind m f w).2 = (ha_get getenv data_mount path (asked w)).2) end.
  { pose proof (fetching_asked (ha_get getenv data_mount path) w) as Ef. unfold kbind at 1.
    destruct (fetching (ha_get getenv data_mount path) w) as [[raw|j|e] w1]; cbn [snd] in *; subst w1; [|done..].
    by destruct raw. }
  rewrite Hm. unfold ha_get. destruct (ha_request_asked getenv data_mount "GET" path None (asked w)) as [[-> _]|(base & token & _ & _ & ->)]; [by left|].
  right. exists base, [bearer token; json_content], start, query. by split_and!.
Qed.

(** ** What the Supervisor reveals *)

(** The answer of [ha.supervisor_info] shows nothing but short texts under eight
    names: whatever the Supervisor sends, an answer is either these fields, each
    the text it sent under that name, of at most 128 characters, or nothing; or an
    error whose text is fixed. *)
Theorem supervisor_info_reveals_fields w r w' :
  finish (handle_ha_supervisor_info getenv []) w = (Ret r, w') →
  (∃ raw data, (supervisor_get_json getenv "/info" _SUPERVISOR_JSON_MAX_BYTES (asked w)).1 = Done (JDict raw) ∧
     dget "data" raw = Some (JDict data) ∧
     r = JDict [("ok", JBool true); ("info", JDict (map (λ k, (k, _supervisor_info_value (get_or_null k data))) _SUPERVISOR_INFO_FIELDS))]%py ∧
     ∀ k, _supervisor_info_value (get_or_null k data) = JNull ∨
          ∃ s, _supervisor_info_value (get_or_null k data) = JStr s ∧ dget k data = Some (JStr s) ∧ length s ≤ 128) ∨
  ∃ code message, r = error_dict code message ∧
    message ∈ ["Supervisor /info request failed"; "Expected dict from Supervisor /info"; "Supervisor /info response missing 'data'"]%py.
Proof.
  unfold handle_ha_supervisor_info. assert (Hk : checked [] [] = kgo tt) by (vm_compute; reflexivity). rewrite Hk.
  unfold finish, attempt, kbind, kgo. cbv beta.
  destruct (supervisor_get_json getenv "/info" _ (asked w)) as [[raw|code msg| |e] s]; cbn [ended kgo kanswer kthrow];
    [|intros [= <- _]; right; exists code; eexists; split; [reflexivity|left]|done..].
  unfold data_of, expect_dict, kbind, kgo, kanswer.
  destruct raw as [| | | | | |raw]; try (intros [= <- _]; right; eexists _, _; split; [reflexivity|right; left]).
  unfold get_or_null at 1. destruct (dget "data" raw) as [[| | | | | |data]|] eqn:Ed; cbn [default from_option id];
    try (intros [= <- _]; right; eexists _, _; split; [reflexivity|right; right; left]).
  intros [= <- _]. left. exists raw, data. split_and!; [done..|]. intros k. unfold get_or_null, _supervisor_info_value.
  destruct (dget k data) as [[]|]; cbn [default from_option id]; try by left.
  destruct (length s0 <=? _)%nat eqn:El; [|by left]. right. exists s0. apply Nat.leb_le in El. by split_and!.
Qed.
End answers.

(** ** Witnesses *)

#[local] Instance every_char_prints : Unicode := {| uni_printable := λ _, true; uni_decimal := λ _, None |}.
#[local] Existing Instance ascii_casing.
Definition plug : json := JDict [("entity_id", JStr "switch.plug"); ("platform", JStr "mqtt")]%py.
#[local] Instance plug_server : Aiohttp := answering (JList [lamp; plug]).
Definition mqtt_only : dict := [("platform", JStr " mqtt ")]%py.
Example registry_filters_are_honoured_witness :
  ∃ registry, (ha_ws_call at_home false "config/entity_registry/list" [] []).1 = Done (JList registry) ∧
    counted "entities" [plug] = counted "entities" (narrowed mqtt_only registry).
Proof.
  pose (run := finish (handle_ha_list_entity_registry at_home false mqtt_only) untouched).
  pose (answer := [("ok", JBool true); ("count", JInt 1); ("entities", JList [plug])]%py).
  destruct (registry_filters_are_honoured at_home false mqtt_only untouched answer run.2) as (_ & registry & Hr & E).
  - apply (bool_decide_unpack (NoDup _)). vm_compute. exact I.
  - assert (E : run.1 = Ret (JDict answer)) by (vm_compute; reflexivity). rewrite <- E. apply surjective_pairing.
  - vm_compute. reflexivity.
  - exists registry. split; [exact Hr|]. rewrite <- E. vm_compute. reflexivity.
Defined.
(** A start that would climb to another endpoint, and an end that would add a
    parameter, stay a segment and a value. *)
Definition climbing : dict := [("start_time", JStr "../states"); ("end_time", JStr "1&entity=x")]%py.
Example logbook_url_reads_back_witness :
  let run := finish (handle_ha_logbook at_home false climbing) untouched in
  asked run.2 = [Request "GET" "http://supervisor/core/api/logbook/..%2Fstates?end_time=1%26entity%3Dx" [bearer "s"; json_content] None] ∧
  ∃ start query, segment_reads "../states" start ∧ query_reads [("end_time", "1&entity=x"); ("entity", [])]%py query.
Proof.
  intros run. assert (E : asked run.2 = [Request "GET" "http://supervisor/core/api/logbook/..%2Fstates?end_time=1%26entity%3Dx"
                                           [bearer "s"; json_content] None]) by (vm_compute; reflexivity).
  split; [exact E|]. destruct (logbook_url_reads_back at_home false climbing untouched run.1 run.2) as [Hno|(base & headers & start & query & _ & Hs & Hq)].
  - intros k Hk. unfold LOGBOOK_PARAMS in Hk. repeat (apply elem_of_cons in Hk as [->|Hk]; [apply (bool_decide_unpack _); vm_compute; exact I|]).
    by apply elem_of_nil in Hk.
  - apply surjective_pairing.
  - exfalso. rewrite Hno in E. discriminate E.
  - exists start, query. split; [exact Hs|exact Hq].
Defined.
#[local] Instance info_server : Aiohttp :=
  answering (JDict [("data", JDict [("arch", JStr "amd64"); ("machine", JInt 4); ("token", JStr "s3cret")])]%py).
Example supervisor_info_reveals_fields_witness :
  let run := finish (handle_ha_supervisor_info at_home []) untouched in
  ∃ raw data, (supervisor_get_json at_home "/info" _SUPERVISOR_JSON_MAX_BYTES []).1 = Done (JDict raw) ∧ dget "data" raw = Some (JDict data) ∧
    run.1 = Ret (JDict [("ok", JBool true); ("info", JDict (map (λ k, (k, _supervisor_info_value (get_or_null k data))) _SUPERVISOR_INFO_FIELDS))]%py).
Proof.
  intros run.
  pose (r := JDict [("ok", JBool true);
                    ("info", JDict (map (λ k, (k, if bool_decide (k = "arch"%py) then JStr "amd64" else JNull)) _SUPERVISOR_INFO_FIELDS))]%py).
  assert (E : run.1 = Ret r) by (vm_compute; reflexivity).
  destruct (supervisor_info_reveals_fields at_home untouched r run.2) as [(raw & data & Hr & Hd & Er & _)|(code & message & Er & _)].
  - rewrite <- E. apply surjective_pairing.
  - exists raw, data. split; [exact Hr|split; [exact Hd|]]. rewrite E, Er. reflexivity.
  - exfalso. revert Er. vm_compute. discriminate.
Defined.
