(* ===== verification/HaConfig.v ===== *)
(** [commands/ha_config_*.py]: the commands that read and change the configuration
    of Home Assistant, each by an action.  A change waits for an approval. *)

From stdpp Require Import base list gmap sorting.
From Stdlib Require Import NArith ZArith Lia.
From S2P Require Import Prelude PyStr PyCase PyFloat Json JsonParse Config Authz Policy Canonical Mutation Params.
From S2P Require Import Handler UrlQuote HaClient HaCommands HaEffects.

Section config.
Context `{Unicode} `{Casing} `{Aiohttp}.
Context (getenv : pystr → option pystr) (data_mount : bool) (caller : option Caller) (now : Z).
Implicit Types params : dict.
Abbreviation ws := (ha_ws_call getenv data_mount).
Abbreviation approval := (with_approval caller now).

(** ** What the commands share *)

Definition _PROPOSAL : list pystr := ["proposal_id"; APPROVAL_PARAM].
(** The action, and the check of the keys it takes. *)
Definition action_of (actions : list (pystr * list pystr)) (nullable : list pystr) (extra : pystr → list pystr) params : K pystr :=
  let raw := get_or_null "action" params in
  let action := _filter_value raw in
  let+ _ := demand (negb (bool_decide (action = []))) (_error "INVALID_PARAM" "action is required") in
  match dget action actions with
  | Some allowed =>
      let+ _ := refuse (strict_keys_error params (keys (allowed ++ extra action)) (keys nullable)) in kgo action
  | None =>
      kanswer (_error "INVALID_PARAM"
        ("action must be one of " ++ py_repr (JList (map JStr (sorted_strs (dkeys actions)))) ++ ", got " ++ repr_str action))
  end.
Definition no_extra (action : pystr) : list pystr := [].
(** A text that is required, without blanks around it. *)
Definition require_text (k : pystr) params : K pystr :=
  match get_or_null k params with
  | JStr raw => match strip raw with
                | [] => kanswer (_error "MISSING_PARAM" (k ++ " must be a non-empty string"))
                | trimmed => kgo trimmed
                end
  | _ => kanswer (_error "MISSING_PARAM" (k ++ " must be a string and is required"))
  end.
Definition require_object (k : pystr) params : K dict :=
  match get_or_null k params with JDict d => kgo d | _ => kanswer (_error "MISSING_PARAM" (k ++ " must be a dict and is required")) end.

(** ** Automations, scripts and scenes: by HTTP *)

Definition id_char (c : N) : bool := (is_lower c || is_digit c || (c =? 95))%N.
(** [_ID_RE.match]: the dollar sign lets a last line end pass. *)
Definition _ID_RE (id : pystr) : bool :=
  let id := match rev id with 10%N :: r => rev r | _ => id end in
  negb (bool_decide (id = [])) && forallb id_char id.
Definition _require_id params : K pystr :=
  let+ id := require_text "id" params in
  let+ _ := demand (_ID_RE id) (_error "INVALID_PARAM" "id must be an HA slug (lowercase letters, digits, underscores)") in
  kgo id.
Definition item_path (kind id : pystr) : pystr := "/api/config/" ++ kind ++ "/config/" ++ id.
Definition item_command (kind : pystr) : pystr := "ha.config." ++ kind.
Definition item_get (kind : pystr) params : K json :=
  let+ id := _require_id params in
  let+ result := fetching (ha_get getenv data_mount (item_path kind id)) in
  let+ config := expect_dict result ("Expected dict from /api/config/" ++ kind ++ "/config/<id>") in
  kgo (JDict [("ok", JBool true); ("id", JStr id); ("config", JDict config)]%py).
Definition saved (id : pystr) : json := JDict [("ok", JBool true); ("id", JStr id)]%py.
Definition item_save (kind : pystr) params : K json :=
  let+ _ := approval (item_command kind) "save" params in
  let+ id := _require_id params in
  let+ config := require_object "config" params in
  let+ _ := fetching (ha_post getenv data_mount (item_path kind id) (Some (JDict config))) in
  kgo (saved id).
Definition item_delete (kind : pystr) params : K json :=
  let+ _ := approval (item_command kind) "delete" params in
  let+ id := _require_id params in
  let+ _ := fetching (ha_delete getenv data_mount (item_path kind id)) in
  kgo (saved id).
Definition item_actions : list (pystr * list pystr) :=
  [("get", ["action"; "id"]); ("save", ["action"; "id"; "config"] ++ _PROPOSAL); ("delete", ["action"; "id"] ++ _PROPOSAL)]%py.
Definition item_handler (get save delete : dict → K json) params : K json :=
  let+ action := action_of item_actions [] no_extra params in
  if bool_decide (action = "get"%py) then get params
  else if bool_decide (action = "save"%py) then save params
  else delete params.
Definition automation_get params : K json := item_get "automation" params.
Definition automation_save params : K json := item_save "automation" params.
Definition automation_delete params : K json := item_delete "automation" params.
Definition handle_ha_config_automation params : K json := item_handler automation_get automation_save automation_delete params.
Definition script_get params : K json := item_get "script" params.
Definition script_save params : K json := item_save "script" params.
Definition script_delete params : K json := item_delete "script" params.
Definition handle_ha_config_script params : K json := item_handler script_get script_save script_delete params.
Definition scene_get params : K json := item_get "scene" params.
Definition scene_save params : K json := item_save "scene" params.
Definition scene_delete params : K json := item_delete "scene" params.
Definition handle_ha_config_scene params : K json := item_handler scene_get scene_save scene_delete params.

(** ** Areas *)

Definition area_actions : list (pystr * list pystr) :=
  [("list", ["action"]); ("create", ["action"; "name"; "attrs"] ++ _PROPOSAL); ("update", ["action"; "area_id"; "attrs"] ++ _PROPOSAL);
   ("delete", ["action"; "area_id"] ++ _PROPOSAL)]%py.
Definition handle_ha_config_area_registry params : K json :=
  let+ action := action_of area_actions [] no_extra params in
  if bool_decide (action = "list"%py) then
    let+ result := fetching (ws "config/area_registry/list" []) in
    let+ areas := expect_list result "Expected list from config/area_registry/list" in
    kgo (counted "areas" areas)
  else
    let+ _ := approval "ha.config.area_registry" action params in
    if bool_decide (action = "create"%py) then
      let+ name := require_text "name" params in
      let attrs := match get_or_null "attrs" params with JDict d => d | _ => [] end in
      let+ result := fetching (ws "config/area_registry/create" (update_dict [("name"%py, JStr name)] attrs)) in
      kgo (JDict [("ok", JBool true); ("area", result)]%py)
    else
      let+ area_id := require_text "area_id" params in
      if bool_decide (action = "update"%py) then
        let+ attrs := require_object "attrs" params in
        let+ result := fetching (ws "config/area_registry/update" (update_dict [("area_id"%py, JStr area_id)] attrs)) in
        kgo (JDict [("ok", JBool true); ("area_id", JStr area_id); ("area", result)]%py)
      else
        let+ _ := fetching (ws "config/area_registry/delete" [("area_id"%py, JStr area_id)]) in
        kgo (JDict [("ok", JBool true); ("area_id", JStr area_id)]%py).

(** ** Devices and entities *)

Definition device_actions : list (pystr * list pystr) :=
  [("list", "action" :: DEVICE_REGISTRY_FILTERS); ("update", ["action"; "device_id"; "attrs"] ++ _PROPOSAL)]%py.
(** The filters of a request, with [None] for one that is not there. *)
Definition filters_of (names : list pystr) params : dict := map (λ k, (k, get_or_null k params)) names.
Definition handle_ha_config_device_registry params : K json :=
  let+ action := action_of device_actions [] no_extra params in
  if bool_decide (action = "list"%py) then
    let+ _ := refuse (filter_param_error params DEVICE_REGISTRY_FILTERS ["action"%py]) in
    let+ result := fetching (ws "config/device_registry/list" []) in
    let+ devices := expect_list result "Expected list from config/device_registry/list" in
    kgo (counted "devices" (filter_device_registry devices (filters_of DEVICE_REGISTRY_FILTERS params)))
  else
    let+ _ := approval "ha.config.device_registry" action params in
    let+ device_id := match _filter_value (get_or_null "device_id" params) with
                      | [] => kanswer (_error "MISSING_PARAM" "device_id must be a non-empty string")
                      | id => kgo id
                      end in
    let+ attrs := require_object "attrs" params in
    let+ result := fetching (ws "config/device_registry/update" (update_dict [("device_id"%py, JStr device_id)] attrs)) in
    kgo (JDict [("ok", JBool true); ("device_id", JStr device_id); ("device", result)]%py).
Definition entity_actions : list (pystr * list pystr) :=
  [("list", "action" :: ENTITY_REGISTRY_FILTERS); ("get", ["action"; "entity_id"]);
   ("update", ["action"; "entity_id"; "attrs"] ++ _PROPOSAL); ("remove", ["action"; "entity_id"] ++ _PROPOSAL)]%py.
Definition handle_ha_config_entity_registry params : K json :=
  let+ action := action_of entity_actions [] no_extra params in
  if bool_decide (action = "list"%py) then
    let+ _ := refuse (filter_param_error params ENTITY_REGISTRY_FILTERS ["action"%py]) in
    let+ result := fetching (ws "config/entity_registry/list" []) in
    let+ entities := expect_list result "Expected list from config/entity_registry/list" in
    kgo (counted "entities" (filter_entity_registry entities (filters_of ENTITY_REGISTRY_FILTERS params)))
  else
    let+ _ := if elem action ["update"; "remove"]%py then approval "ha.config.entity_registry" action params else kgo tt in
    let+ entity_id := require_text "entity_id" params in
    if bool_decide (action = "get"%py) then
      let+ result := fetching (ws "config/entity_registry/get" [("entity_id"%py, JStr entity_id)]) in
      let+ entity := expect_dict result "Expected dict from config/entity_registry/get" in
      kgo (JDict [("ok", JBool true); ("entity_id", JStr entity_id); ("entity", JDict entity)]%py)
    else if bool_decide (action = "update"%py) then
      let+ attrs := require_object "attrs" params in
      let+ result := fetching (ws "config/entity_registry/update" (update_dict [("entity_id"%py, JStr entity_id)] attrs)) in
      kgo (JDict [("ok", JBool true); ("entity_id", JStr entity_id); ("entity", result)]%py)
    else
      let+ _ := fetching (ws "config/entity_registry/remove" [("entity_id"%py, JStr entity_id)]) in
      kgo (JDict [("ok", JBool true); ("entity_id", JStr entity_id)]%py).

(** ** Config entries *)

Definition entry_actions : list (pystr * list pystr) :=
  [("get", ["action"; "entry_id"]); ("disable", ["action"; "entry_id"] ++ _PROPOSAL); ("enable", ["action"; "entry_id"] ++ _PROPOSAL)]%py.
Definition handle_ha_config_config_entries params : K json :=
  let+ action := action_of entry_actions [] no_extra params in
  let+ _ := if elem action ["disable"; "enable"]%py then approval "ha.config.config_entries" action params else kgo tt in
  let+ entry_id := require_text "entry_id" params in
  if bool_decide (action = "get"%py) then
    let+ result := fetching (ws "config_entries/get_single" [("entry_id"%py, JStr entry_id)]) in
    let+ entry := expect_dict result "Expected dict from config_entries/get_single" in
    kgo (JDict [("ok", JBool true); ("entry_id", JStr entry_id); ("entry", JDict entry)]%py)
  else
    let disabled_by := if bool_decide (action = "disable"%py) then JStr "user" else JNull in
    let+ result := fetching (ws "config_entries/disable" [("entry_id"%py, JStr entry_id); ("disabled_by"%py, disabled_by)]) in
    kgo (JDict [("ok", JBool true); ("entry_id", JStr entry_id); ("result", result)]%py).

(** ** Dashboards *)

Definition _LOVELACE_RESOURCE_TYPES : list pystr := ["module"; "css"; "js"; "html"].
Definition lovelace_actions : list (pystr * list pystr) :=
  [("get", ["action"; "url_path"]); ("save", ["action"; "url_path"; "config"] ++ _PROPOSAL); ("dashboards_list", ["action"]);
   ("resources_list", ["action"]); ("resources_create", ["action"; "url"; "res_type"] ++ _PROPOSAL)]%py.
Definition _optional_url_path params : K (option pystr) :=
  match get_or_null "url_path" params with
  | JNull => kgo None
  | JStr raw => match strip raw with [] => kgo None | trimmed => kgo (Some trimmed) end
  | _ => kanswer (_error "INVALID_PARAM" "url_path must be a string")
  end.
Definition at_path (url_path : option pystr) : dict := match url_path with Some p => [("url_path"%py, JStr p)] | None => [] end.
Definition path_json (url_path : option pystr) : json := match url_path with Some p => JStr p | None => JNull end.
Definition lovelace_get params : K json :=
  let+ url_path := _optional_url_path params in
  let+ result := fetching (ws "lovelace/config" (at_path url_path)) in
  let+ config := expect_dict result "Expected dict from lovelace/config" in
  kgo (JDict [("ok", JBool true); ("url_path", path_json url_path); ("config", JDict config)]%py).
Definition lovelace_save params : K json :=
  let+ _ := approval "ha.config.lovelace" "save" params in
  let+ config := require_object "config" params in
  let+ url_path := _optional_url_path params in
  let+ _ := fetching (ws "lovelace/config/save" (("config"%py, JDict config) :: at_path url_path)) in
  kgo (JDict [("ok", JBool true); ("url_path", path_json url_path)]%py).
Definition dashboards_list params : K json :=
  let+ result := fetching (ws "lovelace/dashboards/list" []) in
  let+ dashboards := expect_list result "Expected list from lovelace/dashboards/list" in
  kgo (counted "dashboards" dashboards).
Definition resources_list params : K json :=
  let+ result := fetching (ws "lovelace/resources" []) in
  let+ resources := expect_list result "Expected list from lovelace/resources" in
  kgo (counted "resources" resources).
Definition resources_create params : K json :=
  let+ _ := approval "ha.config.lovelace" "resources_create" params in
  let url := _filter_value (get_or_null "url" params) in
  let+ _ := demand (negb (bool_decide (url = []))) (_error "MISSING_PARAM" "url is required") in
  let+ res_type := match get_or_null "res_type" params with
                   | JStr s => match strip s with [] => kanswer (_error "MISSING_PARAM" "res_type is required") | _ => kgo s end
                   | _ => kanswer (_error "MISSING_PARAM" "res_type is required")
                   end in
  let+ _ := demand (elem res_type _LOVELACE_RESOURCE_TYPES)
              (_error "INVALID_PARAM" ("res_type must be one of " ++ py_repr (JList (map JStr (sorted_strs _LOVELACE_RESOURCE_TYPES)))
                                       ++ ", got " ++ repr_str res_type)) in
  let+ result := fetching (ws "lovelace/resources/create" [("url"%py, JStr url); ("res_type"%py, JStr res_type)]) in
  kgo (JDict [("ok", JBool true); ("resource", result)]%py).
Definition handle_ha_config_lovelace params : K json :=
  let+ action := action_of lovelace_actions ["url_path"%py] no_extra params in
  if bool_decide (action = "get"%py) then lovelace_get params
  else if bool_decide (action = "save"%py) then lovelace_save params
  else if bool_decide (action = "dashboards_list"%py) then dashboards_list params
  else if bool_decide (action = "resources_list"%py) then resources_list params
  else resources_create params.

(** ** Helpers *)

Definition _HELPER_TYPES : list pystr :=
  ["input_boolean"; "input_text"; "input_number"; "input_select"; "input_datetime"; "counter"; "timer"; "schedule"].
Definition helper_actions : list (pystr * list pystr) :=
  [("list", ["action"; "helper_type"]); ("create", ["action"; "helper_type"; "attrs"] ++ _PROPOSAL);
   ("update", ["action"; "helper_type"; "attrs"] ++ _PROPOSAL); ("delete", ["action"; "helper_type"] ++ _PROPOSAL)]%py.
Definition _require_helper_type params : K pystr :=
  let+ ht := require_text "helper_type" params in
  let+ _ := demand (elem ht _HELPER_TYPES)
              (_error "INVALID_PARAM" ("helper_type must be one of " ++ py_repr (JList (map JStr (sorted_strs _HELPER_TYPES)))
                                       ++ ", got " ++ repr_str ht)) in
  kgo ht.
Definition item_key (ht : pystr) : pystr := ht ++ "_id".
Definition helper_list params : K json :=
  let+ ht := _require_helper_type params in
  let+ result := fetching (ws (ht ++ "/list") []) in
  let+ helpers := expect_list result ("Expected list from " ++ ht ++ "/list") in
  kgo (JDict [("ok", JBool true); ("helper_type", JStr ht); ("count", count_of helpers); ("helpers", JList helpers)]%py).
Definition helper_create params : K json :=
  let+ _ := approval "ha.config.helpers" "create" params in
  let+ ht := _require_helper_type params in
  let+ attrs := require_object "attrs" params in
  let+ result := fetching (ws (ht ++ "/create") attrs) in
  kgo (JDict [("ok", JBool true); ("helper_type", JStr ht); ("helper", result)]%py).
Definition helper_update params : K json :=
  let+ _ := approval "ha.config.helpers" "update" params in
  let+ ht := _require_helper_type params in
  let+ item_id := require_text (item_key ht) params in
  let+ attrs := require_object "attrs" params in
  let+ _ := demand (negb (dmem (item_key ht) attrs))
              (_error "INVALID_PARAM" ("attrs must not contain " ++ repr_str (item_key ht) ++ "; pass it as the top-level param")) in
  let+ result := fetching (ws (ht ++ "/update") (dset (item_key ht) (JStr item_id) attrs)) in
  kgo (JDict [("ok"%py, JBool true); ("helper_type"%py, JStr ht); (item_key ht, JStr item_id); ("helper"%py, result)]).
Definition helper_delete params : K json :=
  let+ _ := approval "ha.config.helpers" "delete" params in
  let+ ht := _require_helper_type params in
  let+ item_id := require_text (item_key ht) params in
  let+ _ := fetching (ws (ht ++ "/delete") [(item_key ht, JStr item_id)]) in
  kgo (JDict [("ok"%py, JBool true); ("helper_type"%py, JStr ht); (item_key ht, JStr item_id)]).
(** The key of the item is named after the type of the helper. *)
Definition item_keys params (action : pystr) : list pystr :=
  if elem action ["update"; "delete"]%py
  then match dget "helper_type" params with Some (JStr ht) => [item_key (strip ht)] | _ => [] end
  else [].
Definition handle_ha_config_helpers params : K json :=
  let+ action := action_of helper_actions [] (item_keys params) params in
  if bool_decide (action = "list"%py) then helper_list params
  else if bool_decide (action = "create"%py) then helper_create params
  else if bool_decide (action = "update"%py) then helper_update params
  else helper_delete params.

(** The handlers, by the names they are registered under. *)
Definition config_handlers : list (pystr * (dict → K json)) :=
  [("ha.config.lovelace", handle_ha_config_lovelace); ("ha.config.automation", handle_ha_config_automation);
   ("ha.config.script", handle_ha_config_script); ("ha.config.scene", handle_ha_config_scene);
   ("ha.config.helpers", handle_ha_config_helpers); ("ha.config.area_registry", handle_ha_config_area_registry);
   ("ha.config.device_registry", handle_ha_config_device_registry); ("ha.config.entity_registry", handle_ha_config_entity_registry);
   ("ha.config.config_entries", handle_ha_config_config_entries)]%py.
End config.

(** ** What is asked without an approval *)

Section config_facts.
Context `{Unicode} `{Casing} `{Aiohttp}.
Context (getenv : pystr → option pystr) (data_mount : bool) (caller : option Caller) (now : Z).
Implicit Types (w : hass) (params : dict).

Definition CONFIG_READ_FRAMES : list pystr :=
  ["lovelace/config"; "lovelace/dashboards/list"; "lovelace/resources"; "config/area_registry/list"; "config/device_registry/list";
   "config/entity_registry/list"; "config/entity_registry/get"; "config_entries/get_single"]%py
  ++ map (λ ht, ht ++ "/list"%py) _HELPER_TYPES.
(** A call that only reads the configuration. *)
Definition config_reads (c : call) : Prop :=
  match c with
  | Request method _ _ body => method = "GET"%py ∧ body = None
  | Connect _ => True
  | Send (JDict d) => dget "type" d = Some (JStr "auth") ∨ ∃ t, t ∈ CONFIG_READ_FRAMES ∧ dget "type" d = Some (JStr t)
  | Send _ => False
  end.
Lemma config_reads_get path : asks config_reads (ha_get getenv data_mount path).
Proof. apply asks_ha_request. by split. Qed.
Lemma config_reads_ws t payload : t ∈ CONFIG_READ_FRAMES → dget "type" payload = None →
  asks config_reads (ha_ws_call getenv data_mount t payload).
Proof.
  intros Ht Hp. apply asks_ha_ws_call. intros base token _ _. split_and!; [done|by left|right].
  exists t. split; [done|]. by rewrite dget_update_other.
Qed.

(** The action a request asks for is not approved. *)
Definition asked_action params : pystr := _filter_value (get_or_null "action" params).
Definition denied (command : pystr) params (u : used_ids) : Prop :=
  (consume_approval_marker caller now command (asked_action params) params u).1.1 ≠ None.
Definition unapproved {A} (command : pystr) params (m : K A) : Prop :=
  ∀ w, denied command params (used w) → ∃ new, asked (m w).2 = asked w ++ new ∧ Forall config_reads new.
Lemma nothing_asked (P : call → Prop) s : ∃ new, s = s ++ new ∧ Forall P new.
Proof. exists []. rewrite app_nil_r. split; [done|constructor]. Qed.
Lemma unapproved_asking {A} command params (m : K A) : asking config_reads m → unapproved command params m.
Proof. intros Hm w _. apply Hm. Qed.
Lemma unapproved_idle_bind {A B} command params (m : K A) (f : A → K B) :
  idle m → (∀ a, unapproved command params (f a)) → unapproved command params (kbind m f).
Proof.
  intros Hm Hf w Hd. specialize (Hm w). unfold kbind. destruct (m w) as [[a|j|e] w1]; cbn [snd] in *; subst w1; [by apply Hf|..];
    apply nothing_asked.
Qed.
Lemma unapproved_gate {A} command action params (f : unit → K A) :
  asked_action params = action → unapproved command params (kbind (with_approval caller now command action params) f).
Proof.
  intros <- w Hd. unfold denied in Hd. unfold kbind, with_approval.
  destruct (consume_approval_marker _ _ _ _ _ _) as [[[denial|] ps] u]; [|done]. apply nothing_asked.
Qed.
Lemma action_of_Go actions nullable extra params w a w1 :
  action_of actions nullable extra params w = (Go a, w1) → w1 = w ∧ a ∈ dkeys actions ∧ asked_action params = a.
Proof.
  unfold action_of, kbind, demand. destruct (negb _); [|done]. cbn [kgo].
  destruct (dget _ actions) as [allowed|] eqn:E; [|done]. destruct (refuse _ w) as [[u|j|e] w2] eqn:Er; [|done..].
  pose proof (idle_refuse (strict_keys_error params (keys (allowed ++ extra (_filter_value (get_or_null "action" params)))) (keys nullable)) w) as Hi.
  rewrite Er in Hi. cbn in Hi. subst w2. intros [= <- <-]. split; [done|]. apply dget_elem in E. split; [|done]. apply list_elem_of_fmap. eexists (_, _). by split; [|exact E].
Qed.
Lemma idle_action actions nullable extra params : idle (action_of actions nullable extra params).
Proof. unfold action_of. idle_tac. Qed.
Lemma unapproved_actions {A} command params actions nullable extra (f : pystr → K A) :
  (∀ a, a ∈ dkeys actions → asked_action params = a → unapproved command params (f a)) →
  unapproved command params (kbind (action_of actions nullable extra params) f).
Proof.
  intros Hf w Hd. match goal with |- context [kbind ?m ?g w] => destruct (kbind_idle m g w (idle_action _ _ _ _)) as [(a & Ha & ->)| ->] end.
  - apply action_of_Go in Ha as (_ & Ha & Hasked). by apply Hf.
  - apply nothing_asked.
Qed.
Lemma idle_text k params : idle (require_text k params).
Proof. unfold require_text. idle_tac. Qed.
Lemma idle_object k params : idle (require_object k params).
Proof. unfold require_object. idle_tac. Qed.
Hint Resolve idle_text idle_object : commands.
Lemma idle_id params : idle (_require_id params).
Proof. unfold _require_id. idle_tac. Qed.
Lemma idle_helper_type params : idle (_require_helper_type params).
Proof. unfold _require_helper_type. idle_tac. Qed.
Lemma idle_url_path params : idle (_optional_url_path params).
Proof. unfold _optional_url_path. idle_tac. Qed.
Hint Resolve idle_id idle_helper_type idle_url_path config_reads_get : commands.
Ltac decide_all :=
  repeat match goal with
  | |- context [bool_decide (?x = ?y)] => let b := eval vm_compute in (bool_decide (x = y)) in change (bool_decide (x = y)) with b
  | |- context [elem ?x ?l] => let b := eval vm_compute in (elem x l) in change (elem x l) with b
  end.
Ltac unapproved_tac :=
  repeat match goal with
  | |- unapproved _ _ (kbind (with_approval _ _ _ _ _) _) => apply unapproved_gate; assumption
  | |- unapproved _ _ (kbind (action_of _ _ _ _) _) =>
      let a := fresh "a" in let Ha := fresh "Ha" in let Hasked := fresh "Hasked" in
      apply unapproved_actions; intros a Ha Hasked;
      repeat (apply elem_of_cons in Ha as [->|Ha]); [..|by apply elem_of_nil in Ha]; decide_all; cbv iota
  | |- unapproved _ _ (kbind _ _) => apply unapproved_idle_bind; [idle_tac; fail|intros]
  | |- unapproved _ _ _ => apply unapproved_asking
  end.
Ltac config_frame := apply config_reads_ws; [apply (bool_decide_unpack (_ ∈ _)); vm_compute; exact I|first [reflexivity|match goal with |- dget _ (at_path ?p) = _ => by destruct p end]].
(** The list of the helpers of a type. *)
Lemma helper_list_reads params : asking config_reads (helper_list getenv data_mount params).
Proof.
  intros w. unfold helper_list, _require_helper_type. unfold kbind at 1 2.
  pose proof (idle_text "helper_type" params w) as Hi. destruct (require_text "helper_type" params w) as [[ht|j|e] w1];
    cbn [snd] in *; subst w1; [|apply nothing_asked..].
  unfold kbind at 1, demand, elem. destruct (bool_decide_reflect (ht ∈ _HELPER_TYPES)) as [Hht|]; [|apply nothing_asked].
  cbn [kgo]. match goal with |- context [kbind ?m ?f] => change (∃ new, asked (kbind m f w).2 = asked w ++ new ∧ Forall config_reads new);
    enough (Ha : asking config_reads (kbind m f)) by apply Ha end.
  command_tac ltac:(fail). apply config_reads_ws; [|done]. apply elem_of_app. right. by apply list_elem_of_fmap; exists ht.
Qed.
Hint Resolve helper_list_reads : commands.
Hint Unfold handle_ha_config_lovelace lovelace_get lovelace_save dashboards_list resources_list resources_create
  handle_ha_config_automation automation_get automation_save automation_delete handle_ha_config_script script_get script_save script_delete
  handle_ha_config_scene scene_get scene_save scene_delete item_handler item_get item_save item_delete
  handle_ha_config_helpers helper_create helper_update helper_delete handle_ha_config_area_registry handle_ha_config_device_registry
  handle_ha_config_entity_registry handle_ha_config_config_entries : configs.

(** C13. Nothing of the configuration changes without an approval.  When the action
    that a request of a configuration command asks for is not approved, whatever
    other action may be, the command does nothing but read: GETs without a body,
    and web socket frames of the fixed list. *)
Theorem config_changes_need_approval name h params w r w' :
  (name, h) ∈ config_handlers getenv data_mount caller now → denied name params (used w) →
  finish (h params) w = (r, w') →
  ∃ new, asked w' = asked w ++ new ∧ Forall config_reads new.
Proof.
  intros Hin Hd E. pose proof (finish_world (h params) w) as Ew. rewrite E in Ew. cbn [snd] in Ew. subst w'. clear E.
  revert w Hd. change (unapproved name params (h params)). unfold config_handlers in Hin.
  repeat (apply elem_of_cons in Hin as [[= -> ->]|Hin]; [autounfold with configs; unapproved_tac; command_tac ltac:(config_frame)|]).
  by apply elem_of_nil in Hin.
Qed.
End config_facts.

(** ** What an approved change asks *)

Section config_theorems.
Context `{Unicode} `{Casing} `{Aiohttp}.
Context (getenv : pystr → option pystr) (data_mount : bool) (caller : option Caller) (now : Z).
Implicit Types (w : hass) (params : dict).

Lemma lstrip_starts (s : pystr) c r : lstrip s = c :: r → is_space c = false.
Proof. induction s as [|x s IH]; cbn [lstrip]; [done|]. destruct (is_space x) eqn:E; [done|]. by intros [= <- _]. Qed.
Lemma stripped_line (s : pystr) : match rev (strip s) with 10%N :: r => rev r | _ => strip s end = strip s.
Proof.
  unfold strip, rstrip. rewrite rev_involutive. destruct (lstrip (rev (lstrip s))) as [|c r] eqn:E; [done|].
  pose proof (lstrip_starts _ _ _ E) as Hc. destruct (decide (c = 10%N)) as [->|Hne]; [by vm_compute in Hc|].
  destruct c as [|p]; [done|]. repeat (destruct p as [p|p|]; try done).
Qed.
Lemma require_text_Go k params w t w1 : require_text k params w = (Go t, w1) →
  ∃ raw, dget k params = Some (JStr raw) ∧ t = strip raw ∧ t ≠ [].
Proof.
  unfold require_text, get_or_null. destruct (dget k params) as [[| | | |raw| |]|]; try done. cbn [default from_option id].
  destruct (strip raw) as [|c r] eqn:E; [done|]. intros [= <- _]. exists raw. by rewrite E.
Qed.
Lemma require_id_Go params w id w1 : _require_id params w = (Go id, w1) →
  ∃ raw, dget "id" params = Some (JStr raw) ∧ id = strip raw ∧ id ≠ [] ∧ Forall (λ c, id_char c = true) id.
Proof.
  unfold _require_id, kbind. destruct (require_text "id" params w) as [[t|j|e] w2] eqn:E; [|done..].
  apply require_text_Go in E as (raw & Hd & -> & Hne). unfold demand. destruct (_ID_RE (strip raw)) eqn:Er; [|done]. intros [= <- _].
  exists raw. split_and!; [done..|]. unfold _ID_RE in Er. rewrite stripped_line in Er. apply andb_prop in Er as [_ Hc].
  apply Forall_forall. intros c Hin. rewrite forallb_true_forall in Hc. by apply Hc.
Qed.
(** One request about one item, or none. *)
Definition item_asked (kind method : pystr) params (new : list call) : Prop :=
  new = [] ∨
  ∃ base headers body raw, new = [Request method (trim_slashes base ++ "/api/config/" ++ kind ++ "/config/" ++ strip raw) headers body] ∧
    dget "id" params = Some (JStr raw) ∧ strip raw ≠ [] ∧ Forall (λ c, id_char c = true) (strip raw).
Lemma fetch_then_idle {A B} (m : H A) (f : A → K B) w : (∀ a, idle (f a)) → asked (kbind (fetching m) f w).2 = (m (asked w)).2.
Proof.
  intros Hf. pose proof (fetching_asked m w) as E. unfold kbind. destruct (fetching m w) as [[a|j|e] w1]; cbn [snd] in *; subst w1; [|done..].
  by rewrite (Hf a).
Qed.
Lemma item_request_asks kind method params raw body (f : json → K json) w :
  dget "id" params = Some (JStr raw) → strip raw ≠ [] → Forall (λ c, id_char c = true) (strip raw) → (∀ j, idle (f j)) →
  ∃ new, asked (kbind (fetching (ha_request getenv data_mount method (item_path kind (strip raw)) body)) f w).2 = asked w ++ new ∧
    item_asked kind method params new.
Proof.
  intros Hd Hne Hc Hf. rewrite fetch_then_idle by done.
  destruct (ha_request_asked getenv data_mount method (item_path kind (strip raw)) body (asked w)) as [[-> _]|(base & token & _ & _ & ->)].
  - exists []. rewrite app_nil_r. by split; [|left].
  - eexists. split; [reflexivity|]. right. exists base, [bearer token; json_content], body, raw. by split_and!.
Qed.
Lemma item_nothing kind method params s : ∃ new, s = s ++ new ∧ item_asked kind method params new.
Proof. exists []. rewrite app_nil_r. by split; [|left]. Qed.
Hint Resolve idle_id idle_object : commands.
(** An automation, a script or a scene is changed in its place.  Reading, writing or
    deleting one asks for the one item of the id given, at most once, with the
    method of the action; the id is made of lower-case letters, digits and
    underscores, so the URL is that of an item of the kind and of nothing else;
    a change is asked for only when the action was approved. *)
Theorem config_item_stays_in_its_place kind params w :
  (∃ new, asked (item_get getenv data_mount kind params w).2 = asked w ++ new ∧ item_asked kind "GET" params new) ∧
  (∃ new, asked (item_save getenv data_mount caller now kind params w).2 = asked w ++ new ∧ item_asked kind "POST" params new ∧
     (new ≠ [] → (consume_approval_marker caller now (item_command kind) "save" params (used w)).1.1 = None)) ∧
  ∃ new, asked (item_delete getenv data_mount caller now kind params w).2 = asked w ++ new ∧ item_asked kind "DELETE" params new ∧
     (new ≠ [] → (consume_approval_marker caller now (item_command kind) "delete" params (used w)).1.1 = None).
Proof.
  assert (Hnothing : ∀ method s (P : Prop), ∃ new, s = s ++ new ∧ item_asked kind method params new ∧ (new ≠ [] → P)).
  { intros method s P. exists []. rewrite app_nil_r. split_and!; [done|by left|done]. }
  split_and!.
  - unfold item_get.
    match goal with |- context [kbind ?m ?f w] => destruct (kbind_idle m f w (idle_id params)) as [(i & Eid & ->)| ->] end; [|apply item_nothing].
    apply require_id_Go in Eid as (raw & Hd & -> & Hne & Hc).
    apply item_request_asks; [done..|]. intros j. by destruct j.
  - unfold item_save. match goal with |- context [kbind (with_approval _ _ _ _ _) ?f w] =>
      destruct (gate_cases caller now (item_command kind) "save" params f w) as [->|(Hyes & u & ->)] end; [apply Hnothing|].
    match goal with |- context [kbind ?m ?f ?v] => destruct (kbind_idle m f v (idle_id params)) as [(i & Eid & ->)| ->] end; [|apply Hnothing].
    apply require_id_Go in Eid as (raw & Hd & -> & Hne & Hc).
    match goal with |- context [kbind ?m ?f ?v] => destruct (kbind_idle m f v (idle_object _ _)) as [(config & _ & ->)| ->] end; [|apply Hnothing].
    destruct (item_request_asks kind "POST" params raw (Some (JDict config)) (λ _, kgo (saved (strip raw)))
                {| asked := asked w; used := u |} Hd Hne Hc ltac:(done)) as (new & E & Hi). by exists new.
  - unfold item_delete. match goal with |- context [kbind (with_approval _ _ _ _ _) ?f w] =>
      destruct (gate_cases caller now (item_command kind) "delete" params f w) as [->|(Hyes & u & ->)] end; [apply Hnothing|].
    match goal with |- context [kbind ?m ?f ?v] => destruct (kbind_idle m f v (idle_id params)) as [(i & Eid & ->)| ->] end; [|apply Hnothing].
    apply require_id_Go in Eid as (raw & Hd & -> & Hne & Hc).
    destruct (item_request_asks kind "DELETE" params raw None (λ _, kgo (saved (strip raw)))
                {| asked := asked w; used := u |} Hd Hne Hc ltac:(done)) as (new & E & Hi). by exists new.
Qed.
End config_theorems.

Section helper_theorems.
Context `{Unicode} `{Casing} `{Aiohttp}.
Context (getenv : pystr → option pystr) (data_mount : bool) (caller : option Caller) (now : Z).
Implicit Types (w : hass) (params : dict).

Lemma kbind_Go_inv {A B} (m : K A) (f : A → K B) w b w2 : kbind m f w = (Go b, w2) → ∃ a w1, m w = (Go a, w1) ∧ f a w1 = (Go b, w2).
Proof. unfold kbind. destruct (m w) as [[a|j|e] w1]; naive_solver. Qed.
Lemma fetching_Go {A} (m : H A) w a w1 : fetching m w = (Go a, w1) → m (asked w) = (Done a, asked w1).
Proof.
  unfold fetching, kbind, attempt. destruct (m (asked w)) as [[x| | |] s]; cbn [ended kgo kanswer kthrow]; [by intros [= <- <-]|done..].
Qed.
Lemma dget_update_in k v payload : ∀ d, NoDup (dkeys payload) → dget k payload = Some v → dget k (update_dict d payload) = Some v.
Proof.
  induction payload as [|[k' v'] payload IH]; intros d Hn Hk; [done|]. cbn [dkeys map fst] in Hn. apply NoDup_cons in Hn as [Hno Hn].
  cbn [update_dict fold_left fst snd]. change (fold_left _ payload _) with (update_dict (dset k' v' d) payload). cbn [dget] in Hk. case_decide as E.
  - injection Hk as ->. subst k'. rewrite dget_update_other; [apply dget_dset_eq|].
    destruct (dget k payload) as [x|] eqn:Ex; [|done]. exfalso. apply Hno. apply dget_elem in Ex. apply list_elem_of_fmap. by exists (k, x).
  - by apply IH.
Qed.

(** What is changed is what the answer names.  When an update of a helper goes
    through, the frame that was sent, whatever attributes the caller put into it,
    names the item the answer names, under the key of the helper's type. *)
Theorem helper_update_names_its_item params w answer w' :
  (∀ attrs, dget "attrs" params = Some (JDict attrs) → NoDup (dkeys attrs)) →
  helper_update getenv data_mount caller now params w = (Go (JDict answer), w') →
  ∃ ht raw sent, ht ∈ _HELPER_TYPES ∧ dget (item_key ht) params = Some (JStr raw) ∧ strip raw ≠ [] ∧
    dget (item_key ht) answer = Some (JStr (strip raw)) ∧
    last (asked w') = Some (Send (JDict sent)) ∧ dget (item_key ht) sent = Some (JStr (strip raw)).
Proof.
  intros Hn. unfold helper_update. intros ([] & w1 & _ & E)%kbind_Go_inv. apply kbind_Go_inv in E as (ht & w2 & Eht & E).
  unfold _require_helper_type in Eht. apply kbind_Go_inv in Eht as (t & w3 & _ & Eht). apply kbind_Go_inv in Eht as (u & w4 & Edem & Eht).
  unfold demand, elem in Edem. destruct (bool_decide_reflect (t ∈ _HELPER_TYPES)) as [Hht|]; [|done]. injection Eht as -> _.
  apply kbind_Go_inv in E as (item & w5 & Eitem & E). apply require_text_Go in Eitem as (raw & Hraw & -> & Hne).
  apply kbind_Go_inv in E as (attrs & w6 & Eattrs & E).
  assert (Ha : dget "attrs" params = Some (JDict attrs)).
  { unfold require_object, get_or_null in Eattrs. destruct (dget "attrs" params) as [[]|]; try done. by injection Eattrs as -> _. }
  apply kbind_Go_inv in E as (u' & w7 & Edup & E). unfold demand in Edup. destruct (dmem (item_key ht) attrs) eqn:Em; [done|].
  apply kbind_Go_inv in E as (result & w8 & Ef & E). apply fetching_Go in Ef. injection E as <- <-.
  apply ws_turns in Ef as [[_ Hno]|(base & token & _ & _ & Hcases)]; [by destruct (Hno result)|].
  destruct Hcases as [[_ Hno]|[(_ & _ & Hno)|(_ & _ & Hs & _)]]; [by destruct (Hno result)..|].
  exists ht, raw, (update_dict [("id", JInt 1); ("type", JStr (ht ++ "/update"))]%py (dset (item_key ht) (JStr (strip raw)) attrs)).
  split_and!; [done..| | |].
  - apply (bool_decide_unpack _). revert Hht. clear. intros Hht.
    assert (Hall : forallb (λ ht, bool_decide (item_key ht ≠ "ok"%py) && bool_decide (item_key ht ≠ "helper_type"%py)) _HELPER_TYPES = true) by (vm_compute; reflexivity).
    rewrite forallb_true_forall in Hall. specialize (Hall ht Hht). apply andb_prop in Hall as [H1%bool_decide_eq_true H2%bool_decide_eq_true].
    cbn [dget]. rewrite decide_False by done. rewrite decide_False by done. rewrite decide_True by done. by apply bool_decide_pack.
  - rewrite Hs. unfold ws_sent. cbn [take ws_frames]. rewrite last_app. done.
  - apply dget_update_in; [|apply dget_dset_eq]. apply dset_NoDup. by apply Hn.
Qed.
End helper_theorems.

(** ** Witnesses *)

#[local] Instance every_char_prints : Unicode := {| uni_printable := λ _, true; uni_decimal := λ _, None |}.
#[local] Existing Instance ascii_casing.
#[local] Instance config_server : Aiohttp := answering (JDict [("done", JBool true)]%py).
Definition home (name : pystr) : option pystr :=
  if bool_decide (name = "HASS_TOKEN"%py) then Some "t"%py else if bool_decide (name = "HASS_URL"%py) then Some "http://ha/"%py else None.
Definition fresh : hass := {| asked := []; used := [] |}.
(** The parameters with a marker for them. *)
Definition approved_by (command action : pystr) (params : dict) : dict :=
  params ++ [(APPROVAL_PARAM, JDict [("id", JStr "m1"); ("exp", JInt 40); ("bind", JStr (approval_bind command action params))]%py)].
Definition area_params : dict := [("action", JStr "delete"); ("area_id", JStr "kitchen")]%py.
Definition save_params : dict := [("action", JStr "save"); ("id", JStr " evening_1 "); ("config", JDict [("alias", JStr "x")])]%py.
Definition helper_params : dict :=
  [("action", JStr "update"); ("helper_type", JStr "timer"); ("timer_id", JStr " tea "); ("attrs", JDict [("type", JStr "x"); ("name", JStr "y")])]%py.

(** A request to delete with a marker that was made for an update. *)
Definition crossed_params : dict := Eval vm_compute in approved_by "ha.config.area_registry" "update" area_params.
Example config_changes_need_approval_witness :
  let run := finish (handle_ha_config_area_registry home false None 10 crossed_params) fresh in
  asked run.2 = [] ∧ ∃ new, asked run.2 = asked fresh ++ new ∧ Forall config_reads new.
Proof.
  intros run. split; [vm_compute; reflexivity|].
  apply (config_changes_need_approval home false None 10 "ha.config.area_registry"
           (handle_ha_config_area_registry home false None 10) crossed_params fresh run.1 run.2).
  - do 5 right. left.
  - unfold denied. vm_compute. discriminate.
  - apply surjective_pairing.
Defined.
Example config_item_stays_in_its_place_example :
  asked (finish (handle_ha_config_scene home false None 10 (approved_by "ha.config.scene" "save" save_params)) fresh).2 =
    [Request "POST" "http://ha/api/config/scene/config/evening_1" [bearer "t"; json_content] (Some (JDict [("alias", JStr "x")]))]%py.
Proof. vm_compute. reflexivity. Qed.
Definition helper_attrs : dict := [("type", JStr "x"); ("name", JStr "y")]%py.
Definition helper_approved : dict := Eval vm_compute in approved_by "ha.config.helpers" "update" helper_params.
Definition helper_answer : dict :=
  [("ok", JBool true); ("helper_type", JStr "timer"); ("timer_id", JStr "tea"); ("helper", JDict [("done", JBool true)])]%py.
Example helper_update_names_its_item_witness :
  let run := helper_update home false None 10 helper_approved fresh in
  ∃ ht raw sent, dget (item_key ht) helper_approved = Some (JStr raw) ∧
    last (asked run.2) = Some (Send (JDict sent)) ∧ dget (item_key ht) sent = Some (JStr (strip raw)).
Proof.
  intros run.
  destruct (helper_update_names_its_item home false None 10 helper_approved fresh helper_answer run.2)
    as (ht & raw & sent & _ & Hraw & _ & _ & Hlast & Hsent).
  - intros attrs Ha. assert (Hx : dget "attrs" helper_approved = Some (JDict helper_attrs)) by (vm_compute; reflexivity).
    rewrite Hx in Ha. injection Ha as <-. apply (bool_decide_unpack (NoDup _)). vm_compute. exact I.
  - assert (E : run.1 = Go (JDict helper_answer)) by (vm_compute; reflexivity). rewrite <- E. apply surjective_pairing.
  - exists ht, raw, sent. split; [exact Hraw|split; [exact Hlast|exact Hsent]].
Defined.

(** In an update of an area nothing keeps the attributes from naming another area,
    nor from naming another request altogether: the answer names the kitchen, and
    what was sent deletes a user. *)
Theorem attributes_choose_the_request :
  ∃ params,
    let '(r, w) := finish (handle_ha_config_area_registry home false None 10 params) fresh in
    (∃ answer, r = Ret (JDict answer) ∧ dget "ok" answer = Some (JBool true) ∧ dget "area_id" answer = Some (JStr "kitchen")) ∧
    ∃ sent, last (asked w) = Some (Send (JDict sent)) ∧ dget "type" sent = Some (JStr "config/auth/delete") ∧
      dget "area_id" sent = Some (JStr "bedroom").
Proof.
  exists (approved_by "ha.config.area_registry" "update"
    [("action", JStr "update"); ("area_id", JStr "kitchen");
     ("attrs", JDict [("type", JStr "config/auth/delete"); ("area_id", JStr "bedroom"); ("user_id", JStr "u")])]%py).
  match goal with |- context [finish ?m ?w] => let x := eval vm_compute in (finish m w) in
    assert (E : finish m w = x) by (vm_compute; reflexivity); rewrite E; clear E end.
  split; eexists; (split; [reflexivity|]); split; reflexivity.
Qed.
