(* ===== verification/Assist.v ===== *)
(** [custom_components/.../conversation.py]: the Home Assistant integration's side
    of an Assist turn: who speaks, what is sent to the node, how the stream of the
    answer is read, and what is said.  The theorems join it to the node's side. *)

From stdpp Require Import base list gmap.
From Stdlib Require Import NArith ZArith Lia.
From S2P Require Import Prelude PyStr PyFloat Json JsonParse JsonFlat Config Authz Turn Relay RelayTurn Pairing HttpApi HaClient.

(** ** Who speaks *)

(** A user as Home Assistant keeps it; a credential is the type of its provider. *)
Record HassUser := {
  u_id : pystr; u_name : option pystr; system_generated : bool; local_only : bool; is_owner : bool; u_is_admin : bool;
  credentials : list pystr }.
Definition human (u : HassUser) : bool :=
  negb (system_generated u) && negb (local_only u) &&
  (bool_decide (credentials u = []) || existsb (λ c, bool_decide (c = "homeassistant"%py)) (credentials u)) &&
  negb (bool_decide (strip (default [] (u_name u)) = []) && negb (is_owner u) && negb (u_is_admin u)).
(** [getattr(user_input.context, "user_id", None)], and [async_get_user]. *)
Definition _resolve_actor (user_id : option pystr) (get_user : pystr → option HassUser) : option dict :=
  match user_id with
  | None | Some [] => None
  | Some uid =>
      match get_user uid with
      | Some u => if human u then Some [("user_id", JStr (u_id u)); ("is_admin", JBool (u_is_admin u))]%py else None
      | None => None
      end
  end.

(** ** The request *)

Definition _STREAM_ENDPOINT : pystr := "/v1/conversation/stream".
Record ConversationInput := { ci_text : pystr; ci_conversation_id : json; ci_language : pystr; ci_user_id : option pystr }.
Record turn_post := { tp_url : pystr; tp_headers : list (pystr * pystr); tp_body : dict }.
Definition turn_to_post `{Unicode} (now : Z) (socket_url api_token : pystr) (get_user : pystr → option HassUser) (input : ConversationInput)
    : res turn_post :=
  let? body := hass_turn_body now api_token (ci_text input) (ci_conversation_id input) (ci_language input)
                 (_resolve_actor (ci_user_id input) get_user) in
  Ret {| tp_url := trim_slashes socket_url ++ _STREAM_ENDPOINT;
         tp_headers := ("Accept", "application/x-ndjson")%py :: match api_token with [] => [] | token => [bearer token] end;
         tp_body := body |}.

(** ** The answer *)

(** What the HTTP library gives: the status, the JSON of the body ([None] when it is
    none, or not said to be), and the lines with what ends them. *)
Record turn_response := { tr_status : Z; tr_json : fetch (option json); tr_lines : list (list N); tr_end : fetch unit }.
(** [bytes.strip()] *)
Definition byte_space (c : N) : bool := ((9 <=? c) && (c <=? 13) || (c =? 32))%N.
Fixpoint drop_blanks (b : list N) : list N :=
  match b with c :: b' => if byte_space c then drop_blanks b' else b | [] => [] end.
Definition strip_bytes (b : list N) : list N := rev (drop_blanks (rev (drop_blanks b))).
(** What a line is: nothing to read, an object, or an exception that is not caught. *)
Definition read_frame (raw_line : list N) : res (option dict) :=
  match strip_bytes raw_line with
  | [] => Ret None
  | line =>
      match decode line with
      | None => Ret None
      | Some text =>
          match loads text with
          | Ret (JDict frame) => Ret (Some frame)
          | Ret _ => Ret None
          | Raise e => if bool_decide (exn_type e = "JSONDecodeError"%py) then Ret None else Raise e
          end
      end
  end.
Inductive meaning := Skip | Delta (text : pystr) | ErrorFrame (code message : pystr) | Done_frame.
Definition is_true (j : json) : bool := match j with JBool true => true | _ => false end.
Definition text_or_empty `{Unicode} (j : json) : pystr := if truthy j then py_str j else [].
Definition meaning_of `{Unicode} (frame : dict) : meaning :=
  if is_true (get_or_null "keepalive" frame) && negb (dmem "delta" frame) then Skip
  else if is_true (get_or_null "tool_progress" frame) then Skip
  else match dget "delta" frame with
       | Some delta => match text_or_empty delta with [] => Skip | text => Delta text end
       | None =>
           if truthy (get_or_null "error" frame)
           then ErrorFrame (py_str (get_or_null "error" frame)) (text_or_empty (get_or_null "message" frame))
           else if truthy (get_or_null "done" frame) then Done_frame else Skip
       end.
(** How the stream of deltas ends: it is over, [_StreamErrorFrame], or another
    exception. *)
Inductive stream_end := Closed | Reported (code message : pystr) | Torn (f : fetch unit).
(** The texts of the deltas, in order. *)
Fixpoint _stream `{Unicode} (lines : list (list N)) (rest : fetch unit) : list pystr * stream_end :=
  match lines with
  | [] => ([], match rest with Got _ => Closed | f => Torn f end)
  | raw_line :: lines =>
      match read_frame raw_line with
      | Raise e => ([], Torn (Broken e))
      | Ret None => _stream lines rest
      | Ret (Some frame) =>
          match meaning_of frame with
          | Skip => _stream lines rest
          | Delta text => let '(collected, e) := _stream lines rest in (text :: collected, e)
          | ErrorFrame code message => ([], Reported code message)
          | Done_frame => ([], Closed)
          end
      end
  end.
(** The first delta names the role. *)
Definition delta_dict (first_delta : bool) (text : pystr) : dict :=
  (if first_delta then [("role", JStr "assistant")]%py else []) ++ [("content"%py, JStr text)].
Definition deltas_of (collected : list pystr) : list dict :=
  match collected with [] => [] | t :: ts => delta_dict true t :: map (delta_dict false) ts end.

(** The chat log of Home Assistant: content that is added whole, and a stream of
    deltas, which ended or was broken off by an exception. *)
Class ChatLog (L : Type) := {
  add_assistant_content : pystr → L → L;
  add_delta_content_stream : list dict → bool → L → L }.

Definition INSTALLED : pystr := "OpenClaw HA Node " ++ 8212%N :: " Assist is installed, but the OpenClaw Node add-on ".
Definition http_speech `{Unicode} (status : Z) (body : option json) : pystr :=
  let '(error_code, error_response) :=
    match body with
    | Some (JDict d) => (text_or_empty (default (JStr []) (dget "error" d)), text_or_empty (default (JStr []) (dget "response" d)))
    | _ => ([], [])
    end in
  match error_code, error_response with
  | [], [] =>
      INSTALLED ++ "returned HTTP " ++ str_of_Z status ++ "."
  | _, _ =>
      "OpenClaw Node returned HTTP " ++ str_of_Z status ++ " (" ++ or_str error_code "unknown" ++ "): "
      ++ or_str error_response "no detail"
  end.
Definition NO_RESPONSE : pystr := "OpenClaw Node returned no response.".
(** The handlers around the whole request. *)
Definition caught_speech {A} (socket_url : pystr) (f : fetch A) : res pystr :=
  match f with
  | Got _ => Ret []
  | Late => Ret (INSTALLED ++ "stream went quiet for 45 seconds.")
  | Fault _ => Ret (INSTALLED ++ "is not reachable at " ++ socket_url ++ ".")
  | Broken e => if elem (exn_type e) ["ValueError"; "UnicodeDecodeError"; "UnicodeEncodeError"; "JSONDecodeError"; "TypeError"]%py
                then Ret ("OpenClaw Node returned an unexpected response shape."%py) else Raise e
  end.
(** What is said, and the chat log; an exception that is not caught leaves the log
    as it was by then. *)
Definition answer_turn `{Unicode} {L} `{ChatLog L} (socket_url : pystr) (f : fetch turn_response) (log : L) : res pystr * L :=
  let add speech log := (Ret speech, add_assistant_content speech log) in
  let caught {A} (f : fetch A) log :=
    match caught_speech socket_url f with Ret speech => add speech log | Raise e => (Raise e, log) end in
  match f with
  | Got r =>
      if negb ((200 <=? tr_status r)%Z && (tr_status r <? 300)%Z) then
        match tr_json r with
        | Got body => add (http_speech (tr_status r) body) log
        | f => caught f log
        end
      else
        let '(collected, e) := _stream (tr_lines r) (tr_end r) in
        match e with
        | Closed =>
            let log := add_delta_content_stream (deltas_of collected) true log in
            match collected with
            | [] => add NO_RESPONSE log
            | _ => (Ret (concat collected), log)
            end
        | Reported code message =>
            add (or_str message ("OpenClaw Node stream error: " ++ code)) (add_delta_content_stream (deltas_of collected) false log)
        | Torn f => caught f (add_delta_content_stream (deltas_of collected) false log)
        end
  | f => caught f log
  end.

(** ** One reply *)

(** What Home Assistant promises of its chat log: a stream that is broken off
    commits nothing, and one that ends is the content of its deltas. *)
Class ChatLogLaws (L : Type) `{ChatLog L} := {
  broken_off ds (l : L) : add_delta_content_stream ds false l = l;
  nothing_streamed (l : L) : add_delta_content_stream [] true l = l;
  streamed ts (l : L) : ts ≠ [] → add_delta_content_stream (deltas_of ts) true l = add_assistant_content (concat ts) l }.

Section answers.
Context `{Unicode} {L : Type} `{ChatLogLaws L}.
Implicit Types (log : L).

(** One turn, one reply.  Whatever the node answers, and wherever the answer breaks
    off, what is said is the one content the turn adds to the chat log: a partial
    answer that was shown before an error is not kept beside it.  The only other
    end is an exception of the HTTP library that is caught nowhere, which adds
    nothing. *)
Theorem one_turn_one_reply socket_url f log r log' :
  answer_turn socket_url f log = (r, log') →
  match r with Ret speech => log' = add_assistant_content speech log | Raise _ => log' = log end.
Proof.
  unfold answer_turn.
  assert (Hcaught : ∀ A (g : fetch A), match caught_speech socket_url g with Ret s => (Ret s, add_assistant_content s log) | Raise e => (Raise e, log) end
    = (r, log') → match r with Ret speech => log' = add_assistant_content speech log | Raise _ => log' = log end).
  { intros A g. by destruct (caught_speech socket_url g); intros [= <- <-]. }
  destruct f as [resp| | |]; try apply Hcaught. destruct (negb _).
  { destruct (tr_json resp) as [body| | |]; try apply Hcaught. by intros [= <- <-]. }
  destruct (_stream (tr_lines resp) (tr_end resp)) as [collected e]. destruct e as [|code message|g].
  - destruct collected as [|t ts]; [rewrite nothing_streamed; by intros [= <- <-]|]. intros [= <- <-]. by apply (streamed (t :: ts)).
  - rewrite broken_off. by intros [= <- <-].
  - rewrite broken_off. apply Hcaught.
Qed.

(** ** What the node streamed *)

(** The lines of a body, as the HTTP library gives them. *)
Definition line (l : list N) : Prop := ∃ p, l = p ++ [NL] ∧ NL ∉ p.
Definition cut_at_line_ends (lines : list (list N)) (body : list N) : Prop := concat lines = body ∧ Forall line lines.
Definition texts_of_chunks (chunks : list RelayTurn.out) : list pystr :=
  omap (λ c, match c with OText ((_ :: _) as s) => Some s | _ => None end) chunks.
Definition spoken (chunks : list RelayTurn.out) (o : relayed unit) : pystr :=
  match o with
  | Replied _ => or_str (concat (texts_of_chunks chunks)) NO_RESPONSE
  | Refused e => or_str (default [] (relay_remedy e)) ("OpenClaw Node stream error: " ++ relay_code e)
  | Broke => "OpenClaw Node stream error: INTERNAL_ERROR"
  end.

Lemma line_split p q a b : NL ∉ p → NL ∉ q → p ++ NL :: a = q ++ NL :: b → p = q ∧ a = b.
Proof.
  revert q. induction p as [|x p IH]; intros [|y q] Hp Hq E; cbn in E.
  - by injection E.
  - injection E as <- _. exfalso. apply Hq. by left.
  - injection E as -> _. exfalso. apply Hp. by left.
  - injection E as -> E. destruct (IH q) as [-> ->]; [by intros Hx; apply Hp; right|by intros Hx; apply Hq; right|done|done].
Qed.
Lemma lines_unique : ∀ l1 l2 : list (list N), Forall line l1 → Forall line l2 → concat l1 = concat l2 → l1 = l2.
Proof.
  induction l1 as [|x l1 IH]; intros [|y l2] Hl1 Hl2 E; [done| | |].
  - apply Forall_cons in Hl2 as [(p & -> & _) _]. cbn in E. rewrite <- app_assoc in E. by destruct p.
  - apply Forall_cons in Hl1 as [(p & -> & _) _]. cbn in E. rewrite <- app_assoc in E. by destruct p.
  - apply Forall_cons in Hl1 as [(p & -> & Hp) Hl1]. apply Forall_cons in Hl2 as [(q & -> & Hq) Hl2]. cbn [concat] in E.
    rewrite <- !app_assoc in E. cbn [app] in E. apply line_split in E as [-> E]; [|done..]. f_equal. by apply IH.
Qed.
Lemma object_braces d : ∃ m, json_object d = 123%N :: m ++ [125%N].
Proof. by eexists. Qed.
Lemma compact_braces d : ∃ m, dumps_compact (JDict d) = 123%N :: m ++ [125%N].
Proof. rewrite dumps_compact_dict. by eexists. Qed.
Lemma object_visible d : flat d → Forall visible (json_object d).
Proof.
  intros Hd. unfold json_object. apply Forall_app_2; [by apply visible_literal|]. apply Forall_app_2; [|by apply visible_literal].
  apply join_visible; [by apply visible_literal|]. apply Forall_fmap. eapply Forall_impl; [exact Hd|].
  intros kv [_ Ha]. by apply spaced_visible; [apply visible_literal|].
Qed.
Lemma strip_braces m : strip_bytes ((123%N :: m ++ [125%N]) ++ [NL]) = 123%N :: m ++ [125%N].
Proof.
  unfold strip_bytes. cbn [app drop_blanks]. cbn -[rev]. rewrite app_comm_cons, rev_app_distr. cbn [rev app]. cbn [drop_blanks byte_space].
  change (byte_space NL) with true. cbv iota. rewrite rev_app_distr. cbn [rev app drop_blanks]. change (byte_space 125) with false. cbv iota.
  cbn [rev]. by rewrite rev_app_distr, rev_involutive.
Qed.
Lemma ascii_decode s : Forall visible s → decode s = Some s.
Proof.
  intros Hs. assert (Ha : Forall (λ c, (c < 128)%N) s) by (eapply Forall_impl; [exact Hs|]; by intros c [_ Hc]).
  apply decode_encode; [|by apply utf8_ascii]. eapply Forall_impl; [exact Ha|]. intros c Hc. cbv beta in *. unfold valid_char. lia.
Qed.
Lemma frame_of_line s d : (∃ m, s = 123%N :: m ++ [125%N]) → Forall visible s → loads s = Ret (JDict d) → read_frame (s ++ [NL]) = Ret (Some d).
Proof.
  intros (m & Es) Hv Hl. unfold read_frame. rewrite Es, strip_braces, <- Es. destruct s as [|c s]; [done|].
  rewrite ascii_decode by done. by rewrite Hl.
Qed.
Lemma chunk_frame c : chunk_ok c → read_frame (chunk_json c ++ [NL]) = Ret (Some (chunk_dict c)).
Proof.
  intros Hc. destruct (chunk_reads c Hc) as [Hl _].
  destruct c; (apply frame_of_line; [apply object_braces || apply compact_braces|by apply object_visible || apply flat_visible|exact Hl]).
Qed.
Lemma end_frame o : end_ok o → read_frame (end_json o ++ [NL]) = Ret (Some (end_dict o)).
Proof.
  intros Ho. destruct (end_reads o Ho) as [Hl _].
  destruct o; (apply frame_of_line; [apply object_braces || apply compact_braces|by apply object_visible || apply flat_visible|exact Hl]).
Qed.
Lemma chunk_means c : meaning_of (chunk_dict c) = match c with OText ((_ :: _) as s) => Delta s | _ => Skip end.
Proof. destruct c as [[|x s]| |f]; try reflexivity. cbn [chunk_dict]. by destruct (frame_id f). Qed.
Definition end_meaning (o : relayed unit) : meaning :=
  match o with
  | Replied _ => Done_frame
  | Refused e => ErrorFrame (relay_code e) (default [] (relay_remedy e))
  | Broke => ErrorFrame "INTERNAL_ERROR" []
  end.
Lemma end_means o : (∀ e, o = Refused e → relay_code e ≠ []) → meaning_of (end_dict o) = end_meaning o.
Proof.
  intros Hcode. destruct o as [u|e|]; try reflexivity. specialize (Hcode e eq_refl). cbn [end_dict end_meaning].
  destruct (relay_code e) as [|c code]; [done|]. by destruct (default [] (relay_remedy e)).
Qed.
Lemma stream_of_chunks chunks o rest : Forall chunk_ok chunks → end_ok o → (∀ e, o = Refused e → relay_code e ≠ []) →
  _stream (map (λ c, chunk_json c ++ [NL]) chunks ++ [end_json o ++ [NL]]) rest =
    (texts_of_chunks chunks, match o with
                             | Replied _ => Closed
                             | Refused e => Reported (relay_code e) (default [] (relay_remedy e))
                             | Broke => Reported "INTERNAL_ERROR" []
                             end).
Proof.
  intros Hc Ho Hcode. induction Hc as [|c chunks Hc _ IH]; cbn [map app _stream].
  - rewrite end_frame by done. rewrite end_means by done. by destruct o.
  - rewrite chunk_frame, chunk_means by done. unfold texts_of_chunks. cbn [omap list_omap]. destruct c as [[|x s]| |f]; cbn; [exact IH| |exact IH|exact IH].
    rewrite IH. done.
Qed.

(** C12. What the node streamed is what is said.  For every turn of the node, the chunks
    it yields and the end it comes to (an error with a code that is not empty, or
    none), the lines of the body the node writes are
    read by the integration as the texts of the turn, in order and whole; what is
    said and kept in the chat log is these texts, or, when the turn failed, the
    remedy the node chose, or else the code; keepalives and the progress of tools
    are never said. *)
Theorem what_is_streamed_is_said socket_url chunks o body r log :
  Forall chunk_ok chunks → end_ok o → (∀ e, o = Refused e → relay_code e ≠ []) →
  utf8 (stream_body chunks o) = Some body → cut_at_line_ends (tr_lines r) body → tr_end r = Got tt → tr_status r = 200%Z →
  answer_turn socket_url (Got r) log = (Ret (spoken chunks o), add_assistant_content (spoken chunks o) log).
Proof.
  intros Hc Ho Hcode Hb [Hbody Hl] Hend Hst.
  assert (Hlines : tr_lines r = map (λ c, chunk_json c ++ [NL]) chunks ++ [end_json o ++ [NL]]).
  { apply lines_unique; [done| |].
    - apply Forall_app_2; [|apply Forall_cons; split; [|by constructor]; by exists (end_json o); split; [|apply end_reads]].
      apply Forall_fmap. eapply Forall_impl; [exact Hc|]. intros c Hk. exists (chunk_json c). by split; [|apply chunk_reads].
    - rewrite Hbody. rewrite utf8_ascii in Hb; [injection Hb as <-; unfold stream_body; rewrite concat_app; cbn [concat]; by rewrite app_nil_r|].
      assert (Hv : ∀ s, Forall visible s → Forall (λ c, (c < 128)%N) s) by (intros s Hs; eapply Forall_impl; [exact Hs|]; by intros c [_ ?]).
      unfold stream_body. apply Forall_app_2; [|apply Forall_app_2; [|by repeat constructor]].
      + clear -Hc Hv. induction Hc as [|c chunks Hc _ IH]; [constructor|]. cbn [map concat]. apply Forall_app_2; [|done].
        apply Forall_app_2; [|by repeat constructor]. apply Hv. by destruct c; [apply object_visible|apply flat_visible|apply object_visible].
      + apply Hv. by destruct o; [apply flat_visible|apply object_visible|apply flat_visible]. }
  unfold answer_turn. rewrite Hst. change (negb ((200 <=? 200)%Z && (200 <? 300)%Z)) with false. cbv iota.
  rewrite Hlines, stream_of_chunks by done. destruct o as [u|e|]; cbn [spoken].
  - destruct (texts_of_chunks chunks) as [|t ts] eqn:Et; [by rewrite nothing_streamed|]. rewrite streamed by done.
    unfold or_str. destruct (concat (t :: ts)) eqn:Ec; [|done]. exfalso. unfold texts_of_chunks in Et.
    assert (Hin : t ∈ t :: ts) by by left. rewrite <- Et in Hin. apply list_elem_of_omap in Hin as (c & _ & Ht).
    destruct c as [[|x s]| |]; try done. injection Ht as <-. done.
  - by rewrite broken_off.
  - by rewrite broken_off.
Qed.
End answers.

(** ** Who the node takes the speaker for *)

Section speaker.
Context `{Unicode}.
Lemma human_spec u :
  human u = true → system_generated u = false ∧ local_only u = false ∧ (credentials u = [] ∨ "homeassistant"%py ∈ credentials u) ∧
  ((∃ name, u_name u = Some name ∧ strip name ≠ []) ∨ is_owner u = true ∨ u_is_admin u = true).
Proof.
  unfold human. intros [[[Hs%negb_true_iff Hl%negb_true_iff]%andb_prop Hc]%andb_prop Hn]%andb_prop.
  split_and!; [done|done| |].
  2: { destruct (is_owner u); [auto|]. destruct (u_is_admin u); [auto|]. left.
       destruct (u_name u) as [name|]; [|done]. exists name. split; [done|]. intros E.
       change (strip (default [] (Some name))) with (strip name) in Hn. by rewrite E in Hn. }
  apply orb_prop in Hc as [Hc|Hc]; [left; by apply bool_decide_eq_true in Hc|right].
  apply existsb_exists in Hc as (c & Hin & ->%bool_decide_eq_true). by apply list_elem_of_In.
Qed.
Lemma signed_actor_claimed now body token a :
  actor_from_signed_body now body token = Ret (Some a) → actor_from_payload (get_or_null "actor" body) = Some a.
Proof.
  unfold actor_from_signed_body. destruct (actor_from_payload _) as [b|]; [|done]. intros ([|x secret] & _ & Ha)%rbind_Ret; [done|].
  destruct (py_int_value _) as [ts|]; [|done]. destruct (get_or_null "actor_signature" body) as [| | | |[|y sig]| |]; try done.
  destruct (_ <? _)%Z; [done|]. apply rbind_Ret in Ha as (expected & _ & Ha). apply rbind_Ret in Ha as (same & _ & Ha). destruct same; [by injection Ha as ->|done].
Qed.
(** C40. The node knows no speaker but a person.  When the node accepts an actor from a
    request of the integration, whatever its clock and its token are, Home
    Assistant has a user behind the turn with this id who is no user of the
    system's own making or of the local network only, who has no login or one of
    Home Assistant's, who has a name or is the owner or an administrator; and the
    rights of an administrator are theirs. *)
Theorem node_knows_only_people now now' socket_url token token' get_user input p a :
  turn_to_post now socket_url token get_user input = Ret p →
  actor_from_signed_body now' (tp_body p) token' = Ret (Some a) →
  ∃ uid u, ci_user_id input = Some uid ∧ uid ≠ [] ∧ get_user uid = Some u ∧
    system_generated u = false ∧ local_only u = false ∧ (credentials u = [] ∨ "homeassistant"%py ∈ credentials u) ∧
    ((∃ name, u_name u = Some name ∧ strip name ≠ []) ∨ is_owner u = true ∨ u_is_admin u = true) ∧
    user_id a = strip (u_id u) ∧ actor_is_admin a = u_is_admin u.
Proof.
  unfold turn_to_post, hass_turn_body. intros (body & Hb & [= <-])%rbind_Ret. cbn [tp_body]. intros Ha.
  pose proof (signed_actor_claimed _ _ _ _ Ha) as Hp.
  unfold _resolve_actor in Hb. destruct (ci_user_id input) as [[|x uid]|]; [by injection Hb as <-| |by injection Hb as <-].
  destruct (get_user (x :: uid)) as [u|] eqn:Eu; [|by injection Hb as <-]. destruct (human u) eqn:Eh; [|by injection Hb as <-].
  assert (Hact : get_or_null "actor" body = JDict [("user_id", JStr (u_id u)); ("is_admin", JBool (u_is_admin u))]%py).
  { apply rbind_Ret in Hb as ([|x' secret] & _ & Hb); [by injection Hb as <-|]. apply rbind_Ret in Hb as (signature & _ & Hb). by injection Hb as <-. }
  rewrite Hact in Hp.
  change (match strip (u_id u) with [] => None | uid => Some {| user_id := uid; actor_is_admin := u_is_admin u |} end = Some a) in Hp.
  destruct (strip (u_id u)) as [|c s] eqn:Es; [done|]. injection Hp as <-.
  destruct (human_spec u Eh) as (Hs & Hl & Hc & Hn). exists (x :: uid), u. by rewrite Es.
Qed.
End speaker.

(** ** Witnesses *)

#[local] Instance every_char_prints : Unicode := {| uni_printable := λ _, true; uni_decimal := λ _, None |}.
(** A chat log that keeps what is said. *)
Definition content_of (d : dict) : pystr := match dget "content" d with Some (JStr s) => s | _ => [] end.
#[local] Instance said : ChatLog (list pystr) :=
  {| add_assistant_content s l := l ++ [s];
     add_delta_content_stream ds ended l := if ended then match ds with [] => l | _ => l ++ [concat (map content_of ds)] end else l |}.
Lemma contents ts : concat (map content_of (deltas_of ts)) = concat ts.
Proof.
  destruct ts as [|t ts]; [done|]. cbn [deltas_of map concat]. change (content_of (delta_dict true t)) with t. f_equal. f_equal.
  rewrite map_map. rewrite <- (map_id ts) at 2. by apply map_ext.
Qed.
#[local] Instance said_laws : ChatLogLaws (list pystr).
Proof.
  split; [done|done|]. intros ts l Hts. unfold add_delta_content_stream, said. rewrite contents. by destruct ts.
Qed.
(** Two texts and a keepalive, and then an error; cut into the lines of the body. *)
Definition demo_chunks : list RelayTurn.out := [OText "The light "; OKeepalive; OText "is on."].
Definition demo_error : relayed unit := Refused {| relay_code := "TIMEOUT"; relay_message := "/config/x"; relay_remedy := Some "Ask again."%py |}.
Definition demo_lines (chunks : list RelayTurn.out) (o : relayed unit) : list (list N) := map (λ c, chunk_json c ++ [NL]) chunks ++ [end_json o ++ [NL]].
Definition demo_response (o : relayed unit) : turn_response :=
  {| tr_status := 200; tr_json := Got None; tr_lines := demo_lines demo_chunks o; tr_end := Got tt |}.
Example one_turn_one_reply_witness :
  let run := answer_turn "http://n" (Got (demo_response demo_error)) ([] : list pystr) in
  run.1 = Ret "Ask again."%py ∧ run.2 = add_assistant_content "Ask again." [].
Proof.
  intros run. assert (E : run.1 = Ret "Ask again."%py) by (vm_compute; reflexivity). split; [exact E|].
  apply (one_turn_one_reply "http://n" (Got (demo_response demo_error)) [] (Ret "Ask again."%py) run.2). rewrite <- E. apply surjective_pairing.
Defined.
Lemma demo_line l : existsb (N.eqb NL) l = false → line (l ++ [NL]).
Proof.
  intros Hl. exists l. split; [done|]. intros Hin. assert (existsb (N.eqb NL) l = true); [|congruence].
  apply existsb_exists. exists NL. split; [by apply list_elem_of_In|apply N.eqb_refl].
Qed.
Example what_is_streamed_is_said_witness :
  answer_turn "http://n" (Got (demo_response (Replied tt))) ([] : list pystr) = (Ret "The light is on."%py, ["The light is on."%py]).
Proof.
  assert (E : (Ret "The light is on."%py, ["The light is on."%py]) =
              (Ret (spoken demo_chunks (Replied tt)), add_assistant_content (spoken demo_chunks (Replied tt)) ([] : list pystr))) by (vm_compute; reflexivity).
  rewrite E. apply (what_is_streamed_is_said "http://n" demo_chunks (Replied tt) (stream_body demo_chunks (Replied tt)) (demo_response (Replied tt)) []).
  - repeat (apply Forall_cons; split); try apply Forall_nil; try exact I; try (apply scalars_spec; vm_compute; reflexivity);
      repeat (apply Forall_cons; split); try apply Forall_nil; try exact I; split; try exact I; apply scalars_spec; vm_compute; reflexivity.
  - apply Forall_cons; split; [split; [apply scalars_spec; vm_compute; reflexivity|exact I]|apply Forall_nil; exact I].
  - discriminate.
  - vm_compute. reflexivity.
  - split; [vm_compute; reflexivity|]. repeat (apply Forall_cons; split); try apply Forall_nil; try exact I; apply demo_line; vm_compute; reflexivity.
  - reflexivity.
  - reflexivity.
Defined.
Definition ada : HassUser :=
  {| u_id := "u1"; u_name := Some "Ada"%py; system_generated := false; local_only := false; is_owner := false; u_is_admin := true;
     credentials := ["homeassistant"%py] |}.
Definition users (uid : pystr) : option HassUser := if bool_decide (uid = "u1"%py) then Some ada else None.
Definition ada_says : ConversationInput := {| ci_text := "hi"; ci_conversation_id := JStr "c1"; ci_language := "en"; ci_user_id := Some "u1"%py |}.
Definition ada_post : turn_post :=
  match turn_to_post 1000 "http://n/" "token" users ada_says with
  | Ret p => p | Raise _ => {| tp_url := []; tp_headers := []; tp_body := [] |}
  end.
Example node_knows_only_people_witness : ∃ uid u, ci_user_id ada_says = Some uid ∧ users uid = Some u ∧ system_generated u = false ∧ "u1"%py = strip (u_id u).
Proof.
  destruct (node_knows_only_people 1000 1100 "http://n/" "token" "token" users ada_says ada_post {| user_id := "u1"; actor_is_admin := true |})
    as (uid & u & Hi & _ & Hu & Hh & _ & _ & _ & Hid & _).
  - vm_compute. reflexivity.
  - vm_compute. reflexivity.
  - exists uid, u. split; [exact Hi|split; [exact Hu|split; [exact Hh|exact Hid]]].
Defined.

(** A turn that failed with an empty code is taken for one that ended well: its
    partial answer is kept as if it were whole. *)
Example empty_code_passes_as_success :
  let o := Refused {| relay_code := []; relay_message := "lost"; relay_remedy := None |} in
  answer_turn "http://n" (Got (demo_response o)) ([] : list pystr) = (Ret "The light is on."%py, ["The light is on."%py]).
Proof. vm_compute. reflexivity. Qed.
