(* ===== verification/Setup.v ===== *)
(** [custom_components/.../config_flow.py]: how the integration is set up: the
    address of the node is found, its token is fetched and claimed, and the two are
    kept in the entry.  The theorems run it against the node's own API. *)

From stdpp Require Import base list gmap.
From Stdlib Require Import NArith ZArith Lia.
From S2P Require Import Prelude PyStr PyCase PyFloat Json JsonParse SafePath SafeFd Config Authz Policy Turn Scrub Dispatch.
From S2P Require Import Pairing PrivateFiles Identity NodeConfig Vision Connection HaClient HttpApi.

(** ** Addresses *)

Definition DEFAULT_SOCKET_URL : pystr := "http://a0d7b954-openclaw-hass-node:8099".
Definition BOOTSTRAP_ENDPOINT : pystr := "/v1/bootstrap".
Definition CONVERSATION_INFO_ENDPOINT : pystr := "/v1/conversation/info".
Definition NODE_LOCAL_PORT : Z := 8099.
Definition PROBE_CANDIDATE_HOSTS : list pystr :=
  ["openclaw-hass-node"; "a0d7b954-openclaw-hass-node"; "openclaw_hass_node"; "localhost"; "homeassistant.local"].

(** *** [urllib.parse], as far as it is used *)

(** Whether [urlsplit] takes a host with brackets, or with characters outside ASCII. *)
Class Netlocs := { netloc_ok : pystr → bool }.
Record Url := { scheme : pystr; netloc : pystr; path : pystr; url_params : pystr; url_query : pystr; fragment : pystr }.
Fixpoint span (p : N → bool) (s : pystr) : pystr * pystr :=
  match s with
  | c :: s' => if p c then let '(a, b) := span p s' in (c :: a, b) else ([], s)
  | [] => ([], [])
  end.
Definition has (c : N) (s : pystr) : bool := existsb (N.eqb c) s.
(** [s.split(c, 1)], [s.rpartition(c)] *)
Definition cut (c : N) (s : pystr) : pystr * pystr :=
  let '(a, b) := span (λ x, negb (x =? c)%N) s in (a, drop 1 b).
Definition rcut (c : N) (s : pystr) : pystr * pystr := let '(b, a) := cut c (rev s) in (rev a, rev b).
Definition is_alpha (c : N) : bool := (is_lower c || (65 <=? c) && (c <=? 90))%N.
Definition scheme_char (c : N) : bool := is_alpha c || is_digit c || elem [c] ["+"; "-"; "."]%py.
Definition uses_params : list pystr :=
  [[]; "ftp"; "hdl"; "prospero"; "http"; "https"; "shttp"; "rtsp"; "rtsps"; "sip"; "sips"; "mms"; "sftp"; "tel"]%py.
Fixpoint drop_controls (s : pystr) : pystr := match s with c :: s' => if (c <=? 32)%N then drop_controls s' else s | [] => [] end.
Definition split_scheme (url : pystr) : pystr * pystr :=
  match url with
  | c :: _ => if has 58 url && is_alpha c && forallb scheme_char (cut 58 url).1
              then (ascii_lower (cut 58 url).1, (cut 58 url).2) else ([], url)
  | [] => ([], [])
  end.
(** [_splitparams]: behind the last segment. *)
Definition split_params (s : pystr) : pystr * pystr :=
  let '(front, last) := rcut 47 s in
  if has 59 last then ((if has 47 s then front ++ "/" else []) ++ (cut 59 last).1, (cut 59 last).2) else (s, []).
Definition InvalidUrl : exn := Exn "ValueError" "Invalid URL".
Definition urlparse `{Netlocs} (url : pystr) : res Url :=
  let url := List.filter (λ c, negb ((c =? 9) || (c =? 10) || (c =? 13))%N) (drop_controls url) in
  let '(scheme, url) := split_scheme url in
  let '(netloc, url) := if startswith url "//" then span (λ c, negb ((c =? 47) || (c =? 63) || (c =? 35))%N) (drop 2 url) else ([], url) in
  if negb (forallb is_ascii netloc && negb (has 91 netloc) && negb (has 93 netloc)) && negb (netloc_ok netloc) then Raise InvalidUrl
  else
    let '(url, fragment) := cut 35 url in
    let '(url, query) := cut 63 url in
    let '(path, params) := if elem scheme uses_params then split_params url else (url, []) in
    Ret {| scheme := scheme; netloc := netloc; path := path; url_params := params; url_query := query; fragment := fragment |}.
(** With a host, which the code's call has. *)
Definition urlunparse (u : Url) : pystr :=
  let url := match url_params u with [] => path u | params => path u ++ ";" ++ params end in
  let url := match netloc u with
             | [] => url
             | netloc => "//" ++ netloc ++ (if negb (bool_decide (url = [])) && negb (startswith url "/") then "/" ++ url else url)
             end in
  let url := match scheme u with [] => url | scheme => scheme ++ ":" ++ url end in
  let url := match url_query u with [] => url | query => url ++ "?" ++ query end in
  match fragment u with [] => url | fragment => url ++ "#" ++ fragment end.
(** The host and the port behind the last [@]. *)
Definition hostinfo (u : Url) : pystr * pystr :=
  let hostinfo := (rcut 64 (netloc u)).2 in
  if has 91 hostinfo then let '(host, rest) := cut 93 (cut 91 hostinfo).2 in (host, (cut 58 rest).2)
  else cut 58 hostinfo.
(** [""] for [None] *)
Definition hostname `{Casing} (u : Url) : pystr :=
  let host := (hostinfo u).1 in
  let '(name, zone) := span (λ c, negb (c =? 37)%N) host in py_lower name ++ zone.
Definition port `{Unicode} (u : Url) : res (option Z) :=
  match (hostinfo u).2 with
  | [] => Ret None
  | digits =>
      if forallb is_digit digits then
        let n := Z.of_N (undigits 10 0 (map (λ c, c - 48)%N digits)) in
        if (n <=? 65535)%Z then Ret (Some n) else Raise (Exn "ValueError" "Port out of range 0-65535")
      else Raise (Exn "ValueError" ("Port could not be cast to integer value as " ++ repr_str digits))
  end.
Definition userinfo (u : Url) : pystr * pystr := cut 58 (if has 64 (netloc u) then (rcut 64 (netloc u)).1 else []).

(** *** The code's own *)

Definition hex_char (c : N) : bool := (is_digit c || (97 <=? c) && (c <=? 102) || (65 <=? c) && (c <=? 70))%N.
(** [[a-z0-9_-]] under [re.IGNORECASE], where four more letters match. *)
Definition slug_char (c : N) : bool :=
  (is_alpha c || is_digit c || (c =? 95) || (c =? 45) || (c =? 304) || (c =? 305) || (c =? 383) || (c =? 8490))%N.
(** [_SLUG_RE.match]: the slug. *)
Definition _SLUG_RE (host : pystr) : option pystr :=
  let host := match rev host with 10%N :: r => rev r | _ => host end in
  match span hex_char host with
  | (_ :: _, c :: ((_ :: _) as slug)) => if ((c =? 95) || (c =? 45))%N && forallb slug_char slug then Some slug else None
  | _ => None
  end.
Section addresses.
Context `{Unicode} `{Casing} `{Netlocs}.
Definition _entry_title (socket_url : pystr) : pystr :=
  let host := match urlparse socket_url with
              | Ret u => or_str (hostname u) socket_url
              | Raise _ => socket_url
              end in
  "OpenClaw Node (" ++ default host (_SLUG_RE host) ++ ")".
Definition _normalise_socket_url (raw : pystr) : res pystr :=
  let url := trim_slashes (strip raw) in
  match urlparse url with
  | Raise _ => Ret url
  | Ret parsed =>
      let host := hostname parsed in
      if bool_decide (host = []) || negb (has 95 host) then Ret url
      else match _SLUG_RE host with
      | None => Ret url
      | Some _ =>
          let new_host := replace_char 95 "-" host in
          let? port := port parsed in
          let netloc := match port with Some p => new_host ++ ":" ++ str_of_Z p | None => new_host end in
          let '(username, password) := userinfo parsed in
          let netloc := match username, password with
                        | [], [] => netloc
                        | _, _ => username ++ match password with [] => [] | _ => ":" ++ password end ++ "@" ++ netloc
                        end in
          Ret (urlunparse {| scheme := scheme parsed; netloc := netloc; path := path parsed; url_params := url_params parsed;
                             url_query := url_query parsed; fragment := fragment parsed |})
      end
  end.
End addresses.

(** ** The network *)

(** A request of the integration, and what comes of it over a network in a state. *)
Record web_request := { wr_method : pystr; wr_url : pystr; wr_bearer : option pystr }.
Record web_answer := { wa_status : Z; wa_json : fetch json }.
Class Web (W : Type) := { ask : web_request → W → fetch web_answer * W }.
Definition Exchange (W A : Type) : Type := W → res A * W.
Definition sret {W A} (a : A) : Exchange W A := λ w, (Ret a, w).
Definition sraise {W A} (e : exn) : Exchange W A := λ w, (Raise e, w).
Definition sbind {W A B} (m : Exchange W A) (f : A → Exchange W B) : Exchange W B :=
  λ w, match m w with (Ret a, w) => f a w | (Raise e, w) => (Raise e, w) end.
Notation "'let%' x ':=' m 'in' k" := (sbind m (λ x, k))
  (at level 10, x pattern, m at level 100, k at level 200) : res_scope.
Definition sres {W A} (r : res A) : Exchange W A := λ w, (r, w).

Section setup.
Context `{Unicode} `{Casing} `{Netlocs} {W : Type} `{!Web W}.

(** A request, under [except (aiohttp.ClientError, TimeoutError, OSError)]: nothing
    when one of these is raised. *)
Definition quietly {A} (f : fetch A) : Exchange W (option A) :=
  match f with
  | Got a => sret (Some a)
  | Fault _ | Late => sret None
  | Broken e => if bool_decide (exn_type e = "OSError"%py) then sret None else sraise e
  end.
Definition request_quietly (method url : pystr) (bearer : option pystr) : Exchange W (option web_answer) :=
  λ w, let '(f, w) := ask {| wr_method := method; wr_url := url; wr_bearer := bearer |} w in quietly f w.
Definition json_quietly (a : web_answer) : Exchange W (option json) := quietly (wa_json a).

Definition _probe_one (url : pystr) : Exchange W bool :=
  let% a := request_quietly "GET" (url ++ CONVERSATION_INFO_ENDPOINT) None in
  sret match a with Some a => (wa_status a =? 200)%Z | None => false end.
(** What the Supervisor tells of the add-ons: nothing when there is none, or when it
    cannot be asked. *)
Definition our_addon (slug : pystr) : bool :=
  bool_decide (slug = "openclaw_hass_node"%py) || endswith slug "_openclaw_hass_node".
Definition node_url (host : pystr) : pystr := "http://" ++ host ++ ":" ++ str_of_Z NODE_LOCAL_PORT.
Fixpoint _supervisor_addon_url (addons : list (pystr * json)) : option pystr :=
  match addons with
  | [] => None
  | (slug, info) :: addons =>
      if our_addon slug then
        match info with
        | JDict d => match dget "hostname" d with
                     | Some (JStr ((_ :: _) as hostname)) => Some (node_url hostname)
                     | _ => _supervisor_addon_url addons
                     end
        | _ => _supervisor_addon_url addons
        end
      else _supervisor_addon_url addons
  end.
Fixpoint probe_all (urls : list pystr) : Exchange W (list bool) :=
  match urls with
  | [] => sret []
  | url :: urls => let% ok := _probe_one url in let% oks := probe_all urls in sret (ok :: oks)
  end.
Definition _probe_default_socket_url (addons : list (pystr * json)) : Exchange W pystr :=
  let% supervised := match _supervisor_addon_url addons with
                     | Some url => let% ok := _probe_one url in sret (if ok then Some url else None)
                     | None => sret None
                     end in
  match supervised with
  | Some url => sret url
  | None =>
      let urls := map node_url PROBE_CANDIDATE_HOSTS in
      let% results := probe_all urls in
      sret match List.find snd (combine urls results) with Some (url, _) => url | None => DEFAULT_SOCKET_URL end
  end.

(** *** The token *)

Definition ok_object (j : json) : option dict :=
  match j with JDict d => if truthy (get_or_null "ok" d) then Some d else None | _ => None end.
Definition nonempty_token (d : dict) : option pystr := match dget "token" d with Some (JStr ((_ :: _) as token)) => Some token | _ => None end.
(** One attempt of a claim: [None] when it failed on the way. *)
Definition claim_once (url claim_endpoint bootstrap_token : pystr) : Exchange W (option (option pystr)) :=
  let% a := request_quietly "POST" (url ++ claim_endpoint) (Some bootstrap_token) in
  match a with
  | None => sret None
  | Some a =>
      if negb (wa_status a =? 200)%Z then sret (Some None)
      else
        let% data := json_quietly a in
        sret match data with
             | None => None
             | Some j => Some (match ok_object j with Some d => nonempty_token d | None => None end)
             end
  end.
Fixpoint claim_attempts (attempts : nat) (url claim_endpoint bootstrap_token : pystr) : Exchange W (option pystr) :=
  match attempts with
  | O => sret None
  | S attempts =>
      let% outcome := claim_once url claim_endpoint bootstrap_token in
      match outcome with
      | Some token => sret token
      | None => claim_attempts attempts url claim_endpoint bootstrap_token
      end
  end.
Definition _claim_bootstrap_token (url claim_endpoint bootstrap_token : pystr) : Exchange W (option pystr) :=
  claim_attempts 2 url claim_endpoint bootstrap_token.
Definition _claim_endpoint_from_bootstrap_response (data : dict) : option pystr :=
  match get_or_null "claim_endpoint" data with JStr endpoint => if startswith endpoint "/" then Some endpoint else None | _ => None end.
Definition _bootstrap_token_from_response (url : pystr) (data : dict) : Exchange W (option pystr) :=
  match nonempty_token data with
  | None => sret None
  | Some token =>
      match _claim_endpoint_from_bootstrap_response data with
      | None => sret (Some token)
      | Some claim_endpoint => _claim_bootstrap_token url claim_endpoint token
      end
  end.
Definition _fetch_bootstrap_token (url : pystr) : Exchange W (option pystr) :=
  let% a := request_quietly "GET" (url ++ BOOTSTRAP_ENDPOINT) None in
  match a with
  | None => sret None
  | Some a =>
      if negb (wa_status a =? 200)%Z then sret None
      else
        let% data := json_quietly a in
        match data ≫= ok_object with
        | Some data => _bootstrap_token_from_response url data
        | None => sret None
        end
  end.

(** ** The steps of the flow *)

Record Entry := { e_id : pystr; e_unique_id : pystr; e_title : pystr; e_socket_url : pystr; e_api_token : pystr }.
(** What is submitted: the address, and the token, [""] when there is none.  (The
    framework also ends a second flow for an address that is being set up.) *)
Record Submitted := { s_socket_url : pystr; s_api_token : pystr }.
Inductive flow_result :=
| CreateEntry (title socket_url api_token : pystr)
| ShowForm (socket_url api_token : pystr)
| UpdateEntry (e : Entry)
| AlreadyConfigured.
Definition async_step_user (addons : list (pystr * json)) (entries : list Entry) (user_input : option Submitted) : Exchange W flow_result :=
  match user_input with
  | Some input =>
      let% socket_url := sres (_normalise_socket_url (s_socket_url input)) in
      sret (if existsb (λ e, bool_decide (e_unique_id e = socket_url)) entries then AlreadyConfigured
            else CreateEntry (_entry_title socket_url) socket_url (s_api_token input))
  | None =>
      let% suggested_url := _probe_default_socket_url addons in
      let% suggested_token := _fetch_bootstrap_token suggested_url in
      sret (ShowForm suggested_url (default [] suggested_token))
  end.
Definition async_step_reconfigure (entries : list Entry) (entry : Entry) (user_input : option Submitted) : res flow_result :=
  match user_input with
  | Some input =>
      let? socket_url := _normalise_socket_url (s_socket_url input) in
      let? current := _normalise_socket_url (e_socket_url entry) in
      let url_changed := negb (bool_decide (socket_url = current)) in
      let api_token := match s_api_token input with
                       | [] => if url_changed then [] else e_api_token entry
                       | submitted => submitted
                       end in
      Ret (if negb (bool_decide (socket_url = e_unique_id entry)) &&
              existsb (λ other, negb (bool_decide (e_id other = e_id entry)) && bool_decide (e_unique_id other = socket_url)) entries
           then AlreadyConfigured
           else UpdateEntry {| e_id := e_id entry; e_unique_id := socket_url; e_title := _entry_title socket_url;
                               e_socket_url := socket_url; e_api_token := api_token |})
  | None => Ret (ShowForm (e_socket_url entry) [])
  end.
(** The options: the style, or an error at its field. *)
Definition options_init (current : pystr) (user_input : option pystr) : pystr + pystr * bool :=
  match user_input with
  | Some chosen =>
      let style := strip (or_str chosen DEFAULT_STYLE) in
      if (length style <=? MAX_STYLE_CHARS)%nat then inl (or_str style DEFAULT_STYLE) else inr (style, true)
  | None => inr (or_str current DEFAULT_STYLE, false)
  end.
End setup.

(** ** Set up against the node *)

(** What befalls a request: nothing; the answer is lost, when the node has already
    dealt with it; or the request is. *)
Inductive weather := Fine | AnswerLost | RequestLost.

Section composed.
Context `{Unicode} `{Casing} `{Netlocs} `{Categories} `{WideText} `{Os} `{!Gateway}.
Context {H : Type} (handlers : pystr → @handler H).
(** The node is at [base].  The requests arrive one after the other, from one peer,
    each at its moment. *)
Context (base : pystr) (peer : option pystr) (moments : nat → moment) (arrives : nat → Z) (wall : nat → pystr) (sky : nat → weather).
Implicit Types w : @World H.

Definition arriving (r : web_request) (n : nat) : Request :=
  {| r_method := wr_method r; r_path := drop (length base) (wr_url r); r_remote := peer;
     r_authorization := match wr_bearer r with Some token => "Bearer " ++ token | None => [] end;
     r_body := None; r_content_length := None; r_chunks := []; r_at := arrives n; r_time := wall n |}.
Definition no_json : fetch json := Fault "unexpected content type".
Definition answered (a : res reply) : fetch web_answer :=
  match a with
  | Ret (Response status payload _) => Got {| wa_status := status; wa_json := Got payload |}
  | Ret (HttpError status) | Ret (StreamError _ status) => Got {| wa_status := status; wa_json := no_json |}
  | Ret (CallsRelay _ _) => Late
  | Raise _ => Got {| wa_status := 500; wa_json := no_json |}
  end.
Instance node_web : Web (World * nat) :=
  {| ask r '(w, n) :=
       if startswith (wr_url r) base then
         match sky n with
         | RequestLost => (Fault "lost", (w, n + 1))
         | weather =>
             let '(a, w) := application handlers (moments n) (arriving r n) w in
             (match weather with Fine => answered a | _ => Fault "lost" end, (w, n + 1))
         end
       else (Fault "unreachable", (w, n + 1)) |}.

(** *** The announcement *)

Lemma startswith_base p : startswith (base ++ p) base = true.
Proof. induction base as [|c b IH]; [by destruct p|]. cbn. by rewrite N.eqb_refl. Qed.
Lemma drop_base p : drop (length base) (base ++ p) = p.
Proof. by rewrite drop_app_length. Qed.
Lemma application_bootstrap m r w : r_path r = "/v1/bootstrap"%py → r_method r = "GET"%py → application handlers m r w = bootstrap r w.
Proof.
  intros Hp Hm. unfold application, _bearer_auth_middleware. rewrite Hp.
  assert (elem "/v1/bootstrap" _UNAUTHED_PATHS = true) as -> by (vm_compute; reflexivity).
  unfold run_endpoint. rewrite Hm, Hp. assert (route "GET" "/v1/bootstrap" = inl Bootstrap) as -> by (vm_compute; reflexivity). done.
Qed.
Lemma application_claim m r w : r_path r = "/v1/bootstrap/claim"%py → r_method r = "POST"%py →
  application handlers m r w = bootstrap_claim (m_fresh m) r w.
Proof.
  intros Hp Hm. unfold application, _bearer_auth_middleware. rewrite Hp.
  assert (elem "/v1/bootstrap/claim" _UNAUTHED_PATHS = true) as -> by (vm_compute; reflexivity).
  unfold run_endpoint. rewrite Hm, Hp. assert (route "POST" "/v1/bootstrap/claim" = inl Claim) as -> by (vm_compute; reflexivity). done.
Qed.
(** What a node keeps while it is set up: its directory, the token it announced, and
    the token it rotated to, which is the local one and the stored one. *)
Record being_set_up (dir : list pystr) (announced : pystr) w : Prop := {
  su_dir : dir_parts (runtime w) = dir;
  su_data : data_ok w;
  su_reads : reads_tokens w;
  su_announced : bootstrap_claim_token (runtime w) = announced;
  su_rotated : bootstrap_claimed_token (runtime w) = [] ∨
    ∃ k, bootstrap_claimed_token (runtime w) = m_fresh (moments k) ∧ token_of w = m_fresh (moments k) ∧
         stored_token (rt_disk (runtime w)) dir = Ok (Some (m_fresh (moments k))) }.
Definition announcement (token : pystr) : json :=
  JDict [("ok", JBool true); ("token", JStr token); ("claim_endpoint", JStr "/v1/bootstrap/claim")]%py.
Lemma announcement_given r w a w' :
  data_ok w → reads_tokens w → bootstrap_claimed_token (runtime w) = [] → bootstrap r w = (a, w') →
  (∃ token bearer, a = Ret (Response 200 (announcement token) bearer) ∧ token ≠ [] ∧ being_set_up (dir_parts (runtime w)) token w') ∨
  (∀ payload bearer, a ≠ Ret (Response 200 payload bearer)) ∧ ∀ status, a = Ret (HttpError status) → status ≠ 200%Z.
Proof.
  intros Hok Hr Hc. unfold bootstrap. destruct (addon_mode _ && _); [intros [= <- _]; right; split; [done|]; by intros s [= <-]|].
  destruct (_ <? _)%Z; [intros [= <- _]; by right|]. destruct (marked _ _); [intros [= <- _]; by right|].
  case_bool_decide as Hne; [intros [= <- _]; by right|]. unfold mark.
  destruct (_write_bootstrap_consumed _ _ _) as [o d] eqn:Ew. unfold _write_bootstrap_consumed in Ew.
  destruct (private_file_kept _ _ _ [] _ _ _ Hok Ew) as [Hok' _].
  assert (Hset : ∀ v, v = on_runtime (λ rt, set_claim_token (bootstrap_token (runtime w)) (set_bootstrap_token [] rt)) (on_runtime (set_rt_disk d) w) →
    being_set_up (dir_parts (runtime w)) (bootstrap_token (runtime w)) v).
  { intros v ->. split; [done|exact Hok'|exact Hr|done|by left]. }
  destruct o as [x|e]; [|destruct (is_oserror e)].
  - intros [= <- <-]. left. eexists _, _. split; [reflexivity|]. split; [done|by apply Hset].
  - intros [= <- <-]. left. eexists _, _. split; [reflexivity|]. split; [done|by apply Hset].
  - intros [= <- _]. by right.
Qed.

(** *** The claim *)

Lemma bearer_read token : token ≠ [] → bearer_of ("Bearer " ++ token) = Some token.
Proof.
  intros Hne. unfold bearer_of. assert (partition_at 32 ("Bearer " ++ token) = ("Bearer"%py, token)) as ->.
  { apply (partition_at_app 32 "Bearer" token). apply (bool_decide_unpack (32%N ∉ _)). vm_compute. exact I. }
  rewrite py_lower_ascii by done. rewrite bool_decide_true by (vm_compute; reflexivity). by rewrite bool_decide_false.
Qed.
(** A rotation leaves the node in order, however it ends; when it is answered with
    status 200, it is with the new token. *)
Lemma rotation_keeps dir announced k r w a w' :
  being_set_up dir announced w → bootstrap_claimed_token (runtime w) = [] → token_text (m_fresh (moments k)) →
  claim_rotation (m_fresh (moments k)) r w = (a, w') →
  being_set_up dir announced w' ∧
  ((∃ token, a = Ret (token_answer token) ∧ token_of w' = token ∧ bootstrap_claimed_token (runtime w') = token) ∨
   (∀ payload bearer, a ≠ Ret (Response 200 payload bearer)) ∧ ∀ status, a ≠ Ret (HttpError status)).
Proof.
  intros Hs Hno Ht. pose proof Hs as [Hdir Hok Hr Hann _]. unfold claim_rotation.
  destruct (_ || _); [intros [= <- <-]; split; [done|by right]|]. destruct (marked _ _); [intros [= <- <-]; split; [done|by right]|].
  unfold rotate_local_api_token, _write_token.
  destruct (_write_private_file (rt_disk (runtime w)) (dir_parts (runtime w)) _TOKEN_FILENAME (m_fresh (moments k) ++ [NL])) as [o d] eqn:Ew.
  destruct (private_file_kept _ _ _ claimed_name _ _ _ Hok Ew) as [Hok' _].
  assert (Hbefore : being_set_up dir announced (on_runtime (set_rt_disk d) w)) by (split; [done|exact Hok'|exact Hr|done|by left]).
  destruct o as [x|e]; [|destruct (is_oserror e); intros [= <- <-]; (split; [exact Hbefore|by right])].
  unfold mark. destruct (_write_bootstrap_consumed _ _ _) as [o d'] eqn:Em. unfold _write_bootstrap_consumed in Em.
  change (dir_parts _) with (dir_parts (runtime w)) in Em. change (rt_disk _) with d in Em.
  destruct (private_file_kept _ _ _ _TOKEN_FILENAME _ _ _ Hok' Em) as [Hok'' Hkept].
  destruct (write_private_file_spec _ _ _ _ _ _ Hok Ew) as [[Hbad _]|(bytes & _ & Hd & Hu)]; [by destruct x|].
  assert (Hst : stored_token d' dir = Ok (Some (m_fresh (moments k)))).
  { rewrite <- Hdir. eapply stored_token_plain; [exact Hok''|done|by apply Hu; destruct x| |exact Hr].
    unfold token_file. rewrite Hkept by discriminate. subst d. apply lookup_insert_eq. }
  assert (Hafter : ∀ v, runtime v = set_rt_disk d' (set_claimed_token (m_fresh (moments k))
      (set_config (set_local_token (m_fresh (moments k)) (config (runtime w))) (set_rt_disk d (runtime w)))) → being_set_up dir announced v).
  { intros v Ev. split; unfold data_ok, reads_tokens, token_of; rewrite Ev; [done|exact Hok''|exact Hr|done|]. right. by exists k. }
  destruct o as [y|e]; [|destruct (is_oserror e)]; intros [= <- <-]; (split; [by apply Hafter|]).
  - left. by eexists.
  - left. by eexists.
  - by right.
Qed.
Lemma claim_keeps dir announced k r w a w' :
  being_set_up dir announced w → announced ≠ [] → token_text (m_fresh (moments k)) →
  r_authorization r = "Bearer " ++ announced →
  bootstrap_claim (m_fresh (moments k)) r w = (a, w') →
  being_set_up dir announced w' ∧
  ((∃ token, a = Ret (token_answer token) ∧ token_of w' = token ∧ bootstrap_claimed_token (runtime w') = token) ∨
   (∀ payload bearer, a ≠ Ret (Response 200 payload bearer)) ∧ ∀ status, a ≠ Ret (HttpError status)).
Proof.
  intros Hs Hne Ht Hauth. unfold bootstrap_claim. rewrite Hauth, bearer_read by done. rewrite (su_announced _ _ _ Hs).
  rewrite bool_decide_false by done. unfold same_token at 1. destruct (utf8 announced) as [bytes|]; [|intros [= <- <-]; split; [done|by right]].
  rewrite bool_decide_true by done. case_bool_decide as Hno.
  - intros E. by eapply rotation_keeps.
  - intros [= <- <-]. split; [done|]. left. destruct (su_rotated _ _ _ Hs) as [|(j & Hc & Htok & _)]; [done|]. exists (m_fresh (moments j)).
    by rewrite Hc.
Qed.
Lemma token_answer_reads token : token ≠ [] →
  ok_object (JDict [("ok", JBool true); ("token", JStr token)]%py) ≫= nonempty_token = Some token.
Proof. by destruct token. Qed.
Lemma claims_keep dir announced attempts : ∀ w n r w' n',
  being_set_up dir announced w → announced ≠ [] → (∀ k, token_text (m_fresh (moments k))) →
  claim_attempts attempts base "/v1/bootstrap/claim" announced (w, n) = (r, (w', n')) →
  being_set_up dir announced w' ∧ ∀ token, r = Ret (Some token) → token ≠ [] ∧ token_of w' = token ∧ bootstrap_claimed_token (runtime w') = token.
Proof.
  induction attempts as [|attempts IH]; intros w n r w' n' Hs Hne Ht; cbn [claim_attempts]; [by intros [= <- <- <-]|].
  unfold sbind at 1, claim_once, sbind at 1, request_quietly. unfold ask at 1, node_web at 1. cbn [wr_url]. rewrite startswith_base.
  destruct (sky n) eqn:Esky; [| |by apply IH].
  - rewrite application_claim by (done || by cbn; rewrite drop_base).
    destruct (bootstrap_claim _ _ w) as [a w1] eqn:Ec. cbn [fst snd].
    unshelve epose proof (claim_keeps dir announced n _ w a w1 Hs Hne (Ht n) _ Ec) as [Hs1 [(token & -> & Htok & Hclaimed)|[Hno Herr]]]; [reflexivity| |].
    + cbn. intros [= <- <- <-]. split; [done|]. intros t E. by destruct token; simplify_eq.
    + destruct a as [[status payload bearer|status|code status|rl c]|e]; cbn [answered quietly sret].
      * destruct (Z.eqb_spec status 200) as [->|Hst]; [by destruct (Hno payload bearer)|]. cbn. rewrite (proj2 (Z.eqb_neq _ _) Hst). cbn.
        by intros [= <- <- <-].
      * by destruct (Herr status).
      * cbn. destruct (status =? 200)%Z; cbn; [by apply IH|by intros [= <- <- <-]].
      * by apply IH.
      * cbn. by intros [= <- <- <-].
  - rewrite application_claim by (done || by cbn; rewrite drop_base).
    destruct (bootstrap_claim _ _ w) as [a w1] eqn:Ec. cbn [fst snd].
    unshelve epose proof (claim_keeps dir announced n _ w a w1 Hs Hne (Ht n) _ Ec) as [Hs1 _]; [reflexivity|]. by apply IH.
Qed.

(** C11. The token the integration is set up with opens the node.  Whatever befalls the
    requests on the way, when the setup comes to a token it is the one the node has
    rotated to: the node takes it for every request, keeps it for its next start, and
    has made it up afresh, so that it is not the token that was announced.  A lost
    answer is made up for by the second claim. *)
Theorem setup_token_opens_the_node w n token w' n' :
  data_ok w → reads_tokens w → bootstrap_claimed_token (runtime w) = [] → (∀ k, token_text (m_fresh (moments k))) →
  _fetch_bootstrap_token base (w, n) = (Ret (Some token), (w', n')) →
  token_of w' = token ∧ stored_token (rt_disk (runtime w')) (dir_parts (runtime w)) = Ok (Some token) ∧
  (∃ k, token = m_fresh (moments k)) ∧
  ∀ m r, bearer_of (r_authorization r) = Some token → application handlers m r w' = run_endpoint handlers m r w'.
Proof.
  intros Hok Hr Hno Ht. unfold _fetch_bootstrap_token, sbind at 1, request_quietly. unfold ask at 1, node_web at 1. cbn [wr_url].
  rewrite startswith_base. destruct (sky n); [| |done].
  2:{ destruct (application _ _ _ _). done. }
  rewrite application_bootstrap by (done || by cbn; rewrite drop_base).
  destruct (bootstrap _ w) as [a w1] eqn:Eb. destruct (announcement_given _ w a w1 Hok Hr Hno Eb) as [(announced & bearer & -> & Hne & Hs)|[Hnot Herr]].
  - cbn [answered quietly sret wa_status wa_json]. change (negb (200 =? 200)%Z) with false. cbv iota.
    unfold sbind, json_quietly. cbn [quietly wa_json sret].
    assert (Hdata : (Some (announcement announced) ≫= ok_object) = Some [("ok", JBool true); ("token", JStr announced); ("claim_endpoint", JStr "/v1/bootstrap/claim")]%py) by done.
    rewrite Hdata. unfold _bootstrap_token_from_response.
    assert (nonempty_token [("ok", JBool true); ("token", JStr announced); ("claim_endpoint", JStr "/v1/bootstrap/claim")]%py = Some announced) as ->
      by (by destruct announced).
    assert (_claim_endpoint_from_bootstrap_response [("ok", JBool true); ("token", JStr announced); ("claim_endpoint", JStr "/v1/bootstrap/claim")]%py
            = Some "/v1/bootstrap/claim"%py) as -> by (vm_compute; reflexivity).
    intros Hc. destruct (claims_keep (dir_parts (runtime w)) announced 2 w1 (n + 1) _ w' n' Hs Hne Ht Hc) as [Hs' Htok].
    destruct (Htok token eq_refl) as (Htne & Htk & Hcl). destruct (su_rotated _ _ _ Hs') as [E|(k & Hk & Hkt & Hst)]; [congruence|].
    assert (token = m_fresh (moments k)) as -> by congruence. split_and!; [done|exact Hst|by exists k|].
    intros m r Hb. unfold application, _bearer_auth_middleware. destruct (elem (r_path r) _UNAUTHED_PATHS); [done|].
    rewrite Hb. fold (token_of w'). rewrite Htk, bool_decide_false by done. rewrite same_token_refl; [done|].
    destruct (Ht k) as [_ Hascii]. destruct (ascii_encodable (m_fresh (moments k))) as (bytes & Hu & _); [|by exists bytes].
    eapply Forall_impl; [exact Hascii|]. by intros c [].
  - destruct a as [[status payload bearer|status|code status|rl c]|e]; cbn [answered quietly sret wa_status].
    + destruct (Z.eqb_spec status 200) as [->|Hst]; [by destruct (Hnot payload bearer)|]. by cbn.
    + destruct (Z.eqb_spec status 200) as [->|Hst]; [by destruct (Herr 200%Z)|]. by cbn.
    + cbn. by destruct (status =? 200)%Z.
    + done.
    + done.
Qed.
End composed.

(** ** The entries *)

Section entries.
Context `{Unicode} `{Casing} `{Netlocs}.

(** When no two entries have one address, no step gives two entries one address; and a
    token stays with the address it was given for: an entry that is given another
    address, and no token with it, has none. *)
Definition apart (entries : list Entry) : Prop :=
  ∀ a b, a ∈ entries → b ∈ entries → e_unique_id a = e_unique_id b → e_id a = e_id b.
Theorem token_stays_with_its_address entries entry input e :
  apart entries → entry ∈ entries →
  async_step_reconfigure entries entry (Some input) = Ret (UpdateEntry e) →
  e_id e = e_id entry ∧ e_unique_id e = e_socket_url e ∧
  (∀ other, other ∈ entries → e_id other ≠ e_id entry → e_unique_id other ≠ e_unique_id e) ∧
  match s_api_token input with
  | [] => e_api_token e = e_api_token entry ∧ _normalise_socket_url (e_socket_url entry) = Ret (e_socket_url e) ∨
          e_api_token e = [] ∧ _normalise_socket_url (e_socket_url entry) ≠ Ret (e_socket_url e)
  | submitted => e_api_token e = submitted
  end.
Proof.
  intros Ha Hin. cbn. destruct (_normalise_socket_url (s_socket_url input)) as [socket_url|]; [|done].
  destruct (_normalise_socket_url (e_socket_url entry)) as [current|]; [|done]. cbn.
  destruct (_ && _) eqn:Eu; [done|]. intros [= <-]. cbn. split_and!; [done..| |].
  - intros other Ho Hid Heq. cbn in Heq. apply andb_false_iff in Eu as [Hsame|Hnone].
    + apply negb_false_iff, bool_decide_eq_true in Hsame. apply Hid, Ha; [done|done|]. congruence.
    + assert (existsb (λ other, negb (bool_decide (e_id other = e_id entry)) && bool_decide (e_unique_id other = socket_url)) entries = true) as Hex.
      { apply existsb_exists. exists other. split; [by apply list_elem_of_In|]. rewrite bool_decide_false by done. by rewrite bool_decide_true. }
      congruence.
  - destruct (s_api_token input); [|done]. destruct (decide (socket_url = current)) as [->|E]; [left; by rewrite bool_decide_true|right].
    rewrite bool_decide_false by done. split; [done|congruence].
Qed.
End entries.

(** ** Witnesses *)

#[local] Existing Instance every_char_prints.
#[local] Existing Instance ascii_casing.
#[local] Existing Instance ascii_controls.
#[local] Existing Instance utf8_only.
#[local] Existing Instance sound_os.
#[local] Existing Instance counted.
#[local] Instance brackets_taken : Netlocs := {| netloc_ok := λ _, true |}.

(** The answer of the first claim is lost. *)
Definition demo_base : pystr := "http://abc-openclaw-hass-node:8099".
Definition nth_moment (n : nat) : moment := {| m_now := 0; m_fresh := "new" ++ str_of_nat n; m_get := λ _ _, inr (Unreachable []) |}.
Definition demo_sky (n : nat) : weather := match n with 1 => AnswerLost | _ => Fine end.
Definition demo_setup := @_fetch_bootstrap_token _ (node_web counting demo_base (Some "172.30.33.7"%py) nth_moment (λ _, 1000000%Z) (λ _, "1.5"%py) demo_sky)
  demo_base (demo_world, 0).
Example addresses_are_read :
  _normalise_socket_url " http://a0d7b954_openclaw_hass_node:8099/ " = Ret ("http://a0d7b954-openclaw-hass-node:8099"%py) ∧
  _normalise_socket_url "https://my_host:8099/x" = Ret "https://my_host:8099/x"%py ∧
  _entry_title "http://fcccfbbd-openclaw-hass-node:8099" = "OpenClaw Node (openclaw-hass-node)"%py ∧
  _entry_title "http://10.0.10.20:8099" = "OpenClaw Node (10.0.10.20)"%py.
Proof. split_and!; vm_compute; reflexivity. Qed.
(** The port is read outside of the [try]: a port that is none is an exception of the
    flow, and not a message in its form. *)
Example bad_port_escapes :
  _normalise_socket_url "http://a0_x:99999" = Raise (Exn "ValueError" "Port out of range 0-65535").
Proof. vm_compute. reflexivity. Qed.
Example setup_token_opens_the_node_witness :
  demo_setup.1 = Ret (Some "new1"%py) ∧ token_of demo_setup.2.1 = "new1"%py ∧
  stored_token (rt_disk (runtime demo_setup.2.1)) ["data"%py] = Ok (Some "new1"%py).
Proof.
  assert (E : demo_setup.1 = Ret (Some "new1"%py)) by (vm_compute; reflexivity). split; [exact E|].
  assert (E' : demo_setup = (Ret (Some "new1"%py), (demo_setup.2.1, demo_setup.2.2))).
  { rewrite <- E. destruct demo_setup as [? []]. reflexivity. }
  destruct (setup_token_opens_the_node counting demo_base (Some "172.30.33.7"%py) nth_moment (λ _, 1000000%Z) (λ _, "1.5"%py) demo_sky
              demo_world 0 "new1" demo_setup.2.1 demo_setup.2.2) as (Ht & Hs & _).
  - exact demo_data.
  - reflexivity.
  - reflexivity.
  - intros k. split; [discriminate|]. apply Forall_app. split.
    + apply demo_token; [discriminate|vm_compute; reflexivity].
    + eapply Forall_impl; [exact (str_of_N_digits (N.of_nat k))|]. intros c Hc. apply andb_prop in Hc as [H1 H2].
      apply N.leb_le in H1, H2. split; [lia|].
      destruct (is_space c) eqn:Hs; [exfalso|done]. unfold is_space in Hs. repeat (apply orb_prop in Hs as [Hs|Hs]);
        (apply N.eqb_eq in Hs || (apply andb_prop in Hs as [H1s H2s]; apply N.leb_le in H1s, H2s)); lia.
  - exact E'.
  - split; [exact Ht|exact Hs].
Defined.
Definition demo_entry : Entry :=
  {| e_id := "1"; e_unique_id := "http://a"; e_title := "OpenClaw Node (a)"; e_socket_url := "http://a"; e_api_token := "t" |}.
Example token_stays_with_its_address_witness :
  match async_step_reconfigure [demo_entry] demo_entry (Some {| s_socket_url := "http://b/"; s_api_token := [] |}) with
  | Ret (UpdateEntry e) => e_api_token e = [] ∧ e_unique_id e = "http://b"%py
  | _ => False
  end.
Proof.
  pose (e := {| e_id := "1"; e_unique_id := "http://b"; e_title := "OpenClaw Node (b)"; e_socket_url := "http://b"; e_api_token := [] |}).
  assert (E : async_step_reconfigure [demo_entry] demo_entry (Some {| s_socket_url := "http://b/"; s_api_token := [] |}) = Ret (UpdateEntry e))
    by (vm_compute; reflexivity).
  destruct (token_stays_with_its_address [demo_entry] demo_entry {| s_socket_url := "http://b/"; s_api_token := [] |} e) as (_ & Hu & _).
  - intros a b Ha Hb _. apply list_elem_of_singleton in Ha, Hb. by subst.
  - by apply list_elem_of_singleton.
  - exact E.
  - rewrite E. split; [reflexivity|exact Hu].
Defined.
