(* ===== verification/Images.v ===== *)
(** [custom_components/.../vision.py]: the service of the integration that has an
    image described: the image is found and made smaller, sent to the node, and the
    text or the error of the node given to the caller.  The theorems run it against
    the node's own handler. *)

From stdpp Require Import base list gmap.
From Stdlib Require Import NArith ZArith Lia.
From S2P Require Import Prelude PyStr PyCase PyFloat Json JsonParse JsonFlat Base64 Authz Turn Relay Pairing NodeConfig Vision Connection HaClient HttpApi Assist.

Definition DESCRIBE_IMAGE_ENDPOINT : pystr := "/v1/vision/describe".
Definition IMAGE_MAX_SOURCE_BYTES : Z := 25 * 1024 * 1024.
Definition ServiceValidationError (msg : pystr) : exn := Exn "ServiceValidationError" msg.
Definition HomeAssistantError (msg : pystr) : exn := Exn "HomeAssistantError" msg.

(** ** The image *)

(** What the code asks of Home Assistant, of the file system and of Pillow. *)
Record Media := { media_path : option pystr; media_url : pystr }.
(** The body of a media item, as far as it has arrived when it is read, and the rest. *)
Record media_answer := { ma_status : Z; ma_arrived : fetch (list N); ma_rest : list N }.
Record local_file := { lf_size : Z; lf_bytes : res (list N) }.
Inductive pillowed := Jpeg (bytes : list N) | Unreadable | Escaped (e : exn).
Class House := {
  camera_image : pystr → res (list N);
  resolve_media : pystr → res Media;
  play_url : pystr → pystr;
  get_media : pystr → fetch media_answer;
  is_allowed_path : pystr → bool;
  file_at : pystr → option local_file;
  pillow : list N → pillowed }.

Section service.
Context `{Unicode} `{House}.

(** [UnidentifiedImageError], [DecompressionBombError], [OSError] and [ValueError]
    are [Unreadable]. *)
Definition downscale_to_jpeg (raw : list N) : res (list N) :=
  match pillow raw with
  | Jpeg bytes => Ret bytes
  | Unreadable => Raise (HomeAssistantError "IMAGE_UNREADABLE: the source is not a readable image")
  | Escaped e => Raise e
  end.
Definition _read_local_file (path : pystr) : res (list N) :=
  match file_at path with
  | None => Raise (ServiceValidationError ("IMAGE_UNAVAILABLE: " ++ path ++ " is not a file"))
  | Some f =>
      if (IMAGE_MAX_SOURCE_BYTES <? lf_size f)%Z then Raise (ServiceValidationError "IMAGE_TOO_LARGE: the source file is too large")
      else lf_bytes f
  end.
(** [resp.content.read(n)] gives up to [n] bytes of what has arrived. *)
Definition content_read (n : Z) (a : media_answer) : fetch (list N) :=
  match ma_arrived a with Got bytes => Got (take (Z.to_nat n) bytes) | f => f end.
Definition media_failed {A B} (f : fetch A) : res B :=
  match f with Broken e => Raise e | _ => Raise (HomeAssistantError "IMAGE_UNAVAILABLE: could not fetch the media source") end.
Definition _load_media_source (media_content_id : pystr) : res (list N) :=
  let? media := resolve_media media_content_id in
  match media_path media with
  | Some path => _read_local_file path
  | None =>
      match get_media (play_url (media_url media)) with
      | Got resp =>
          if negb (ma_status resp =? 200)%Z
          then Raise (HomeAssistantError ("IMAGE_UNAVAILABLE: media source answered " ++ str_of_Z (ma_status resp)))
          else match content_read (IMAGE_MAX_SOURCE_BYTES + 1) resp with
               | Got data => if (IMAGE_MAX_SOURCE_BYTES <? Z.of_nat (length data))%Z
                             then Raise (ServiceValidationError "IMAGE_TOO_LARGE: the media item is too large") else Ret data
               | f => media_failed f
               end
      | f => media_failed f
      end
  end.
Inductive source_key := camera_entity_id | media_content_id | file_path.
Definition _load_image (key : source_key) (value : pystr) : res (list N) :=
  match key with
  | camera_entity_id => camera_image value
  | media_content_id => _load_media_source value
  | file_path =>
      if is_allowed_path value then _read_local_file value
      else Raise (ServiceValidationError "IMAGE_PATH_NOT_ALLOWED: that path is not in an allowed folder")
  end.

(** ** The request and its answer *)

(** The data of a call, behind the schema: [DESCRIBE_IMAGE_SCHEMA] bounds two of the
    texts, and converts them. *)
Record call_data := {
  cd_style : option pystr; cd_instructions : option pystr;
  cd_camera : option pystr; cd_media : option pystr; cd_file : option pystr }.
Definition DESCRIBE_IMAGE_SCHEMA (data : call_data) : bool :=
  (length (default [] (cd_style data)) <=? MAX_STYLE_CHARS)%nat && (length (default [] (cd_instructions data)) <=? MAX_INSTRUCTIONS_CHARS)%nat.
Record node_entry := { ne_socket_url : pystr; ne_api_token : pystr; ne_default_style : option pystr }.
Definition _node_entry (entries : list node_entry) : res node_entry :=
  match entries with
  | entry :: _ => Ret entry
  | [] => Raise (ServiceValidationError "NODE_NOT_CONFIGURED: the OpenClaw Node entry is not loaded")
  end.
Definition payload (jpeg : list N) (style : pystr) (instructions : option pystr) (source : pystr) : dict :=
  [("image_base64", JStr (b64encode jpeg)); ("mime", JStr "image/jpeg"); ("style", JStr style); ("source", JStr source)]%py
  ++ match instructions with Some ((_ :: _) as text) => [("instructions"%py, JStr text)] | _ => [] end.
Definition describe_post (entry : node_entry) (body : dict) : turn_post :=
  {| tp_url := trim_slashes (ne_socket_url entry) ++ DESCRIBE_IMAGE_ENDPOINT;
     tp_headers := match ne_api_token entry with [] => [] | token => [bearer token] end;
     tp_body := body |}.
(** The status, and the JSON of the body: [None] when it is none. *)
Record describe_answer := { da_status : Z; da_json : fetch (option json) }.
Definition described (f : fetch describe_answer) : res pystr :=
  let lost {A B} (f : fetch A) : res B :=
    match f with
    | Late => Raise (HomeAssistantError "TIMEOUT: the OpenClaw Node did not answer in time")
    | Broken e => Raise e
    | _ => Raise (HomeAssistantError "NODE_UNREACHABLE: could not reach the OpenClaw Node")
    end in
  match f with
  | Got a =>
      match da_json a with
      | Got j =>
          let body := match j with Some (JDict d) => d | _ => [] end in
          let text := match dget "text" body with Some (JStr s) => strip s | _ => [] end in
          if (da_status a =? 200)%Z && truthy (get_or_null "ok" body) && negb (bool_decide (text = [])) then Ret text
          else
            let error := get_or_null "error" body in
            let code := if truthy error then py_str error else "HTTP_" ++ str_of_Z (da_status a) in
            Raise (HomeAssistantError match dget "message" body with Some (JStr ((_ :: _) as message)) => code ++ ": " ++ message | _ => code end)
      | f => lost f
      end
  | f => lost f
  end.
Definition _post_describe (post : turn_post → fetch describe_answer) (entry : node_entry) (jpeg : list N) (style : pystr)
    (instructions : option pystr) (source : pystr) : res pystr :=
  described (post (describe_post entry (payload jpeg style instructions source))).
(** The sources that are named. *)
Definition named_sources (data : call_data) : list (source_key * pystr) :=
  omap (λ kv, match kv.2 with Some ((_ :: _) as value) => Some (kv.1, value) | _ => None end)
    [(camera_entity_id, cd_camera data); (media_content_id, cd_media data); (file_path, cd_file data)].
Definition style_of (data : call_data) (entry : node_entry) : pystr :=
  or_str (default [] (cd_style data)) (or_str (default [] (ne_default_style entry)) DEFAULT_STYLE).
Definition _async_describe_image (post : turn_post → fetch describe_answer) (entries : list node_entry) (data : call_data) : res dict :=
  match named_sources data with
  | [(key, source)] =>
      let? entry := _node_entry entries in
      let? raw := _load_image key source in
      let? jpeg := downscale_to_jpeg raw in
      let? text := _post_describe post entry jpeg (style_of data entry) (cd_instructions data) source in
      Ret [("text"%py, JStr text)]
  | _ => Raise (ServiceValidationError "Provide exactly one of camera_entity_id, media_content_id or file_path.")
  end.
End service.

(** ** The node takes the image *)

(** The writer of JSON of Home Assistant's HTTP session, and what is known of it: an
    object of texts is read back, and no character takes more than twelve bytes, a
    plain one only its own. *)
Definition plain_char (c : N) : bool := ((32 <=? c) && (c <? 127) && negb (c =? DQ) && negb (c =? BS))%N.
Fixpoint text_cost (s : pystr) : nat := match s with [] => 0 | c :: s => (if plain_char c then 1 else 12) + text_cost s end.
Definition texts (d : dict) : Prop := Forall (λ kv : pystr * json, scalars kv.1 ∧ ∃ s, kv.2 = JStr s ∧ scalars s) d.
Definition member_cost (kv : pystr * json) : nat := 8 + text_cost kv.1 + match kv.2 with JStr s => text_cost s | _ => 0 end.
Class JsonWriter := { write : dict → list N }.
Class JsonWriterLaws `{WideText} `{JsonWriter} := {
  write_reads d : d ≠ [] → texts d → NoDup (dkeys d) → body_of (write d) = Body d;
  write_length d : texts d → length (write d) ≤ 2 + sum_list_with member_cost d }.

Lemma text_cost_le s : text_cost s ≤ 12 * length s.
Proof. induction s as [|c s IH]; cbn; [lia|]. destruct (plain_char c); lia. Qed.
Lemma text_cost_plain s : forallb plain_char s = true → text_cost s = length s.
Proof. induction s as [|c s IH]; cbn; [done|]. intros [-> Hs]%andb_prop. by rewrite IH. Qed.
Lemma b64_char_plain v : (v < 64)%N → plain_char (b64_char v) = true.
Proof. apply (below_64 (λ v, plain_char (b64_char v) = true)). intros n Hn. do 64 (destruct n as [|n]; [reflexivity|]). lia. Qed.
Lemma encoded_plain bs : Forall is_byte bs → forallb plain_char (b64encode bs) = true.
Proof.
  intros Hb. destruct (b64_shape bs Hb) as (body & -> & Hf & _). rewrite forallb_app. apply andb_true_intro. split.
  - apply forallb_true_forall. intros c Hc. apply list_elem_of_fmap in Hc as (v & -> & Hv). rewrite Forall_forall in Hf. by apply b64_char_plain, Hf.
  - by induction (Z.to_nat _) as [|n IH].
Qed.
Lemma encoded_length bs : Forall is_byte bs → (Z.of_nat (length (b64encode bs)) ≤ (4 * Z.of_nat (length bs) + 2) / 3 + 3)%Z.
Proof.
  intros Hb. destruct (b64_shape bs Hb) as (body & -> & _ & _ & Hl). rewrite length_app, length_map, length_replicate, Nat2Z.inj_add, Hl.
  rewrite Z2Nat.id by (apply Z.mod_pos_bound; lia). pose proof (Z.mod_pos_bound (- ((4 * Z.of_nat (length bs) + 2) / 3)) 4). lia.
Qed.
Lemma plain_chars_scalar s : forallb plain_char s = true → scalars s.
Proof.
  intros Hs. apply scalars_spec. rewrite forallb_true_forall in *. intros c Hc. specialize (Hs c Hc). unfold plain_char in Hs.
  apply scalarb_spec. unfold scalar, is_surrogate. bprop. split; [lia|]. apply andb_false_iff. left. apply N.leb_gt. lia.
Qed.
Lemma read_whole limit chunks : ∀ total, (total + Z.of_nat (length (concat chunks)) ≤ limit)%Z → read_limited limit total chunks = Some (concat chunks).
Proof.
  induction chunks as [|c chunks IH]; intros total Hl; [done|]. cbn [read_limited concat] in *. rewrite length_app in Hl.
  rewrite (proj2 (Z.ltb_ge _ _)) by lia. rewrite IH by lia. done.
Qed.

Section taken.
Context `{Unicode} `{Casing} `{Categories} `{WideText} `{!JsonWriter} `{!JsonWriterLaws}.
Context {W : Type}.
Implicit Types (w : @World W).

Lemma payload_texts jpeg style instructions source :
  Forall is_byte jpeg → scalars style → scalars (default [] instructions) → scalars source →
  texts (payload jpeg style instructions source) ∧ NoDup (dkeys (payload jpeg style instructions source)).
Proof.
  intros Hb Hs Hi Ho. split.
  - assert (Hkey : ∀ k, forallb scalarb k = true → scalars k) by (intros k; apply scalars_spec).
    unfold payload, texts. apply Forall_app_2.
    + repeat (apply Forall_cons; split); try apply Forall_nil; try exact I; (split; [by apply Hkey|eexists; split; [reflexivity|]]);
        [by apply plain_chars_scalar, encoded_plain|by apply Hkey|done|done].
    + destruct instructions as [[|c s]|]; try apply Forall_nil; try exact I. apply Forall_cons. split; [|by apply Forall_nil].
      split; [by apply Hkey|]. by eexists.
  - destruct instructions as [[|c s]|]; apply (bool_decide_unpack _); vm_compute; exact I.
Qed.
Lemma payload_length jpeg style instructions source :
  Forall is_byte jpeg → (Z.of_nat (length jpeg) ≤ Z.of_N MAX_IMAGE_BYTES)%Z →
  length style ≤ MAX_STYLE_CHARS → length (default [] instructions) ≤ MAX_INSTRUCTIONS_CHARS → length source ≤ 4900 →
  (Z.of_nat (2 + sum_list_with member_cost (payload jpeg style instructions source)) ≤ _VISION_MAX_BODY_BYTES)%Z.
Proof.
  intros Hb Hj Hs Hi Ho. pose proof (encoded_length jpeg Hb) as He. pose proof (text_cost_le style). pose proof (text_cost_le source).
  assert (Hd : ((4 * Z.of_nat (length jpeg) + 2) / 3 ≤ 11184811)%Z) by (change (Z.of_N MAX_IMAGE_BYTES) with 8388608%Z in Hj; Z.to_euclidean_division_equations; lia).
  assert (Htail : sum_list_with member_cost match instructions with Some ((_ :: _) as text) => [("instructions"%py, JStr text)] | _ => [] end ≤ 3620).
  { destruct instructions as [[|c s]|]; [cbn; lia| |cbn; lia]. pose proof (text_cost_le (c :: s)) as Hc. set (text := c :: s) in *. cbn [sum_list_with]; unfold member_cost; cbn [fst snd].
    change (text_cost "instructions") with 12. change (default [] (Some text)) with text in Hi. unfold MAX_INSTRUCTIONS_CHARS in Hi. lia. }
  unfold payload. cbn [app sum_list_with]. unfold member_cost at 1 2 3 4. cbn [fst snd]. rewrite (text_cost_plain (b64encode jpeg)) by (by apply encoded_plain).
  change (text_cost "image_base64") with 12. change (text_cost "mime") with 4. change (text_cost "image/jpeg") with 10.
  change (text_cost "style") with 5. change (text_cost "source") with 6.
  unfold MAX_STYLE_CHARS in Hs. change _VISION_MAX_BODY_BYTES with 11250346%Z. lia.
Qed.
Lemma payload_prompt style instructions :
  ∃ prompt, build_prompt (JStr style) (match instructions with Some ((_ :: _) as text) => JStr text | _ => JNull end) = inl prompt.
Proof.
  unfold build_prompt, resolve_tone. destruct instructions as [[|c s]|]; destruct (sanitize_text (JStr style) MAX_STYLE_CHARS); by eexists.
Qed.
Lemma model_refusal model e : validate_model_ref model = inr e → v_code e = "INVALID_MODEL"%py.
Proof. unfold validate_model_ref. repeat case_match; congruence || (intros [= <-]; done). Qed.

Definition node_refusals : list pystr := ["NOT_PAIRED"; "OPERATOR_NOT_CONNECTED"; "RELAY_NOT_INITIALISED"; "INVALID_MODEL"].
(** C32. No image of the integration is refused for its form.  The request it makes of an
    image of up to the eight megabytes, with texts within the bounds of the schema, is
    within the limit of the node's reader, however its characters are escaped; the
    node reads from it the very image, and has a prompt for it.  What it may refuse is
    what it refuses for anybody: it is not paired or connected, or its own model is
    misspelt. *)
Theorem image_is_taken r w jpeg style instructions source :
  Forall is_byte jpeg → jpeg ≠ [] → (Z.of_nat (length jpeg) ≤ Z.of_N MAX_IMAGE_BYTES)%Z →
  scalars style → scalars (default [] instructions) → scalars source →
  length style ≤ MAX_STYLE_CHARS → length (default [] instructions) ≤ MAX_INSTRUCTIONS_CHARS → length source ≤ 4900 →
  concat (r_chunks r) = write (payload jpeg style instructions source) →
  (r_content_length r = None ∨ r_content_length r = Some (Z.of_nat (length (concat (r_chunks r))))) →
  (∃ code, code ∈ node_refusals ∧ vision_describe r w = _vision_error code) ∨
  ∃ relay image prompt agent timeout model,
    vision_describe r w = CallsRelay relay (DescribeImage (sanitize_text (JStr source) MAX_SOURCE_CHARS) image "image/jpeg" prompt agent timeout model) ∧
    b64decode image = Ret jpeg.
Proof.
  intros Hb Hne Hj Hs Hi Ho Hls Hli Hlo Hbody Hlen.
  destruct (payload_texts jpeg style instructions source Hb Hs Hi Ho) as [Htexts Hnd].
  assert (Hsize : (Z.of_nat (length (concat (r_chunks r))) ≤ _VISION_MAX_BODY_BYTES)%Z).
  { rewrite Hbody. pose proof (write_length _ Htexts). pose proof (payload_length jpeg style instructions source Hb Hj Hls Hli Hlo). lia. }
  assert (Hread : _json_body_limited r _VISION_MAX_BODY_BYTES = Body (payload jpeg style instructions source)).
  { unfold _json_body_limited.
    assert (match r_content_length r with Some n => (_VISION_MAX_BODY_BYTES <? n)%Z | None => false end = false) as ->.
    { destruct Hlen as [-> | ->]; [done|]. by apply Z.ltb_ge. }
    rewrite read_whole by lia. rewrite Hbody. by apply write_reads. }
  assert (Himage : ∃ c s, b64encode jpeg = c :: s).
  { destruct (b64encode jpeg) as [|c s] eqn:E; [|by eauto]. exfalso. apply Hne. pose proof (b64decode_encode jpeg Hb) as Hd.
    rewrite E in Hd. by injection Hd as <-. }
  destruct Himage as (c & s & Es).
  destruct (payload_prompt style instructions) as [prompt Hprompt].
  unfold vision_describe. rewrite Hread.
  change (get_or_null "image_base64" (payload _ _ _ _)) with (JStr (b64encode jpeg)). change (get_or_null "mime" (payload _ _ _ _)) with (JStr "image/jpeg").
  rewrite Es. cbv iota. change (negb (elem "image/jpeg" SUPPORTED_MIMES)) with false. cbv iota. rewrite <- Es.
  rewrite (proj1 (decoded_size_exact jpeg Hb)), (proj2 (Z.ltb_ge _ _)) by done.
  change (get_or_null "style" (payload _ _ _ _)) with (JStr style). change (get_or_null "source" (payload _ _ _ _)) with (JStr source).
  assert (get_or_null "instructions" (payload jpeg style instructions source)
          = match instructions with Some ((_ :: _) as text) => JStr text | _ => JNull end) as -> by (by destruct instructions as [[|]|]).
  rewrite Hprompt. assert (Hno : ∀ code, code ∈ node_refusals → ∃ k, k ∈ node_refusals ∧ _vision_error code = _vision_error k) by eauto.
  destruct (validate_model_ref _) as [model|e] eqn:Em; [|left; apply Hno; rewrite (model_refusal _ _ Em); set_solver].
  destruct (negb (is_paired _)); [left; apply Hno; set_solver|]. destruct (negb (operator_connected _)); [left; apply Hno; set_solver|].
  destruct (chat_relay _) as [relay|]; [|left; apply Hno; set_solver].
  right. repeat eexists. by apply b64decode_encode.
Qed.
End taken.

(** ** What the caller learns *)

Section learnt.
Context `{Unicode} `{Casing}.
Definition on_the_wire (a : reply) : fetch describe_answer :=
  match a with
  | Response status body _ => Got {| da_status := status; da_json := Got (Some body) |}
  | HttpError status | StreamError _ status => Got {| da_status := status; da_json := Got None |}
  | CallsRelay _ _ => Late
  end.
(** The sentence of a code: the node's, of its table. *)
Definition sentence (code : pystr) : pystr :=
  default (default [] (dget "VISION_FAILED" ERROR_MESSAGES)) (dget code ERROR_MESSAGES).
Definition failure (code : pystr) : res pystr := Raise (HomeAssistantError (or_str code "HTTP_502" ++ ": " ++ sentence code)).
(** What a description should come to. *)
Definition outcome_of (o : VisionError + relayed dict) : res pystr :=
  match o with
  | inl e => failure (v_code e)
  | inr (Refused e) => failure (classify_gateway_error (relay_code e) (relay_message e))
  | inr Broke => failure "INTERNAL_ERROR"
  | inr (Replied result) => match get_or_null "text" result with
                            | JStr s => match strip s with [] => failure "VISION_UNAVAILABLE" | text => Ret text end
                            | _ => failure "VISION_UNAVAILABLE"
                            end
  end.
Lemma sentence_nonempty code : sentence code ≠ [].
Proof.
  unfold sentence. destruct (dget code ERROR_MESSAGES) as [msg|] eqn:E; [|by vm_compute].
  apply dget_elem in E. assert (Hall : Forall (λ kv : pystr * pystr, kv.2 ≠ []) ERROR_MESSAGES) by (repeat constructor; done).
  rewrite Forall_forall in Hall. exact (Hall _ E).
Qed.
Lemma failure_described code : described (on_the_wire (_vision_error code)) = failure code.
Proof.
  unfold _vision_error. fold (sentence code). cbn [on_the_wire described da_json da_status].
  set (body := [("ok", JBool false); ("error", JStr code); ("message", JStr (sentence code))]%py).
  change (truthy (get_or_null "ok" body)) with false. rewrite andb_false_r. cbn [andb].
  change (dget "message" body) with (Some (JStr (sentence code))). change (get_or_null "error" body) with (JStr code).
  pose proof (sentence_nonempty code) as Hne. unfold failure.
  destruct (sentence code) as [|c s] eqn:Es; [done|]. destruct code as [|d code]; [|done]. done.
Qed.

(** C33. The outcome reaches the caller.  A text of the gateway is what the service
    returns; any failure, of the gateway, of the node or of an image that was
    replaced by a newer one, is the error of Home Assistant with the node's code and
    the node's sentence for it, and never a text of the gateway. *)
Theorem outcome_reaches_the_caller o : described (on_the_wire (vision_answer o)) = outcome_of o.
Proof.
  unfold vision_answer, outcome_of. destruct o as [e|[d|e|]]; try apply failure_described.
  destruct (get_or_null "text" d) as [| | | |s| |]; try apply failure_described.
  destruct (strip s) as [|c t] eqn:Es; [apply failure_described|]. cbn [on_the_wire described da_json da_status].
  change (dget "text" _) with (Some (JStr (c :: t))). cbv iota. rewrite <- Es, strip_idem, Es. done.
Qed.
End learnt.

(** ** Witnesses *)

#[local] Existing Instance every_char_prints.
#[local] Existing Instance ascii_casing.
#[local] Existing Instance ascii_controls.
#[local] Existing Instance utf8_only.
(** The writer of the standard library. *)
#[local] Instance standard_writer : JsonWriter := {| write := json_object |}.
Lemma esc_char_length c : scalar c → length (json_esc_char c) ≤ if plain_char c then 1 else 12.
Proof.
  intros [Hc _]. assert (H4 : ∀ u, (u < 65536)%N → length (u_escape u) = 6) by (intros u Hu; unfold u_escape; cbn [length]; by rewrite (hex_pad_length 3)).
  unfold json_esc_char, plain_char.
  destruct (c =? DQ)%N; [rewrite !andb_false_r; cbn; lia|]. destruct (c =? BS)%N; [rewrite !andb_false_r; cbn; lia|].
  repeat match goal with |- context [(c =? ?k)%N] => destruct (N.eqb_spec c k) as [->|_]; [cbn; lia|] end.
  cbn [negb]. rewrite !andb_true_r. destruct ((32 <=? c)%N && (c <? 127)%N); [simpl; lia|]. destruct (N.ltb_spec c 65536) as [Hlt|Hge]; [rewrite H4 by done; lia|].
  rewrite length_app, !H4; [lia|pose proof (N.mod_lt (c - 65536) 1024); lia|].
  assert ((c - 65536) / 1024 < 1024)%N by (apply N.Div0.div_lt_upper_bound; lia). lia.
Qed.
Lemma esc_length s : scalars s → length (json_esc s) ≤ text_cost s.
Proof.
  unfold json_esc. induction 1 as [|c s Hc Hs IH]; cbn; [lia|]. rewrite length_app. pose proof (esc_char_length c Hc). lia.
Qed.
Lemma dumps_length s : scalars s → length (json_dumps_str s) ≤ 2 + text_cost s.
Proof. intros Hs. unfold json_dumps_str. cbn [length]. rewrite length_app. cbn. pose proof (esc_length s Hs). lia. Qed.
Lemma join_length_sum (ws : list pystr) : length (join ", " ws) ≤ sum_list_with (λ x, 2 + length x) ws.
Proof.
  induction ws as [|x [|y ws] IH]; [cbn; lia|cbn; lia|]. rewrite join_map_cons by done. rewrite !length_app. cbn [sum_list_with length] in *. lia.
Qed.
#[local] Instance standard_writer_laws : JsonWriterLaws.
Proof.
  split.
  - intros d Hne Ht Hnd. unfold body_of. cbn [write standard_writer].
    assert (Hf : flat d) by (eapply Forall_impl; [exact Ht|]; intros kv (Hk & s & -> & Hs); by split).
    pose proof (object_visible d Hf) as Hv. destruct (json_object d) as [|c s] eqn:Es; [done|]. rewrite <- Es in *. clear Es.
    assert (json_text (json_object d) = Some (json_object d)) as ->.
    { unfold json_text. rewrite (ascii_decode _ Hv), plain_is_utf8; [done|]. eapply Forall_impl; [exact Hv|]. intros x [? ?]. lia. }
    by rewrite object_reads.
  - intros d Ht. cbn [write standard_writer]. unfold json_object. rewrite !length_app. pose proof (join_length_sum (map (spaced " ") d)) as Hj.
    assert (sum_list_with (λ x, 2 + length x) (map (spaced " ") d) ≤ sum_list_with member_cost d); [|cbn [length]; lia].
    clear Hj. induction Ht as [|[k v] d (Hk & s & Ev & Hs) _ IH]; [done|]. cbn in Ev. subst v. cbn [map sum_list_with].
    unfold spaced at 1. unfold member_cost at 1. cbn [fst snd dumps_compact]. rewrite !length_app. pose proof (dumps_length k Hk). pose proof (dumps_length s Hs). cbn [length] in *. lia.
Qed.
Definition tiny : list N := [255; 216; 255; 217]%N.
Definition tiny_request : Request :=
  {| r_method := "POST"; r_path := "/v1/vision/describe"; r_remote := None; r_authorization := "Bearer old"; r_body := None;
     r_content_length := None; r_chunks := [write (payload tiny "funny" (Some "boxes"%py) "camera.door")]; r_at := 0; r_time := [] |}.
Example image_is_taken_witness :
  Forall is_byte tiny ∧
  ((∃ code, code ∈ node_refusals ∧ vision_describe tiny_request demo_world = _vision_error code) ∨
   ∃ relay image prompt agent timeout model,
    vision_describe tiny_request demo_world = CallsRelay relay (DescribeImage (sanitize_text (JStr "camera.door") MAX_SOURCE_CHARS) image "image/jpeg" prompt agent timeout model) ∧
    b64decode image = Ret tiny).
Proof.
  assert (Hb : Forall is_byte tiny) by (repeat (apply Forall_cons; split); try apply Forall_nil; try exact I; reflexivity). split; [exact Hb|].
  apply (image_is_taken tiny_request demo_world tiny "funny" (Some "boxes"%py) "camera.door").
  - exact Hb.
  - intros E. discriminate E.
  - apply Z.leb_le. vm_compute. reflexivity.
  - apply scalars_spec. vm_compute. reflexivity.
  - apply scalars_spec. vm_compute. reflexivity.
  - apply scalars_spec. vm_compute. reflexivity.
  - apply Nat.leb_le. vm_compute. reflexivity.
  - apply Nat.leb_le. vm_compute. reflexivity.
  - apply Nat.leb_le. vm_compute. reflexivity.
  - apply app_nil_r.
  - left. reflexivity.
Defined.
(** A house with a media item that has arrived in part when it is read. *)
#[local] Instance demo_house : House :=
  {| camera_image _ := Ret tiny;
     resolve_media _ := Ret {| media_path := None; media_url := "/m" |};
     play_url u := u;
     get_media _ := Got {| ma_status := 200; ma_arrived := Got [255; 216]%N; ma_rest := [255; 217]%N |};
     is_allowed_path p := startswith p "/config/www/";
     file_at p := if bool_decide (p = "/config/www/a"%py) then Some {| lf_size := 4; lf_bytes := Ret tiny |} else None;
     pillow raw := Jpeg raw |}.
Definition by_source (camera media file : option pystr) : call_data :=
  {| cd_style := None; cd_instructions := None; cd_camera := camera; cd_media := media; cd_file := file |}.
Definition one_entry : list node_entry := [{| ne_socket_url := "http://n/"; ne_api_token := "t"; ne_default_style := Some "funny"%py |}].
Definition a_door (post : turn_post) : fetch describe_answer :=
  Got {| da_status := 200; da_json := Got (Some (JDict [("ok", JBool true); ("text", JStr " A door. ")]%py)) |}.
Example sources_are_told_apart :
  _async_describe_image a_door one_entry (by_source (Some "camera.door"%py) None None) = Ret [("text", JStr "A door.")]%py ∧
  _async_describe_image a_door one_entry (by_source None None (Some "/config/www/a"%py)) = Ret [("text", JStr "A door.")]%py ∧
  _async_describe_image a_door one_entry (by_source None None (Some "/etc/passwd"%py))
    = Raise (ServiceValidationError "IMAGE_PATH_NOT_ALLOWED: that path is not in an allowed folder") ∧
  _async_describe_image a_door one_entry (by_source (Some "camera.door"%py) None (Some "/config/www/a"%py))
    = Raise (ServiceValidationError "Provide exactly one of camera_entity_id, media_content_id or file_path.") ∧
  _async_describe_image a_door [] (by_source (Some "camera.door"%py) None None)
    = Raise (ServiceValidationError "NODE_NOT_CONFIGURED: the OpenClaw Node entry is not loaded").
Proof. split_and!; vm_compute; reflexivity. Qed.
(** What has not arrived by the one read is not part of the image. *)
Example media_is_read_in_part : _load_image media_content_id "media-source://x" = Ret [255; 216]%N.
Proof. vm_compute. reflexivity. Qed.
